(** * VTT toolkit: timestamp codec, cue model and the four passes

    A shallow embedding of [vtt_toolkit.py] and the properties its
    specification states about it.

    - Python [str] values are lists of Unicode code points ([N]).
    - Python [int] values are [Z] (unbounded).
    - [str.lower], [str.upper], [str.isspace], [str.isdecimal] and
      [str.splitlines] follow the character tables of the interpreter
      (CPython 3.11, Unicode 14), for every code point.
    - The one [float] computation of the program, [int(float(ts) * 1000)],
      is carried out in IEEE-754 binary64 with the [SpecFloat] operations of
      the standard library.
    - Exceptions are an explicit result type; [try/except Exception] is a
      match on it.
    - Regular expressions are values of a small abstract syntax, run by a
      backtracking matcher with the priorities of Python's [re] module. *)

From Stdlib Require Import ZArith NArith PArith Lia Bool Ascii String.
From Stdlib Require Import SpecFloat Sorting.Permutation Sorting.Sorted.
From stdpp Require Import base list sorting.

Local Open Scope nat_scope.

(* ================================================================== *)
(** * Strings and exceptions *)
(* ================================================================== *)

(** A Python string: the sequence of its code points. *)
Abbreviation str := (list N).

(** An ASCII literal as a Python string. *)
Definition py (s : string) : str :=
  List.map N_of_ascii (list_ascii_of_string s).

(** The exceptions the program can raise. *)
Inductive exn : Type :=
| ValueError
| IndexError
| OverflowError
| ZeroDivisionError
| FileNotFoundError.

Inductive result (A : Type) : Type :=
| Ok (a : A)
| Raise (e : exn).
Arguments Ok {A} a.
Arguments Raise {A} e.

Definition bind {A B : Type} (r : result A) (f : A -> result B) : result B :=
  match r with
  | Ok a => f a
  | Raise e => Raise e
  end.

Notation "'do' x <- r ; k" := (bind r (fun x => k))
  (at level 10, x pattern, r at level 100, k at level 200).

Definition is_ok {A : Type} (r : result A) : bool :=
  match r with Ok _ => true | Raise _ => false end.

Definition str_eqb (a b : str) : bool := bool_decide (a = b).

(* ------------------------------------------------------------------ *)
(** ** Character tables of the interpreter *)

Definition LF : N := 10%N.
Definition CR : N := 13%N.
Definition SPACE : N := 32%N.
Definition BOM : N := 65279%N.          (* U+FEFF *)

Definition in_range (lo hi c : N) : bool := (lo <=? c)%N && (c <=? hi)%N.

(** [str.isspace] on one character, which is also the class [\s] of [re]
    for [str] patterns. *)
Definition is_space (c : N) : bool :=
  in_range 9 13 c || in_range 28 32 c || (c =? 133)%N || (c =? 160)%N
  || (c =? 5760)%N || in_range 8192 8202 c || (c =? 8232)%N || (c =? 8233)%N
  || (c =? 8239)%N || (c =? 8287)%N || (c =? 12288)%N.

(** The line boundaries of [str.splitlines]. *)
Definition is_linebreak (c : N) : bool :=
  in_range 10 13 c || in_range 28 30 c || (c =? 133)%N
  || (c =? 8232)%N || (c =? 8233)%N.

(** The code points of the digit zero of every decimal digit block of
    Unicode 14 (general category Nd); the nine following code points are
    the digits one to nine of the block. *)
Definition decimal_zeros : list N :=
  [ 48; 1632; 1776; 1984; 2406; 2534; 2662; 2790; 2918; 3046; 3174; 3302;
    3430; 3558; 3664; 3792; 3872; 4160; 4240; 6112; 6160; 6470; 6608; 6784;
    6800; 6992; 7088; 7232; 7248; 42528; 43216; 43264; 43472; 43504; 43600;
    44016; 65296; 66720; 68912; 69734; 69872; 69942; 70096; 70384; 70736;
    70864; 71248; 71360; 71472; 71904; 72016; 72784; 73040; 73120; 92768;
    92864; 93008; 120782; 120792; 120802; 120812; 120822; 123200; 123632;
    125264; 130032 ]%N.

Fixpoint decimal_in (zs : list N) (c : N) : option N :=
  match zs with
  | [] => None
  | z :: zs' => if in_range z (z + 9) c then Some (c - z)%N else decimal_in zs' c
  end.

(** The decimal value of a character, when it has one. *)
Definition decimal_value (c : N) : option N := decimal_in decimal_zeros c.

(** [str.isdecimal] on one character, the class [\d] of [re]. *)
Definition is_decimal (c : N) : bool :=
  match decimal_value c with Some _ => true | None => false end.

(** The case tables of the interpreter (CPython 3.11, Unicode 14). A row
    (lo, hi, step, image) maps the code points lo, lo + step, ... up to
    hi to image, image + step, ... *)
Definition case_table : Type := list (N * N * N * N).

Fixpoint case_in (t : case_table) (c : N) : option N :=
  match t with
  | [] => None
  | (lo, hi, step, image) :: t' =>
      if in_range lo hi c && ((c - lo) mod step =? 0)%N
      then Some (image + (c - lo))%N
      else case_in t' c
  end.

Fixpoint in_ranges (t : list (N * N)) (c : N) : bool :=
  match t with
  | [] => false
  | (lo, hi) :: t' => in_range lo hi c || in_ranges t' c
  end.

(** The lower case of one character, where it is not the character
    itself. *)
Definition lower_table : case_table :=
  [
    (65, 90, 1, 97); (192, 214, 1, 224); (216, 222, 1, 248);
    (256, 302, 2, 257); (304, 304, 1, 105); (306, 310, 2, 307);
    (313, 327, 2, 314); (330, 374, 2, 331); (376, 376, 1, 255);
    (377, 381, 2, 378); (385, 385, 1, 595); (386, 388, 2, 387);
    (390, 390, 1, 596); (391, 391, 1, 392); (393, 394, 1, 598);
    (395, 395, 1, 396); (398, 398, 1, 477); (399, 399, 1, 601);
    (400, 400, 1, 603); (401, 401, 1, 402); (403, 403, 1, 608);
    (404, 404, 1, 611); (406, 406, 1, 617); (407, 407, 1, 616);
    (408, 408, 1, 409); (412, 412, 1, 623); (413, 413, 1, 626);
    (415, 415, 1, 629); (416, 420, 2, 417); (422, 422, 1, 640);
    (423, 423, 1, 424); (425, 425, 1, 643); (428, 428, 1, 429);
    (430, 430, 1, 648); (431, 431, 1, 432); (433, 434, 1, 650);
    (435, 437, 2, 436); (439, 439, 1, 658); (440, 440, 1, 441);
    (444, 444, 1, 445); (452, 452, 1, 454); (453, 453, 1, 454);
    (455, 455, 1, 457); (456, 456, 1, 457); (458, 458, 1, 460);
    (459, 475, 2, 460); (478, 494, 2, 479); (497, 497, 1, 499);
    (498, 500, 2, 499); (502, 502, 1, 405); (503, 503, 1, 447);
    (504, 542, 2, 505); (544, 544, 1, 414); (546, 562, 2, 547);
    (570, 570, 1, 11365); (571, 571, 1, 572); (573, 573, 1, 410);
    (574, 574, 1, 11366); (577, 577, 1, 578); (579, 579, 1, 384);
    (580, 580, 1, 649); (581, 581, 1, 652); (582, 590, 2, 583);
    (880, 882, 2, 881); (886, 886, 1, 887); (895, 895, 1, 1011);
    (902, 902, 1, 940); (904, 906, 1, 941); (908, 908, 1, 972);
    (910, 911, 1, 973); (913, 929, 1, 945); (931, 939, 1, 963);
    (975, 975, 1, 983); (984, 1006, 2, 985); (1012, 1012, 1, 952);
    (1015, 1015, 1, 1016); (1017, 1017, 1, 1010); (1018, 1018, 1, 1019);
    (1021, 1023, 1, 891); (1024, 1039, 1, 1104); (1040, 1071, 1, 1072);
    (1120, 1152, 2, 1121); (1162, 1214, 2, 1163); (1216, 1216, 1, 1231);
    (1217, 1229, 2, 1218); (1232, 1326, 2, 1233); (1329, 1366, 1, 1377);
    (4256, 4293, 1, 11520); (4295, 4295, 1, 11559); (4301, 4301, 1, 11565);
    (5024, 5103, 1, 43888); (5104, 5109, 1, 5112); (7312, 7354, 1, 4304);
    (7357, 7359, 1, 4349); (7680, 7828, 2, 7681); (7838, 7838, 1, 223);
    (7840, 7934, 2, 7841); (7944, 7951, 1, 7936); (7960, 7965, 1, 7952);
    (7976, 7983, 1, 7968); (7992, 7999, 1, 7984); (8008, 8013, 1, 8000);
    (8025, 8031, 2, 8017); (8040, 8047, 1, 8032); (8072, 8079, 1, 8064);
    (8088, 8095, 1, 8080); (8104, 8111, 1, 8096); (8120, 8121, 1, 8112);
    (8122, 8123, 1, 8048); (8124, 8124, 1, 8115); (8136, 8139, 1, 8050);
    (8140, 8140, 1, 8131); (8152, 8153, 1, 8144); (8154, 8155, 1, 8054);
    (8168, 8169, 1, 8160); (8170, 8171, 1, 8058); (8172, 8172, 1, 8165);
    (8184, 8185, 1, 8056); (8186, 8187, 1, 8060); (8188, 8188, 1, 8179);
    (8486, 8486, 1, 969); (8490, 8490, 1, 107); (8491, 8491, 1, 229);
    (8498, 8498, 1, 8526); (8544, 8559, 1, 8560); (8579, 8579, 1, 8580);
    (9398, 9423, 1, 9424); (11264, 11311, 1, 11312);
    (11360, 11360, 1, 11361); (11362, 11362, 1, 619);
    (11363, 11363, 1, 7549); (11364, 11364, 1, 637);
    (11367, 11371, 2, 11368); (11373, 11373, 1, 593);
    (11374, 11374, 1, 625); (11375, 11375, 1, 592); (11376, 11376, 1, 594);
    (11378, 11378, 1, 11379); (11381, 11381, 1, 11382);
    (11390, 11391, 1, 575); (11392, 11490, 2, 11393);
    (11499, 11501, 2, 11500); (11506, 11506, 1, 11507);
    (42560, 42604, 2, 42561); (42624, 42650, 2, 42625);
    (42786, 42798, 2, 42787); (42802, 42862, 2, 42803);
    (42873, 42875, 2, 42874); (42877, 42877, 1, 7545);
    (42878, 42886, 2, 42879); (42891, 42891, 1, 42892);
    (42893, 42893, 1, 613); (42896, 42898, 2, 42897);
    (42902, 42920, 2, 42903); (42922, 42922, 1, 614);
    (42923, 42923, 1, 604); (42924, 42924, 1, 609); (42925, 42925, 1, 620);
    (42926, 42926, 1, 618); (42928, 42928, 1, 670); (42929, 42929, 1, 647);
    (42930, 42930, 1, 669); (42931, 42931, 1, 43859);
    (42932, 42946, 2, 42933); (42948, 42948, 1, 42900);
    (42949, 42949, 1, 642); (42950, 42950, 1, 7566);
    (42951, 42953, 2, 42952); (42960, 42960, 1, 42961);
    (42966, 42968, 2, 42967); (42997, 42997, 1, 42998);
    (65313, 65338, 1, 65345); (66560, 66599, 1, 66600);
    (66736, 66771, 1, 66776); (66928, 66938, 1, 66967);
    (66940, 66954, 1, 66979); (66956, 66962, 1, 66995);
    (66964, 66965, 1, 67003); (68736, 68786, 1, 68800);
    (71840, 71871, 1, 71872); (93760, 93791, 1, 93792);
    (125184, 125217, 1, 125218) ]%N.

(** The upper case of one character, where it is one character and not
    the character itself. *)
Definition upper_table : case_table :=
  [
    (97, 122, 1, 65); (181, 181, 1, 924); (224, 246, 1, 192);
    (248, 254, 1, 216); (255, 255, 1, 376); (257, 303, 2, 256);
    (305, 305, 1, 73); (307, 311, 2, 306); (314, 328, 2, 313);
    (331, 375, 2, 330); (378, 382, 2, 377); (383, 383, 1, 83);
    (384, 384, 1, 579); (387, 389, 2, 386); (392, 392, 1, 391);
    (396, 396, 1, 395); (402, 402, 1, 401); (405, 405, 1, 502);
    (409, 409, 1, 408); (410, 410, 1, 573); (414, 414, 1, 544);
    (417, 421, 2, 416); (424, 424, 1, 423); (429, 429, 1, 428);
    (432, 432, 1, 431); (436, 438, 2, 435); (441, 441, 1, 440);
    (445, 445, 1, 444); (447, 447, 1, 503); (453, 453, 1, 452);
    (454, 454, 1, 452); (456, 456, 1, 455); (457, 457, 1, 455);
    (459, 459, 1, 458); (460, 460, 1, 458); (462, 476, 2, 461);
    (477, 477, 1, 398); (479, 495, 2, 478); (498, 498, 1, 497);
    (499, 499, 1, 497); (501, 501, 1, 500); (505, 543, 2, 504);
    (547, 563, 2, 546); (572, 572, 1, 571); (575, 576, 1, 11390);
    (578, 578, 1, 577); (583, 591, 2, 582); (592, 592, 1, 11375);
    (593, 593, 1, 11373); (594, 594, 1, 11376); (595, 595, 1, 385);
    (596, 596, 1, 390); (598, 599, 1, 393); (601, 601, 1, 399);
    (603, 603, 1, 400); (604, 604, 1, 42923); (608, 608, 1, 403);
    (609, 609, 1, 42924); (611, 611, 1, 404); (613, 613, 1, 42893);
    (614, 614, 1, 42922); (616, 616, 1, 407); (617, 617, 1, 406);
    (618, 618, 1, 42926); (619, 619, 1, 11362); (620, 620, 1, 42925);
    (623, 623, 1, 412); (625, 625, 1, 11374); (626, 626, 1, 413);
    (629, 629, 1, 415); (637, 637, 1, 11364); (640, 640, 1, 422);
    (642, 642, 1, 42949); (643, 643, 1, 425); (647, 647, 1, 42929);
    (648, 648, 1, 430); (649, 649, 1, 580); (650, 651, 1, 433);
    (652, 652, 1, 581); (658, 658, 1, 439); (669, 669, 1, 42930);
    (670, 670, 1, 42928); (837, 837, 1, 921); (881, 883, 2, 880);
    (887, 887, 1, 886); (891, 893, 1, 1021); (940, 940, 1, 902);
    (941, 943, 1, 904); (945, 961, 1, 913); (962, 962, 1, 931);
    (963, 971, 1, 931); (972, 972, 1, 908); (973, 974, 1, 910);
    (976, 976, 1, 914); (977, 977, 1, 920); (981, 981, 1, 934);
    (982, 982, 1, 928); (983, 983, 1, 975); (985, 1007, 2, 984);
    (1008, 1008, 1, 922); (1009, 1009, 1, 929); (1010, 1010, 1, 1017);
    (1011, 1011, 1, 895); (1013, 1013, 1, 917); (1016, 1016, 1, 1015);
    (1019, 1019, 1, 1018); (1072, 1103, 1, 1040); (1104, 1119, 1, 1024);
    (1121, 1153, 2, 1120); (1163, 1215, 2, 1162); (1218, 1230, 2, 1217);
    (1231, 1231, 1, 1216); (1233, 1327, 2, 1232); (1377, 1414, 1, 1329);
    (4304, 4346, 1, 7312); (4349, 4351, 1, 7357); (5112, 5117, 1, 5104);
    (7296, 7296, 1, 1042); (7297, 7297, 1, 1044); (7298, 7298, 1, 1054);
    (7299, 7300, 1, 1057); (7301, 7301, 1, 1058); (7302, 7302, 1, 1066);
    (7303, 7303, 1, 1122); (7304, 7304, 1, 42570); (7545, 7545, 1, 42877);
    (7549, 7549, 1, 11363); (7566, 7566, 1, 42950); (7681, 7829, 2, 7680);
    (7835, 7835, 1, 7776); (7841, 7935, 2, 7840); (7936, 7943, 1, 7944);
    (7952, 7957, 1, 7960); (7968, 7975, 1, 7976); (7984, 7991, 1, 7992);
    (8000, 8005, 1, 8008); (8017, 8023, 2, 8025); (8032, 8039, 1, 8040);
    (8048, 8049, 1, 8122); (8050, 8053, 1, 8136); (8054, 8055, 1, 8154);
    (8056, 8057, 1, 8184); (8058, 8059, 1, 8170); (8060, 8061, 1, 8186);
    (8112, 8113, 1, 8120); (8126, 8126, 1, 921); (8144, 8145, 1, 8152);
    (8160, 8161, 1, 8168); (8165, 8165, 1, 8172); (8526, 8526, 1, 8498);
    (8560, 8575, 1, 8544); (8580, 8580, 1, 8579); (9424, 9449, 1, 9398);
    (11312, 11359, 1, 11264); (11361, 11361, 1, 11360);
    (11365, 11365, 1, 570); (11366, 11366, 1, 574);
    (11368, 11372, 2, 11367); (11379, 11379, 1, 11378);
    (11382, 11382, 1, 11381); (11393, 11491, 2, 11392);
    (11500, 11502, 2, 11499); (11507, 11507, 1, 11506);
    (11520, 11557, 1, 4256); (11559, 11559, 1, 4295);
    (11565, 11565, 1, 4301); (42561, 42605, 2, 42560);
    (42625, 42651, 2, 42624); (42787, 42799, 2, 42786);
    (42803, 42863, 2, 42802); (42874, 42876, 2, 42873);
    (42879, 42887, 2, 42878); (42892, 42892, 1, 42891);
    (42897, 42899, 2, 42896); (42900, 42900, 1, 42948);
    (42903, 42921, 2, 42902); (42933, 42947, 2, 42932);
    (42952, 42954, 2, 42951); (42961, 42961, 1, 42960);
    (42967, 42969, 2, 42966); (42998, 42998, 1, 42997);
    (43859, 43859, 1, 42931); (43888, 43967, 1, 5024);
    (65345, 65370, 1, 65313); (66600, 66639, 1, 66560);
    (66776, 66811, 1, 66736); (66967, 66977, 1, 66928);
    (66979, 66993, 1, 66940); (66995, 67001, 1, 66956);
    (67003, 67004, 1, 66964); (68800, 68850, 1, 68736);
    (71872, 71903, 1, 71840); (93792, 93823, 1, 93760);
    (125218, 125251, 1, 125184) ]%N.

(** The characters whose upper case is more than one character. *)
Definition upper_special : list (N * list N) :=
  [
    (223, [83; 83]); (329, [700; 78]); (496, [74; 780]);
    (912, [921; 776; 769]); (944, [933; 776; 769]); (1415, [1333; 1362]);
    (7830, [72; 817]); (7831, [84; 776]); (7832, [87; 778]);
    (7833, [89; 778]); (7834, [65; 702]); (8016, [933; 787]);
    (8018, [933; 787; 768]); (8020, [933; 787; 769]);
    (8022, [933; 787; 834]); (8064, [7944; 921]); (8065, [7945; 921]);
    (8066, [7946; 921]); (8067, [7947; 921]); (8068, [7948; 921]);
    (8069, [7949; 921]); (8070, [7950; 921]); (8071, [7951; 921]);
    (8072, [7944; 921]); (8073, [7945; 921]); (8074, [7946; 921]);
    (8075, [7947; 921]); (8076, [7948; 921]); (8077, [7949; 921]);
    (8078, [7950; 921]); (8079, [7951; 921]); (8080, [7976; 921]);
    (8081, [7977; 921]); (8082, [7978; 921]); (8083, [7979; 921]);
    (8084, [7980; 921]); (8085, [7981; 921]); (8086, [7982; 921]);
    (8087, [7983; 921]); (8088, [7976; 921]); (8089, [7977; 921]);
    (8090, [7978; 921]); (8091, [7979; 921]); (8092, [7980; 921]);
    (8093, [7981; 921]); (8094, [7982; 921]); (8095, [7983; 921]);
    (8096, [8040; 921]); (8097, [8041; 921]); (8098, [8042; 921]);
    (8099, [8043; 921]); (8100, [8044; 921]); (8101, [8045; 921]);
    (8102, [8046; 921]); (8103, [8047; 921]); (8104, [8040; 921]);
    (8105, [8041; 921]); (8106, [8042; 921]); (8107, [8043; 921]);
    (8108, [8044; 921]); (8109, [8045; 921]); (8110, [8046; 921]);
    (8111, [8047; 921]); (8114, [8122; 921]); (8115, [913; 921]);
    (8116, [902; 921]); (8118, [913; 834]); (8119, [913; 834; 921]);
    (8124, [913; 921]); (8130, [8138; 921]); (8131, [919; 921]);
    (8132, [905; 921]); (8134, [919; 834]); (8135, [919; 834; 921]);
    (8140, [919; 921]); (8146, [921; 776; 768]); (8147, [921; 776; 769]);
    (8150, [921; 834]); (8151, [921; 776; 834]); (8162, [933; 776; 768]);
    (8163, [933; 776; 769]); (8164, [929; 787]); (8166, [933; 834]);
    (8167, [933; 776; 834]); (8178, [8186; 921]); (8179, [937; 921]);
    (8180, [911; 921]); (8182, [937; 834]); (8183, [937; 834; 921]);
    (8188, [937; 921]); (64256, [70; 70]); (64257, [70; 73]);
    (64258, [70; 76]); (64259, [70; 70; 73]); (64260, [70; 70; 76]);
    (64261, [83; 84]); (64262, [83; 84]); (64275, [1348; 1350]);
    (64276, [1348; 1333]); (64277, [1348; 1339]); (64278, [1358; 1350]);
    (64279, [1348; 1341]) ]%N.

(** The cased characters, and the characters that the rule of the final
    sigma passes over. *)
Definition cased_ranges : list (N * N) :=
  [
    (65, 90); (97, 122); (170, 170); (181, 181); (186, 186); (192, 214);
    (216, 246); (248, 442); (444, 447); (452, 659); (661, 696); (704, 705);
    (736, 740); (837, 837); (880, 883); (886, 887); (890, 893); (895, 895);
    (902, 902); (904, 906); (908, 908); (910, 929); (931, 1013);
    (1015, 1153); (1162, 1327); (1329, 1366); (1376, 1416); (4256, 4293);
    (4295, 4295); (4301, 4301); (4304, 4346); (4349, 4351); (5024, 5109);
    (5112, 5117); (7296, 7304); (7312, 7354); (7357, 7359); (7424, 7615);
    (7680, 7957); (7960, 7965); (7968, 8005); (8008, 8013); (8016, 8023);
    (8025, 8025); (8027, 8027); (8029, 8029); (8031, 8061); (8064, 8116);
    (8118, 8124); (8126, 8126); (8130, 8132); (8134, 8140); (8144, 8147);
    (8150, 8155); (8160, 8172); (8178, 8180); (8182, 8188); (8305, 8305);
    (8319, 8319); (8336, 8348); (8450, 8450); (8455, 8455); (8458, 8467);
    (8469, 8469); (8473, 8477); (8484, 8484); (8486, 8486); (8488, 8488);
    (8490, 8493); (8495, 8500); (8505, 8505); (8508, 8511); (8517, 8521);
    (8526, 8526); (8544, 8575); (8579, 8580); (9398, 9449); (11264, 11492);
    (11499, 11502); (11506, 11507); (11520, 11557); (11559, 11559);
    (11565, 11565); (42560, 42605); (42624, 42653); (42786, 42887);
    (42891, 42894); (42896, 42954); (42960, 42961); (42963, 42963);
    (42965, 42969); (42997, 42998); (43000, 43002); (43824, 43866);
    (43868, 43880); (43888, 43967); (64256, 64262); (64275, 64279);
    (65313, 65338); (65345, 65370); (66560, 66639); (66736, 66771);
    (66776, 66811); (66928, 66938); (66940, 66954); (66956, 66962);
    (66964, 66965); (66967, 66977); (66979, 66993); (66995, 67001);
    (67003, 67004); (67456, 67456); (67459, 67461); (67463, 67504);
    (67506, 67514); (68736, 68786); (68800, 68850); (71840, 71903);
    (93760, 93823); (119808, 119892); (119894, 119964); (119966, 119967);
    (119970, 119970); (119973, 119974); (119977, 119980); (119982, 119993);
    (119995, 119995); (119997, 120003); (120005, 120069); (120071, 120074);
    (120077, 120084); (120086, 120092); (120094, 120121); (120123, 120126);
    (120128, 120132); (120134, 120134); (120138, 120144); (120146, 120485);
    (120488, 120512); (120514, 120538); (120540, 120570); (120572, 120596);
    (120598, 120628); (120630, 120654); (120656, 120686); (120688, 120712);
    (120714, 120744); (120746, 120770); (120772, 120779); (122624, 122633);
    (122635, 122654); (125184, 125251); (127280, 127305); (127312, 127337);
    (127344, 127369) ]%N.

Definition case_ignorable_ranges : list (N * N) :=
  [
    (39, 39); (46, 46); (58, 58); (94, 94); (96, 96); (168, 168);
    (173, 173); (175, 175); (180, 180); (183, 184); (688, 879); (884, 885);
    (890, 890); (900, 901); (903, 903); (1155, 1161); (1369, 1369);
    (1375, 1375); (1425, 1469); (1471, 1471); (1473, 1474); (1476, 1477);
    (1479, 1479); (1524, 1524); (1536, 1541); (1552, 1562); (1564, 1564);
    (1600, 1600); (1611, 1631); (1648, 1648); (1750, 1757); (1759, 1768);
    (1770, 1773); (1807, 1807); (1809, 1809); (1840, 1866); (1958, 1968);
    (2027, 2037); (2042, 2042); (2045, 2045); (2070, 2093); (2137, 2139);
    (2184, 2184); (2192, 2193); (2200, 2207); (2249, 2306); (2362, 2362);
    (2364, 2364); (2369, 2376); (2381, 2381); (2385, 2391); (2402, 2403);
    (2417, 2417); (2433, 2433); (2492, 2492); (2497, 2500); (2509, 2509);
    (2530, 2531); (2558, 2558); (2561, 2562); (2620, 2620); (2625, 2626);
    (2631, 2632); (2635, 2637); (2641, 2641); (2672, 2673); (2677, 2677);
    (2689, 2690); (2748, 2748); (2753, 2757); (2759, 2760); (2765, 2765);
    (2786, 2787); (2810, 2815); (2817, 2817); (2876, 2876); (2879, 2879);
    (2881, 2884); (2893, 2893); (2901, 2902); (2914, 2915); (2946, 2946);
    (3008, 3008); (3021, 3021); (3072, 3072); (3076, 3076); (3132, 3132);
    (3134, 3136); (3142, 3144); (3146, 3149); (3157, 3158); (3170, 3171);
    (3201, 3201); (3260, 3260); (3263, 3263); (3270, 3270); (3276, 3277);
    (3298, 3299); (3328, 3329); (3387, 3388); (3393, 3396); (3405, 3405);
    (3426, 3427); (3457, 3457); (3530, 3530); (3538, 3540); (3542, 3542);
    (3633, 3633); (3636, 3642); (3654, 3662); (3761, 3761); (3764, 3772);
    (3782, 3782); (3784, 3789); (3864, 3865); (3893, 3893); (3895, 3895);
    (3897, 3897); (3953, 3966); (3968, 3972); (3974, 3975); (3981, 3991);
    (3993, 4028); (4038, 4038); (4141, 4144); (4146, 4151); (4153, 4154);
    (4157, 4158); (4184, 4185); (4190, 4192); (4209, 4212); (4226, 4226);
    (4229, 4230); (4237, 4237); (4253, 4253); (4348, 4348); (4957, 4959);
    (5906, 5908); (5938, 5939); (5970, 5971); (6002, 6003); (6068, 6069);
    (6071, 6077); (6086, 6086); (6089, 6099); (6103, 6103); (6109, 6109);
    (6155, 6159); (6211, 6211); (6277, 6278); (6313, 6313); (6432, 6434);
    (6439, 6440); (6450, 6450); (6457, 6459); (6679, 6680); (6683, 6683);
    (6742, 6742); (6744, 6750); (6752, 6752); (6754, 6754); (6757, 6764);
    (6771, 6780); (6783, 6783); (6823, 6823); (6832, 6862); (6912, 6915);
    (6964, 6964); (6966, 6970); (6972, 6972); (6978, 6978); (7019, 7027);
    (7040, 7041); (7074, 7077); (7080, 7081); (7083, 7085); (7142, 7142);
    (7144, 7145); (7149, 7149); (7151, 7153); (7212, 7219); (7222, 7223);
    (7288, 7293); (7376, 7378); (7380, 7392); (7394, 7400); (7405, 7405);
    (7412, 7412); (7416, 7417); (7468, 7530); (7544, 7544); (7579, 7679);
    (8125, 8125); (8127, 8129); (8141, 8143); (8157, 8159); (8173, 8175);
    (8189, 8190); (8203, 8207); (8216, 8217); (8228, 8228); (8231, 8231);
    (8234, 8238); (8288, 8292); (8294, 8303); (8305, 8305); (8319, 8319);
    (8336, 8348); (8400, 8432); (11388, 11389); (11503, 11505);
    (11631, 11631); (11647, 11647); (11744, 11775); (11823, 11823);
    (12293, 12293); (12330, 12333); (12337, 12341); (12347, 12347);
    (12441, 12446); (12540, 12542); (40981, 40981); (42232, 42237);
    (42508, 42508); (42607, 42610); (42612, 42621); (42623, 42623);
    (42652, 42655); (42736, 42737); (42752, 42785); (42864, 42864);
    (42888, 42890); (42994, 42996); (43000, 43001); (43010, 43010);
    (43014, 43014); (43019, 43019); (43045, 43046); (43052, 43052);
    (43204, 43205); (43232, 43249); (43263, 43263); (43302, 43309);
    (43335, 43345); (43392, 43394); (43443, 43443); (43446, 43449);
    (43452, 43453); (43471, 43471); (43493, 43494); (43561, 43566);
    (43569, 43570); (43573, 43574); (43587, 43587); (43596, 43596);
    (43632, 43632); (43644, 43644); (43696, 43696); (43698, 43700);
    (43703, 43704); (43710, 43711); (43713, 43713); (43741, 43741);
    (43756, 43757); (43763, 43764); (43766, 43766); (43867, 43871);
    (43881, 43883); (44005, 44005); (44008, 44008); (44013, 44013);
    (64286, 64286); (64434, 64450); (65024, 65039); (65043, 65043);
    (65056, 65071); (65106, 65106); (65109, 65109); (65279, 65279);
    (65287, 65287); (65294, 65294); (65306, 65306); (65342, 65342);
    (65344, 65344); (65392, 65392); (65438, 65439); (65507, 65507);
    (65529, 65531); (66045, 66045); (66272, 66272); (66422, 66426);
    (67456, 67461); (67463, 67504); (67506, 67514); (68097, 68099);
    (68101, 68102); (68108, 68111); (68152, 68154); (68159, 68159);
    (68325, 68326); (68900, 68903); (69291, 69292); (69446, 69456);
    (69506, 69509); (69633, 69633); (69688, 69702); (69744, 69744);
    (69747, 69748); (69759, 69761); (69811, 69814); (69817, 69818);
    (69821, 69821); (69826, 69826); (69837, 69837); (69888, 69890);
    (69927, 69931); (69933, 69940); (70003, 70003); (70016, 70017);
    (70070, 70078); (70089, 70092); (70095, 70095); (70191, 70193);
    (70196, 70196); (70198, 70199); (70206, 70206); (70367, 70367);
    (70371, 70378); (70400, 70401); (70459, 70460); (70464, 70464);
    (70502, 70508); (70512, 70516); (70712, 70719); (70722, 70724);
    (70726, 70726); (70750, 70750); (70835, 70840); (70842, 70842);
    (70847, 70848); (70850, 70851); (71090, 71093); (71100, 71101);
    (71103, 71104); (71132, 71133); (71219, 71226); (71229, 71229);
    (71231, 71232); (71339, 71339); (71341, 71341); (71344, 71349);
    (71351, 71351); (71453, 71455); (71458, 71461); (71463, 71467);
    (71727, 71735); (71737, 71738); (71995, 71996); (71998, 71998);
    (72003, 72003); (72148, 72151); (72154, 72155); (72160, 72160);
    (72193, 72202); (72243, 72248); (72251, 72254); (72263, 72263);
    (72273, 72278); (72281, 72283); (72330, 72342); (72344, 72345);
    (72752, 72758); (72760, 72765); (72767, 72767); (72850, 72871);
    (72874, 72880); (72882, 72883); (72885, 72886); (73009, 73014);
    (73018, 73018); (73020, 73021); (73023, 73029); (73031, 73031);
    (73104, 73105); (73109, 73109); (73111, 73111); (73459, 73460);
    (78896, 78904); (92912, 92916); (92976, 92982); (92992, 92995);
    (94031, 94031); (94095, 94111); (94176, 94177); (94179, 94180);
    (110576, 110579); (110581, 110587); (110589, 110590); (113821, 113822);
    (113824, 113827); (118528, 118573); (118576, 118598); (119143, 119145);
    (119155, 119170); (119173, 119179); (119210, 119213); (119362, 119364);
    (121344, 121398); (121403, 121452); (121461, 121461); (121476, 121476);
    (121499, 121503); (121505, 121519); (122880, 122886); (122888, 122904);
    (122907, 122913); (122915, 122916); (122918, 122922); (123184, 123197);
    (123566, 123566); (123628, 123631); (125136, 125142); (125252, 125259);
    (127995, 127999); (917505, 917505); (917536, 917631); (917760, 917999) ]%N.

Fixpoint special_in (t : list (N * list N)) (c : N) : option (list N) :=
  match t with
  | [] => None
  | (x, image) :: t' => if (c =? x)%N then Some image else special_in t' c
  end.

(** The lower case of one character: what [str.lower] gives for every
    character but the capital sigma in the final position and the capital
    I with a dot, and the lower case by which [re] compares under
    IGNORECASE. *)
Definition lower_char (c : N) : N := default c (case_in lower_table c).

(** [str.upper] on one character: one to three characters. *)
Definition upper_char (c : N) : list N :=
  match special_in upper_special c with
  | Some image => image
  | None => [default c (case_in upper_table c)]
  end.

Definition is_cased (c : N) : bool := in_ranges cased_ranges c.
Definition is_case_ignorable (c : N) : bool := in_ranges case_ignorable_ranges c.

(* ------------------------------------------------------------------ *)
(** ** String methods *)

Fixpoint drop_while (p : N -> bool) (s : str) : str :=
  match s with
  | [] => []
  | c :: s' => if p c then drop_while p s' else s
  end.

Fixpoint take_while (p : N -> bool) (s : str) : str :=
  match s with
  | [] => []
  | c :: s' => if p c then c :: take_while p s' else []
  end.

(** [s.lstrip()], [s.rstrip()], [s.strip()]. *)
Definition lstrip (s : str) : str := drop_while is_space s.
Definition rstrip (s : str) : str := rev (drop_while is_space (rev s)).
Definition strip (s : str) : str := rstrip (lstrip s).

(** [s.lstrip(chars)] and [s.rstrip(chars)] for a one-character [chars]. *)
Definition lstrip_char (x : N) (s : str) : str := drop_while (N.eqb x) s.
Definition rstrip_char (x : N) (s : str) : str :=
  rev (drop_while (N.eqb x) (rev s)).

(** [s.upper()]. *)
Definition upper (s : str) : str := concat (List.map upper_char s).

(** The capital sigma is in the final position when a cased character is
    before it and none is after it, the characters of
    [case_ignorable_ranges] passed over. [before] is what is before the
    sigma, the nearest character first; [after] is what is after it. *)
Definition final_sigma (before after : str) : bool :=
  match drop_while is_case_ignorable before with
  | c :: _ => is_cased c
  | [] => false
  end
  && match drop_while is_case_ignorable after with
     | c :: _ => negb (is_cased c)
     | [] => true
     end.

(** [s.lower()]: every character by [lower_char], but the capital sigma
    (U+03A3), which is lowered to the final sigma (U+03C2) in the final
    position and to the sigma (U+03C3) elsewhere, and the capital I with
    a dot (U+0130), which is lowered to an i and a combining dot. *)
Fixpoint lower_from (before s : str) : str :=
  match s with
  | [] => []
  | c :: s' =>
      (if (c =? 931)%N then [if final_sigma before s' then 962%N else 963%N]
       else if (c =? 304)%N then [105%N; 775%N]
       else [lower_char c])
      ++ lower_from (c :: before) s'
  end.
Definition lower (s : str) : str := lower_from [] s.

Fixpoint startswith (s prefix : str) : bool :=
  match prefix, s with
  | [], _ => true
  | _ :: _, [] => false
  | p :: prefix', c :: s' => (c =? p)%N && startswith s' prefix'
  end.

(** [s.replace(old, new)] for a one-character [old]. *)
Definition replace_char (old : N) (new : str) (s : str) : str :=
  flat_map (fun c => if (c =? old)%N then new else [c]) s.

(** [s.replace(old, new)] for a two-character [old] = [o1 o2]. *)
Fixpoint replace_pair (o1 o2 : N) (new : str) (s : str) : str :=
  match s with
  | [] => []
  | c :: s' =>
      match s' with
      | d :: s'' =>
          if (c =? o1)%N && (d =? o2)%N then new ++ replace_pair o1 o2 new s''
          else c :: replace_pair o1 o2 new s'
      | [] => [c]
      end
  end.

(** [s.split(sep)] for a one-character [sep]: never empty. *)
Fixpoint split_on (sep : N) (s : str) : list str :=
  match s with
  | [] => [[]]
  | c :: s' =>
      if (c =? sep)%N then [] :: split_on sep s'
      else match split_on sep s' with
           | [] => [[c]]
           | w :: ws => (c :: w) :: ws
           end
  end.

(** [s.split()]: the maximal runs of characters that are not white space. *)
Fixpoint split_ws_aux (cur : str) (s : str) : list str :=
  match s with
  | [] => match cur with [] => [] | _ => [rev cur] end
  | c :: s' =>
      if is_space c
      then match cur with
           | [] => split_ws_aux [] s'
           | _ => rev cur :: split_ws_aux [] s'
           end
      else split_ws_aux (c :: cur) s'
  end.
Definition split_ws (s : str) : list str := split_ws_aux [] s.

(** [s.splitlines(True)]: the lines with their terminators. After the
    replacements of [read_text_lines] no carriage return is left, so a
    terminator is always one character here; on other input the pair
    CR LF is one terminator. *)
Fixpoint splitlines_aux (cur : str) (s : str) : list str :=
  match s with
  | [] => match cur with [] => [] | _ => [rev cur] end
  | c :: s' =>
      if is_linebreak c
      then match s' with
           | d :: s'' =>
               if (c =? CR)%N && (d =? LF)%N
               then rev (d :: c :: cur) :: splitlines_aux [] s''
               else rev (c :: cur) :: splitlines_aux [] s'
           | [] => [rev (c :: cur)]
           end
      else splitlines_aux (c :: cur) s'
  end.
Definition splitlines_keepends (s : str) : list str := splitlines_aux [] s.

(** [sep.join(parts)]. *)
Fixpoint join (sep : str) (parts : list str) : str :=
  match parts with
  | [] => []
  | [p] => p
  | p :: ps => p ++ sep ++ join sep ps
  end.

(** [s.ljust(width, fill)]. *)
Definition ljust (width : nat) (fill : N) (s : str) : str :=
  s ++ repeat fill (width - length s).

(** The decimal digits of a natural number, most significant first. *)
Fixpoint digits_fuel (fuel : nat) (n : N) (acc : str) : str :=
  match fuel with
  | O => acc
  | S fuel' =>
      let acc' := (48 + n mod 10)%N :: acc in
      if (n <? 10)%N then acc' else digits_fuel fuel' (n / 10)%N acc'
  end.
Definition digits_of_N (n : N) : str := digits_fuel (S (N.to_nat (N.log2 n))) n [].

(** [str(n)]. *)
Definition str_of_int (n : Z) : str :=
  if (n <? 0)%Z then 45%N :: digits_of_N (Z.to_N (- n))
  else digits_of_N (Z.to_N n).

(** The format [{n:0wd}] of an f-string: sign-aware zero padding. *)
Definition zero_pad (width : nat) (s : str) : str :=
  repeat 48%N (width - length s) ++ s.
Definition format_0d (width : nat) (n : Z) : str :=
  if (n <? 0)%Z then 45%N :: zero_pad (width - 1) (digits_of_N (Z.to_N (- n)))
  else zero_pad width (digits_of_N (Z.to_N n)).

(* ================================================================== *)
(** * Regular expressions *)
(* ================================================================== *)

(** The fragment of the syntax of [re] the program uses. A repetition
    carries its greediness; alternation is ordered. *)
Inductive regex : Type :=
| REps : regex
| RChar : (N -> bool) -> regex
| RSeq : regex -> regex -> regex
| RAlt : regex -> regex -> regex
| RStar : bool -> regex -> regex
| RGroup : nat -> regex -> regex
| RBol : regex
| REol : regex.

(** [r+], [r+?] and [r?]. *)
Definition RPlus (greedy : bool) (r : regex) : regex := RSeq r (RStar greedy r).
Definition ROpt (r : regex) : regex := RAlt r REps.

(** A literal, with or without IGNORECASE. *)
Fixpoint RLit (s : str) : regex :=
  match s with
  | [] => REps
  | c :: s' => RSeq (RChar (N.eqb c)) (RLit s')
  end.
Fixpoint RLitI (s : str) : regex :=
  match s with
  | [] => REps
  | c :: s' => RSeq (RChar (fun x => (lower_char x =? lower_char c)%N)) (RLitI s')
  end.

(** The groups captured so far, the latest first. *)
Abbreviation captures := (list (nat * str)).

Fixpoint group (n : nat) (c : captures) : option str :=
  match c with
  | [] => None
  | (m, s) :: c' => if Nat.eqb m n then Some s else group n c'
  end.

(** The state of a match: the number of characters consumed since the
    start of the subject, what is left of it, and the groups. *)
Abbreviation mstate := (nat * str * captures)%type.
Abbreviation mresult := (option (nat * captures)).
Abbreviation mcont := (nat -> str -> captures -> mresult).

Definition or_else (a : mresult) (b : unit -> mresult) : mresult :=
  match a with
  | Some x => Some x
  | None => b tt
  end.

(** The loop of a repetition. An iteration that consumes nothing ends
    the loop, as in [re]. *)
Fixpoint star_loop (body : nat -> str -> captures -> mcont -> mresult)
    (greedy : bool) (k : mcont) (fuel : nat) (i : nat) (s : str) (c : captures)
    : mresult :=
  match fuel with
  | O => k i s c
  | S fuel' =>
      let more := fun _ : unit =>
        body i s c (fun i' s' c' =>
          if i <? i' then star_loop body greedy k fuel' i' s' c' else None) in
      let stop := fun _ : unit => k i s c in
      if greedy then or_else (more tt) stop else or_else (stop tt) more
  end.

(** The backtracking matcher, in continuation-passing style: the first
    way of matching [r] whose continuation succeeds is the result. *)
Fixpoint rmatch (r : regex) (i : nat) (s : str) (c : captures) (k : mcont)
    {struct r} : mresult :=
  match r with
  | REps => k i s c
  | RChar p =>
      match s with
      | x :: s' => if p x then k (S i) s' c else None
      | [] => None
      end
  | RSeq r1 r2 => rmatch r1 i s c (fun i' s' c' => rmatch r2 i' s' c' k)
  | RAlt r1 r2 => or_else (rmatch r1 i s c k) (fun _ => rmatch r2 i s c k)
  | RStar greedy r1 => star_loop (rmatch r1) greedy k (S (length s)) i s c
  | RGroup n r1 =>
      rmatch r1 i s c (fun i' s' c' => k i' s' ((n, take (i' - i) s) :: c'))
  | RBol => if i =? 0 then k i s c else None
  | REol =>
      match s with
      | [] => k i s c
      | [x] => if (x =? LF)%N then k i s c else None
      | _ => None
      end
  end.

Definition accept : mcont := fun i _ c => Some (i, c).
Definition accept_at_end : mcont :=
  fun i s c => match s with [] => Some (i, c) | _ => None end.

(** [pattern.match(s)], [pattern.fullmatch(s)]. *)
Definition re_match (r : regex) (s : str) : mresult := rmatch r 0 s [] accept.
Definition re_fullmatch (r : regex) (s : str) : mresult :=
  rmatch r 0 s [] accept_at_end.

(** [pattern.search(s)]: the first position a match starts at. *)
Fixpoint search_from (r : regex) (i : nat) (s : str) : mresult :=
  match rmatch r i s [] accept with
  | Some x => Some x
  | None => match s with
            | [] => None
            | _ :: s' => search_from r (S i) s'
            end
  end.
Definition re_search (r : regex) (s : str) : mresult := search_from r 0 s.

(** [pattern.sub(repl, s)] for a constant [repl] and a pattern that
    matches no empty string, which is the case of every pattern the
    program substitutes. [skip] counts the characters of the current match
    still to be dropped. *)
Fixpoint sub_from (r : regex) (repl : str) (skip : nat) (i : nat) (s : str) : str :=
  match s with
  | [] => []
  | x :: s' =>
      match skip with
      | S skip' => sub_from r repl skip' (S i) s'
      | O =>
          match rmatch r i s [] accept with
          | Some (j, _) =>
              if i <? j then repl ++ sub_from r repl (j - i - 1) (S i) s'
              else x :: sub_from r repl 0 (S i) s'
          | None => x :: sub_from r repl 0 (S i) s'
          end
      end
  end.
Definition re_sub (r : regex) (repl : str) (s : str) : str := sub_from r repl 0 0 s.

(* ------------------------------------------------------------------ *)
(** ** The patterns of the program *)

Definition any_char (c : N) : bool := negb (c =? LF)%N.
Definition not_decimal (c : N) : bool := negb (is_decimal c).

(** [TS_LINE_RE], written with blanks between its parts:
    ^ \s* (.+?) \s* --> \s* (.+?) ( \s+ .* )? $ *)
Definition TS_LINE_RE : regex :=
  RSeq RBol
 (RSeq (RStar true (RChar is_space))
 (RSeq (RGroup 1 (RPlus false (RChar any_char)))
 (RSeq (RStar true (RChar is_space))
 (RSeq (RLit (py "-->"))
 (RSeq (RStar true (RChar is_space))
 (RSeq (RGroup 2 (RPlus false (RChar any_char)))
 (RSeq (ROpt (RGroup 3 (RSeq (RPlus true (RChar is_space))
                             (RStar true (RChar any_char)))))
       REol))))))).

(** The pattern of the pure seconds dialect: \d+ ( \. \d+ )? *)
Definition SECONDS_RE : regex :=
  RSeq (RPlus true (RChar is_decimal))
       (ROpt (RGroup 1 (RSeq (RChar (N.eqb 46)) (RPlus true (RChar is_decimal))))).

(** The pattern \D of a character that is no decimal digit. *)
Definition NON_DIGIT_RE : regex := RChar not_decimal.

(* ================================================================== *)
(** * Numbers *)
(* ================================================================== *)

(** [int(s)] in base ten: white space around the literal, one sign,
    decimal digits of any script, single underscores between digits. *)
Fixpoint int_digits (acc : Z) (after_digit : bool) (s : str) : option Z :=
  match s with
  | [] => if after_digit then Some acc else None
  | c :: s' =>
      match decimal_value c with
      | Some d => int_digits (acc * 10 + Z.of_N d)%Z true s'
      | None =>
          if (c =? 95)%N && after_digit then
            match s' with
            | [] => None
            | _ => int_digits acc false s'
            end
          else None
      end
  end.

Definition int_of_str (s : str) : result Z :=
  let t := strip s in
  let '(negative, body) :=
    match t with
    | c :: t' => if (c =? 45)%N then (true, t')
                 else if (c =? 43)%N then (false, t') else (false, t)
    | [] => (false, t)
    end in
  match int_digits 0 false body with
  | Some n => Ok (if negative then (- n)%Z else n)
  | None => Raise ValueError
  end.

(** IEEE-754 binary64. *)
Definition prec : Z := 53.
Definition emax : Z := 1024.
Abbreviation float := spec_float.

(** The float nearest to the integer [n] >= 0. *)
Definition float_of_Z (n : Z) : float := binary_normalize prec emax n 0 false.

(** The value of a run of decimal digits. *)
Definition digits_value (s : str) : Z :=
  fold_left (fun acc c => (acc * 10 + Z.of_N (default 0%N (decimal_value c)))%Z) s 0%Z.

(** [float(ts)] on a string of the form digits, or digits "." digits
    (the only strings the program converts): the float nearest to the
    decimal number, ties to even. The quotient of the two integers is
    rounded once. *)
Definition float_of_str (ts : str) : float :=
  let int_part := take_while is_decimal ts in
  let frac_part := drop 1 (drop_while is_decimal ts) in
  let num := digits_value (int_part ++ frac_part) in
  let den := (10 ^ Z.of_nat (length frac_part))%Z in
  match num, den with
  | Zpos n, Zpos d => SFdiv prec emax (S754_finite false n 0) (S754_finite false d 0)
  | _, _ => S754_zero false
  end.

Definition float_mul (x y : float) : float := SFmul prec emax x y.

(** [int(x)] of a float: truncation towards zero. *)
Definition int_of_float (x : float) : result Z :=
  match x with
  | S754_zero _ => Ok 0%Z
  | S754_finite sign m e =>
      let magnitude :=
        if (0 <=? e)%Z then (Zpos m * 2 ^ e)%Z else (Zpos m / 2 ^ (- e))%Z in
      Ok (if sign then (- magnitude)%Z else magnitude)
  | S754_infinity _ => Raise OverflowError
  | S754_nan => Raise ValueError
  end.

(* ================================================================== *)
(** * Timestamp codec *)
(* ================================================================== *)

Definition is_empty (s : str) : bool := match s with [] => true | _ => false end.

Definition parse_ts_to_ms (ts : str) : result Z :=
  let ts := replace_char 44 (py ".") (strip ts) in
  if is_empty ts then Raise ValueError
  else if bool_decide (is_Some (re_fullmatch SECONDS_RE ts)) then
    (* pure seconds *)
    int_of_float (float_mul (float_of_str ts) (float_of_Z 1000))
  else
    let parts := split_on 58 ts in
    do (hh, mm, rest) <-
      match parts with
      | [hh; mm; rest] => Ok (hh, mm, rest)
      | [mm; rest] => Ok (py "0", mm, rest)
      | _ => Raise ValueError
      end;
    let rest_parts := split_on 46 rest in
    let ss := if is_empty (hd [] rest_parts) then py "0" else hd [] rest_parts in
    let ms_digits :=
      if 1 <? length rest_parts then join [] (tl rest_parts) else py "0" in
    let ms_digits := re_sub NON_DIGIT_RE [] ms_digits in
    let ms_digits := if is_empty ms_digits then py "0" else ms_digits in
    do mmm <- int_of_str (take 3 (ljust 3 48 ms_digits));
    do h <- int_of_str hh;
    do m <- int_of_str mm;
    do sec <- int_of_str ss;
    Ok ((h * 3600 + m * 60 + sec) * 1000 + mmm)%Z.

Definition ms_to_vtt (ms : Z) : str :=
  let ms := if (ms <? 0)%Z then 0%Z else ms in
  let hh := (ms / 3600000)%Z in
  let ms := (ms mod 3600000)%Z in
  let mm := (ms / 60000)%Z in
  let ms := (ms mod 60000)%Z in
  let ss := (ms / 1000)%Z in
  let mmm := (ms mod 1000)%Z in
  format_0d 2 hh ++ py ":" ++ format_0d 2 mm ++ py ":" ++ format_0d 2 ss
    ++ py "." ++ format_0d 3 mmm.

(* ================================================================== *)
(** * Loops *)
(* ================================================================== *)

(** A [for] loop whose body updates a state and may raise. *)
Fixpoint for_each {S A : Type} (body : S -> A -> result S) (xs : list A)
    (st : S) : result S :=
  match xs with
  | [] => Ok st
  | x :: xs' => do st' <- body st x; for_each body xs' st'
  end.

(** [enumerate(xs, start)]. *)
Fixpoint enumerate {A : Type} (start : nat) (xs : list A) : list (nat * A) :=
  match xs with
  | [] => []
  | x :: xs' => (start, x) :: enumerate (S start) xs'
  end.

(** [list.sort(key=...)]: the sort is stable, so its result is the one of
    any stable sort; [le a b] compares the keys. *)
Fixpoint insert_by {A : Type} (le : A -> A -> bool) (x : A) (l : list A) : list A :=
  match l with
  | [] => [x]
  | y :: l' => if le x y then x :: l else y :: insert_by le x l'
  end.
Definition sort_by {A : Type} (le : A -> A -> bool) (l : list A) : list A :=
  foldr (insert_by le) [] l.

(* ================================================================== *)
(** * IO helpers *)
(* ================================================================== *)

(** A file is the sequence of code points its bytes decode to. Reading
    with the codec utf-8-sig drops one leading byte order mark. *)
Definition read_text (content : str) : str :=
  match content with
  | c :: rest => if (c =? BOM)%N then rest else content
  | [] => []
  end.

Definition normalize_newlines (txt : str) : str :=
  replace_char CR [LF] (replace_pair CR LF [LF] txt).

Definition read_text_lines (content : str) : list str :=
  splitlines_keepends (normalize_newlines (read_text content)).

Definition write_text_lines (lines : list str) : str := join [] lines.

Definition blank (line : str) : bool := is_empty (strip line).
Definition nonblank (line : str) : bool := negb (blank line).

(** The test of the signature line. *)
Definition is_signature (line : str) : bool :=
  startswith (upper (strip (lstrip_char BOM line))) (py "WEBVTT").

Fixpoint drop_while_line (p : str -> bool) (lines : list str) : list str :=
  match lines with
  | [] => []
  | l :: lines' => if p l then drop_while_line p lines' else lines
  end.
Fixpoint take_while_line (p : str -> bool) (lines : list str) : list str :=
  match lines with
  | [] => []
  | l :: lines' => if p l then l :: take_while_line p lines' else []
  end.

(** The index [i] of the source is the suffix [lines[i:]] here. *)
Definition split_header_and_body (lines : list str) : list str * list str :=
  (* skip leading blanks *)
  let rest := drop_while_line blank lines in
  let '(header, rest) :=
    match rest with
    | l :: rest' =>
        if is_signature l then ([lstrip_char BOM l], rest') else ([], rest)
    | [] => ([], rest)
    end in
  (* optional header metadata until blank line *)
  let header := header ++ take_while_line nonblank rest in
  let rest := drop_while_line nonblank rest in
  (* the blank lines that follow *)
  let header := header ++ take_while_line blank rest in
  let rest := drop_while_line blank rest in
  (header, rest).

(* ================================================================== *)
(** * Timestamp lines *)
(* ================================================================== *)

(** [TS_LINE_RE.match(line)] and its three groups; the third is [None]
    when the optional group took no part in the match. *)
Definition ts_line_match (line : str) : option (str * str * option str) :=
  match re_match TS_LINE_RE line with
  | Some (_, c) =>
      match group 1 c, group 2 c with
      | Some g1, Some g2 => Some (g1, g2, group 3 c)
      | _, _ => None
      end
  | None => None
  end.

(** [s.split()[0]]. *)
Definition first_token (s : str) : result str :=
  match split_ws s with
  | t :: _ => Ok t
  | [] => Raise IndexError
  end.

(** The two statements of the [try] block every reader of a timestamp
    line has. *)
Definition parse_pair (start_raw end_raw : str) : result (Z * Z) :=
  do s_ms <- parse_ts_to_ms start_raw;
  do e_ms <- parse_ts_to_ms end_raw;
  Ok (s_ms, e_ms).

(* ================================================================== *)
(** * 1) Clean / check / fix *)
(* ================================================================== *)

Inductive issue_kind : Type :=
| PARSE_FAIL | END_BEFORE_START | START_DECREASED | OVERLAP.

(** The human-readable detail of a record; the text of an exception is
    represented by the exception. *)
Inductive detail : Type :=
| DText (s : str)
| DExn (e : exn).

Record issue := Issue {
  issue_line : nat; issue_kind_of : issue_kind; issue_detail : detail;
  issue_raw : str }.

(** An entry of [cues] in the checker: (line_no, start_ms, end_ms, raw_line). *)
Abbreviation checked_cue := (nat * Z * Z * str)%type.

Definition check_line (st : list issue * list checked_cue) (il : nat * str)
    : result (list issue * list checked_cue) :=
  let '(issues, cues) := st in
  let '(idx, line) := il in
  match ts_line_match line with
  | None => Ok st
  | Some (g1, g2, _) =>
      let start_raw := strip g1 in
      let end_raw_full := strip g2 in
      do end_raw <- first_token end_raw_full;
      let raw_line := rstrip_char LF line in
      match parse_pair start_raw end_raw with
      | Raise e => Ok (issues ++ [Issue idx PARSE_FAIL (DExn e) raw_line], cues)
      | Ok (s_ms, e_ms) =>
          let issues :=
            if (e_ms <? s_ms)%Z
            then issues ++ [Issue idx END_BEFORE_START
                              (DText (py "start=" ++ str_of_int s_ms
                                      ++ py " end=" ++ str_of_int e_ms)) raw_line]
            else issues in
          Ok (issues, cues ++ [(idx, s_ms, e_ms, raw_line)])
      end
  end.

(** The second loop of the checker: [last] is (last_start, last_end,
    last_line) once a cue has been seen. *)
Definition timeline_step (st : list issue * option (Z * Z * nat)) (cue : checked_cue)
    : list issue * option (Z * Z * nat) :=
  let '(issues, last) := st in
  let '(ln, s_ms, e_ms, raw_line) := cue in
  let issues :=
    match last with
    | None => issues
    | Some (last_start, last_end, last_line) =>
        let prev := py " (prev line " ++ str_of_int (Z.of_nat last_line) ++ py ")" in
        let issues :=
          if (s_ms <? last_start)%Z
          then issues ++ [Issue ln START_DECREASED
                            (DText (py "prev_start=" ++ str_of_int last_start
                                    ++ py " current_start=" ++ str_of_int s_ms ++ prev))
                            raw_line]
          else issues in
        if (s_ms <? last_end)%Z
        then issues ++ [Issue ln OVERLAP
                          (DText (py "prev_end=" ++ str_of_int last_end
                                  ++ py " current_start=" ++ str_of_int s_ms ++ prev))
                          raw_line]
        else issues
    end in
  (issues, Some (s_ms, e_ms, ln)).

Definition check_and_collect_issues (lines : list str)
    : result (list issue * list checked_cue) :=
  do (issues, cues) <- for_each check_line (enumerate 1 lines) ([], []);
  Ok (fst (fold_left timeline_step cues (issues, None)), cues).

Inductive action : Type := SKIP_UNPARSEABLE | SWAP_START_END | NORMALIZE.

(** An entry of the fix log: (line_no, action, detail). *)
Abbreviation log_entry := (nat * action * detail)%type.

Definition fix_line (st : list str * list log_entry) (il : nat * str)
    : result (list str * list log_entry) :=
  let '(fixed_lines, fix_log) := st in
  let '(idx, line) := il in
  match ts_line_match line with
  | None => Ok (fixed_lines ++ [line], fix_log)
  | Some (g1, g2, g3) =>
      let start_raw := strip g1 in
      let end_and_more := strip g2 in
      let tail := default [] g3 in
      do end_raw <- first_token end_and_more;
      match parse_pair start_raw end_raw with
      | Raise e =>
          Ok (fixed_lines ++ [line], fix_log ++ [(idx, SKIP_UNPARSEABLE, DExn e)])
      | Ok (s_ms, e_ms) =>
          let swapped := (e_ms <? s_ms)%Z in
          let '(s_ms, e_ms) := if swapped then (e_ms, s_ms) else (s_ms, e_ms) in
          let new_line :=
            rstrip (ms_to_vtt s_ms ++ py " --> " ++ ms_to_vtt e_ms ++ tail) ++ [LF] in
          let fixed_lines := fixed_lines ++ [new_line] in
          let change := DText (start_raw ++ py " --> " ++ end_raw) in
          if swapped then Ok (fixed_lines, fix_log ++ [(idx, SWAP_START_END, change)])
          else if negb (str_eqb (strip line) (strip new_line))
               then Ok (fixed_lines, fix_log ++ [(idx, NORMALIZE, change)])
               else Ok (fixed_lines, fix_log)
      end
  end.

Definition fix_vtt_timestamps (lines : list str) : result (list str * list log_entry) :=
  for_each fix_line (enumerate 1 lines) ([], []).

(* ================================================================== *)
(** * 2) Split *)
(* ================================================================== *)

Record Cue := mkCue {
  start_ms : Z;
  end_ms : Z;
  text_lines : list str;
  ts_line : str }.

(** The [while] loop of [iter_cues] on the lines that are left; every
    iteration consumes a line, so the number of lines is fuel enough. *)
Fixpoint iter_cues_loop (fuel : nat) (body_lines : list str) : result (list Cue) :=
  match fuel, body_lines with
  | O, _ => Ok []
  | _, [] => Ok []
  | S fuel', line :: rest =>
      match ts_line_match line with
      | None => iter_cues_loop fuel' rest
      | Some (g1, g2, _) =>
          let start_raw := strip g1 in
          let end_raw_full := strip g2 in
          do end_raw <- first_token end_raw_full;
          let ts_line := rstrip_char LF line in
          match parse_pair start_raw end_raw with
          | Raise _ =>
              (* skip malformed cue *)
              iter_cues_loop fuel' rest
          | Ok (s_ms, e_ms) =>
              let txt := List.map (rstrip_char LF) (take_while_line nonblank rest) in
              let rest := drop_while_line nonblank rest in
              (* consume blank lines *)
              let rest := drop_while_line blank rest in
              do cues <- iter_cues_loop fuel' rest;
              Ok (mkCue s_ms e_ms txt ts_line :: cues)
          end
      end
  end.

Definition iter_cues (body_lines : list str) : result (list Cue) :=
  iter_cues_loop (length body_lines) body_lines.

(** [a // b]. *)
Definition floordiv (a b : Z) : result Z :=
  if (b =? 0)%Z then Raise ZeroDivisionError else Ok (a / b)%Z.

(** [min(c.start_ms for c in cues)] of a list that is not empty. *)
Definition min_start (cues : list Cue) : Z :=
  match cues with
  | [] => 0%Z
  | c :: cues' => fold_left (fun m c' => Z.min m (start_ms c')) cues' (start_ms c)
  end.

Definition base_of (start_at_zero : bool) (chunk_ms : Z) (cues : list Cue) : result Z :=
  if start_at_zero then Ok 0%Z
  else do q <- floordiv (min_start cues) chunk_ms; Ok (q * chunk_ms)%Z.

Definition chunk_index (base_ms chunk_ms : Z) (start : Z) : result nat :=
  do q <- floordiv (start - base_ms) chunk_ms;
  Ok (Z.to_nat (Z.max 0 q)).

(** The body of the grouping loop: grow the list up to [idx], then append
    the cue to its bucket. *)
Definition place_cue (base_ms chunk_ms : Z) (buckets : list (list Cue)) (c : Cue)
    : result (list (list Cue)) :=
  do idx <- chunk_index base_ms chunk_ms (start_ms c);
  let buckets := buckets ++ repeat [] (S idx - length buckets) in
  Ok (alter (fun bucket => bucket ++ [c]) idx buckets).

Definition group_cues (base_ms chunk_ms : Z) (cues : list Cue) : result (list (list Cue)) :=
  for_each (place_cue base_ms chunk_ms) cues [].

Definition default_header : list str := [py "WEBVTT" ++ [LF]; [LF]].

Definition cue_lines (rebase : bool) (chunk_start : Z) (c : Cue) : list str :=
  (if rebase then
     ms_to_vtt (start_ms c - chunk_start) ++ py " --> "
       ++ ms_to_vtt (end_ms c - chunk_start) ++ [LF]
   else rstrip (ts_line c) ++ [LF])
  :: List.map (fun t => t ++ [LF]) (text_lines c) ++ [[LF]].

Definition part_name (stem : str) (idx : nat) : str :=
  stem ++ py "_part" ++ str_of_int (Z.of_nat idx) ++ py ".vtt".

(** The body of the writing loop: the files written so far are the
    state; an empty bucket writes nothing. *)
Definition write_part (header : list str) (stem : str) (rebase : bool)
    (base_ms chunk_ms : Z) (written : list (str * str)) (ib : nat * list Cue)
    : list (str * str) :=
  let '(idx, bucket) := ib in
  match bucket with
  | [] => written
  | _ =>
      let chunk_start := (base_ms + (Z.of_nat idx - 1) * chunk_ms)%Z in
      let out_lines :=
        (match header with [] => default_header | _ => header end)
        ++ flat_map (cue_lines rebase chunk_start) bucket in
      written ++ [(part_name stem idx, write_text_lines out_lines)]
  end.

(** [cmd_split]: the files it writes, as (name, content), in the order
    they are written. [stem] is the stem of the input path. *)
Definition cmd_split (stem : str) (content : str) (minutes : Z)
    (rebase start_at_zero : bool) : result (list (str * str)) :=
  let lines := read_text_lines content in
  let '(header, body) := split_header_and_body lines in
  do cues <- iter_cues body;
  match cues with
  | [] => Raise ValueError
  | _ =>
      let chunk_ms := (minutes * 60000)%Z in
      do base_ms <- base_of start_at_zero chunk_ms cues;
      do buckets <- group_cues base_ms chunk_ms cues;
      Ok (fold_left (write_part header stem rebase base_ms chunk_ms)
                    (enumerate 1 buckets) [])
  end.

(* ================================================================== *)
(** * 3) Merge *)
(* ================================================================== *)

Definition is_ascii_letter (c : N) : bool := in_range 65 90 c || in_range 97 122 c.

(** The class [^a-zA-Z] under IGNORECASE: the four letters outside ASCII
    that fold to an ASCII letter are letters too. *)
Definition not_letter_i (c : N) : bool :=
  negb (is_ascii_letter c || (c =? 304)%N || (c =? 305)%N || (c =? 383)%N
        || (c =? 8490)%N).

(** [PARTNUM_RE], with blanks between its parts and IGNORECASE:
    (?: ^ | [^a-zA-Z] ) _? part \s* 0* (\d+) *)
Definition PARTNUM_RE : regex :=
  RSeq (RAlt RBol (RChar not_letter_i))
 (RSeq (ROpt (RChar (N.eqb 95)))
 (RSeq (RLitI (py "part"))
 (RSeq (RStar true (RChar is_space))
 (RSeq (RStar true (RChar (N.eqb 48)))
       (RGroup 1 (RPlus true (RChar is_decimal))))))).

(** [Path.stem] of a file name: the name without its last suffix. *)
Fixpoint rfind_dot (i : nat) (s : str) : option nat :=
  match s with
  | [] => None
  | c :: s' =>
      match rfind_dot (S i) s' with
      | Some j => Some j
      | None => if (c =? 46)%N then Some i else None
      end
  end.
Definition path_stem (name : str) : str :=
  match rfind_dot 0 name with
  | Some i => if (0 <? i) && (i <? length name - 1) then take i name else name
  | None => name
  end.

Definition part_number_from_name (name : str) : Z :=
  match re_search PARTNUM_RE (path_stem name) with
  | None => (10 ^ 9)%Z
  | Some (_, c) =>
      match group 1 c with
      | Some digits =>
          match int_of_str digits with
          | Ok n => n
          | Raise _ => (10 ^ 9)%Z
          end
      | None => (10 ^ 9)%Z
      end
  end.

(** The scan of [first_cue_start_ms] over the lines of the body. *)
Fixpoint first_start (body : list str) : Z :=
  match body with
  | [] => (10 ^ 12)%Z
  | line :: rest =>
      match ts_line_match line with
      | None => first_start rest
      | Some (g1, _, _) =>
          match parse_ts_to_ms (strip g1) with
          | Ok t => t
          | Raise _ => first_start rest
          end
      end
  end.

Definition first_cue_start_ms (content : str) : Z :=
  let lines := read_text_lines content in
  let '(_, body) := split_header_and_body lines in
  first_start body.

Definition read_vtt_keep_header (content : str) : list str * list str :=
  let lines := read_text_lines content in
  let '(header, body) := split_header_and_body lines in
  (match header with [] => default_header | _ => header end, body).

(** The order of Python on strings: lexicographic on the code points. *)
Fixpoint str_compare (a b : str) : comparison :=
  match a, b with
  | [], [] => Eq
  | [], _ :: _ => Lt
  | _ :: _, [] => Gt
  | x :: a', y :: b' =>
      match (x ?= y)%N with
      | Eq => str_compare a' b'
      | o => o
      end
  end.

(** A file of the parts directory: its name and its content. *)
Abbreviation file := (str * str)%type.

(** An entry of [enriched]: (t0, pn, f.name.lower(), f). *)
Abbreviation enriched_file := (Z * Z * str * file)%type.

Definition enrich (f : file) : enriched_file :=
  (first_cue_start_ms (snd f), part_number_from_name (fst f), lower (fst f), f).

(** The order of the tuples (x[0], x[1], x[2]). *)
Definition key_compare (x y : enriched_file) : comparison :=
  let '(t0, pn, name, _) := x in
  let '(t0', pn', name', _) := y in
  match (t0 ?= t0')%Z with
  | Eq => match (pn ?= pn')%Z with
          | Eq => str_compare name name'
          | o => o
          end
  | o => o
  end.
Definition key_le (x y : enriched_file) : bool :=
  match key_compare x y with Gt => false | _ => true end.

Definition files_sorted (files : list file) : list file :=
  List.map snd (sort_by key_le (List.map enrich files)).

(** [body.pop()] while the last line is blank. *)
Definition trim_trailing_blank (body : list str) : list str :=
  rev (drop_while_line blank (rev body)).

(** The body of the concatenation loop: the state is (out_lines,
    header_written). *)
Definition append_file (st : list str * bool) (f : file) : list str * bool :=
  let '(out_lines, header_written) := st in
  let '(header, body) := read_vtt_keep_header (snd f) in
  let out_lines :=
    if header_written then out_lines
    else
      let out_lines := out_lines ++ header in
      match last out_lines with
      | Some l => if nonblank l then out_lines ++ [[LF]] else out_lines
      | None => out_lines
      end in
  let body := trim_trailing_blank (drop_while_line blank body) in
  match body with
  | [] => (out_lines, true)
  | _ => (out_lines ++ body ++ [[LF]], true)
  end.

(** [cmd_merge] on the files the pattern selects, in the order of the
    enumeration: the content of the output file. *)
Definition cmd_merge (files : list file) : result str :=
  match files with
  | [] => Raise FileNotFoundError
  | _ =>
      let out_lines := fst (fold_left append_file (files_sorted files) ([], false)) in
      Ok (rstrip (join [] out_lines) ++ [LF])
  end.

(* ================================================================== *)
(** * 4) Compress *)
(* ================================================================== *)

(** The characters . ? ! and the full-width full stop, question mark,
    exclamation mark, and the ellipsis. *)
Definition PUNCT_END : list N := [46; 63; 33; 12290; 65311; 65281; 8230]%N.

(** [TAG_RE], a tag: < [^>]+ > *)
Definition TAG_RE : regex :=
  RSeq (RChar (N.eqb 60))
 (RSeq (RPlus true (RChar (fun c => negb (c =? 62)%N)))
       (RChar (N.eqb 62))).

(** [MULTI_SPACE_RE], a run of white space. *)
Definition MULTI_SPACE_RE : regex := RPlus true (RChar is_space).

Definition clean_text (s : str) : str :=
  let s := strip s in
  let s := re_sub TAG_RE [] s in
  re_sub MULTI_SPACE_RE (py " ") s.

Definition ends_sentence (s : str) : bool :=
  let s := clean_text s in
  match last s with
  | None => true
  | Some c => bool_decide (c ∈ PUNCT_END)
  end.

(** A parsed cue of the compressor:
    (start_ms, end_ms, start_ts, end_ts, text). *)
Abbreviation ccue := (Z * Z * str * str * str)%type.

Fixpoint compress_parse_loop (fuel : nat) (lines : list str) : result (list ccue) :=
  match fuel, lines with
  | O, _ => Ok []
  | _, [] => Ok []
  | S fuel', line :: rest =>
      if is_empty (strip line) then compress_parse_loop fuel' rest
      else
        match ts_line_match line with
        | None => compress_parse_loop fuel' rest
        | Some (g1, g2, _) =>
            let start_raw := strip g1 in
            let end_raw_full := strip g2 in
            do end_raw <- first_token end_raw_full;
            do start_ms <- parse_ts_to_ms start_raw;
            do end_ms <- parse_ts_to_ms end_raw;
            (* normalize timestamps for output *)
            let start_ts := ms_to_vtt start_ms in
            let end_ts := ms_to_vtt end_ms in
            let text_lines := List.map strip (take_while_line nonblank rest) in
            let rest := drop_while_line nonblank rest in
            let txt := clean_text (join (py " ") text_lines) in
            let rest := drop_while_line blank rest in
            do cues <- compress_parse_loop fuel' rest;
            Ok ((start_ms, end_ms, start_ts, end_ts, txt) :: cues)
        end
  end.

(** The lines of the input after the header has been skipped. *)
Definition compress_skip_header (lines : list str) : list str :=
  let rest := drop_while_line blank lines in
  let rest :=
    match rest with
    | l :: rest' => if is_signature l then rest' else rest
    | [] => rest
    end in
  (* skip header metadata until blank line *)
  let rest := drop_while_line nonblank rest in
  drop_while_line blank rest.

Definition compress_parse (content : str) : result (list ccue) :=
  let lines := split_on LF (normalize_newlines (read_text content)) in
  let rest := compress_skip_header lines in
  compress_parse_loop (length rest) rest.

Definition cue_key_le (x y : ccue) : bool :=
  let '(s, e, _, _, _) := x in
  let '(s', e', _, _, _) := y in
  match (s ?= s')%Z with
  | Lt => true
  | Eq => (e <=? e')%Z
  | Gt => false
  end.

Definition len (s : str) : Z := Z.of_nat (length s).

(** The body of the merging loop: the state is the finished cues and the
    accumulator (cur_start_ms, cur_end_ms, cur_start_ts, cur_end_ts,
    buffer). *)
Definition merge_step (gap_ms max_chars : Z)
    (st : list (str * str * str) * ccue) (next : ccue)
    : list (str * str * str) * ccue :=
  let '(merged, (cur_start_ms, cur_end_ms, cur_start_ts, cur_end_ts, buffer)) := st in
  let '(start_ms, end_ms, s_ts, e_ts, txt) := next in
  let gap := (start_ms - cur_end_ms)%Z in
  if (gap <=? gap_ms)%Z && negb (ends_sentence buffer)
     && (len buffer + 1 + len txt <=? max_chars)%Z
  then
    let buffer := clean_text (buffer ++ py " " ++ txt) in
    let cur_end_ms := Z.max cur_end_ms end_ms in
    let cur_end_ts := ms_to_vtt cur_end_ms in
    (merged, (cur_start_ms, cur_end_ms, cur_start_ts, cur_end_ts, buffer))
  else
    (merged ++ [(cur_start_ts, cur_end_ts, buffer)], next).

(** The cues of the output: the fold over the sorted cues and the final
    flush. *)
Definition merge_cues (gap_ms max_chars : Z) (cues : list ccue)
    : list (str * str * str) :=
  match sort_by cue_key_le cues with
  | [] => []
  | first :: rest =>
      let '(merged, (_, _, cur_start_ts, cur_end_ts, buffer)) :=
        fold_left (merge_step gap_ms max_chars) rest ([], first) in
      merged ++ [(cur_start_ts, cur_end_ts, buffer)]
  end.

Definition render_cue (m : str * str * str) : list str :=
  let '(s_ts, e_ts, txt) := m in
  [s_ts ++ py " --> " ++ e_ts; txt; []].

(** [cmd_compress]: the content of the output file. *)
Definition cmd_compress (content : str) (gap_ms max_chars : Z) : result str :=
  do cues <- compress_parse content;
  match cues with
  | [] => Raise ValueError
  | _ =>
      let merged := merge_cues gap_ms max_chars cues in
      let out_lines := [py "WEBVTT"; []] ++ flat_map render_cue merged in
      Ok (strip (join [LF] out_lines) ++ [LF])
  end.

(* ================================================================== *)
(** * The vocabulary of the properties *)
(* ================================================================== *)

(** The string [s] does not start with a character of the class [p]. *)
Definition stops (p : N -> bool) (s : str) : Prop :=
  match s with
  | [] => True
  | c :: _ => p c = false
  end.

(** The parts of [TS_LINE_RE] from its end. *)
Definition ts_re_tail : regex :=
  RSeq (ROpt (RGroup 3 (RSeq (RPlus true (RChar is_space))
                             (RStar true (RChar any_char)))))
       REol.

Definition ts_re_end : regex :=
  RSeq (RGroup 2 (RPlus false (RChar any_char))) ts_re_tail.

Definition ts_re_arrow : regex :=
  RSeq (RStar true (RChar is_space))
 (RSeq (RLit (py "-->"))
 (RSeq (RStar true (RChar is_space)) ts_re_end)).

(** A character of a timestamp text: no white space and no hyphen. *)
Definition plain (c : N) : bool := negb (is_space c) && negb (c =? 45)%N.

(** The shape of what follows the end timestamp in a rewritten line:
    nothing, or white space and then text on the same line that starts
    with a character that is no white space. *)
Inductive tail_shape : str -> Prop :=
| tail_none : tail_shape []
| tail_some w W Y :
    is_space w = true -> Forall (fun c => is_space c = true) W ->
    Y <> [] -> stops is_space Y -> Forall (fun c => any_char c = true) Y ->
    rstrip Y = Y ->
    tail_shape (w :: W ++ Y).

(** The group 3 of the match: the line feed when nothing follows. *)
Definition tail_group (T : str) : str :=
  match T with [] => [LF] | _ => T end.

(** What it means for a pattern to match between two states, whatever
    the priorities. *)
Inductive rsem : regex -> mstate -> mstate -> Prop :=
| sem_eps st : rsem REps st st
| sem_char (p : N -> bool) i x s c :
    p x = true -> rsem (RChar p) (i, x :: s, c) (S i, s, c)
| sem_seq r1 r2 st1 st2 st3 :
    rsem r1 st1 st2 -> rsem r2 st2 st3 -> rsem (RSeq r1 r2) st1 st3
| sem_alt_l r1 r2 st1 st2 : rsem r1 st1 st2 -> rsem (RAlt r1 r2) st1 st2
| sem_alt_r r1 r2 st1 st2 : rsem r2 st1 st2 -> rsem (RAlt r1 r2) st1 st2
| sem_star_nil g r st : rsem (RStar g r) st st
| sem_star_step g r st1 st2 st3 :
    rsem r st1 st2 -> rsem (RStar g r) st2 st3 -> rsem (RStar g r) st1 st3
| sem_group n r i s c i' s' c' :
    rsem r (i, s, c) (i', s', c') ->
    rsem (RGroup n r) (i, s, c) (i', s', (n, take (i' - i) s) :: c')
| sem_bol s c : rsem RBol (0, s, c) (0, s, c)
| sem_eol_end i c : rsem REol (i, [], c) (i, [], c)
| sem_eol_nl i c : rsem REol (i, [LF], c) (i, [LF], c).

(** The shape of the third group of [TS_LINE_RE]: white space, then
    characters of one line. *)
Definition group3_shape (T : str) : Prop :=
  exists W Y, T = W ++ Y /\ W <> [] /\ Forall (fun x => is_space x = true) W /\
              Forall (fun x => any_char x = true) Y.

Definition ascii_digit (c : N) : bool := in_range 48 57 c.

(** The characters of a canonical timestamp: digits, colon, full stop. *)
Definition canon_char (c : N) : bool := in_range 48 58 c || (c =? 46)%N.

(** One step of the value of a run of ASCII digits. *)
Definition dstep (acc : Z) (c : N) : Z := (acc * 10 + Z.of_N (c - 48))%Z.

(** The two times of a line, when it is a timestamp line whose two
    fields decode: what every reader of timestamp lines computes. *)
Definition line_times (line : str) : option (Z * Z) :=
  match ts_line_match line with
  | None => None
  | Some (g1, g2, _) =>
      match first_token (strip g2) with
      | Raise _ => None
      | Ok end_raw =>
          match parse_pair (strip g1) end_raw with
          | Ok p => Some p
          | Raise _ => None
          end
      end
  end.

(** A line with start [s] and end [e] in canonical form, followed by [T]. *)
Definition canonical_line (s e : Z) (T : str) : str :=
  ms_to_vtt s ++ py " --> " ++ ms_to_vtt e ++ T ++ [LF].

Definition is_skip (entry : log_entry) : Prop := entry.1.2 = SKIP_UNPARSEABLE.

(** How the fixer relates a line and the line it writes for it. *)
Definition fixed_from (line x : str) : Prop :=
  (x = line /\ line_times line = None) \/
  exists s e, line_times line = Some (s, e) /\
    line_times x = Some (Z.max 0 (Z.min s e), Z.max 0 (Z.max s e)).

Definition in_order (x : str) : Prop :=
  match line_times x with
  | Some (s, e) => (s <= e)%Z
  | None => True
  end.

(** The two texts of a parsed cue are the canonical texts of its times. *)
Definition cue_wf (c : ccue) : Prop :=
  let '(s, e, s_ts, e_ts, _) := c in s_ts = ms_to_vtt s /\ e_ts = ms_to_vtt e.

Definition cue_ordered (c : ccue) : Prop :=
  let '(s, e, _, _, _) := c in (s <= e)%Z.

(** A cue of the output decodes to times in order. *)
Definition out_ordered (m : str * str * str) : Prop :=
  let '(s_ts, e_ts, _) := m in
  exists s e, parse_ts_to_ms s_ts = Ok s /\ parse_ts_to_ms e_ts = Ok e /\ (s <= e)%Z.

(** The cue the accumulator is flushed as. *)
Definition flush (c : ccue) : str * str * str :=
  let '(_, _, s_ts, e_ts, buffer) := c in (s_ts, e_ts, buffer).

(** A text of the dialect: decimal digits, then possibly a full stop and
    decimal digits. *)
Definition pure_seconds (ts : str) : Prop :=
  exists ip, ip <> [] /\ Forall (fun c => is_decimal c = true) ip /\
    (ts = ip \/
     exists fp, fp <> [] /\ Forall (fun c => is_decimal c = true) fp /\
                ts = ip ++ 46%N :: fp).

(** The number a text of the dialect denotes, as a fraction. *)
Definition seconds_fraction (ts : str) : Z * Z :=
  let int_part := take_while is_decimal ts in
  let frac_part := drop 1 (drop_while is_decimal ts) in
  (digits_value (int_part ++ frac_part), 10 ^ Z.of_nat (length frac_part))%Z.

(** Following the specification: [r] is the value of the text times
    1000, rounded to a nearest integer. *)
Definition is_round_of_ms (ts : str) (r : Z) : Prop :=
  let '(num, den) := seconds_fraction ts in
  (2 * Z.abs (r * den - num * 1000) <= den)%Z.

Definition harmless (c : N) : bool :=
  negb (is_space c) && negb (c =? 44)%N && negb (c =? 46)%N.

Definition block_harmless (z : N) : bool :=
  forallb (fun j => harmless (z + j)) [0; 1; 2; 3; 4; 5; 6; 7; 8; 9]%N.

(** The bucket index of a start time. *)
Definition bucket_of (base_ms chunk_ms start : Z) : nat :=
  Z.to_nat (Z.max 0 ((start - base_ms) / chunk_ms)).

(** The bucket at an index; a bucket the list does not have is empty. *)
Definition bucket_at (i : nat) (buckets : list (list Cue)) : list Cue :=
  default [] (buckets !! i).

(** What the writing loop writes for a numbered bucket. *)
Definition part_of (header : list str) (stem : str) (rebase : bool)
    (base_ms chunk_ms : Z) (ib : nat * list Cue) : list (str * str) :=
  write_part header stem rebase base_ms chunk_ms [] ib.

Definition occupied (ib : nat * list Cue) : bool :=
  match ib.2 with [] => false | _ => true end.

(** A line that gives the merger no start time. *)
Definition startless (line : str) : Prop :=
  match ts_line_match line with
  | None => True
  | Some (g1, _, _) => is_ok (parse_ts_to_ms (strip g1)) = false
  end.

(** The order of the merge on files. *)
Definition file_le (f g : file) : Prop := key_le (enrich f) (enrich g) = true.

(** The comparison of the keys as a comparison of triples. *)
Definition key3_compare (x y : Z * Z * str) : comparison :=
  let '(a, b, c) := x in
  let '(a', b', c') := y in
  match (a ?= a')%Z with
  | Eq => match (b ?= b')%Z with
          | Eq => str_compare c c'
          | o => o
          end
  | o => o
  end.

(** Following the specification: a text that ends a sentence. The empty
    text counts as one. *)
Definition sentence_terminal (t : str) : Prop :=
  t = [] \/ exists p c, t = p ++ [c] /\ In c PUNCT_END.

(** Following the specification: the three conditions of a fusion. *)
Definition spec_fuses (gap_ms max_chars : Z) (cur next : ccue) : Prop :=
  let '(_, cur_end, _, _, text) := cur in
  let '(next_start, _, _, _, next_text) := next in
  (next_start - cur_end <= gap_ms)%Z /\
  ~ sentence_terminal (clean_text text) /\
  (len (text ++ py " " ++ next_text) <= max_chars)%Z.

(** Following the specification: the accumulator after a fusion. *)
Definition spec_fused (cur next : ccue) : ccue :=
  let '(cur_start, cur_end, cur_start_ts, _, text) := cur in
  let '(_, next_end, _, _, next_text) := next in
  (cur_start, Z.max cur_end next_end, cur_start_ts,
   ms_to_vtt (Z.max cur_end next_end), clean_text (text ++ py " " ++ next_text)).

(** The order of the sort: ascending by (start, end). *)
Definition start_end_le (x y : ccue) : Prop :=
  let '(s, e, _, _, _) := x in
  let '(s', e', _, _, _) := y in
  (s < s')%Z \/ (s = s' /\ (e <= e')%Z).

(** A document with a cue whose timestamps do not decode between two
    cues that are well formed. *)
Definition doc_malformed : str := py "WEBVTT

00:00:01.000 --> 00:00:02.000
Hello

abc --> def
bad

00:00:03.000 --> 00:00:04.000
World
".

(** A line whose end timestamp is before its start, with settings. *)
Definition line_swapped : str := py "05:00.000 --> 02:00.000 align:start" ++ [LF].

(** A document whose only cue ends before it starts. *)
Definition doc_reversed : str := py "WEBVTT

00:00:05.000 --> 00:00:02.000
Hello
".

(** The claim C2 on the compressor, as it is stated: every cue written
    has its times in order. *)
Definition compressor_orders_times : Prop :=
  forall content cues gap_ms max_chars,
    compress_parse content = Ok cues ->
    Forall out_ordered (merge_cues gap_ms max_chars cues).

(** The document the compressor is run on in the witnesses. *)
Definition doc_three_cues : str := py "WEBVTT

00:00:01.000 --> 00:00:02.000
Hello

00:00:02.100 --> 00:00:03.000
world.

00:00:03.000 --> 00:00:04.000
Next
".

Definition three_cues : list ccue :=
  [(1000, 2000, py "00:00:01.000", py "00:00:02.000", py "Hello");
   (2100, 3000, py "00:00:02.100", py "00:00:03.000", py "world.");
   (3000, 4000, py "00:00:03.000", py "00:00:04.000", py "Next")]%Z.

(** A document without a signature line: two cues. *)
Definition doc_headerless : str := py "00:00:01.000 --> 00:00:02.000
Hello

00:00:03.000 --> 00:00:04.000
World
".

(** The claim C5, as it is stated: a text of the dialect decodes to its
    value times 1000, rounded. *)
Definition seconds_are_rounded : Prop :=
  forall ts r, pure_seconds ts -> parse_ts_to_ms ts = Ok r -> is_round_of_ms ts r.

(** The lines the fixer is run on in the witness: one to swap, one to
    normalize, one that does not decode and plain text. *)
Definition lines_to_fix : list str :=
  [py "WEBVTT" ++ [LF]; [LF]; line_swapped; py "Hello" ++ [LF]; [LF];
   py "46.550 --> 50,5" ++ [LF]; py "x --> y" ++ [LF]].

Definition lines_fixed : list str :=
  [py "WEBVTT" ++ [LF]; [LF];
   py "00:02:00.000 --> 00:05:00.000 align:start" ++ [LF];
   py "Hello" ++ [LF]; [LF];
   py "00:00:46.550 --> 00:00:50.500" ++ [LF]; py "x --> y" ++ [LF]].

(** A document with cues that start at 0, 599999, 600000 and
    1199999 ms. *)
Definition doc_four_cues : str := py "WEBVTT

00:00:00.000 --> 00:00:01.000
a

00:09:59.999 --> 00:10:00.000
b

00:10:00.000 --> 00:10:01.000
c

00:19:59.999 --> 00:20:00.000
d
".

Definition four_cues : list Cue :=
  [mkCue 0 1000 [py "a"] (py "00:00:00.000 --> 00:00:01.000");
   mkCue 599999 600000 [py "b"] (py "00:09:59.999 --> 00:10:00.000");
   mkCue 600000 601000 [py "c"] (py "00:10:00.000 --> 00:10:01.000");
   mkCue 1199999 1200000 [py "d"] (py "00:19:59.999 --> 00:20:00.000")].

(** Following the specification: the start time of the first cue the cue
    parser finds in a file, or the sentinel when it finds none. *)
Definition spec_first_start (content : str) : Z :=
  match iter_cues (split_header_and_body (read_text_lines content)).2 with
  | Ok (c :: _) => start_ms c
  | _ => (10 ^ 12)%Z
  end.

(** The claim C9 on a file without a cue, as it is stated: in the merge
    order only files without a cue follow a file without a cue. *)
Definition cueless_files_are_last : Prop :=
  forall files g f l1 l2,
    files_sorted files = l1 ++ g :: l2 -> In f l2 ->
    iter_cues (split_header_and_body (read_text_lines g.2)).2 = Ok [] ->
    iter_cues (split_header_and_body (read_text_lines f.2)).2 = Ok [].

(** A file whose only timestamp line has a start that decodes and an end
    that does not: the cue parser finds no cue in it. *)
Definition file_half : file := (py "half.vtt", py "WEBVTT

00:00:05.000 --> xx
Hi
").

Definition file_late : file := (py "late.vtt", py "WEBVTT

00:00:10.000 --> 00:00:11.000
Yo
").

(** Three files whose first cues start at 20000, 5000 and 15000 ms, and
    a file without a timestamp line. *)
Definition file_first : file := (py "a.vtt", py "WEBVTT

00:00:20.000 --> 00:00:21.000
first
").

Definition file_second : file := (py "b.vtt", py "WEBVTT

00:00:05.000 --> 00:00:06.000
second
").

Definition file_third : file := (py "c.vtt", py "WEBVTT

00:00:15.000 --> 00:00:16.000
third
").

Definition file_cueless : file := (py "0.vtt", py "WEBVTT

no cue here
").

(** Two files with the content of [file_second], named "Ä.vtt" (U+00C4)
    and "ã.vtt" (U+00E3). *)
Definition file_A_umlaut : file := ([196; 46; 118; 116; 116]%N, file_second.2).
Definition file_a_tilde : file := ([227; 46; 118; 116; 116]%N, file_second.2).

(** The order of the keys, written out. *)
Definition key_order (f g : file) : Prop :=
  let t := first_cue_start_ms f.2 in
  let t' := first_cue_start_ms g.2 in
  let pn := part_number_from_name f.1 in
  let pn' := part_number_from_name g.1 in
  (t < t')%Z \/
  (t = t' /\ ((pn < pn')%Z \/
              (pn = pn' /\ str_compare (lower f.1) (lower g.1) <> Gt))).

(** A document with a silent window: cues at 0:00 and at 20:00. *)
Definition doc_gap : str := py "WEBVTT

00:00:00.000 --> 00:00:01.000
a

00:20:00.000 --> 00:20:01.000
d
".

(** The names of the files a run writes. *)
Definition names_written (r : result (list (str * str))) : result (list str) :=
  match r with
  | Ok files => Ok (List.map fst files)
  | Raise e => Raise e
  end.

(* ================================================================== *)
(** * The vocabulary of the further properties *)
(* ================================================================== *)

(* ------------------------------------------------------------------ *)
(** ** Text lines, header and body *)

(** A line as [read_text_lines] returns it: it is not empty, no carriage
    return is left in it, and a line boundary is its last character only. *)
Definition one_line (l : str) : Prop :=
  exists text term,
    l = text ++ term /\ l <> [] /\
    Forall (fun c => is_linebreak c = false) text /\
    (term = [] \/ exists c, term = [c] /\ is_linebreak c = true /\ c <> CR).

(** A line that ends with its line boundary. *)
Definition terminated (l : str) : Prop :=
  exists text c,
    l = text ++ [c] /\ Forall (fun x => is_linebreak x = false) text /\
    is_linebreak c = true /\ c <> CR.

(** Lines as [read_text_lines] returns them: every line but the last
    ends with its line boundary, and the last is a line as well. *)
Fixpoint lines_as_read (lines : list str) : Prop :=
  match lines with
  | [] => True
  | l :: rest =>
      match rest with
      | [] => one_line l
      | _ => terminated l /\ lines_as_read rest
      end
  end.

(** The lines the splitter shares out between the header and the body:
    the leading blank lines are dropped and a signature line loses its
    byte order marks. *)
Definition lines_kept (lines : list str) : list str :=
  match drop_while_line blank lines with
  | l :: rest => (if is_signature l then lstrip_char BOM l else l) :: rest
  | [] => []
  end.

(* ------------------------------------------------------------------ *)
(** ** The checker, and the readers after the fixer *)

(** A line no reader of timestamp lines fails on: when it has the arrow,
    something that is no white space follows the arrow. *)
Definition readable (line : str) : Prop :=
  match ts_line_match line with
  | Some (_, g2, _) => is_ok (first_token (strip g2)) = true
  | None => True
  end.

(** A line that is no timestamp line, or whose two timestamps decode. *)
Definition decodes (line : str) : Prop :=
  ts_line_match line = None \/ line_times line <> None.

(** The lines with times, numbered from [n], as the checker collects them. *)
Fixpoint timed_lines (n : nat) (lines : list str) : list checked_cue :=
  match lines with
  | [] => []
  | line :: rest =>
      match line_times line with
      | Some (s, e) => (n, s, e, rstrip_char LF line) :: timed_lines (S n) rest
      | None => timed_lines (S n) rest
      end
  end.

(** The times of the cues in the order of the document: start, end,
    start, end, ... *)
Definition times_of (cues : list checked_cue) : list Z :=
  flat_map (fun c => [c.1.1.2; c.1.2]) cues.

(** What the first loop of the checker reports on one line. *)
Definition line_issues (line : str) : list issue_kind :=
  match ts_line_match line with
  | None => []
  | Some _ =>
      match line_times line with
      | None => [PARSE_FAIL]
      | Some (s, e) => if (e <? s)%Z then [END_BEFORE_START] else []
      end
  end.

(** A cue that starts neither before the start nor before the end of the
    cue before it, and so on along the list. *)
Fixpoint follows (last : option (Z * Z)) (cues : list checked_cue) : Prop :=
  match cues with
  | [] => True
  | c :: rest =>
      match last with
      | None => True
      | Some (last_start, last_end) => (last_start <= c.1.1.2)%Z /\ (last_end <= c.1.1.2)%Z
      end /\ follows (Some (c.1.1.2, c.1.2)) rest
  end.

(** A line whose times, when it has times, are in order and not negative. *)
Definition times_fixed (x : str) : Prop :=
  match line_times x with
  | Some (s, e) => (0 <= s <= e)%Z
  | None => True
  end.

(** The actions the log of the fixer has for the line numbered [i]. *)
Definition log_of (i : nat) (log : list log_entry) : list action :=
  List.map (fun entry => entry.1.2) (List.filter (fun entry => entry.1.1 =? i) log).

(** What the actions logged for a line say about the line and the line
    written for it. *)
Definition explains (line x : str) (actions : list action) : Prop :=
  match actions with
  | [] => strip x = strip line
  | [SKIP_UNPARSEABLE] => x = line /\ line_times line = None
  | [SWAP_START_END] => exists s e, line_times line = Some (s, e) /\ (e < s)%Z
  | [NORMALIZE] =>
      strip x <> strip line /\ exists s e, line_times line = Some (s, e) /\ (s <= e)%Z
  | _ => False
  end.

(* ------------------------------------------------------------------ *)
(** ** The splitter: buckets and outcome *)

(** The start of the chunk the bucket at index [i] stands for, as the
    writing loop computes it from the number [i + 1] of the bucket. *)
Definition chunk_start_of (base_ms chunk_ms : Z) (i : nat) : Z :=
  (base_ms + (Z.of_nat (S i) - 1) * chunk_ms)%Z.

(** The cues the cue parser finds in a document. *)
Definition cues_of (content : str) : result (list Cue) :=
  iter_cues (split_header_and_body (read_text_lines content)).2.

(* ------------------------------------------------------------------ *)
(** ** The decoder on timestamps with colons *)

(** The milliseconds a colon timestamp takes from what follows the first
    full stop of its last field: the first three decimal digits, with
    zeros for the digits that are missing. *)
Definition fraction_ms (fr : str) : Z :=
  digits_value (take 3 (List.filter is_decimal fr ++ py "000")).

(** The number of colons of a text. *)
Definition colons (s : str) : nat := length (List.filter (N.eqb 58) s).

(** The text the decoder works on: without the white space around it,
    commas as full stops. *)
Definition normal_text (ts : str) : str := replace_char 44 (py ".") (strip ts).

(* ------------------------------------------------------------------ *)
(** ** The part number of the name of a part *)

(** The word "part" occurs in [s], in any case. *)
Fixpoint mentions_part (s : str) : bool :=
  startswith (List.map lower_char s) (py "part")
  || match s with
     | [] => false
     | _ :: s' => mentions_part s'
     end.

(* ------------------------------------------------------------------ *)
(** ** The compressor: runs, budget and spacing *)

(** The text of a cue of the compressor. *)
Definition text_of (c : ccue) : str := c.2.

(** The cue [m] is written for the run of cues [run]: the cues of the
    run fused one after the other into the first. *)
Definition written_for (run : list ccue) (m : str * str * str) : Prop :=
  exists first more, run = first :: more /\ m = flush (fold_left spec_fused more first).

(** White space in [t] is the character U+0020 alone, and never two in
    a row. *)
Fixpoint single_spaced (t : str) : Prop :=
  match t with
  | [] => True
  | c :: t' =>
      (is_space c = true -> c = SPACE /\ stops is_space t') /\ single_spaced t'
  end.

(* ------------------------------------------------------------------ *)
(** ** The texts of the cues and the rebased parts *)

(** A text line as the cue parser keeps it: it is not blank and it has
    no line feed at its end. *)
Definition kept_text (t : str) : Prop := blank t = false /\ rstrip_char LF t = t.

(** The cue a rebased part holds for the cue [c]: the times are counted
    from the start of the chunk, a negative time as 0, and the timestamp
    line is rewritten. *)
Definition rebased (chunk_start : Z) (c : Cue) : Cue :=
  mkCue (Z.max 0 (start_ms c - chunk_start)) (Z.max 0 (end_ms c - chunk_start))
        (text_lines c)
        (ms_to_vtt (start_ms c - chunk_start) ++ py " --> "
           ++ ms_to_vtt (end_ms c - chunk_start)).

(* ------------------------------------------------------------------ *)
(** ** Lines written and read again *)

(** [Path.suffix] of a file name: its last suffix, with its full stop. *)
Definition path_suffix (name : str) : str :=
  match rfind_dot 0 name with
  | Some i => if (0 <? i) && (i <? length name - 1) then drop i name else []
  | None => []
  end.

(** The name of the file of the fixed lines:
    [in_path.with_name(f"{in_path.stem}_fixed{in_path.suffix}")]. *)
Definition fixed_name (name : str) : str :=
  path_stem name ++ py "_fixed" ++ path_suffix name.

(** [cmd_cleansplit] on the file [name] with the content [content]: the
    file of the fixed lines it writes, and the result of [cmd_split] on
    that file. An error of the fixer leaves nothing written. *)
Definition cmd_cleansplit (name content : str) (minutes : Z)
    (rebase start_at_zero : bool) : result (file * result (list (str * str))) :=
  let lines := read_text_lines content in
  do r <- fix_vtt_timestamps lines;
  let fixed_content := write_text_lines r.1 in
  Ok ((fixed_name name, fixed_content),
      cmd_split (path_stem (fixed_name name)) fixed_content minutes rebase
        start_at_zero).

(** How the fixer writes a line: as it is, or as a timestamp line that
    ends with a line feed and starts with a digit. *)
Definition written_line (line x : str) : Prop :=
  x = line \/
  (terminated x /\ exists c t, x = c :: t /\ canon_char c = true).

(* ------------------------------------------------------------------ *)
(** ** The command clean *)

(** The file [cmd_clean] writes the fixed lines to: [out_file] when it
    is given and not empty, the file [fixed_name] otherwise. *)
Definition clean_out_name (name : str) (out_file : option str) : str :=
  match out_file with
  | Some o => if is_empty o then fixed_name name else o
  | None => fixed_name name
  end.

(** [cmd_clean] on the file [name] with the content [content]: the
    issues of its report and, in fix mode, the file it writes and the log
    of the fixer. [fix_mode] is the argument [fix]; the argument [show]
    bounds the number of issues and of log entries that are printed, and
    is left out. *)
Definition cmd_clean (name content : str) (out_file : option str) (fix_mode : bool)
    : result (list issue * option (file * list log_entry)) :=
  let lines := read_text_lines content in
  do r <- check_and_collect_issues lines;
  if fix_mode then
    do f <- fix_vtt_timestamps lines;
    Ok (r.1, Some ((clean_out_name name out_file, write_text_lines f.1), f.2))
  else Ok (r.1, None).

(* ================================================================== *)
(** * Properties of the string methods *)
(* ================================================================== *)

Section StringFacts.

(** [str.lower] and [str.upper] outside ASCII: "Ä.VTT" is lowered to
    "ä.vtt"; the capital sigma is lowered to the final sigma at the end of
    a word only ("ΟΔΟΣ.ΣΑΣ" to "οδοσ.σας", the full stop being passed
    over); the capital I with a dot is lowered to two characters; the t
    with a diaeresis (U+1E97) and the sharp s are raised to two. *)
Lemma case_mappings_outside_ascii :
  lower [196; 46; 86; 84; 84]%N = [228; 46; 118; 116; 116]%N /\
  lower [927; 916; 927; 931; 46; 931; 913; 931]%N
  = [959; 948; 959; 963; 46; 963; 945; 962]%N /\
  lower [304; 115]%N = [105; 775; 115]%N /\
  upper [119; 101; 98; 118; 116; 7831]%N = [87; 69; 66; 86; 84; 84; 776]%N /\
  upper [223]%N = [83; 83]%N /\
  is_signature (BOM :: [87; 69; 66; 86; 84; 7831]%N) = true.
Proof. repeat split; vm_compute; reflexivity. Qed.

Lemma drop_while_app (p : N -> bool) (x y : str) :
  drop_while p (x ++ y) =
  match drop_while p x with
  | [] => drop_while p y
  | z => z ++ y
  end.
Proof.
  induction x as [|c x IH]; simpl.
  - destruct (drop_while p y); reflexivity.
  - destruct (p c); [apply IH | reflexivity].
Qed.

Lemma drop_while_all (p : N -> bool) (x : str) :
  Forall (fun c => p c = true) x -> drop_while p x = [].
Proof. induction 1 as [|c x Hc _ IH]; simpl; [easy | now rewrite Hc]. Qed.

Lemma drop_while_head (p : N -> bool) (c : N) (x : str) :
  p c = false -> drop_while p (c :: x) = c :: x.
Proof. intros H; simpl; now rewrite H. Qed.

Lemma take_drop_while (p : N -> bool) (x : str) :
  take_while p x ++ drop_while p x = x.
Proof. induction x as [|c x IH]; simpl; [easy|]. destruct (p c); simpl; congruence. Qed.

Lemma take_while_all (p : N -> bool) (x : str) :
  Forall (fun c => p c = true) (take_while p x).
Proof.
  induction x as [|c x IH]; simpl; [constructor|].
  destruct (p c) eqn:E; constructor; assumption.
Qed.

Lemma drop_while_not_head (p : N -> bool) (x : str) :
  match drop_while p x with
  | [] => True
  | c :: _ => p c = false
  end.
Proof.
  induction x as [|c x IH]; simpl; [easy|].
  destruct (p c) eqn:E; [exact IH | exact E].
Qed.

Lemma take_while_app_all (p : N -> bool) (x y : str) :
  Forall (fun c => p c = true) x -> take_while p (x ++ y) = x ++ take_while p y.
Proof. induction 1 as [|c x Hc _ IH]; simpl; [easy|]. now rewrite Hc, IH. Qed.

Lemma drop_while_app_all (p : N -> bool) (x y : str) :
  Forall (fun c => p c = true) x -> drop_while p (x ++ y) = drop_while p y.
Proof. induction 1 as [|c x Hc _ IH]; simpl; [easy|]. now rewrite Hc. Qed.

(** [rstrip] of a concatenation. *)
Lemma rstrip_app (a b : str) :
  rstrip (a ++ b) = match rstrip b with [] => rstrip a | t => a ++ t end.
Proof.
  unfold rstrip. rewrite rev_app_distr, drop_while_app.
  destruct (drop_while is_space (rev b)) as [|c t] eqn:E; [reflexivity|].
  rewrite rev_app_distr, rev_involutive.
  destruct (rev (c :: t)) eqn:E2; [|reflexivity].
  apply (f_equal (@length N)) in E2. rewrite length_rev in E2. discriminate.
Qed.

Lemma rstrip_app_ne (a b : str) :
  rstrip b <> [] -> rstrip (a ++ b) = a ++ rstrip b.
Proof. intros H. rewrite rstrip_app. now destruct (rstrip b). Qed.

Lemma rstrip_app_nil (a b : str) :
  rstrip b = [] -> rstrip (a ++ b) = rstrip a.
Proof. intros H. rewrite rstrip_app. now rewrite H. Qed.

Lemma rstrip_snoc (a : str) (c : N) :
  is_space c = false -> rstrip (a ++ [c]) = a ++ [c].
Proof.
  intros H. unfold rstrip. rewrite rev_app_distr. simpl. rewrite H. simpl.
  now rewrite rev_involutive.
Qed.

Lemma rstrip_all_space (a : str) :
  Forall (fun c => is_space c = true) a -> rstrip a = [].
Proof.
  intros H. unfold rstrip. rewrite drop_while_all; [reflexivity|].
  now apply Forall_rev.
Qed.

(** What [rstrip] leaves is empty or ends with a character that is no
    white space, and it is a prefix of its argument. *)
Lemma rstrip_spec (a : str) :
  exists w, a = rstrip a ++ w /\ Forall (fun c => is_space c = true) w /\
    (rstrip a = [] \/ exists b c, rstrip a = b ++ [c] /\ is_space c = false).
Proof.
  unfold rstrip.
  exists (rev (take_while is_space (rev a))). split; [|split].
  - rewrite <- rev_app_distr, take_drop_while. now rewrite rev_involutive.
  - apply Forall_rev, take_while_all.
  - pose proof (drop_while_not_head is_space (rev a)) as H.
    destruct (drop_while is_space (rev a)) as [|c t]; [now left|].
    right. exists (rev t), c. now split.
Qed.

Lemma rstrip_idem (a : str) : rstrip (rstrip a) = rstrip a.
Proof.
  destruct (rstrip_spec a) as (w & _ & _ & [E | (b & c & E & Hc)]).
  - now rewrite E.
  - rewrite E. now apply rstrip_snoc.
Qed.

End StringFacts.

(* ================================================================== *)
(** * Properties of the matcher *)
(* ================================================================== *)

Section MatcherFacts.

Lemma star_loop_unfold body g (k : mcont) fuel i s c :
  star_loop body g k (S fuel) i s c =
  let more := fun _ : unit =>
    body i s c (fun i' s' c' =>
      if i <? i' then star_loop body g k fuel i' s' c' else None) in
  let stop := fun _ : unit => k i s c in
  if g then or_else (more tt) stop else or_else (stop tt) more.
Proof. reflexivity. Qed.

Lemma rmatch_char_cons (p : N -> bool) i x s c (k : mcont) :
  rmatch (RChar p) i (x :: s) c k = if p x then k (S i) s c else None.
Proof. reflexivity. Qed.

Lemma rmatch_char_nil (p : N -> bool) i c (k : mcont) :
  rmatch (RChar p) i [] c k = None.
Proof. reflexivity. Qed.

(** One iteration of a repetition of a class on a character of the
    class. *)
Lemma star_class_cons (p : N -> bool) g (k : mcont) fuel i x s c :
  p x = true ->
  star_loop (rmatch (RChar p)) g k (S fuel) i (x :: s) c =
  if g then or_else (star_loop (rmatch (RChar p)) g k fuel (S i) s c)
                    (fun _ => k i (x :: s) c)
  else or_else (k i (x :: s) c)
               (fun _ => star_loop (rmatch (RChar p)) g k fuel (S i) s c).
Proof.
  intros Hx. rewrite star_loop_unfold. cbv zeta. rewrite rmatch_char_cons, Hx.
  assert (E : (i <? S i) = true) by (apply Nat.ltb_lt; lia). now rewrite E.
Qed.

Lemma star_class_stop (p : N -> bool) (g : bool) (k : mcont) fuel i s c :
  stops p s ->
  star_loop (rmatch (RChar p)) g k (S fuel) i s c = k i s c.
Proof.
  intros H. rewrite star_loop_unfold. cbv zeta.
  destruct s as [|x s]; simpl in H.
  - rewrite rmatch_char_nil. destruct g; simpl; destruct (k i [] c); reflexivity.
  - rewrite rmatch_char_cons, H.
    destruct g; simpl; destruct (k i (x :: s) c); reflexivity.
Qed.

(** A greedy repetition of a class takes the longest run when the rest
    of the pattern matches after it. *)
Lemma star_class_greedy (p : N -> bool) (k : mcont) (W rest : str) c r :
  Forall (fun x => p x = true) W -> stops p rest ->
  forall fuel i, length W < fuel ->
  k (i + length W) rest c = Some r ->
  star_loop (rmatch (RChar p)) true k fuel i (W ++ rest) c = Some r.
Proof.
  intros HW Hrest. induction HW as [|x W Hx _ IH]; intros fuel i Hf Hk.
  - destruct fuel as [|fuel]; [lia|]. rewrite star_class_stop by assumption.
    now rewrite Nat.add_0_r in Hk.
  - destruct fuel as [|fuel]; [simpl in Hf; lia|].
    rewrite <- app_comm_cons, star_class_cons by assumption.
    rewrite (IH fuel (S i)); [reflexivity | simpl in Hf; lia |].
    simpl in Hk. now replace (S i + length W) with (i + S (length W)) by lia.
Qed.

(** It fails when the rest of the pattern matches after no part of the
    run. *)
Lemma star_class_greedy_fail (p : N -> bool) (k : mcont) (W rest : str) c :
  Forall (fun x => p x = true) W -> stops p rest ->
  forall fuel i,
  (forall W1 W2, W = W1 ++ W2 -> k (i + length W1) (W2 ++ rest) c = None) ->
  star_loop (rmatch (RChar p)) true k fuel i (W ++ rest) c = None.
Proof.
  intros HW Hrest. induction HW as [|x W Hx _ IH]; intros fuel i Hk.
  - specialize (Hk [] [] eq_refl). simpl in Hk. rewrite Nat.add_0_r in Hk.
    destruct fuel as [|fuel]; [exact Hk|].
    now rewrite star_class_stop by assumption.
  - destruct fuel as [|fuel].
    + specialize (Hk [] (x :: W) eq_refl). simpl in Hk.
      now rewrite Nat.add_0_r in Hk.
    + rewrite <- app_comm_cons, star_class_cons by assumption.
      rewrite (IH fuel (S i)).
      * simpl. specialize (Hk [] (x :: W) eq_refl). simpl in Hk.
        now rewrite Nat.add_0_r in Hk.
      * intros W1 W2 ->. specialize (Hk (x :: W1) W2 eq_refl). simpl in Hk.
        now replace (S i + length W1) with (i + S (length W1)) by lia.
Qed.

(** A lazy repetition of a class stops at the first place the rest of the
    pattern matches. *)
Lemma star_class_lazy (p : N -> bool) (k : mcont) (X rest : str) c r :
  Forall (fun x => p x = true) X ->
  forall fuel i, length X < fuel ->
  (forall X1 X2, X = X1 ++ X2 -> X2 <> [] ->
     k (i + length X1) (X2 ++ rest) c = None) ->
  k (i + length X) rest c = Some r ->
  star_loop (rmatch (RChar p)) false k fuel i (X ++ rest) c = Some r.
Proof.
  intros HX. induction HX as [|x X Hx _ IH]; intros fuel i Hf Hnone Hk.
  - destruct fuel as [|fuel]; [lia|]. simpl in *.
    rewrite Nat.add_0_r in Hk. now rewrite Hk.
  - destruct fuel as [|fuel]; [simpl in Hf; lia|].
    rewrite <- app_comm_cons, star_class_cons by assumption.
    pose proof (Hnone [] (x :: X) eq_refl ltac:(discriminate)) as H0.
    simpl in H0. rewrite Nat.add_0_r in H0. rewrite H0. simpl.
    apply IH.
    + simpl in Hf; lia.
    + intros X1 X2 -> HX2. specialize (Hnone (x :: X1) X2 eq_refl HX2).
      simpl in Hnone. now replace (S i + length X1) with (i + S (length X1)) by lia.
    + simpl in Hk. now replace (S i + length X) with (i + S (length X)) by lia.
Qed.

Lemma rmatch_seq r1 r2 i s c (k : mcont) :
  rmatch (RSeq r1 r2) i s c k =
  rmatch r1 i s c (fun i' s' c' => rmatch r2 i' s' c' k).
Proof. reflexivity. Qed.

Lemma rmatch_star g r i s c (k : mcont) :
  rmatch (RStar g r) i s c k = star_loop (rmatch r) g k (S (length s)) i s c.
Proof. reflexivity. Qed.

Lemma rmatch_alt r1 r2 i s c (k : mcont) :
  rmatch (RAlt r1 r2) i s c k =
  or_else (rmatch r1 i s c k) (fun _ => rmatch r2 i s c k).
Proof. reflexivity. Qed.

Lemma rmatch_group n r i s c (k : mcont) :
  rmatch (RGroup n r) i s c k =
  rmatch r i s c (fun i' s' c' => k i' s' ((n, take (i' - i) s) :: c')).
Proof. reflexivity. Qed.

Lemma rmatch_star_greedy (p : N -> bool) (k : mcont) (W rest : str) i c r :
  Forall (fun x => p x = true) W -> stops p rest ->
  k (i + length W) rest c = Some r ->
  rmatch (RStar true (RChar p)) i (W ++ rest) c k = Some r.
Proof.
  intros. rewrite rmatch_star. apply star_class_greedy; try assumption.
  rewrite length_app. lia.
Qed.

Lemma rmatch_plus_greedy (p : N -> bool) (k : mcont) (x : N) (W rest : str) i c r :
  p x = true -> Forall (fun x => p x = true) W -> stops p rest ->
  k (i + S (length W)) rest c = Some r ->
  rmatch (RPlus true (RChar p)) i (x :: W ++ rest) c k = Some r.
Proof.
  intros Hx HW Hrest Hk. unfold RPlus.
  rewrite rmatch_seq, rmatch_char_cons, Hx, rmatch_star.
  apply star_class_greedy; try assumption.
  - rewrite length_app. lia.
  - now replace (S i + length W) with (i + S (length W)) by lia.
Qed.

Lemma rmatch_plus_greedy_fail (p : N -> bool) (k : mcont) (W rest : str) i c :
  Forall (fun x => p x = true) W -> stops p rest ->
  (forall W1 W2, W = W1 ++ W2 -> k (i + length W1) (W2 ++ rest) c = None) ->
  rmatch (RPlus true (RChar p)) i (W ++ rest) c k = None.
Proof.
  intros HW Hrest Hk. unfold RPlus. rewrite rmatch_seq.
  destruct HW as [|x W Hx HW].
  - destruct rest as [|y rest]; [reflexivity|]. simpl in Hrest.
    cbn [app]. now rewrite rmatch_char_cons, Hrest.
  - rewrite <- app_comm_cons, rmatch_char_cons, Hx, rmatch_star.
    apply star_class_greedy_fail; try assumption.
    intros W1 W2 ->. specialize (Hk (x :: W1) W2 eq_refl). simpl in Hk.
    now replace (S i + length W1) with (i + S (length W1)) by lia.
Qed.

Lemma rmatch_plus_lazy (p : N -> bool) (k : mcont) (x : N) (X rest : str) i c r :
  p x = true -> Forall (fun x => p x = true) X ->
  (forall X1 X2, X = X1 ++ X2 -> X2 <> [] ->
     k (i + S (length X1)) (X2 ++ rest) c = None) ->
  k (i + S (length X)) rest c = Some r ->
  rmatch (RPlus false (RChar p)) i (x :: X ++ rest) c k = Some r.
Proof.
  intros Hx HX Hnone Hk. unfold RPlus.
  rewrite rmatch_seq, rmatch_char_cons, Hx, rmatch_star.
  apply star_class_lazy; try assumption.
  - rewrite length_app. lia.
  - intros X1 X2 E HX2. specialize (Hnone X1 X2 E HX2).
    now replace (S i + length X1) with (i + S (length X1)) by lia.
  - now replace (S i + length X) with (i + S (length X)) by lia.
Qed.

Lemma rmatch_lit (l rest : str) (k : mcont) i c :
  rmatch (RLit l) i (l ++ rest) c k = k (i + length l) rest c.
Proof.
  revert i. induction l as [|x l IH]; intros i; simpl.
  - now rewrite Nat.add_0_r.
  - rewrite N.eqb_refl, IH. f_equal. lia.
Qed.

End MatcherFacts.

(* ================================================================== *)
(** * The timestamp line pattern on a canonical line *)
(* ================================================================== *)

Section CanonicalLine.

Lemma TS_LINE_RE_parts :
  TS_LINE_RE =
  RSeq RBol (RSeq (RStar true (RChar is_space))
            (RSeq (RGroup 1 (RPlus false (RChar any_char))) ts_re_arrow)).
Proof. reflexivity. Qed.

Lemma plain_not_space c : plain c = true -> is_space c = false.
Proof. unfold plain. destruct (is_space c); [discriminate | reflexivity]. Qed.

Lemma plain_not_hyphen c : plain c = true -> (45 =? c)%N = false.
Proof.
  unfold plain. rewrite (N.eqb_sym 45 c).
  destruct (is_space c), (c =? 45)%N; simpl; congruence.
Qed.

Lemma space_LF : is_space LF = true.
Proof. reflexivity. Qed.

Lemma not_space_any c : is_space c = false -> any_char c = true.
Proof.
  unfold any_char. destruct (c =? LF)%N eqn:E; [|reflexivity].
  apply N.eqb_eq in E. subst c. discriminate.
Qed.

Lemma plain_any c : plain c = true -> any_char c = true.
Proof. intros H. now apply not_space_any, plain_not_space. Qed.

Lemma Forall_plain_any (s : str) :
  Forall (fun c => plain c = true) s -> Forall (fun c => any_char c = true) s.
Proof. intros H. eapply Forall_impl; [exact H|]. intros c. apply plain_any. Qed.

Lemma tail_match (T : str) i c :
  tail_shape T ->
  exists j, rmatch ts_re_tail i (T ++ [LF]) c accept
            = Some (j, (3, tail_group T) :: c).
Proof.
  intros HT. unfold ts_re_tail, ROpt.
  destruct HT as [|w W Y Hw HW HY Hstop Hany _]; eexists;
    rewrite rmatch_seq, rmatch_alt, rmatch_group, rmatch_seq.
  - change (@nil N ++ [LF]) with (LF :: @nil N ++ []).
    erewrite rmatch_plus_greedy; [reflexivity | easy | easy | easy |].
    change (@nil N) with (@nil N ++ []) at 2.
    apply rmatch_star_greedy; [easy | easy |].
    cbn [rmatch]. unfold accept.
    apply f_equal, f_equal2; [reflexivity|]. apply f_equal2; [|reflexivity].
    apply f_equal. cbn [tail_group app length].
    replace (i + 1 + 0 - i) with 1 by lia. reflexivity.
  - replace ((w :: W ++ Y) ++ [LF]) with (w :: W ++ (Y ++ [LF]))
      by (simpl; now rewrite <- app_assoc).
    erewrite rmatch_plus_greedy; [reflexivity | easy | easy | |].
    + destruct Y; [contradiction | exact Hstop].
    + apply rmatch_star_greedy; [easy | easy |].
      cbn [rmatch]. rewrite N.eqb_refl. unfold accept.
      apply f_equal, f_equal2; [reflexivity|]. apply f_equal2; [|reflexivity].
      apply f_equal.
      replace (w :: W ++ Y ++ [LF]) with ((w :: W ++ Y) ++ [LF])
        by (simpl; now rewrite <- app_assoc).
      apply take_app_length'. simpl. rewrite length_app. lia.
Qed.

(** Inside the end timestamp the tail does not match. *)
Lemma tail_fail (y : N) (s : str) i c :
  is_space y = false ->
  rmatch ts_re_tail i (y :: s ++ [LF]) c accept = None.
Proof.
  intros Hy. unfold ts_re_tail, ROpt, RPlus.
  rewrite rmatch_seq, rmatch_alt, rmatch_group, !rmatch_seq, rmatch_char_cons, Hy.
  cbn. destruct (s ++ [LF]) eqn:E; [|reflexivity].
  now destruct s.
Qed.

Lemma end_match (B T : str) i c :
  B <> [] -> Forall (fun x => plain x = true) B -> tail_shape T ->
  exists j, rmatch ts_re_end i (B ++ T ++ [LF]) c accept
            = Some (j, (3, tail_group T) :: (2, B) :: c).
Proof.
  intros HB HpB HT. destruct B as [|b B]; [contradiction|].
  apply Forall_cons in HpB as [Hb HpB].
  destruct (tail_match T (i + S (length B)) ((2, b :: B) :: c) HT) as [j Hj].
  exists j. unfold ts_re_end. rewrite rmatch_seq, rmatch_group.
  rewrite <- app_comm_cons.
  apply rmatch_plus_lazy.
  - now apply plain_any.
  - now apply Forall_plain_any.
  - intros X1 [|y X2] -> HX2; [contradiction|].
    rewrite <- app_comm_cons, app_assoc. apply tail_fail.
    apply Forall_app in HpB as [_ HpB]. apply Forall_cons in HpB as [Hy _].
    now apply plain_not_space.
  - replace (i + S (length B) - i) with (length (b :: B)) by (simpl; lia).
    replace (b :: B ++ T ++ [LF]) with ((b :: B) ++ T ++ [LF]) by reflexivity.
    rewrite take_app_length. exact Hj.
Qed.

(** Inside the start timestamp the arrow does not match. *)
Lemma arrow_fail (y : N) (s : str) i c :
  plain y = true -> rmatch ts_re_arrow i (y :: s) c accept = None.
Proof.
  intros Hy. unfold ts_re_arrow.
  rewrite rmatch_seq, rmatch_star, star_class_stop
    by (simpl; now apply plain_not_space).
  cbn [py list_ascii_of_string List.map RLit]. 
  rewrite !rmatch_seq, rmatch_char_cons.
  change (N_of_ascii "-") with 45%N. now rewrite plain_not_hyphen.
Qed.

Lemma arrow_match (B T : str) i c :
  B <> [] -> Forall (fun x => plain x = true) B -> tail_shape T ->
  exists j, rmatch ts_re_arrow i (py " --> " ++ B ++ T ++ [LF]) c accept
            = Some (j, (3, tail_group T) :: (2, B) :: c).
Proof.
  intros HB HpB HT.
  destruct (end_match B T (i + 1 + 3 + 1) c HB HpB HT) as [j Hj].
  exists j. unfold ts_re_arrow. rewrite rmatch_seq.
  change (py " --> " ++ B ++ T ++ [LF])
    with ([SPACE] ++ (py "-->" ++ ([SPACE] ++ (B ++ T ++ [LF])))).
  apply rmatch_star_greedy; [now repeat constructor | reflexivity |].
  rewrite rmatch_seq, rmatch_lit, rmatch_seq.
  apply rmatch_star_greedy; [now repeat constructor | |].
  - destruct B as [|b B]; [contradiction|]. simpl.
    apply Forall_cons in HpB as [Hb _]. now apply plain_not_space.
  - exact Hj.
Qed.

(** The match of a canonical line: the two timestamp texts and what
    follows them. *)
Theorem ts_line_match_canonical (A B T : str) :
  A <> [] -> Forall (fun x => plain x = true) A ->
  B <> [] -> Forall (fun x => plain x = true) B ->
  tail_shape T ->
  ts_line_match (A ++ py " --> " ++ B ++ T ++ [LF])
  = Some (A, B, Some (tail_group T)).
Proof.
  intros HA HpA HB HpB HT. destruct A as [|a A]; [contradiction|].
  apply Forall_cons in HpA as [Ha HpA].
  destruct (arrow_match B T (0 + S (length A)) [(1, a :: A)] HB HpB HT) as [j Hj].
  unfold ts_line_match, re_match. rewrite TS_LINE_RE_parts.
  rewrite rmatch_seq.
  change (rmatch RBol 0 ?s ?c ?k) with (k 0 s c). cbv beta.
  rewrite rmatch_seq, rmatch_star, star_class_stop
    by (simpl; now apply plain_not_space).
  rewrite rmatch_seq, rmatch_group, <- app_comm_cons.
  rewrite (rmatch_plus_lazy any_char _ a A _ 0 []
             (j, (3, tail_group T) :: (2, B) :: [(1, a :: A)])).
  - reflexivity.
  - now apply plain_any.
  - now apply Forall_plain_any.
  - intros X1 [|y X2] -> HX2; [contradiction|].
    rewrite <- app_comm_cons. apply arrow_fail.
    apply Forall_app in HpA as [_ HpA]. now apply Forall_cons in HpA as [Hy _].
  - replace (0 + S (length A) - 0) with (length (a :: A)) by (simpl; lia).
    replace (a :: A ++ py " --> " ++ B ++ T ++ [LF])
      with ((a :: A) ++ py " --> " ++ B ++ T ++ [LF]) by reflexivity.
    rewrite take_app_length. exact Hj.
Qed.

End CanonicalLine.

(* ================================================================== *)
(** * Soundness of the matcher *)
(* ================================================================== *)

Section Soundness.

Lemma star_loop_sound (g : bool) (r : regex) (k : mcont) :
  (forall i s c (k' : mcont) res', rmatch r i s c k' = Some res' ->
     exists i' s' c', rsem r (i, s, c) (i', s', c') /\ k' i' s' c' = Some res') ->
  forall fuel i s c res,
  star_loop (rmatch r) g k fuel i s c = Some res ->
  exists i' s' c', rsem (RStar g r) (i, s, c) (i', s', c') /\ k i' s' c' = Some res.
Proof.
  intros IHr. induction fuel as [|fuel IH]; intros i s c res H.
  - simpl in H. exists i, s, c. split; [constructor | exact H].
  - rewrite star_loop_unfold in H. cbv zeta in H.
    assert (Hmore : forall res0,
      rmatch r i s c (fun i' s' c' =>
        if i <? i' then star_loop (rmatch r) g k fuel i' s' c' else None) = Some res0 ->
      exists i' s' c', rsem (RStar g r) (i, s, c) (i', s', c')
                       /\ k i' s' c' = Some res0).
    { intros res0 Hm. apply IHr in Hm as (i1 & s1 & c1 & Hsem & Hk).
      destruct (i <? i1); [|discriminate].
      apply IH in Hk as (i2 & s2 & c2 & Hsem2 & Hk2).
      exists i2, s2, c2. split; [|exact Hk2].
      eapply sem_star_step; eassumption. }
    destruct g; unfold or_else in H.
    + destruct (rmatch r i s c _) as [x|] eqn:E.
      * inversion H; subst x. now apply Hmore.
      * exists i, s, c. split; [constructor | exact H].
    + destruct (k i s c) as [x|] eqn:E.
      * inversion H; subst x. exists i, s, c. split; [constructor | exact E].
      * now apply Hmore.
Qed.

(** A successful run of the matcher is a match, and the continuation
    succeeded after it. *)
Theorem rmatch_sound (r : regex) :
  forall i s c (k : mcont) res, rmatch r i s c k = Some res ->
  exists i' s' c', rsem r (i, s, c) (i', s', c') /\ k i' s' c' = Some res.
Proof.
  induction r as [|p|r1 IH1 r2 IH2|r1 IH1 r2 IH2|g r IH|n r IH| |];
    intros i s c k res H.
  - exists i, s, c. split; [constructor | exact H].
  - destruct s as [|x s]; [discriminate|]. rewrite rmatch_char_cons in H.
    destruct (p x) eqn:E; [|discriminate].
    exists (S i), s, c. split; [now constructor | exact H].
  - rewrite rmatch_seq in H.
    apply IH1 in H as (i1 & s1 & c1 & Hs1 & H).
    apply IH2 in H as (i2 & s2 & c2 & Hs2 & H).
    exists i2, s2, c2. split; [|exact H]. eapply sem_seq; eassumption.
  - rewrite rmatch_alt in H. unfold or_else in H.
    destruct (rmatch r1 i s c k) as [x|] eqn:E.
    + inversion H; subst x. apply IH1 in E as (i1 & s1 & c1 & Hs & Hk).
      exists i1, s1, c1. split; [now apply sem_alt_l | exact Hk].
    + apply IH2 in H as (i1 & s1 & c1 & Hs & Hk).
      exists i1, s1, c1. split; [now apply sem_alt_r | exact Hk].
  - rewrite rmatch_star in H. eapply star_loop_sound; eassumption.
  - rewrite rmatch_group in H.
    apply IH in H as (i1 & s1 & c1 & Hs & Hk).
    exists i1, s1, ((n, take (i1 - i) s) :: c1). split; [now constructor | exact Hk].
  - simpl in H. destruct (i =? 0) eqn:E; [|discriminate].
    apply Nat.eqb_eq in E. subst i.
    exists 0, s, c. split; [constructor | exact H].
  - simpl in H. destruct s as [|x [|y s]]; try discriminate.
    + exists i, [], c. split; [constructor | exact H].
    + destruct (x =? LF)%N eqn:E; [|discriminate].
      apply N.eqb_eq in E. subst x.
      exists i, [LF], c. split; [constructor | exact H].
Qed.

(** What a repetition of a class consumes. *)
Lemma rsem_star_class g (p : N -> bool) st st' :
  rsem (RStar g (RChar p)) st st' ->
  exists W, st.1.2 = W ++ st'.1.2 /\ Forall (fun x => p x = true) W /\
            st'.1.1 = st.1.1 + length W /\ st'.2 = st.2.
Proof.
  intros H. remember (RStar g (RChar p)) as r eqn:Er.
  induction H; try discriminate.
  - exists []. simpl. repeat split; [constructor | lia].
  - inversion Er; subst g0 r. clear IHrsem1.
    destruct (IHrsem2 eq_refl) as (W & E & HW & Hi & Hc).
    inversion H; subst. simpl in *.
    exists (x :: W). simpl. rewrite E. repeat split.
    + now constructor.
    + lia.
    + exact Hc.
Qed.

Lemma rsem_plus_class g (p : N -> bool) i s c i' s' c' :
  rsem (RPlus g (RChar p)) (i, s, c) (i', s', c') ->
  exists W, s = W ++ s' /\ W <> [] /\ Forall (fun x => p x = true) W /\
            i' = i + length W /\ c' = c.
Proof.
  unfold RPlus. intros H. inversion H as [| |r1 r2 st1 st2 st3 H1 H2| | | | | | | |]; subst.
  inversion H1; subst.
  apply rsem_star_class in H2 as (W & E & HW & Hi & Hc). simpl in *.
  exists (x :: W). subst. repeat split; try easy; try (now constructor).
  all: simpl; lia.
Qed.

Lemma rsem_lit (l : str) i s c i' s' c' :
  rsem (RLit l) (i, s, c) (i', s', c') ->
  s = l ++ s' /\ i' = i + length l /\ c' = c.
Proof.
  revert i s. induction l as [|x l IH]; intros i s H; simpl in H.
  - inversion H; subst. simpl. repeat split. lia.
  - inversion H as [| |r1 r2 st1 st2 st3 H1 H2| | | | | | | |]; subst.
    inversion H1; subst.
    match goal with E : (_ =? _)%N = true |- _ => apply N.eqb_eq in E; subst end.
    apply IH in H2 as (E & Hi & Hc). subst. simpl. repeat split. lia.
Qed.

Lemma rsem_seq_inv r1 r2 st st' :
  rsem (RSeq r1 r2) st st' -> exists m, rsem r1 st m /\ rsem r2 m st'.
Proof. intros H. inversion H; subst. eauto. Qed.

Lemma rsem_group_inv n r i s c st' :
  rsem (RGroup n r) (i, s, c) st' ->
  exists i' s' c', rsem r (i, s, c) (i', s', c') /\
                   st' = (i', s', (n, take (i' - i) s) :: c').
Proof. intros H. inversion H; subst. eauto 6. Qed.

(** The groups a lazy run of a class leaves. *)
Lemma rsem_group_plus_class n g (p : N -> bool) i s c st' :
  rsem (RGroup n (RPlus g (RChar p))) (i, s, c) st' ->
  exists X s', X <> [] /\ Forall (fun x => p x = true) X /\ s = X ++ s' /\
               st' = (i + length X, s', (n, X) :: c).
Proof.
  intros H. apply rsem_group_inv in H as (i' & s' & c' & H & ->).
  apply rsem_plus_class in H as (X & -> & HX & Hp & -> & ->).
  exists X, s'. repeat split; try assumption.
  replace (i + length X - i) with (length X) by lia.
  now rewrite take_app_length.
Qed.

Lemma tail_sem i s c st' :
  rsem ts_re_tail (i, s, c) st' ->
  st'.2 = c \/ exists T, group3_shape T /\ st'.2 = (3, T) :: c.
Proof.
  unfold ts_re_tail, ROpt. intros H.
  apply rsem_seq_inv in H as (m & H1 & H2).
  assert (Hm : m.2 = c \/ exists T, group3_shape T /\ m.2 = (3, T) :: c).
  { inversion H1 as [| | |r1 r2 st1 st2 Hg|r1 r2 st1 st2 He| | | | | |]; subst.
    - right. apply rsem_group_inv in Hg as (i' & s' & c' & Hg & ->).
      apply rsem_seq_inv in Hg as ([[i1 s1] c1] & Hp & Hs).
      apply rsem_plus_class in Hp as (W & -> & HW & HpW & -> & ->).
      apply rsem_star_class in Hs as (Y & E & HY & Hi & Hc). simpl in *. subst.
      exists (W ++ Y). split.
      + exists W, Y. now repeat split.
      + repeat f_equal. rewrite app_assoc. apply take_app_length'.
        rewrite length_app. lia.
    - left. now inversion He; subst. }
  inversion H2; subst; exact Hm.
Qed.

Lemma end_sem i s c st' :
  rsem ts_re_end (i, s, c) st' ->
  exists g2, g2 <> [] /\
    (st'.2 = (2, g2) :: c \/
     exists T, group3_shape T /\ st'.2 = (3, T) :: (2, g2) :: c).
Proof.
  unfold ts_re_end. intros H.
  apply rsem_seq_inv in H as (m & H1 & H2).
  apply rsem_group_plus_class in H1 as (X & s' & HX & _ & -> & ->).
  apply tail_sem in H2. exists X. now split.
Qed.

Lemma arrow_sem i s c st' :
  rsem ts_re_arrow (i, s, c) st' ->
  exists g2, g2 <> [] /\
    (st'.2 = (2, g2) :: c \/
     exists T, group3_shape T /\ st'.2 = (3, T) :: (2, g2) :: c).
Proof.
  unfold ts_re_arrow. intros H.
  apply rsem_seq_inv in H as ([[i1 s1] c1] & H1 & H).
  apply rsem_star_class in H1 as (W1 & _ & _ & _ & Hc1). simpl in Hc1. subst c1.
  apply rsem_seq_inv in H as ([[i2 s2] c2] & H2 & H).
  apply rsem_lit in H2 as (_ & _ & ->).
  apply rsem_seq_inv in H as ([[i3 s3] c3] & H3 & H).
  apply rsem_star_class in H3 as (W3 & _ & _ & _ & Hc3). simpl in Hc3. subst c3.
  now apply end_sem in H.
Qed.

(** The groups of a match of [TS_LINE_RE], and the shape of the third. *)
Lemma ts_line_sem (line : str) st' :
  rsem TS_LINE_RE (0, line, []) st' ->
  exists g1 g2, g1 <> [] /\ g2 <> [] /\
    (st'.2 = [(2, g2); (1, g1)] \/
     exists T, group3_shape T /\ st'.2 = [(3, T); (2, g2); (1, g1)]).
Proof.
  rewrite TS_LINE_RE_parts. intros H.
  apply rsem_seq_inv in H as (m0 & H0 & H). inversion H0; subst.
  apply rsem_seq_inv in H as ([[i1 s1] c1] & H1 & H).
  apply rsem_star_class in H1 as (W1 & _ & _ & _ & Hc1). simpl in Hc1. subst c1.
  apply rsem_seq_inv in H as (m2 & H2 & H).
  apply rsem_group_plus_class in H2 as (X & s' & HX & _ & -> & ->).
  apply arrow_sem in H as (g2 & Hg2 & H).
  exists X, g2. now repeat split.
Qed.

(** The result of [ts_line_match]. *)
Theorem ts_line_match_shape (line g1 g2 : str) (g3 : option str) :
  ts_line_match line = Some (g1, g2, g3) ->
  g1 <> [] /\ g2 <> [] /\
  match g3 with Some T => group3_shape T | None => True end.
Proof.
  unfold ts_line_match, re_match. intros H.
  destruct (rmatch TS_LINE_RE 0 line [] accept) as [[j c]|] eqn:E; [|discriminate].
  apply rmatch_sound in E as (i' & s' & c' & Hsem & Hacc).
  unfold accept in Hacc. inversion Hacc; subst j c.
  apply ts_line_sem in Hsem as (x1 & x2 & H1 & H2 & [Hc | (T & HT & Hc)]);
    simpl in Hc; subst c'; simpl in H; inversion H; subst; now repeat split.
Qed.

End Soundness.

(* ================================================================== *)
(** * The codec *)
(* ================================================================== *)

Section Codec.

Ltac range_facts :=
  unfold ascii_digit, canon_char, in_range in *;
  repeat match goal with
  | H : _ && _ = true |- _ => apply andb_true_iff in H as [? ?]
  | H : _ || _ = true |- _ => apply orb_true_iff in H as [?|?]
  | H : (_ <=? _)%N = true |- _ => apply N.leb_le in H
  | H : (_ =? _)%N = true |- _ => apply N.eqb_eq in H
  end.

Lemma decimal_value_ascii c :
  ascii_digit c = true -> decimal_value c = Some (c - 48)%N.
Proof.
  intros H. unfold ascii_digit in H.
  unfold decimal_value, decimal_zeros. cbn [decimal_in].
  change (48 + 9)%N with 57%N. now rewrite H.
Qed.

Lemma ascii_digit_decimal c : ascii_digit c = true -> is_decimal c = true.
Proof. intros H. unfold is_decimal. now rewrite decimal_value_ascii. Qed.

Lemma ascii_digit_canon c : ascii_digit c = true -> canon_char c = true.
Proof.
  intros H. range_facts. unfold canon_char, in_range.
  apply orb_true_iff. left. apply andb_true_iff. split; apply N.leb_le; lia.
Qed.

Lemma canon_not_space c : canon_char c = true -> is_space c = false.
Proof.
  intros H. unfold is_space, in_range.
  range_facts; repeat (apply orb_false_iff; split);
    try (apply andb_false_iff);
    try (first [ left; apply N.leb_gt; lia | right; apply N.leb_gt; lia
               | apply N.eqb_neq; lia ]).
Qed.

Lemma canon_plain c : canon_char c = true -> plain c = true.
Proof.
  intros H. unfold plain. rewrite (canon_not_space c H). simpl.
  apply negb_true_iff, N.eqb_neq. range_facts; lia.
Qed.

Lemma canon_not_comma c : canon_char c = true -> (c =? 44)%N = false.
Proof. intros H. apply N.eqb_neq. range_facts; lia. Qed.

(* ------------------------------------------------------------------ *)
(** ** Decimal digits of a number *)

Lemma digits_fuel_ascii fuel : forall n acc,
  Forall (fun c => ascii_digit c = true) acc ->
  Forall (fun c => ascii_digit c = true) (digits_fuel fuel n acc).
Proof.
  induction fuel as [|fuel IH]; intros n acc Hacc; cbn [digits_fuel];
    [exact Hacc|].
  assert (Hd : ascii_digit (48 + n mod 10) = true).
  { unfold ascii_digit, in_range.
    assert (Hlt : (n mod 10 < 10)%N) by (now apply N.mod_upper_bound).
    revert Hlt. generalize (n mod 10)%N. intros d Hlt.
    apply andb_true_iff. split; apply N.leb_le; lia. }
  destruct (n <? 10)%N; [|apply IH]; now constructor.
Qed.

Lemma digits_fuel_nonempty fuel n acc : digits_fuel (S fuel) n acc <> [].
Proof.
  revert n acc. induction fuel as [|fuel IH]; intros n acc; simpl.
  - now destruct (n <? 10)%N.
  - destruct (n <? 10)%N; [discriminate|]. apply IH.
Qed.

Lemma digits_fuel_value fuel : forall n acc,
  (n < 2 ^ N.of_nat fuel)%N ->
  fold_left dstep (digits_fuel fuel n acc) 0%Z = fold_left dstep acc (Z.of_N n).
Proof.
  induction fuel as [|fuel IH]; intros n acc Hn.
  - simpl in *. assert (n = 0%N) by lia. now subst.
  - cbn [digits_fuel].
    assert (Hstep : dstep (Z.of_N (n / 10)) (48 + n mod 10) = Z.of_N n).
    { unfold dstep. rewrite N.add_comm, N.add_sub.
      rewrite <- (N2Z.inj_mul _ 10), <- N2Z.inj_add. f_equal.
      rewrite (N.div_mod n 10) at 3 by discriminate. apply N.add_cancel_r, N.mul_comm. }
    destruct (n <? 10)%N eqn:E.
    + apply N.ltb_lt in E. cbn [fold_left]. f_equal.
      rewrite N.div_small in Hstep by assumption. exact Hstep.
    + apply N.ltb_ge in E. rewrite IH.
      * cbn [fold_left]. now rewrite Hstep.
      * rewrite Nat2N.inj_succ, N.pow_succ_r' in Hn.
        apply N.Div0.div_lt_upper_bound. lia.
Qed.

Lemma digits_fuel_length fuel : forall k n acc,
  (n < 10 ^ N.of_nat (S k))%N ->
  length (digits_fuel (S fuel) n acc) <= S k + length acc.
Proof.
  induction fuel as [|fuel IH]; intros k n acc Hn.
  - simpl. destruct (n <? 10)%N; simpl; lia.
  - cbn [digits_fuel]. destruct (n <? 10)%N eqn:E; [simpl; lia|].
    apply N.ltb_ge in E. destruct k as [|k].
    + change (10 ^ N.of_nat 1)%N with 10%N in Hn. lia.
    + etransitivity; [apply (IH k)|simpl; lia].
      rewrite (Nat2N.inj_succ (S k)), N.pow_succ_r' in Hn.
      apply N.Div0.div_lt_upper_bound. lia.
Qed.

Lemma digits_of_N_ascii n : Forall (fun c => ascii_digit c = true) (digits_of_N n).
Proof. apply digits_fuel_ascii. constructor. Qed.

Lemma digits_of_N_nonempty n : digits_of_N n <> [].
Proof. apply digits_fuel_nonempty. Qed.

Lemma digits_of_N_value n : fold_left dstep (digits_of_N n) 0%Z = Z.of_N n.
Proof.
  unfold digits_of_N. rewrite digits_fuel_value; [reflexivity|].
  rewrite Nat2N.inj_succ, N2Nat.id.
  destruct n as [|p]; [reflexivity|]. apply N.log2_spec. lia.
Qed.

Lemma digits_of_N_length k n :
  (n < 10 ^ N.of_nat (S k))%N -> length (digits_of_N n) <= S k.
Proof.
  intros H. unfold digits_of_N.
  pose proof (digits_fuel_length (N.to_nat (N.log2 n)) k n [] H). simpl in *. lia.
Qed.

(* ------------------------------------------------------------------ *)
(** ** The format with zero padding *)

Lemma format_0d_nonneg w n :
  (0 <= n)%Z -> format_0d w n = zero_pad w (digits_of_N (Z.to_N n)).
Proof.
  intros H. unfold format_0d.
  destruct (n <? 0)%Z eqn:E; [apply Z.ltb_lt in E; lia | reflexivity].
Qed.

Lemma zero_pad_ascii w s :
  Forall (fun c => ascii_digit c = true) s ->
  Forall (fun c => ascii_digit c = true) (zero_pad w s).
Proof.
  intros H. unfold zero_pad. apply Forall_app. split; [|exact H].
  induction (w - length s) as [|k IH]; simpl; now constructor.
Qed.

Lemma zero_pad_value w s :
  fold_left dstep (zero_pad w s) 0%Z = fold_left dstep s 0%Z.
Proof.
  unfold zero_pad. rewrite fold_left_app. f_equal.
  induction (w - length s) as [|k IH]; simpl; [reflexivity | exact IH].
Qed.

Lemma zero_pad_length w s : length s <= w -> length (zero_pad w s) = w.
Proof. intros H. unfold zero_pad. rewrite length_app, repeat_length. lia. Qed.

Lemma zero_pad_nonempty w s : s <> [] -> zero_pad w s <> [].
Proof. unfold zero_pad. destruct (repeat _ _); [easy | discriminate]. Qed.

Lemma format_0d_ascii w n :
  (0 <= n)%Z -> Forall (fun c => ascii_digit c = true) (format_0d w n).
Proof.
  intros H. rewrite format_0d_nonneg by assumption.
  apply zero_pad_ascii, digits_of_N_ascii.
Qed.

Lemma format_0d_nonempty w n : (0 <= n)%Z -> format_0d w n <> [].
Proof.
  intros H. rewrite format_0d_nonneg by assumption.
  apply zero_pad_nonempty, digits_of_N_nonempty.
Qed.

Lemma format_0d_value w n :
  (0 <= n)%Z -> fold_left dstep (format_0d w n) 0%Z = n.
Proof.
  intros H. rewrite format_0d_nonneg by assumption.
  rewrite zero_pad_value, digits_of_N_value. lia.
Qed.

Lemma format_03d_length n :
  (0 <= n < 1000)%Z -> length (format_0d 3 n) = 3.
Proof.
  intros H. rewrite format_0d_nonneg by lia. apply zero_pad_length.
  apply (digits_of_N_length 2). change (10 ^ N.of_nat 3)%N with 1000%N. lia.
Qed.

(* ------------------------------------------------------------------ *)
(** ** [int] on a run of ASCII digits *)

Lemma int_digits_ascii : forall ds acc b,
  Forall (fun c => ascii_digit c = true) ds -> ds <> [] \/ b = true ->
  int_digits acc b ds = Some (fold_left dstep ds acc).
Proof.
  induction ds as [|d ds IH]; intros acc b Hds Hb.
  - destruct Hb as [Hb | ->]; [contradiction | reflexivity].
  - apply Forall_cons in Hds as [Hd Hds]. cbn [int_digits fold_left].
    rewrite decimal_value_ascii by assumption. apply IH; [assumption | now right].
Qed.

Lemma ascii_digit_not_space c : ascii_digit c = true -> is_space c = false.
Proof. intros H. now apply canon_not_space, ascii_digit_canon. Qed.

Lemma rstrip_no_space (s : str) :
  Forall (fun c => is_space c = false) s -> rstrip s = s.
Proof.
  intros H. unfold rstrip.
  destruct (rev s) as [|c t] eqn:E.
  - apply (f_equal (@rev N)) in E. rewrite rev_involutive in E. now subst.
  - assert (Hc : is_space c = false).
    { apply Forall_rev in H. rewrite E in H. now apply Forall_cons in H as [Hc _]. }
    rewrite drop_while_head by assumption. rewrite <- E. apply rev_involutive.
Qed.

Lemma lstrip_no_space (s : str) :
  Forall (fun c => is_space c = false) s -> lstrip s = s.
Proof.
  intros H. unfold lstrip. destruct H as [|c s Hc _]; [reflexivity|].
  now apply drop_while_head.
Qed.

Lemma strip_no_space (s : str) :
  Forall (fun c => is_space c = false) s -> strip s = s.
Proof.
  intros H. unfold strip. rewrite lstrip_no_space by assumption.
  now apply rstrip_no_space.
Qed.

Lemma int_of_str_ascii (ds : str) :
  Forall (fun c => ascii_digit c = true) ds -> ds <> [] ->
  int_of_str ds = Ok (fold_left dstep ds 0%Z).
Proof.
  intros Hds Hne. unfold int_of_str.
  rewrite strip_no_space
    by (eapply Forall_impl; [exact Hds | apply ascii_digit_not_space]).
  destruct ds as [|d ds]; [contradiction|].
  pose proof Hds as Hds'. apply Forall_cons in Hds' as [Hd _].
  assert (E1 : (d =? 45)%N = false) by (apply N.eqb_neq; range_facts; lia).
  assert (E2 : (d =? 43)%N = false) by (apply N.eqb_neq; range_facts; lia).
  rewrite E1, E2. rewrite int_digits_ascii; [reflexivity | assumption | now left].
Qed.

Lemma int_of_str_format w n :
  (0 <= n)%Z -> int_of_str (format_0d w n) = Ok n.
Proof.
  intros H. rewrite int_of_str_ascii.
  - now rewrite format_0d_value.
  - now apply format_0d_ascii.
  - now apply format_0d_nonempty.
Qed.

End Codec.

Section RoundTrip.

Lemma replace_char_none (old : N) (new s : str) :
  Forall (fun c => (c =? old)%N = false) s -> replace_char old new s = s.
Proof.
  unfold replace_char. induction 1 as [|c s Hc _ IH]; simpl; [reflexivity|].
  rewrite Hc. simpl. now f_equal.
Qed.

Lemma split_on_none (sep : N) (s : str) :
  Forall (fun c => (c =? sep)%N = false) s -> split_on sep s = [s].
Proof.
  induction 1 as [|c s Hc _ IH]; simpl; [reflexivity|]. now rewrite Hc, IH.
Qed.

Lemma split_on_app (sep : N) (x y : str) :
  Forall (fun c => (c =? sep)%N = false) x ->
  split_on sep (x ++ sep :: y) = x :: split_on sep y.
Proof.
  induction 1 as [|c s Hc _ IH]; simpl.
  - now rewrite N.eqb_refl.
  - now rewrite Hc, IH.
Qed.

Lemma sub_non_digit_id (s : str) :
  Forall (fun c => is_decimal c = true) s ->
  forall i, sub_from NON_DIGIT_RE [] 0 i s = s.
Proof.
  induction 1 as [|c s Hc _ IH]; intros i; simpl; [reflexivity|].
  unfold not_decimal. rewrite Hc. simpl. now rewrite IH.
Qed.

Lemma ascii_digits_neq (x : N) (s : str) :
  ascii_digit x = false ->
  Forall (fun c => ascii_digit c = true) s ->
  Forall (fun c => (c =? x)%N = false) s.
Proof.
  intros Hx H. eapply Forall_impl; [exact H|]. intros c Hc.
  apply N.eqb_neq. intros ->. congruence.
Qed.

(** The pure seconds pattern does not match a text whose digits are
    followed by a colon. *)
Lemma seconds_no_colon (H rest : str) :
  Forall (fun c => ascii_digit c = true) H ->
  re_fullmatch SECONDS_RE (H ++ 58%N :: rest) = None.
Proof.
  intros HH. unfold re_fullmatch, SECONDS_RE. rewrite rmatch_seq.
  apply rmatch_plus_greedy_fail.
  - eapply Forall_impl; [exact HH | apply ascii_digit_decimal].
  - reflexivity.
  - intros W1 W2 ->. unfold ROpt. rewrite rmatch_alt, rmatch_group, rmatch_seq.
    apply Forall_app in HH as [_ HW2].
    destruct W2 as [|y W2]; cbn [app]; rewrite rmatch_char_cons.
    + reflexivity.
    + apply Forall_cons in HW2 as [Hy _].
      assert (E : (46 =? y)%N = false).
      { apply N.eqb_neq. intros <-. discriminate. }
      rewrite E. reflexivity.
Qed.

(** Decoding a text of the form HH:MM:SS.mmm. *)
Lemma parse_canonical (hh mm ss mmm : Z) :
  (0 <= hh)%Z -> (0 <= mm)%Z -> (0 <= ss)%Z -> (0 <= mmm < 1000)%Z ->
  parse_ts_to_ms
    (format_0d 2 hh ++ py ":" ++ format_0d 2 mm ++ py ":" ++ format_0d 2 ss
       ++ py "." ++ format_0d 3 mmm)
  = Ok ((hh * 3600 + mm * 60 + ss) * 1000 + mmm)%Z.
Proof.
  intros Hh Hm Hs Hf.
  pose proof (format_0d_ascii 2 hh Hh) as Ah.
  pose proof (format_0d_ascii 2 mm Hm) as Am.
  pose proof (format_0d_ascii 2 ss Hs) as As.
  pose proof (format_0d_ascii 3 mmm (proj1 Hf)) as Af.
  pose proof (format_03d_length mmm Hf) as Lf.
  pose proof (format_0d_nonempty 2 ss Hs) as Ns.
  pose proof (int_of_str_format 2 hh Hh) as Ih.
  pose proof (int_of_str_format 2 mm Hm) as Im.
  pose proof (int_of_str_format 2 ss Hs) as Is.
  pose proof (int_of_str_format 3 mmm (proj1 Hf)) as If.
  pose proof (format_0d_nonempty 2 hh Hh) as Nh.
  pose proof (format_0d_nonempty 3 mmm (proj1 Hf)) as Nf.
  generalize dependent (format_0d 3 mmm). generalize dependent (format_0d 2 ss).
  generalize dependent (format_0d 2 mm). generalize dependent (format_0d 2 hh).
  intros H Ah Ih Nh M Am Im S As Ns Is F Af Lf If Nf.
  change (py ":") with [58%N]. change (py ".") with [46%N].
  assert (Hcanon : Forall (fun c => canon_char c = true)
                     (H ++ [58%N] ++ M ++ [58%N] ++ S ++ [46%N] ++ F)).
  { repeat (apply Forall_app; split);
      try (eapply Forall_impl; [eassumption | apply ascii_digit_canon]);
      now repeat constructor. }
  unfold parse_ts_to_ms.
  rewrite strip_no_space
    by (eapply Forall_impl; [exact Hcanon | apply canon_not_space]).
  rewrite replace_char_none
    by (eapply Forall_impl; [exact Hcanon | apply canon_not_comma]).
  destruct H as [|h H]; [contradiction|]. cbn [app is_empty].
  change (h :: H ++ 58%N :: M ++ 58%N :: S ++ 46%N :: F)
    with ((h :: H) ++ 58%N :: M ++ 58%N :: S ++ 46%N :: F).
  rewrite seconds_no_colon by assumption.
  rewrite bool_decide_eq_false_2 by (intros [x Hx]; discriminate).
  rewrite split_on_app by (now apply ascii_digits_neq).
  rewrite split_on_app by (now apply ascii_digits_neq).
  rewrite split_on_none.
  2:{ apply Forall_app. split; [now apply ascii_digits_neq|].
      constructor; [reflexivity | now apply ascii_digits_neq]. }
  cbn [bind].
  rewrite split_on_app by (now apply ascii_digits_neq).
  rewrite split_on_none by (now apply ascii_digits_neq).
  cbn [hd tl length Nat.ltb Nat.leb join].
  destruct S as [|s0 S]; [contradiction|]. cbn [is_empty].
  unfold re_sub. rewrite sub_non_digit_id
    by (eapply Forall_impl; [exact Af | apply ascii_digit_decimal]).
  destruct F as [|f0 F]; [contradiction|]. cbn [is_empty].
  unfold ljust. rewrite Lf. cbn [Nat.sub repeat]. rewrite app_nil_r.
  rewrite firstn_all2 by lia.
  rewrite If, Ih, Im, Is. reflexivity.
Qed.

(** The text of a timestamp: its four fields. *)
Lemma ms_to_vtt_fields (m : Z) :
  exists hh mm ss mmm : Z,
    (0 <= hh)%Z /\ (0 <= mm)%Z /\ (0 <= ss)%Z /\ (0 <= mmm < 1000)%Z /\
    ((hh * 3600 + mm * 60 + ss) * 1000 + mmm = Z.max 0 m)%Z /\
    ms_to_vtt m =
      format_0d 2 hh ++ py ":" ++ format_0d 2 mm ++ py ":" ++ format_0d 2 ss
        ++ py "." ++ format_0d 3 mmm.
Proof.
  unfold ms_to_vtt.
  assert (E : (if (m <? 0)%Z then 0%Z else m) = Z.max 0 m).
  { destruct (m <? 0)%Z eqn:E; [apply Z.ltb_lt in E | apply Z.ltb_ge in E]; lia. }
  rewrite E. set (n := Z.max 0 m). assert (Hn : (0 <= n)%Z) by lia. clearbody n.
  exists (n / 3600000)%Z, (n mod 3600000 / 60000)%Z,
         (n mod 3600000 mod 60000 / 1000)%Z, (n mod 3600000 mod 60000 mod 1000)%Z.
  pose proof (Z.mod_pos_bound n 3600000 ltac:(lia)) as B1.
  pose proof (Z.mod_pos_bound (n mod 3600000) 60000 ltac:(lia)) as B2.
  pose proof (Z.mod_pos_bound (n mod 3600000 mod 60000) 1000 ltac:(lia)) as B3.
  pose proof (Z.div_mod n 3600000 ltac:(lia)) as D1.
  pose proof (Z.div_mod (n mod 3600000) 60000 ltac:(lia)) as D2.
  pose proof (Z.div_mod (n mod 3600000 mod 60000) 1000 ltac:(lia)) as D3.
  repeat split; try (apply Z.div_pos; lia); try lia.
Qed.

(** Decoding the text of a timestamp gives the value back, clamped. *)
Theorem parse_ms_to_vtt (m : Z) : parse_ts_to_ms (ms_to_vtt m) = Ok (Z.max 0 m).
Proof.
  destruct (ms_to_vtt_fields m) as (hh & mm & ss & mmm & Hh & Hm & Hs & Hf & E & ->).
  rewrite parse_canonical by assumption. now rewrite E.
Qed.

Lemma ms_to_vtt_canon (m : Z) : Forall (fun c => canon_char c = true) (ms_to_vtt m).
Proof.
  destruct (ms_to_vtt_fields m) as (hh & mm & ss & mmm & Hh & Hm & Hs & Hf & E & ->).
  repeat (apply Forall_app; split);
    try (eapply Forall_impl; [now apply format_0d_ascii | apply ascii_digit_canon]);
    now repeat constructor.
Qed.

Lemma ms_to_vtt_nonempty (m : Z) : ms_to_vtt m <> [].
Proof.
  destruct (ms_to_vtt_fields m) as (hh & mm & ss & mmm & Hh & Hm & Hs & Hf & E & ->).
  pose proof (format_0d_nonempty 2 hh Hh). now destruct (format_0d 2 hh).
Qed.

Lemma ms_to_vtt_clamp (m : Z) : ms_to_vtt m = ms_to_vtt (Z.max 0 m).
Proof.
  unfold ms_to_vtt.
  destruct (m <? 0)%Z eqn:E.
  - apply Z.ltb_lt in E. now rewrite Z.max_l by lia.
  - pose proof E as E'. apply Z.ltb_ge in E'.
    rewrite Z.max_r by lia. now rewrite E.
Qed.

End RoundTrip.

(* ================================================================== *)
(** * The timeline fixer *)
(* ================================================================== *)

Section Fixer.

Lemma split_ws_aux_no_space (s : str) :
  Forall (fun c => is_space c = false) s ->
  forall cur, split_ws_aux cur s =
              match rev cur ++ s with [] => [] | t => [t] end.
Proof.
  induction 1 as [|c s Hc _ IH]; intros cur; simpl.
  - rewrite app_nil_r. destruct cur as [|x cur]; [reflexivity|].
    destruct (rev (x :: cur)) eqn:E; [|reflexivity].
    apply (f_equal (@length N)) in E. rewrite length_rev in E. discriminate.
  - rewrite Hc, IH. simpl. now rewrite <- app_assoc.
Qed.

Lemma first_token_no_space (s : str) :
  s <> [] -> Forall (fun c => is_space c = false) s -> first_token s = Ok s.
Proof.
  intros Hne H. unfold first_token, split_ws.
  rewrite split_ws_aux_no_space by assumption. simpl. now destruct s.
Qed.

Lemma canon_no_space (s : str) :
  Forall (fun c => canon_char c = true) s -> Forall (fun c => is_space c = false) s.
Proof. intros H. eapply Forall_impl; [exact H | apply canon_not_space]. Qed.

Lemma canon_all_plain (s : str) :
  Forall (fun c => canon_char c = true) s -> Forall (fun c => plain c = true) s.
Proof. intros H. eapply Forall_impl; [exact H | apply canon_plain]. Qed.

(** [rstrip] leaves a text that ends with a timestamp as it is. *)
Lemma rstrip_after (P B : str) :
  B <> [] -> Forall (fun c => is_space c = false) B -> rstrip (P ++ B) = P ++ B.
Proof.
  intros Hne H. rewrite rstrip_app, rstrip_no_space by assumption.
  now destruct B.
Qed.

Lemma rstrip_tail (P B tail : str) :
  B <> [] -> Forall (fun c => is_space c = false) B ->
  rstrip (P ++ B ++ tail) = P ++ B ++ rstrip tail.
Proof.
  intros Hne H. rewrite app_assoc, rstrip_app.
  destruct (rstrip tail) eqn:E.
  - rewrite rstrip_after by assumption. now rewrite app_nil_r.
  - now rewrite <- app_assoc.
Qed.

(** What [rstrip] leaves of a third group has the shape of a tail. *)
Lemma rstrip_group3 (tail : str) :
  tail = [] \/ group3_shape tail -> tail_shape (rstrip tail).
Proof.
  intros [-> | (W & Y & -> & HW & HsW & HaY)]; [constructor|].
  destruct (rstrip_spec Y) as (sp & EY & Hsp & [E | (b & c & E & Hc)]).
  - rewrite rstrip_app_nil by assumption.
    rewrite rstrip_all_space by assumption. constructor.
  - rewrite rstrip_app_ne by (rewrite E; now destruct b). rewrite E.
    destruct W as [|w W]; [contradiction|].
    apply Forall_cons in HsW as [Hw HsW].
    assert (Hany : Forall (fun x => any_char x = true) (b ++ [c])).
    { rewrite EY, E in HaY. now apply Forall_app in HaY as [HaY _]. }
    rewrite <- (take_drop_while is_space (b ++ [c])), app_assoc, <- app_comm_cons.
    assert (Hd : exists d, drop_while is_space (b ++ [c]) = d ++ [c]).
    { rewrite drop_while_app. destruct (drop_while is_space b) as [|z zs].
      - exists []. simpl. now rewrite Hc.
      - now exists (z :: zs). }
    destruct Hd as [d Hd].
    constructor.
    + exact Hw.
    + apply Forall_app. split; [exact HsW | apply take_while_all].
    + rewrite Hd. now destruct d.
    + pose proof (drop_while_not_head is_space (b ++ [c])) as Hh.
      unfold stops. destruct (drop_while is_space (b ++ [c])); [exact I | exact Hh].
    + rewrite <- (take_drop_while is_space (b ++ [c])) in Hany.
      now apply Forall_app in Hany as [_ Hany].
    + rewrite Hd. now apply rstrip_snoc.
Qed.

Lemma rstrip_tail_shape (T : str) : tail_shape T -> rstrip T = T.
Proof.
  intros [|w W Y Hw HW HY Hstop Hany HrY]; [reflexivity|].
  rewrite app_comm_cons, rstrip_app, HrY. now destruct Y.
Qed.

Lemma rstrip_tail_group (T : str) : tail_shape T -> rstrip (tail_group T) = T.
Proof.
  intros HT. destruct HT as [|w W Y Hw HW HY Hstop Hany HrY] eqn:E; [reflexivity|].
  simpl. apply (rstrip_tail_shape (w :: W ++ Y)). now constructor.
Qed.

(** The times of a canonical line. *)
Lemma line_times_canonical (s e : Z) (T : str) :
  tail_shape T ->
  line_times (canonical_line s e T) = Some (Z.max 0 s, Z.max 0 e).
Proof.
  intros HT. unfold line_times, canonical_line.
  pose proof (ms_to_vtt_canon s) as Cs. pose proof (ms_to_vtt_canon e) as Ce.
  rewrite ts_line_match_canonical;
    [| apply ms_to_vtt_nonempty | now apply canon_all_plain
     | apply ms_to_vtt_nonempty | now apply canon_all_plain | exact HT].
  rewrite !strip_no_space by (now apply canon_no_space).
  rewrite first_token_no_space
    by (first [apply ms_to_vtt_nonempty | now apply canon_no_space]).
  unfold parse_pair. now rewrite !parse_ms_to_vtt.
Qed.

(** The fixer leaves a canonical line whose times are in order as it is,
    and logs nothing. *)
Lemma fix_line_canonical (idx : nat) (s e : Z) (T : str) :
  (s <= e)%Z -> tail_shape T ->
  fix_line ([], []) (idx, canonical_line s e T)
  = Ok ([canonical_line s e T], []).
Proof.
  intros Hse HT. unfold fix_line, canonical_line.
  pose proof (ms_to_vtt_canon s) as Cs. pose proof (ms_to_vtt_canon e) as Ce.
  rewrite ts_line_match_canonical;
    [| apply ms_to_vtt_nonempty | now apply canon_all_plain
     | apply ms_to_vtt_nonempty | now apply canon_all_plain | exact HT].
  rewrite !strip_no_space by (now apply canon_no_space).
  rewrite first_token_no_space
    by (first [apply ms_to_vtt_nonempty | now apply canon_no_space]).
  cbn [bind]. unfold parse_pair. rewrite !parse_ms_to_vtt. cbn [bind].
  assert (E : (Z.max 0 e <? Z.max 0 s)%Z = false) by (apply Z.ltb_ge; lia).
  rewrite E. change (default [] (Some (tail_group T))) with (tail_group T).
  rewrite <- !ms_to_vtt_clamp.
  assert (Hnew : rstrip (ms_to_vtt s ++ py " --> " ++ ms_to_vtt e ++ tail_group T)
                 = ms_to_vtt s ++ py " --> " ++ ms_to_vtt e ++ T).
  { rewrite (app_assoc (ms_to_vtt s)).
    rewrite rstrip_tail
      by (first [apply ms_to_vtt_nonempty | now apply canon_no_space]).
    rewrite rstrip_tail_group by assumption. now rewrite <- app_assoc. }
  rewrite Hnew. rewrite <- !app_assoc.
  unfold str_eqb. rewrite bool_decide_eq_true_2 by reflexivity. reflexivity.
Qed.

(** The fixer on one line: the line stays as it is when it has no times,
    and becomes a canonical line with its times in order otherwise. *)
Lemma fix_line_cases (idx : nat) (line : str) fl lg :
  fix_line ([], []) (idx, line) = Ok (fl, lg) ->
  (fl = [line] /\ line_times line = None /\ Forall is_skip lg) \/
  (exists s e T, line_times line = Some (s, e) /\ tail_shape T /\
     fl = [canonical_line (Z.min s e) (Z.max s e) T]).
Proof.
  unfold fix_line, line_times. intros H.
  destruct (ts_line_match line) as [[[g1 g2] g3]|] eqn:Em.
  2:{ inversion H; subst. left. repeat split. constructor. }
  apply ts_line_match_shape in Em as (_ & _ & Hg3).
  destruct (first_token (strip g2)) as [end_raw|x] eqn:Et; [|discriminate].
  cbn [bind] in H.
  destruct (parse_pair (strip g1) end_raw) as [[s e]|x] eqn:Ep.
  2:{ inversion H; subst. left. repeat split. now repeat constructor. }
  right. exists s, e, (rstrip (default [] g3)).
  split; [reflexivity|]. split.
  { apply rstrip_group3. destruct g3; [now right | now left]. }
  assert (Hnew : forall a b, rstrip (ms_to_vtt a ++ py " --> " ++ ms_to_vtt b
                                       ++ default [] g3) ++ [LF]
                             = canonical_line a b (rstrip (default [] g3))).
  { intros a b. unfold canonical_line. rewrite (app_assoc (ms_to_vtt a)).
    rewrite rstrip_tail
      by (first [apply ms_to_vtt_nonempty | apply canon_no_space, ms_to_vtt_canon]).
    now rewrite <- !app_assoc. }
  destruct (e <? s)%Z eqn:E.
  - apply Z.ltb_lt in E. rewrite Hnew in H. inversion H; subst.
    now rewrite Z.min_r, Z.max_l by lia.
  - apply Z.ltb_ge in E. rewrite Hnew in H.
    rewrite Z.min_l, Z.max_r by lia.
    destruct (negb _) in H; inversion H; subst; reflexivity.
Qed.

(** The state the loop starts from only collects. *)
Lemma fix_line_frame (fl : list str) (lg : list log_entry) il :
  fix_line (fl, lg) il =
  do r <- fix_line ([], []) il; Ok (fl ++ r.1, lg ++ r.2).
Proof.
  destruct il as [idx line]. unfold fix_line.
  destruct (ts_line_match line) as [[[g1 g2] g3]|]; cbn [bind].
  2:{ now rewrite app_nil_r. }
  destruct (first_token (strip g2)) as [end_raw|x]; cbn [bind]; [|reflexivity].
  destruct (parse_pair (strip g1) end_raw) as [[s e]|x]; cbn [bind]; [|reflexivity].
  destruct (e <? s)%Z; cbn [bind]; [reflexivity|].
  destruct (negb _); cbn [bind]; [reflexivity|]. now rewrite app_nil_r.
Qed.

(** One line through the fixer twice. *)
Lemma fix_line_twice (idx : nat) (line : str) fl lg :
  fix_line ([], []) (idx, line) = Ok (fl, lg) ->
  exists x lg', fl = [x] /\
    fix_line ([], []) (idx, x) = Ok ([x], lg') /\ Forall is_skip lg' /\
    match line_times x with Some (s, e) => (s <= e)%Z | None => True end /\
    (x = line /\ line_times line = None \/
     exists s e, line_times line = Some (s, e) /\
       line_times x = Some (Z.max 0 (Z.min s e), Z.max 0 (Z.max s e))).
Proof.
  intros H. pose proof H as H'.
  apply fix_line_cases in H' as [(-> & Hnone & Hskip) | (s & e & T & Ht & HT & ->)].
  - exists line, lg. rewrite Hnone. repeat split; try assumption. now left.
  - exists (canonical_line (Z.min s e) (Z.max s e) T), [].
    rewrite line_times_canonical by assumption.
    repeat split.
    + apply fix_line_canonical; [lia | assumption].
    + constructor.
    + lia.
    + right. now exists s, e.
Qed.

End Fixer.

Section FixerLoop.

Lemma for_each_cons {S A : Type} (body : S -> A -> result S) x xs st :
  for_each body (x :: xs) st = do st' <- body st x; for_each body xs st'.
Proof. reflexivity. Qed.

(** The whole loop, twice. *)
Lemma fix_loop_twice (lines : list str) :
  forall n fl0 lg0 fl lg,
  for_each fix_line (enumerate n lines) (fl0, lg0) = Ok (fl, lg) ->
  exists xs,
    fl = fl0 ++ xs /\ Forall2 fixed_from lines xs /\ Forall in_order xs /\
    forall fl1 lg1, exists lg',
      for_each fix_line (enumerate n xs) (fl1, lg1) = Ok (fl1 ++ xs, lg1 ++ lg')
      /\ Forall is_skip lg'.
Proof.
  induction lines as [|line lines IH]; intros n fl0 lg0 fl lg H.
  - simpl in H. inversion H; subst. exists []. rewrite app_nil_r.
    repeat split; try constructor.
    intros fl1 lg1. exists []. simpl. rewrite !app_nil_r. now split.
  - cbn [enumerate] in H. rewrite for_each_cons, fix_line_frame in H.
    destruct (fix_line ([], []) (n, line)) as [[f1 l1]|x] eqn:E1; [|discriminate].
    cbn [bind fst snd] in H.
    apply fix_line_twice in E1 as (x & l1' & -> & Htwice & Hskip & Hord & Hrel).
    apply IH in H as (xs & -> & Hrels & Hords & Hagain).
    exists (x :: xs). repeat split.
    + now rewrite <- app_assoc.
    + now constructor.
    + now constructor.
    + intros fl1 lg1.
      destruct (Hagain (fl1 ++ [x]) (lg1 ++ l1')) as (lg' & Hrun & Hskip').
      exists (l1' ++ lg'). split.
      * cbn [enumerate]. rewrite for_each_cons, fix_line_frame, Htwice.
        cbn [bind fst snd]. rewrite Hrun. now rewrite <- !app_assoc.
      * apply Forall_app. now split.
Qed.

End FixerLoop.

(* ================================================================== *)
(** * The stable sort *)
(* ================================================================== *)

Section Sorting.

Context {A : Type} (le : A -> A -> bool).

Lemma insert_by_perm (x : A) (l : list A) : Permutation (x :: l) (insert_by le x l).
Proof.
  induction l as [|y l IH]; simpl; [reflexivity|].
  destruct (le x y); [reflexivity|].
  rewrite perm_swap. now apply perm_skip.
Qed.

Lemma sort_by_perm (l : list A) : Permutation l (sort_by le l).
Proof.
  induction l as [|x l IH]; simpl; [reflexivity|].
  rewrite <- insert_by_perm. now apply perm_skip.
Qed.

Hypothesis le_total : forall a b, le a b = true \/ le b a = true.

Lemma insert_by_sorted (x : A) (l : list A) :
  Sorted (fun a b => le a b = true) l ->
  Sorted (fun a b => le a b = true) (insert_by le x l).
Proof.
  induction 1 as [|y l Hl IH Hd]; simpl.
  - repeat constructor.
  - destruct (le x y) eqn:E.
    + constructor; [now constructor | now constructor].
    + constructor; [exact IH|].
      destruct (le_total x y) as [Hxy | Hyx]; [congruence|].
      destruct Hd as [|z l Hz]; simpl; [now constructor|].
      destruct (le x z); now constructor.
Qed.

Lemma sort_by_sorted (l : list A) : Sorted (fun a b => le a b = true) (sort_by le l).
Proof.
  induction l as [|x l IH]; simpl; [constructor|]. now apply insert_by_sorted.
Qed.

Hypothesis le_trans : forall a b c, le a b = true -> le b c = true -> le a c = true.

Lemma sort_by_strongly_sorted (l : list A) :
  StronglySorted (fun a b => le a b = true) (sort_by le l).
Proof.
  apply Sorted_StronglySorted; [|apply sort_by_sorted].
  intros a b c. apply le_trans.
Qed.

End Sorting.

Lemma sort_by_Forall {A : Type} (le : A -> A -> bool) (P : A -> Prop) (l : list A) :
  Forall P l -> Forall P (sort_by le l).
Proof. intros H. now rewrite <- (sort_by_perm le l). Qed.

(* ================================================================== *)
(** * The compressor *)
(* ================================================================== *)

Section Compressor.

Lemma compress_parse_loop_wf (fuel : nat) :
  forall lines cues, compress_parse_loop fuel lines = Ok cues -> Forall cue_wf cues.
Proof.
  induction fuel as [|fuel IH]; intros lines cues H.
  - simpl in H. inversion H. constructor.
  - destruct lines as [|line rest]; [inversion H; constructor|].
    cbn [compress_parse_loop] in H.
    destruct (is_empty (strip line)); [now apply IH in H|].
    destruct (ts_line_match line) as [[[g1 g2] g3]|]; [|now apply IH in H].
    destruct (first_token (strip g2)) as [end_raw|]; [|discriminate].
    cbn [bind] in H.
    destruct (parse_ts_to_ms (strip g1)) as [s|]; [|discriminate].
    cbn [bind] in H.
    destruct (parse_ts_to_ms end_raw) as [e|]; [|discriminate].
    cbn [bind] in H.
    destruct (compress_parse_loop fuel _) as [cs|] eqn:E; [|discriminate].
    cbn [bind] in H. inversion H; subst.
    constructor; [now split | now apply IH in E].
Qed.

Lemma compress_parse_wf (content : str) (cues : list ccue) :
  compress_parse content = Ok cues -> Forall cue_wf cues.
Proof. unfold compress_parse. apply compress_parse_loop_wf. Qed.

Lemma flush_ordered (c : ccue) : cue_wf c -> cue_ordered c -> out_ordered (flush c).
Proof.
  destruct c as [[[[s e] s_ts] e_ts] txt]. intros [-> ->] Hse.
  unfold cue_ordered in Hse. simpl.
  exists (Z.max 0 s), (Z.max 0 e). rewrite !parse_ms_to_vtt. repeat split. lia.
Qed.

Lemma merge_step_ordered gap_ms max_chars merged cur next :
  Forall out_ordered merged -> cue_wf cur -> cue_ordered cur ->
  cue_wf next -> cue_ordered next ->
  let st := merge_step gap_ms max_chars (merged, cur) next in
  Forall out_ordered st.1 /\ cue_wf st.2 /\ cue_ordered st.2.
Proof.
  intros Hm Hwc Hoc Hwn Hon.
  destruct cur as [[[[cs ce] cst] cet] buf].
  destruct next as [[[[ns ne] nst] net] txt].
  cbn [merge_step].
  destruct (_ && _ && _); cbn [fst snd].
  - destruct Hwc as [-> ->]. unfold cue_wf, cue_ordered in *.
    split; [assumption|]. split; [now split | lia].
  - split; [|split; assumption].
    apply Forall_app. split; [assumption|]. constructor; [|constructor].
    now apply (flush_ordered (cs, ce, cst, cet, buf)).
Qed.

Lemma merge_fold_ordered gap_ms max_chars (rest : list ccue) :
  forall merged cur,
  Forall out_ordered merged -> cue_wf cur -> cue_ordered cur ->
  Forall cue_wf rest -> Forall cue_ordered rest ->
  let st := fold_left (merge_step gap_ms max_chars) rest (merged, cur) in
  Forall out_ordered st.1 /\ cue_wf st.2 /\ cue_ordered st.2.
Proof.
  induction rest as [|next rest IH]; intros merged cur Hm Hwc Hoc Hwr Hor.
  - simpl. now repeat split.
  - apply Forall_cons in Hwr as [Hwn Hwr]. apply Forall_cons in Hor as [Hon Hor].
    cbn [fold_left].
    destruct (merge_step_ordered gap_ms max_chars merged cur next)
      as (H1 & H2 & H3); try assumption.
    destruct (merge_step gap_ms max_chars (merged, cur) next) as [merged' cur'].
    now apply IH.
Qed.

(** The compressor keeps the order of start and end: when every cue it
    is given has its times in order, so has every cue it writes. *)
Lemma merge_cues_ordered gap_ms max_chars (cues : list ccue) :
  Forall cue_wf cues -> Forall cue_ordered cues ->
  Forall out_ordered (merge_cues gap_ms max_chars cues).
Proof.
  intros Hw Ho. unfold merge_cues.
  apply (sort_by_Forall cue_key_le) in Hw. apply (sort_by_Forall cue_key_le) in Ho.
  destruct (sort_by cue_key_le cues) as [|first rest]; [constructor|].
  apply Forall_cons in Hw as [Hwf Hwr]. apply Forall_cons in Ho as [Hof Hor].
  destruct (merge_fold_ordered gap_ms max_chars rest [] first)
    as (H1 & H2 & H3); try assumption; [constructor|].
  destruct (fold_left _ rest _) as [merged [[[[cs ce] cst] cet] buf]].
  apply Forall_app. split; [exact H1|]. constructor; [|constructor].
  now apply (flush_ordered (cs, ce, cst, cet, buf)).
Qed.

End Compressor.

(* ================================================================== *)
(** * The pure seconds dialect *)
(* ================================================================== *)

Section PureSeconds.

Lemma decimal_zeros_harmless : forallb block_harmless decimal_zeros = true.
Proof. vm_compute. reflexivity. Qed.

Lemma decimal_in_block (zs : list N) (c d : N) :
  decimal_in zs c = Some d -> exists z, In z zs /\ (z <= c <= z + 9)%N.
Proof.
  induction zs as [|z zs IH]; simpl; [discriminate|].
  destruct (in_range z (z + 9) c) eqn:E.
  - intros _. exists z. split; [now left|].
    unfold in_range in E. apply andb_true_iff in E as [E1 E2].
    apply N.leb_le in E1, E2. lia.
  - intros H. apply IH in H as (z' & Hin & Hr). exists z'. split; [now right | exact Hr].
Qed.

Lemma is_decimal_harmless (c : N) : is_decimal c = true -> harmless c = true.
Proof.
  unfold is_decimal, decimal_value.
  destruct (decimal_in decimal_zeros c) as [d|] eqn:E; [|discriminate]. intros _.
  apply decimal_in_block in E as (z & Hin & Hr).
  pose proof decimal_zeros_harmless as Hall.
  rewrite forallb_forall in Hall. specialize (Hall z Hin).
  unfold block_harmless in Hall. rewrite forallb_forall in Hall.
  replace c with (z + (c - z))%N by lia. apply Hall.
  assert (Hj : (c - z = 0 \/ c - z = 1 \/ c - z = 2 \/ c - z = 3 \/ c - z = 4 \/
                c - z = 5 \/ c - z = 6 \/ c - z = 7 \/ c - z = 8 \/ c - z = 9)%N)
    by lia.
  simpl. repeat destruct Hj as [Hj | Hj]; rewrite Hj; tauto.
Qed.

Lemma is_decimal_not_space (c : N) : is_decimal c = true -> is_space c = false.
Proof.
  intros H. apply is_decimal_harmless in H. unfold harmless in H.
  destruct (is_space c); [discriminate | reflexivity].
Qed.

Lemma is_decimal_not_comma (c : N) : is_decimal c = true -> (c =? 44)%N = false.
Proof.
  intros H. apply is_decimal_harmless in H. unfold harmless in H.
  destruct (is_space c), (c =? 44)%N; simpl in H; congruence.
Qed.

(** The pattern of the dialect matches the texts of the dialect. *)
Lemma seconds_fullmatch (ts : str) :
  pure_seconds ts -> is_Some (re_fullmatch SECONDS_RE ts).
Proof.
  intros (ip & Hne & Hip & Hts). destruct ip as [|x W]; [contradiction|].
  apply Forall_cons in Hip as [Hx HW].
  unfold re_fullmatch, SECONDS_RE, ROpt. rewrite rmatch_seq.
  destruct Hts as [-> | (fp & Hfne & Hfp & ->)].
  - eexists. replace (x :: W) with (x :: W ++ []) by (now rewrite app_nil_r).
    apply rmatch_plus_greedy; [assumption | assumption | exact I |].
    rewrite rmatch_alt, rmatch_group, rmatch_seq, rmatch_char_nil. reflexivity.
  - destruct fp as [|y V]; [contradiction|].
    apply Forall_cons in Hfp as [Hy HV].
    eexists. rewrite <- app_comm_cons.
    apply rmatch_plus_greedy; [assumption | assumption | reflexivity |].
    rewrite rmatch_alt, rmatch_group, rmatch_seq, rmatch_char_cons.
    rewrite N.eqb_refl. replace (y :: V) with (y :: V ++ []) by (now rewrite app_nil_r).
    erewrite rmatch_plus_greedy; [reflexivity | assumption | assumption | exact I |].
    reflexivity.
Qed.

(** On a text of the dialect the decoder multiplies the float of the
    text by 1000 and truncates. *)
Lemma parse_pure_seconds (ts : str) :
  pure_seconds ts ->
  parse_ts_to_ms ts = int_of_float (float_mul (float_of_str ts) (float_of_Z 1000)).
Proof.
  intros H. pose proof (seconds_fullmatch ts H) as Hm.
  destruct H as (ip & Hne & Hip & Hts).
  assert (Hall : Forall (fun c => harmless c = true \/ c = 46%N) ts).
  { assert (Hd : forall l, Forall (fun c => is_decimal c = true) l ->
        Forall (fun c => harmless c = true \/ c = 46%N) l).
    { intros l Hl. eapply Forall_impl; [exact Hl|].
      intros c Hc. left. now apply is_decimal_harmless. }
    destruct Hts as [-> | (fp & _ & Hfp & ->)]; [now apply Hd|].
    apply Forall_app. split; [now apply Hd|]. constructor; [now right | now apply Hd]. }
  unfold parse_ts_to_ms.
  rewrite strip_no_space.
  2:{ eapply Forall_impl; [exact Hall|]. intros c [Hc | ->]; [|reflexivity].
      unfold harmless in Hc. destruct (is_space c); [discriminate | reflexivity]. }
  rewrite replace_char_none.
  2:{ eapply Forall_impl; [exact Hall|]. intros c [Hc | ->]; [|reflexivity].
      unfold harmless in Hc. destruct (is_space c), (c =? 44)%N; simpl in Hc; congruence. }
  assert (Hts' : is_empty ts = false).
  { destruct Hts as [-> | (fp & _ & _ & ->)]; now destruct ip. }
  rewrite Hts'. now rewrite bool_decide_eq_true_2.
Qed.

End PureSeconds.

(* ================================================================== *)
(** * The chunker *)
(* ================================================================== *)

Section Chunker.

Lemma chunk_index_ok (base_ms chunk_ms start : Z) :
  chunk_ms <> 0%Z ->
  chunk_index base_ms chunk_ms start = Ok (bucket_of base_ms chunk_ms start).
Proof.
  intros H. unfold chunk_index, floordiv, bucket_of.
  destruct (chunk_ms =? 0)%Z eqn:E; [apply Z.eqb_eq in E; contradiction|].
  reflexivity.
Qed.

Lemma bucket_at_pad (i k : nat) (buckets : list (list Cue)) :
  bucket_at i (buckets ++ repeat [] k) = bucket_at i buckets.
Proof.
  unfold bucket_at. destruct (decide (i < length buckets)) as [H|H].
  - now rewrite lookup_app_l.
  - rewrite lookup_app_r by lia. rewrite (lookup_ge_None_2 buckets) by lia.
    simpl. destruct (repeat [] k !! (i - length buckets)) as [b|] eqn:E; [|reflexivity].
    apply list_elem_of_lookup_2, list_elem_of_In, repeat_spec in E. now subst.
Qed.

Lemma bucket_at_alter (f : list Cue -> list Cue) (i idx : nat) buckets :
  idx < length buckets ->
  bucket_at i (alter f idx buckets) =
  if decide (i = idx) then f (bucket_at i buckets) else bucket_at i buckets.
Proof.
  intros H. unfold bucket_at. destruct (decide (i = idx)) as [->|Hne].
  - rewrite list_lookup_alter_eq. apply lookup_lt_is_Some_2 in H as [b Hb].
    now rewrite Hb.
  - now rewrite list_lookup_alter_ne by congruence.
Qed.

(** One cue goes to the bucket of its start time. *)
Lemma place_cue_spec (base_ms chunk_ms : Z) (buckets : list (list Cue)) (c : Cue) :
  chunk_ms <> 0%Z ->
  exists buckets', place_cue base_ms chunk_ms buckets c = Ok buckets' /\
    forall i, bucket_at i buckets' =
      bucket_at i buckets ++
      (if decide (i = bucket_of base_ms chunk_ms (start_ms c)) then [c] else []).
Proof.
  intros H. unfold place_cue. rewrite chunk_index_ok by assumption. cbn [bind].
  eexists. split; [reflexivity|]. intros i.
  rewrite bucket_at_alter by (rewrite length_app, repeat_length; lia).
  rewrite bucket_at_pad.
  destruct (decide _); [reflexivity | now rewrite app_nil_r].
Qed.

(** Every cue is in the bucket of its start time, in the order of the
    input. *)
Lemma group_cues_from (base_ms chunk_ms : Z) (cues : list Cue) :
  chunk_ms <> 0%Z ->
  forall buckets, exists buckets',
    for_each (place_cue base_ms chunk_ms) cues buckets = Ok buckets' /\
    forall i, bucket_at i buckets' =
      bucket_at i buckets ++
      List.filter (fun c => bucket_of base_ms chunk_ms (start_ms c) =? i) cues.
Proof.
  intros H. induction cues as [|c cues IH]; intros buckets.
  - exists buckets. split; [reflexivity|]. intros i. now rewrite app_nil_r.
  - destruct (place_cue_spec base_ms chunk_ms buckets c H) as (b1 & E1 & H1).
    destruct (IH b1) as (b2 & E2 & H2).
    exists b2. split.
    + rewrite for_each_cons, E1. exact E2.
    + intros i. rewrite H2, H1, <- app_assoc. f_equal. cbn [List.filter].
      destruct (decide (i = _)) as [->|Hne].
      * now rewrite Nat.eqb_refl.
      * destruct (_ =? i) eqn:E; [|reflexivity].
        apply Nat.eqb_eq in E. congruence.
Qed.

Lemma group_cues_spec (base_ms chunk_ms : Z) (cues : list Cue) :
  chunk_ms <> 0%Z ->
  exists buckets, group_cues base_ms chunk_ms cues = Ok buckets /\
    forall i, bucket_at i buckets =
      List.filter (fun c => bucket_of base_ms chunk_ms (start_ms c) =? i) cues.
Proof.
  intros H. destruct (group_cues_from base_ms chunk_ms cues H []) as (b & E & Hb).
  exists b. split; [exact E|]. intros i. rewrite Hb. unfold bucket_at.
  now rewrite lookup_nil.
Qed.

(** [enumerate] numbers the positions. *)
Lemma enumerate_lookup {A : Type} (l : list A) :
  forall n i, enumerate n l !! i = (fun x => (n + i, x)) <$> l !! i.
Proof.
  induction l as [|x l IH]; intros n i; [reflexivity|].
  destruct i as [|i]; simpl.
  - now rewrite Nat.add_0_r.
  - rewrite IH. now replace (S n + i) with (n + S i) by lia.
Qed.

(** The writing loop writes one file for every bucket that is not empty,
    in the order of the buckets. *)
Lemma write_parts_spec header stem rebase base_ms chunk_ms
    (numbered : list (nat * list Cue)) :
  forall written,
  fold_left (write_part header stem rebase base_ms chunk_ms) numbered written
  = written ++ flat_map (part_of header stem rebase base_ms chunk_ms) numbered.
Proof.
  induction numbered as [|[idx bucket] numbered IH]; intros written; simpl.
  - now rewrite app_nil_r.
  - rewrite IH. unfold part_of. simpl.
    destruct bucket; simpl; [reflexivity | now rewrite <- app_assoc].
Qed.

Lemma part_of_name header stem rebase base_ms chunk_ms (numbered : list (nat * list Cue)) :
  List.map fst (flat_map (part_of header stem rebase base_ms chunk_ms) numbered)
  = List.map (fun ib => part_name stem ib.1) (List.filter occupied numbered).
Proof.
  induction numbered as [|[idx bucket] numbered IH]; simpl; [reflexivity|].
  unfold occupied at 1. simpl. destruct bucket; simpl; now rewrite IH.
Qed.

(** The least start time. *)
Lemma fold_min_le (cues : list Cue) : forall m,
  (fold_left (fun m c' => Z.min m (start_ms c')) cues m <= m)%Z /\
  Forall (fun c => (fold_left (fun m c' => Z.min m (start_ms c')) cues m
                    <= start_ms c)%Z) cues.
Proof.
  induction cues as [|c cues IH]; intros m; simpl.
  - split; [lia | constructor].
  - destruct (IH (Z.min m (start_ms c))) as [H1 H2]. split; [lia|].
    constructor; [lia | exact H2].
Qed.

Lemma min_start_le (cues : list Cue) :
  Forall (fun c => (min_start cues <= start_ms c)%Z) cues.
Proof.
  destruct cues as [|c cues]; [constructor|]. simpl.
  destruct (fold_min_le cues (start_ms c)) as [H1 H2]. now constructor.
Qed.

Lemma fold_min_in (cues : list Cue) : forall m,
  fold_left (fun m c' => Z.min m (start_ms c')) cues m = m \/
  exists c, In c cues /\
    fold_left (fun m c' => Z.min m (start_ms c')) cues m = start_ms c.
Proof.
  induction cues as [|c cues IH]; intros m; simpl; [now left|].
  destruct (IH (Z.min m (start_ms c))) as [E | (c' & Hin & E)].
  - rewrite E. destruct (Z.min_spec m (start_ms c)) as [[_ ->] | [_ ->]];
      [now left | right; exists c; split; [now left | reflexivity]].
  - right. exists c'. split; [now right | exact E].
Qed.

Lemma min_start_in (cues : list Cue) :
  cues <> [] -> exists c, In c cues /\ min_start cues = start_ms c.
Proof.
  destruct cues as [|c cues]; [contradiction|]. intros _. simpl.
  destruct (fold_min_in cues (start_ms c)) as [E | (c' & Hin & E)].
  - exists c. split; [now left | exact E].
  - exists c'. split; [now right | exact E].
Qed.

End Chunker.

(* ================================================================== *)
(** * The merger *)
(* ================================================================== *)

Section Merger.

Lemma str_compare_eq (a : str) : forall b, str_compare a b = Eq -> a = b.
Proof.
  induction a as [|x a IH]; intros [|y b] H; simpl in H; try discriminate.
  - reflexivity.
  - destruct (x ?= y)%N eqn:E; try discriminate.
    apply N.compare_eq in E. subst. f_equal. now apply IH.
Qed.

Lemma str_compare_refl (a : str) : str_compare a a = Eq.
Proof. induction a as [|x a IH]; simpl; [reflexivity|]. now rewrite N.compare_refl. Qed.

Lemma str_compare_antisym (a : str) : forall b,
  str_compare b a = CompOpp (str_compare a b).
Proof.
  induction a as [|x a IH]; intros [|y b]; simpl; try reflexivity.
  rewrite (N.compare_antisym x y).
  destruct (x ?= y)%N; simpl; [apply IH | reflexivity | reflexivity].
Qed.

Lemma str_compare_lt_trans (a : str) : forall b c,
  str_compare a b = Lt -> str_compare b c = Lt -> str_compare a c = Lt.
Proof.
  induction a as [|x a IH]; intros [|y b] [|z c] H1 H2; simpl in *;
    try discriminate; try reflexivity.
  destruct (x ?= y)%N eqn:E1; try discriminate;
  destruct (y ?= z)%N eqn:E2; try discriminate.
  - apply N.compare_eq in E1, E2. subst. rewrite N.compare_refl. eapply IH; eassumption.
  - apply N.compare_eq in E1. subst. now rewrite E2.
  - apply N.compare_eq in E2. subst. now rewrite E1.
  - rewrite N.compare_lt_iff in E1, E2.
    assert (E : (x ?= z)%N = Lt) by (apply N.compare_lt_iff; lia). now rewrite E.
Qed.

Lemma key3_antisym x y : key3_compare y x = CompOpp (key3_compare x y).
Proof.
  destruct x as [[a b] c], y as [[a' b'] c']. simpl.
  rewrite (Z.compare_antisym a a'), (Z.compare_antisym b b').
  destruct (a ?= a')%Z; simpl; try reflexivity.
  destruct (b ?= b')%Z; simpl; try reflexivity.
  apply str_compare_antisym.
Qed.

Lemma key3_lt_trans x y z :
  key3_compare x y = Lt -> key3_compare y z = Lt -> key3_compare x z = Lt.
Proof.
  destruct x as [[a b] c], y as [[a' b'] c'], z as [[a'' b''] c'']. simpl.
  destruct (Z.compare_spec a a') as [Ea|La|Ga],
           (Z.compare_spec a' a'') as [Ea'|La'|Ga']; try discriminate;
    subst; intros H1 H2.
  - rewrite Z.compare_refl.
    destruct (Z.compare_spec b b') as [Eb|Lb|Gb],
             (Z.compare_spec b' b'') as [Eb'|Lb'|Gb']; try discriminate; subst.
    + rewrite Z.compare_refl. eapply str_compare_lt_trans; eassumption.
    + now apply Z.compare_lt_iff in Lb' as ->.
    + now apply Z.compare_lt_iff in Lb as ->.
    + assert (E : (b ?= b'')%Z = Lt) by (apply Z.compare_lt_iff; lia). now rewrite E.
  - now apply Z.compare_lt_iff in La' as ->.
  - now apply Z.compare_lt_iff in La as ->.
  - assert (E : (a ?= a'')%Z = Lt) by (apply Z.compare_lt_iff; lia). now rewrite E.
Qed.

Lemma key3_eq x y : key3_compare x y = Eq -> x = y.
Proof.
  destruct x as [[a b] c], y as [[a' b'] c']. simpl.
  destruct (Z.compare_spec a a') as [Ea| |]; try discriminate.
  destruct (Z.compare_spec b b') as [Eb| |]; try discriminate.
  intros Hc. apply str_compare_eq in Hc. now subst.
Qed.

Lemma key_compare_key3 (x y : enriched_file) :
  key_compare x y = key3_compare x.1 y.1.
Proof. destruct x as [[[a b] c] f], y as [[[a' b'] c'] f']. reflexivity. Qed.

Lemma key_le_total (x y : enriched_file) : key_le x y = true \/ key_le y x = true.
Proof.
  unfold key_le. rewrite !key_compare_key3, (key3_antisym x.1 y.1).
  destruct (key3_compare x.1 y.1); simpl; auto.
Qed.

Lemma key_le_trans (x y z : enriched_file) :
  key_le x y = true -> key_le y z = true -> key_le x z = true.
Proof.
  unfold key_le. rewrite !key_compare_key3.
  destruct (key3_compare x.1 y.1) eqn:E1; try discriminate;
  destruct (key3_compare y.1 z.1) eqn:E2; try discriminate; intros _ _.
  - apply key3_eq in E1. rewrite E1, E2. reflexivity.
  - apply key3_eq in E1. rewrite E1, E2. reflexivity.
  - apply key3_eq in E2. rewrite <- E2, E1. reflexivity.
  - now rewrite (key3_lt_trans _ _ _ E1 E2).
Qed.

Lemma StronglySorted_map {A B : Type} (f : A -> B) (R : B -> B -> Prop) (l : list A) :
  StronglySorted (fun a b => R (f a) (f b)) l -> StronglySorted R (List.map f l).
Proof.
  induction 1 as [|x l Hl IH Hx]; simpl; constructor; [exact IH|].
  apply Forall_forall. intros y Hy. apply list_elem_of_In in Hy.
  apply in_map_iff in Hy as (a & <- & Ha).
  rewrite Forall_forall in Hx. apply Hx. now apply list_elem_of_In.
Qed.

(** The merge order: the files, sorted by their keys. *)
Lemma files_sorted_spec (files : list file) :
  Permutation files (files_sorted files) /\ StronglySorted file_le (files_sorted files).
Proof.
  unfold files_sorted.
  set (E := sort_by key_le (List.map enrich files)).
  assert (HP : Permutation (List.map enrich files) E) by apply sort_by_perm.
  assert (HE : Forall (fun x => x = enrich x.2) E).
  { rewrite <- HP. apply Forall_forall. intros x Hx.
    apply list_elem_of_In, in_map_iff in Hx as (f & <- & _). reflexivity. }
  split.
  - apply (Permutation_map snd) in HP. rewrite map_map in HP. simpl in HP.
    now rewrite map_id in HP.
  - apply StronglySorted_map.
    assert (HS : StronglySorted (fun a b => key_le a b = true) E).
    { apply sort_by_strongly_sorted; [apply key_le_total | apply key_le_trans]. }
    clear HP. induction HS as [|x l Hl IH Hx]; [constructor|].
    apply Forall_cons in HE as [Ex HE]. constructor; [now apply IH|].
    unfold file_le. rewrite <- Ex.
    rewrite Forall_forall in Hx, HE. apply Forall_forall. intros y Hy.
    rewrite <- (HE y Hy). now apply Hx.
Qed.

Lemma first_start_startless (body : list str) :
  Forall startless body -> first_start body = (10 ^ 12)%Z.
Proof.
  induction 1 as [|line body Hl _ IH]; simpl; [reflexivity|].
  unfold startless in Hl.
  destruct (ts_line_match line) as [[[g1 g2] g3]|]; [|exact IH].
  destruct (parse_ts_to_ms (strip g1)); [discriminate | exact IH].
Qed.

(** A file with a smaller start time is never after one with a larger. *)
Lemma files_sorted_before (files : list file) (f g : file) (l1 l2 : list file) :
  files_sorted files = l1 ++ g :: l2 ->
  (first_cue_start_ms f.2 < first_cue_start_ms g.2)%Z ->
  ~ In f l2.
Proof.
  intros E Hlt Hin.
  destruct (files_sorted_spec files) as [_ HS]. rewrite E in HS.
  apply StronglySorted_app_1_r, StronglySorted_inv in HS as [_ Hall].
  rewrite Forall_forall in Hall. apply list_elem_of_In in Hin.
  specialize (Hall f Hin). unfold file_le, key_le, enrich, key_compare in Hall.
  destruct (Z.compare_spec (first_cue_start_ms g.2) (first_cue_start_ms f.2));
    first [lia | discriminate].
Qed.

End Merger.

(* ================================================================== *)
(** * The fusion rule of the compressor *)
(* ================================================================== *)

Section Fusion.

Lemma ends_sentence_spec (s : str) :
  ends_sentence s = true <-> sentence_terminal (clean_text s).
Proof.
  unfold ends_sentence, sentence_terminal.
  destruct (last (clean_text s)) as [c|] eqn:E.
  - apply last_Some in E as [p Ep]. rewrite bool_decide_eq_true, list_elem_of_In.
    split.
    + intros Hc. right. now exists p, c.
    + intros [H0 | (p' & c' & Ep' & Hc')].
      * rewrite H0 in Ep. now destruct p.
      * rewrite Ep in Ep'. apply app_inj_tail in Ep' as [_ ->]. exact Hc'.
  - apply last_None in E. split; [now left | reflexivity].
Qed.

Lemma merge_step_spec (gap_ms max_chars : Z) merged (cur next : ccue) :
  (spec_fuses gap_ms max_chars cur next ->
   merge_step gap_ms max_chars (merged, cur) next = (merged, spec_fused cur next)) /\
  (~ spec_fuses gap_ms max_chars cur next ->
   merge_step gap_ms max_chars (merged, cur) next = (merged ++ [flush cur], next)).
Proof.
  destruct cur as [[[[cs ce] cst] cet] buf].
  destruct next as [[[[ns ne] nst] net] txt].
  unfold spec_fuses, spec_fused, merge_step, flush.
  assert (Hlen : len (buf ++ py " " ++ txt) = (len buf + 1 + len txt)%Z).
  { unfold len. rewrite !length_app. simpl. lia. }
  rewrite Hlen.
  destruct (ns - ce <=? gap_ms)%Z eqn:E1;
    [apply Z.leb_le in E1 | apply Z.leb_gt in E1].
  2:{ simpl. split; [intros (H & _); lia | reflexivity]. }
  destruct (ends_sentence buf) eqn:E2.
  { simpl. apply ends_sentence_spec in E2.
    split; [intros (_ & H & _); contradiction | reflexivity]. }
  assert (E2' : ~ sentence_terminal (clean_text buf)).
  { intros H. apply ends_sentence_spec in H. congruence. }
  destruct (len buf + 1 + len txt <=? max_chars)%Z eqn:E3;
    [apply Z.leb_le in E3 | apply Z.leb_gt in E3]; simpl.
  - split; [reflexivity | intros H; exfalso; apply H; now repeat split].
  - split; [intros (_ & _ & H); lia | reflexivity].
Qed.

Lemma cue_key_le_spec (x y : ccue) : cue_key_le x y = true <-> start_end_le x y.
Proof.
  destruct x as [[[[s e] a] b] c], y as [[[[s' e'] a'] b'] c'].
  unfold cue_key_le, start_end_le.
  destruct (Z.compare_spec s s') as [Es|Ls|Gs].
  - rewrite Z.leb_le. split; [intros H; now right | intros [H | [_ H]]; [lia | exact H]].
  - split; [intros _; now left | reflexivity].
  - split; [discriminate | intros [H | [H _]]; lia].
Qed.

Lemma cue_key_le_total (x y : ccue) : cue_key_le x y = true \/ cue_key_le y x = true.
Proof.
  rewrite !cue_key_le_spec.
  destruct x as [[[[s e] a] b] c], y as [[[[s' e'] a'] b'] c']. simpl. lia.
Qed.

Lemma cue_key_le_trans (x y z : ccue) :
  cue_key_le x y = true -> cue_key_le y z = true -> cue_key_le x z = true.
Proof.
  rewrite !cue_key_le_spec.
  destruct x as [[[[s e] a] b] c], y as [[[[s' e'] a'] b'] c'],
           z as [[[[s'' e''] a''] b''] c'']. simpl. lia.
Qed.

Lemma sorted_cues_spec (cues : list ccue) :
  Permutation cues (sort_by cue_key_le cues) /\
  StronglySorted start_end_le (sort_by cue_key_le cues).
Proof.
  split; [apply sort_by_perm|].
  assert (H : StronglySorted (fun a b => cue_key_le a b = true)
                (sort_by cue_key_le cues)).
  { apply sort_by_strongly_sorted; [apply cue_key_le_total | apply cue_key_le_trans]. }
  induction H as [|x l Hl IH Hx]; constructor; [exact IH|].
  eapply Forall_impl; [exact Hx|]. intros y. apply cue_key_le_spec.
Qed.

End Fusion.

(* ================================================================== *)
(** * Which exceptions leave the readers of timestamp lines *)
(* ================================================================== *)

Section Recovery.

Lemma first_token_raise (s : str) (e : exn) : first_token s = Raise e -> e = IndexError.
Proof. unfold first_token. destruct (split_ws s); [|discriminate]. now intros [= <-]. Qed.

Lemma for_each_raise {S A : Type} (body : S -> A -> result S) (P : exn -> Prop) :
  (forall st x e, body st x = Raise e -> P e) ->
  forall xs st e, for_each body xs st = Raise e -> P e.
Proof.
  intros Hbody. induction xs as [|x xs IH]; intros st e H; [discriminate|].
  rewrite for_each_cons in H. destruct (body st x) as [st'|e'] eqn:E.
  - now apply IH in H.
  - inversion H; subst. now apply Hbody in E.
Qed.

(** The fixer never fails because a timestamp does not decode. *)
Lemma fix_vtt_timestamps_raise (lines : list str) (e : exn) :
  fix_vtt_timestamps lines = Raise e -> e = IndexError.
Proof.
  unfold fix_vtt_timestamps.
  apply (for_each_raise fix_line (fun e => e = IndexError)).
  intros [fl lg] [idx line] e' H. unfold fix_line in H.
  destruct (ts_line_match line) as [[[g1 g2] g3]|]; [|discriminate].
  destruct (first_token (strip g2)) as [end_raw|x] eqn:Et.
  - cbn [bind] in H. destruct (parse_pair _ _) as [[s t]|]; [|discriminate].
    destruct (t <? s)%Z; [discriminate|]. destruct (negb _); discriminate.
  - inversion H; subst. now apply first_token_raise in Et.
Qed.

(** Neither does the checker. *)
Lemma check_and_collect_issues_raise (lines : list str) (e : exn) :
  check_and_collect_issues lines = Raise e -> e = IndexError.
Proof.
  unfold check_and_collect_issues. intros H.
  destruct (for_each check_line (enumerate 1 lines) ([], [])) as [[i c]|e'] eqn:E;
    [discriminate|].
  inversion H; subst. revert E.
  apply (for_each_raise check_line (fun e => e = IndexError)).
  intros [issues cues] [idx line] e' H'. unfold check_line in H'.
  destruct (ts_line_match line) as [[[g1 g2] g3]|]; [|discriminate].
  destruct (first_token (strip g2)) as [end_raw|x] eqn:Et.
  - cbn [bind] in H'. destruct (parse_pair _ _) as [[s t]|]; discriminate.
  - inversion H'; subst. now apply first_token_raise in Et.
Qed.

(** Neither does the cue parser. *)
Lemma iter_cues_loop_raise (fuel : nat) : forall (body_lines : list str) (e : exn),
  iter_cues_loop fuel body_lines = Raise e -> e = IndexError.
Proof.
  induction fuel as [|fuel IH]; intros body_lines e H; [discriminate|].
  destruct body_lines as [|line rest]; [discriminate|].
  cbn [iter_cues_loop] in H.
  destruct (ts_line_match line) as [[[g1 g2] g3]|]; [|now apply IH in H].
  destruct (first_token (strip g2)) as [end_raw|x] eqn:Et.
  - cbn [bind] in H. destruct (parse_pair _ _) as [[s t]|]; [|now apply IH in H].
    destruct (iter_cues_loop fuel _) as [cs|e'] eqn:E; [discriminate|].
    inversion H; subst. now apply IH in E.
  - inversion H; subst. now apply first_token_raise in Et.
Qed.

(** What does leave them: a line whose arrow is followed by white space
    only has an empty end text, and [split()[0]] is outside the [try]. *)
Lemma arrow_without_end_raises :
  fix_vtt_timestamps [py "a --> "] = Raise IndexError /\
  check_and_collect_issues [py "a --> "] = Raise IndexError /\
  iter_cues [py "a --> "] = Raise IndexError /\
  first_start [py "a --> "] = (10 ^ 12)%Z.
Proof. repeat split; vm_compute; reflexivity. Qed.

(** The two scanning loops never run out of fuel: any fuel from the
    number of lines on gives the same result. *)
Lemma drop_while_line_length (p : str -> bool) (l : list str) :
  length (drop_while_line p l) <= length l.
Proof.
  induction l as [|x l IH]; simpl; [lia|]. destruct (p x); simpl; lia.
Qed.

Lemma iter_cues_loop_fuel (n : nat) : forall fuel1 fuel2 (l : list str),
  length l <= n -> n <= fuel1 -> n <= fuel2 ->
  iter_cues_loop fuel1 l = iter_cues_loop fuel2 l.
Proof.
  induction n as [|n IH]; intros fuel1 fuel2 l Hl H1 H2.
  - destruct l; [|simpl in Hl; lia]. now destruct fuel1, fuel2.
  - destruct l as [|line rest]; [now destruct fuel1, fuel2|].
    destruct fuel1 as [|f1]; [lia|]. destruct fuel2 as [|f2]; [lia|].
    simpl in Hl. cbn [iter_cues_loop].
    assert (Hrest : iter_cues_loop f1 rest = iter_cues_loop f2 rest)
      by (apply IH; lia).
    destruct (ts_line_match line) as [[[g1 g2] g3]|]; [|exact Hrest].
    destruct (first_token (strip g2)) as [end_raw|]; [|reflexivity].
    cbn [bind]. destruct (parse_pair _ _) as [[s t]|]; [|exact Hrest].
    rewrite (IH f1 f2); [reflexivity | | lia | lia].
    pose proof (drop_while_line_length blank (drop_while_line nonblank rest)).
    pose proof (drop_while_line_length nonblank rest). lia.
Qed.

Lemma compress_parse_loop_fuel (n : nat) : forall fuel1 fuel2 (l : list str),
  length l <= n -> n <= fuel1 -> n <= fuel2 ->
  compress_parse_loop fuel1 l = compress_parse_loop fuel2 l.
Proof.
  induction n as [|n IH]; intros fuel1 fuel2 l Hl H1 H2.
  - destruct l; [|simpl in Hl; lia]. now destruct fuel1, fuel2.
  - destruct l as [|line rest]; [now destruct fuel1, fuel2|].
    destruct fuel1 as [|f1]; [lia|]. destruct fuel2 as [|f2]; [lia|].
    simpl in Hl. cbn [compress_parse_loop].
    assert (Hrest : compress_parse_loop f1 rest = compress_parse_loop f2 rest)
      by (apply IH; lia).
    destruct (is_empty (strip line)); [exact Hrest|].
    destruct (ts_line_match line) as [[[g1 g2] g3]|]; [|exact Hrest].
    destruct (first_token (strip g2)) as [end_raw|]; [|reflexivity].
    cbn [bind]. destruct (parse_ts_to_ms (strip g1)) as [s|]; [|reflexivity].
    cbn [bind]. destruct (parse_ts_to_ms end_raw) as [t|]; [|reflexivity].
    cbn [bind]. rewrite (IH f1 f2); [reflexivity | | lia | lia].
    pose proof (drop_while_line_length blank (drop_while_line nonblank rest)).
    pose proof (drop_while_line_length nonblank rest). lia.
Qed.

End Recovery.

(* ================================================================== *)
(** * The document splitter without a signature line *)
(* ================================================================== *)

Section Splitter.

Lemma drop_while_line_head (p : str -> bool) (lines : list str) :
  match drop_while_line p lines with
  | [] => True
  | l :: _ => p l = false
  end.
Proof.
  induction lines as [|l lines IH]; simpl; [exact I|].
  destruct (p l) eqn:E; [exact IH | exact E].
Qed.

(** When the first line that is not blank is no signature line, the
    splitter still opens the header with it. *)
Lemma split_header_without_signature (lines : list str) (l : str) (rest : list str) :
  drop_while_line blank lines = l :: rest -> is_signature l = false ->
  exists header, (split_header_and_body lines).1 = l :: header.
Proof.
  intros E Hsig. unfold split_header_and_body. rewrite E, Hsig.
  pose proof (drop_while_line_head blank lines) as Hl. rewrite E in Hl.
  cbn [take_while_line app fst]. unfold nonblank at 1. rewrite Hl. cbn [negb].
  eexists. reflexivity.
Qed.

End Splitter.

(* ================================================================== *)
(** * The claims of the specification *)
(* ================================================================== *)

(** C1. The claim: every reader of timestamps recovers locally from a
    timestamp that does not decode, the compressor included. The
    compressor does not: on [doc_malformed] it raises the [ValueError] of
    the decoder, while the merger's scan, the cue parser, the fixer and
    the checker go on and keep the two good cues. *)
Theorem C1_compressor_aborts_on_malformed_timestamp :
  cmd_compress doc_malformed 500 130 = Raise ValueError /\
  first_cue_start_ms doc_malformed = 1000%Z /\
  iter_cues (split_header_and_body (read_text_lines doc_malformed)).2
  = Ok [mkCue 1000 2000 [py "Hello"] (py "00:00:01.000 --> 00:00:02.000");
        mkCue 3000 4000 [py "World"] (py "00:00:03.000 --> 00:00:04.000")] /\
  (exists log,
     fix_vtt_timestamps (read_text_lines doc_malformed)
       = Ok (read_text_lines doc_malformed, log) /\
     List.map fst log = [(6, SKIP_UNPARSEABLE)]) /\
  (exists issues cues,
     check_and_collect_issues (read_text_lines doc_malformed) = Ok (issues, cues) /\
     List.map issue_kind_of issues = [PARSE_FAIL] /\ length cues = 2).
Proof.
  split; [vm_compute; reflexivity|]. split; [vm_compute; reflexivity|].
  split; [vm_compute; reflexivity|]. split.
  - eexists. split; vm_compute; reflexivity.
  - do 2 eexists. split; [vm_compute; reflexivity|]. split; reflexivity.
Qed.

(** C2, counterexample. The compressor has no swap: the cue of
    [doc_reversed] is written with its end before its start. *)
Lemma C2_compressor_keeps_reversed_cue : ~ compressor_orders_times.
Proof.
  intros H.
  assert (Hp : compress_parse doc_reversed
               = Ok [(5000, 2000, py "00:00:05.000", py "00:00:02.000", py "Hello")]%Z)
    by (vm_compute; reflexivity).
  specialize (H _ _ 500%Z 130%Z Hp).
  assert (Hm : merge_cues 500 130
                 [(5000, 2000, py "00:00:05.000", py "00:00:02.000", py "Hello")]%Z
               = [(py "00:00:05.000", py "00:00:02.000", py "Hello")])
    by (vm_compute; reflexivity).
  rewrite Hm in H. apply Forall_cons in H as [(s & e & Hs & He & Hle) _].
  assert (Es : parse_ts_to_ms (py "00:00:05.000") = Ok 5000%Z)
    by (vm_compute; reflexivity).
  assert (Ee : parse_ts_to_ms (py "00:00:02.000") = Ok 2000%Z)
    by (vm_compute; reflexivity).
  rewrite Es in Hs. rewrite Ee in He. inversion Hs; inversion He; subst. lia.
Qed.

(** C2, amended. After a pass of the fixer every line it rewrote, that
    is every line whose two timestamps decode, decodes to times in order
    (the two times of the input, swapped when needed and clamped at zero),
    and the other lines are unchanged; the compressor keeps the order:
    when every cue it parses has its times in order, so has every cue it
    writes. *)
Theorem C2_times_in_order :
  (forall lines fixed log,
     fix_vtt_timestamps lines = Ok (fixed, log) ->
     Forall2 fixed_from lines fixed /\ Forall in_order fixed) /\
  (forall content cues gap_ms max_chars,
     compress_parse content = Ok cues ->
     Forall cue_ordered cues ->
     Forall out_ordered (merge_cues gap_ms max_chars cues)).
Proof.
  split.
  - intros lines fixed log H. unfold fix_vtt_timestamps in H.
    apply fix_loop_twice in H as (xs & -> & Hrel & Hord & _). now split.
  - intros content cues gap_ms max_chars Hp Ho.
    apply merge_cues_ordered; [now apply compress_parse_wf in Hp | exact Ho].
Qed.

Lemma C2_times_in_order_witness :
  (Forall2 fixed_from [line_swapped]
     [py "00:02:00.000 --> 00:05:00.000 align:start" ++ [LF]] /\
   Forall in_order [py "00:02:00.000 --> 00:05:00.000 align:start" ++ [LF]]) /\
  Forall out_ordered (merge_cues 500 130 three_cues).
Proof.
  split.
  - apply (proj1 C2_times_in_order [line_swapped] _
             [(1, SWAP_START_END, DText (py "05:00.000 --> 02:00.000"))]).
    vm_compute. reflexivity.
  - apply (proj2 C2_times_in_order doc_three_cues three_cues 500%Z 130%Z).
    + vm_compute. reflexivity.
    + unfold three_cues, cue_ordered. repeat constructor; lia.
Defined.

(** C3. The claim: without a signature line the header is empty and the
    body is all the rest. The splitter still takes the lines up to the
    first blank line, and the blank lines after them, as the header: on
    [doc_headerless] the first cue is in the header and the body, and
    with it the cue parser, has the second cue only. *)
Theorem C3_headerless_document_loses_first_block :
  Forall (fun l => is_signature l = false) (read_text_lines doc_headerless) /\
  split_header_and_body (read_text_lines doc_headerless)
  = ([py "00:00:01.000 --> 00:00:02.000" ++ [LF]; py "Hello" ++ [LF]; [LF]],
     [py "00:00:03.000 --> 00:00:04.000" ++ [LF]; py "World" ++ [LF]]) /\
  iter_cues (split_header_and_body (read_text_lines doc_headerless)).2
  = Ok [mkCue 3000 4000 [py "World"] (py "00:00:03.000 --> 00:00:04.000")].
Proof.
  split; [|split; vm_compute; reflexivity].
  assert (E : read_text_lines doc_headerless
              = [py "00:00:01.000 --> 00:00:02.000" ++ [LF]; py "Hello" ++ [LF]; [LF];
                 py "00:00:03.000 --> 00:00:04.000" ++ [LF]; py "World" ++ [LF]])
    by (vm_compute; reflexivity).
  rewrite E. repeat (constructor; [vm_compute; reflexivity|]). constructor.
Qed.

(** C4. For every millisecond value m >= 0 decoding the encoded text
    gives m back; the encoder is a total function, and a negative input
    is encoded as zero is. *)
Theorem C4_codec_round_trip (m n : Z) :
  (0 <= m)%Z -> (n < 0)%Z ->
  parse_ts_to_ms (ms_to_vtt m) = Ok m /\
  ms_to_vtt n = ms_to_vtt 0 /\ parse_ts_to_ms (ms_to_vtt n) = Ok 0%Z.
Proof.
  intros Hm Hn. rewrite !parse_ms_to_vtt, (ms_to_vtt_clamp n).
  rewrite (Z.max_r 0 m), (Z.max_l 0 n) by lia. repeat split.
Qed.

Lemma C4_codec_round_trip_witness :
  parse_ts_to_ms (ms_to_vtt 3723500) = Ok 3723500%Z /\
  ms_to_vtt (-5) = ms_to_vtt 0 /\ parse_ts_to_ms (ms_to_vtt (-5)) = Ok 0%Z.
Proof. apply (C4_codec_round_trip 3723500 (-5)); lia. Defined.

Lemma pure_seconds_example (ip fp : str) :
  ip <> [] -> fp <> [] ->
  forallb is_decimal ip = true -> forallb is_decimal fp = true ->
  pure_seconds (ip ++ 46%N :: fp).
Proof.
  intros Hi Hf Di Df. exists ip. split; [exact Hi|]. split.
  - apply Forall_forall. intros c Hc. rewrite forallb_forall in Di.
    now apply Di, list_elem_of_In.
  - right. exists fp. repeat split; [exact Hf|].
    apply Forall_forall. intros c Hc. rewrite forallb_forall in Df.
    now apply Df, list_elem_of_In.
Qed.

(** C5. The claim: a text of the pure seconds dialect decodes to its
    value times 1000, rounded. The decoder multiplies the float nearest
    to the number by 1000 in binary64 and cuts the fraction of the
    product off, and the product can be just below the integer it stands
    for: "1.005" decodes to 1004, "1.001" to 1000 and "16.08" to 16079,
    where the value times 1000 is the integer 1005, 1001 and 16080, which
    is what the same instants written with a colon decode to. "46.550"
    decodes to 46550. *)
Theorem C5_seconds_lose_a_millisecond :
  pure_seconds (py "1.005") /\
  parse_ts_to_ms (py "1.005") = Ok 1004%Z /\
  is_round_of_ms (py "1.005") 1005 /\ ~ is_round_of_ms (py "1.005") 1004 /\
  parse_ts_to_ms (py "0:01.005") = Ok 1005%Z /\
  parse_ts_to_ms (py "1.001") = Ok 1000%Z /\
  parse_ts_to_ms (py "0:01.001") = Ok 1001%Z /\
  parse_ts_to_ms (py "16.08") = Ok 16079%Z /\
  parse_ts_to_ms (py "0:16.08") = Ok 16080%Z /\
  parse_ts_to_ms (py "46.550") = Ok 46550%Z /\
  ~ seconds_are_rounded.
Proof.
  assert (Hp : pure_seconds (py "1.005")).
  { apply (pure_seconds_example (py "1") (py "005")); easy. }
  assert (Hr : parse_ts_to_ms (py "1.005") = Ok 1004%Z) by (vm_compute; reflexivity).
  assert (Hn : ~ is_round_of_ms (py "1.005") 1004).
  { intros H. vm_compute in H. now apply H. }
  split; [exact Hp|]. split; [exact Hr|].
  split; [vm_compute; discriminate|]. split; [exact Hn|].
  do 6 (split; [vm_compute; reflexivity|]).
  intros H. exact (Hn (H _ _ Hp Hr)).
Qed.

(** C6. Running the fixer on its own output changes nothing and logs no
    SWAP_START_END and no NORMALIZE entry. *)
Theorem C6_fixer_fixed_point (lines fixed : list str) (log : list log_entry) :
  fix_vtt_timestamps lines = Ok (fixed, log) ->
  exists log',
    fix_vtt_timestamps fixed = Ok (fixed, log') /\
    Forall (fun entry => entry.1.2 <> SWAP_START_END /\ entry.1.2 <> NORMALIZE) log'.
Proof.
  unfold fix_vtt_timestamps. intros H.
  apply fix_loop_twice in H as (xs & -> & _ & _ & Hagain).
  destruct (Hagain [] []) as (log' & Hrun & Hskip).
  exists log'. split; [exact Hrun|].
  eapply Forall_impl; [exact Hskip|]. intros entry He. unfold is_skip in He.
  rewrite He. split; discriminate.
Qed.

Lemma C6_fixer_fixed_point_witness :
  exists log',
    fix_vtt_timestamps lines_fixed = Ok (lines_fixed, log') /\
    Forall (fun entry => entry.1.2 <> SWAP_START_END /\ entry.1.2 <> NORMALIZE) log'.
Proof.
  apply (C6_fixer_fixed_point lines_to_fix lines_fixed
           [(3, SWAP_START_END, DText (py "05:00.000 --> 02:00.000"));
            (6, NORMALIZE, DText (py "46.550 --> 50,5"));
            (7, SKIP_UNPARSEABLE, DExn ValueError)]).
  vm_compute. reflexivity.
Defined.

(** C7. The fold of the compressor runs over the cues sorted ascending
    by (start, end); it fuses the next cue into the accumulator exactly
    when the gap is within the threshold, the cleaned text of the
    accumulator does not end a sentence (the empty text does), and the
    text joined with a space is within the budget; a fusion keeps the
    start, takes the later end and cleans the joined text; otherwise the
    accumulator is flushed and restarted from the next cue; the last
    accumulator is flushed. The cues "Hello" and "world." fuse and the
    cue after the full stop starts a new one at a gap of 0 ms. *)
Theorem C7_fusion_rule :
  (forall gap_ms max_chars merged cur next,
     (spec_fuses gap_ms max_chars cur next ->
      merge_step gap_ms max_chars (merged, cur) next = (merged, spec_fused cur next)) /\
     (~ spec_fuses gap_ms max_chars cur next ->
      merge_step gap_ms max_chars (merged, cur) next
      = (merged ++ [flush cur], next))) /\
  (forall gap_ms max_chars cues,
     Permutation cues (sort_by cue_key_le cues) /\
     StronglySorted start_end_le (sort_by cue_key_le cues) /\
     match sort_by cue_key_le cues with
     | [] => merge_cues gap_ms max_chars cues = []
     | first :: rest =>
         let st := fold_left (merge_step gap_ms max_chars) rest ([], first) in
         merge_cues gap_ms max_chars cues = st.1 ++ [flush st.2]
     end) /\
  compress_parse doc_three_cues = Ok three_cues /\
  merge_cues 500 130 three_cues
  = [(py "00:00:01.000", py "00:00:03.000", py "Hello world.");
     (py "00:00:03.000", py "00:00:04.000", py "Next")].
Proof.
  split; [|split; [|split]].
  - intros. apply merge_step_spec.
  - intros gap_ms max_chars cues.
    destruct (sorted_cues_spec cues) as [HP HS]. split; [exact HP|]. split; [exact HS|].
    unfold merge_cues. destruct (sort_by cue_key_le cues) as [|first rest]; [reflexivity|].
    cbv zeta. destruct (fold_left _ rest _) as [merged [[[[cs ce] cst] cet] buf]].
    reflexivity.
  - vm_compute. reflexivity.
  - vm_compute. reflexivity.
Qed.

Lemma C7_fusion_rule_witness :
  merge_step 500 130
    ([], (1000, 2000, py "00:00:01.000", py "00:00:02.000", py "Hello")%Z)
    (2100, 3000, py "00:00:02.100", py "00:00:03.000", py "world.")%Z
  = ([], (1000, 3000, py "00:00:01.000", py "00:00:03.000", py "Hello world.")%Z).
Proof.
  refine (eq_trans (proj1 (proj1 C7_fusion_rule 500%Z 130%Z [] _ _) _) _).
  - unfold spec_fuses. split; [lia|]. split.
    + intros [H | (p & c & Hp & Hc)].
      * vm_compute in H. discriminate.
      * assert (E : clean_text (py "Hello") = py "Hell" ++ [111%N])
          by (vm_compute; reflexivity).
        rewrite E in Hp. apply app_inj_tail in Hp as [_ <-].
        simpl in Hc. intuition discriminate.
    + vm_compute. discriminate.
  - vm_compute. reflexivity.
Defined.

(** C8. For a chunk duration D > 0 the alignment base is zero, or the
    largest multiple of D that does not exceed the least start time; each
    cue is in the bucket max(0, floor((start - base) / D)), in the order
    of the input; one document is written for every bucket that is not
    empty, in the order of the buckets, and none for an empty one. The
    four cues of [doc_four_cues], with D = 600000 ms and the base zero,
    give two documents, each with two cues. *)
Theorem C8_chunker_buckets (chunk_ms : Z) (cues : list Cue) (start_at_zero : bool) :
  (0 < chunk_ms)%Z -> cues <> [] ->
  (exists base_ms buckets,
     base_of start_at_zero chunk_ms cues = Ok base_ms /\
     (if start_at_zero then base_ms = 0%Z
      else (exists k, base_ms = (k * chunk_ms)%Z) /\
           (base_ms <= min_start cues < base_ms + chunk_ms)%Z /\
           Forall (fun c => (min_start cues <= start_ms c)%Z) cues /\
           exists c, In c cues /\ min_start cues = start_ms c) /\
     group_cues base_ms chunk_ms cues = Ok buckets /\
     (forall i, bucket_at i buckets =
        List.filter
          (fun c => Z.to_nat (Z.max 0 ((start_ms c - base_ms) / chunk_ms)) =? i)
          cues) /\
     forall header stem rebase,
       fold_left (write_part header stem rebase base_ms chunk_ms)
                 (enumerate 1 buckets) []
       = flat_map (part_of header stem rebase base_ms chunk_ms)
                  (enumerate 1 buckets) /\
       (forall idx, part_of header stem rebase base_ms chunk_ms (idx, []) = []) /\
       (forall idx c bucket, exists content,
          part_of header stem rebase base_ms chunk_ms (idx, c :: bucket)
          = [(part_name stem idx, content)])) /\
  iter_cues (split_header_and_body (read_text_lines doc_four_cues)).2 = Ok four_cues /\
  group_cues 0 600000 four_cues
  = Ok [[mkCue 0 1000 [py "a"] (py "00:00:00.000 --> 00:00:01.000");
         mkCue 599999 600000 [py "b"] (py "00:09:59.999 --> 00:10:00.000")];
        [mkCue 600000 601000 [py "c"] (py "00:10:00.000 --> 00:10:01.000");
         mkCue 1199999 1200000 [py "d"] (py "00:19:59.999 --> 00:20:00.000")]] /\
  cmd_split (py "in") doc_four_cues 10 false true
  = Ok [(py "in_part1.vtt", py "WEBVTT

00:00:00.000 --> 00:00:01.000
a

00:09:59.999 --> 00:10:00.000
b

");
        (py "in_part2.vtt", py "WEBVTT

00:10:00.000 --> 00:10:01.000
c

00:19:59.999 --> 00:20:00.000
d

")].
Proof.
  intros HD Hne.
  split; [|split; [|split]]; [| vm_compute; reflexivity ..].
  assert (HD' : chunk_ms <> 0%Z) by lia.
  assert (Hbase : exists base_ms,
    base_of start_at_zero chunk_ms cues = Ok base_ms /\
    (if start_at_zero then base_ms = 0%Z
      else (exists k, base_ms = (k * chunk_ms)%Z) /\
           (base_ms <= min_start cues < base_ms + chunk_ms)%Z /\
           Forall (fun c => (min_start cues <= start_ms c)%Z) cues /\
           exists c, In c cues /\ min_start cues = start_ms c)).
  { unfold base_of, floordiv. destruct start_at_zero; [now exists 0%Z|].
    destruct (chunk_ms =? 0)%Z eqn:E; [apply Z.eqb_eq in E; contradiction|].
    cbn [bind]. eexists. split; [reflexivity|].
    split; [now eexists|]. split.
    - pose proof (Z.div_mod (min_start cues) chunk_ms HD') as Hdm.
      pose proof (Z.mod_pos_bound (min_start cues) chunk_ms HD) as Hmb.
      rewrite (Z.mul_comm _ chunk_ms). lia.
    - split; [apply min_start_le | now apply min_start_in]. }
  destruct Hbase as (base_ms & Eb & Hb).
  destruct (group_cues_spec base_ms chunk_ms cues HD') as (buckets & Eg & Hg).
  exists base_ms, buckets. split; [exact Eb|]. split; [exact Hb|].
  split; [exact Eg|]. split; [exact Hg|].
  intros header stem rebase. split; [|split].
  - apply (write_parts_spec header stem rebase base_ms chunk_ms _ []).
  - reflexivity.
  - intros idx c bucket. eexists. reflexivity.
Qed.

Lemma C8_chunker_buckets_witness :
  exists buckets,
    group_cues 0 600000 four_cues = Ok buckets /\
    bucket_at 1 buckets =
      [mkCue 600000 601000 [py "c"] (py "00:10:00.000 --> 00:10:01.000");
       mkCue 1199999 1200000 [py "d"] (py "00:19:59.999 --> 00:20:00.000")].
Proof.
  destruct (proj1 (C8_chunker_buckets 600000 four_cues true ltac:(lia)
                     ltac:(discriminate)))
    as (base_ms & buckets & Eb & Hb & Eg & Hg & _).
  simpl in Hb. subst base_ms. exists buckets. split; [exact Eg|].
  rewrite Hg. vm_compute. reflexivity.
Defined.

(** C9, counterexample. The merger reads the start of the first
    timestamp line whose start decodes, whatever its end: [file_half] has
    no cue, its key is 5000 ms and not the sentinel, and it is merged
    before [file_late], which has a cue. *)
Lemma C9_cueless_file_can_be_first :
  first_cue_start_ms file_half.2 = 5000%Z /\
  spec_first_start file_half.2 = (10 ^ 12)%Z /\
  ~ cueless_files_are_last.
Proof.
  split; [vm_compute; reflexivity|]. split; [vm_compute; reflexivity|].
  intros H.
  specialize (H [file_late; file_half] file_half file_late [] [file_late]).
  assert (E1 : files_sorted [file_late; file_half] = [] ++ file_half :: [file_late])
    by (vm_compute; reflexivity).
  assert (E2 : iter_cues (split_header_and_body (read_text_lines file_half.2)).2 = Ok [])
    by (vm_compute; reflexivity).
  specialize (H E1 ltac:(now left) E2). vm_compute in H. discriminate.
Qed.

Lemma file_le_key_order (f g : file) : file_le f g <-> key_order f g.
Proof.
  unfold file_le, key_le, enrich, key_compare, key_order. cbv zeta.
  destruct (Z.compare_spec (first_cue_start_ms f.2) (first_cue_start_ms g.2))
    as [Et|Lt|Gt].
  - destruct (Z.compare_spec (part_number_from_name f.1) (part_number_from_name g.1))
      as [Ep|Lp|Gp].
    + destruct (str_compare (lower f.1) (lower g.1)) eqn:Ec.
      * split; [intros _; right; split; [exact Et|]; right; now split | reflexivity].
      * split; [intros _; right; split; [exact Et|]; right; now split | reflexivity].
      * split; [discriminate|].
        intros [H | [_ [H | [_ H]]]]; [lia | lia | congruence].
    + split; [intros _; right; split; [exact Et | now left] | reflexivity].
    + split; [discriminate | intros [H | [_ [H | [H _]]]]; lia].
  - split; [intros _; now left | reflexivity].
  - split; [discriminate | intros [H | [H _]]; lia].
Qed.

Lemma first_start_found (pre : list str) (line : str) (post : list str)
    (g1 g2 : str) (g3 : option str) (t : Z) :
  Forall startless pre ->
  ts_line_match line = Some (g1, g2, g3) ->
  parse_ts_to_ms (strip g1) = Ok t ->
  first_start (pre ++ line :: post) = t.
Proof.
  intros Hpre Hm Hp. induction Hpre as [|l pre Hl _ IH]; simpl.
  - now rewrite Hm, Hp.
  - unfold startless in Hl.
    destruct (ts_line_match l) as [[[h1 h2] h3]|]; [|exact IH].
    destruct (parse_ts_to_ms (strip h1)); [discriminate | exact IH].
Qed.

(** C9, amended. The merger orders the files ascending by the tuple
    (the start decoded from the first timestamp line of the body whose
    start field decodes, or the sentinel 10^12 when there is none; the
    part number of the file name, or its sentinel; the lowercased file
    name). Three files whose keys are 20000, 5000 and 15000 ms are merged
    in the order second, third, first, whatever the order of the
    enumeration, and a file whose key is the sentinel comes after every
    file whose key is below 10^12 ms. The name is lowered as [str.lower]
    lowers it, outside ASCII too: with equal first keys "Ä.vtt" is merged
    after "ã.vtt", as "ä.vtt" is after it. *)
Theorem C9_merge_order :
  (forall files,
     Permutation files (files_sorted files) /\
     StronglySorted key_order (files_sorted files)) /\
  (forall pre line post g1 g2 g3 t,
     Forall startless pre -> ts_line_match line = Some (g1, g2, g3) ->
     parse_ts_to_ms (strip g1) = Ok t ->
     first_start (pre ++ line :: post) = t) /\
  (forall body, Forall startless body -> first_start body = (10 ^ 12)%Z) /\
  (forall files f g l1 l2,
     files_sorted files = l1 ++ g :: l2 ->
     first_cue_start_ms g.2 = (10 ^ 12)%Z ->
     (first_cue_start_ms f.2 < 10 ^ 12)%Z ->
     ~ In f l2) /\
  (forall l, Permutation [file_first; file_second; file_third] l ->
     files_sorted l = [file_second; file_third; file_first]) /\
  files_sorted [file_cueless; file_first; file_second; file_third]
  = [file_second; file_third; file_first; file_cueless] /\
  files_sorted [file_A_umlaut; file_a_tilde] = [file_a_tilde; file_A_umlaut].
Proof.
  split; [|split; [|split; [|split; [|split; [|split]]]]].
  - intros files. destruct (files_sorted_spec files) as [HP HS]. split; [exact HP|].
    clear HP. induction HS as [|x l Hl IH Hx]; [constructor|].
    constructor; [exact IH|].
    eapply Forall_impl; [exact Hx|]. intros y. apply file_le_key_order.
  - apply first_start_found.
  - apply first_start_startless.
  - intros files f g l1 l2 E Hg Hf. apply (files_sorted_before files f g l1 l2 E). lia.
  - intros l Hl. apply permutations_Permutation, list_elem_of_In in Hl.
    cbn [permutations interleave mbind list_bind fmap list_fmap app concat
         List.map mret list_ret In] in Hl.
    repeat destruct Hl as [<- | Hl]; [vm_compute; reflexivity .. | contradiction].
  - vm_compute. reflexivity.
  - vm_compute. reflexivity.
Qed.

Lemma C9_merge_order_witness :
  files_sorted [file_third; file_first; file_second]
  = [file_second; file_third; file_first].
Proof.
  apply (proj1 (proj2 (proj2 (proj2 (proj2 C9_merge_order))))).
  apply Permutation_sym, Permutation_cons_append.
Defined.

(** C10. A chunk file is numbered by the position of its bucket, empty
    buckets counted: the file of the bucket at index i is stem_part{i+1}.
    With 10 minute chunks [doc_gap] gives part1 and part3, so the second
    file written is part3. *)
Theorem C10_part_numbers :
  (forall header stem rebase base_ms chunk_ms buckets,
     List.map fst
       (fold_left (write_part header stem rebase base_ms chunk_ms)
                  (enumerate 1 buckets) [])
     = List.map (fun ib => part_name stem ib.1)
         (List.filter occupied (enumerate 1 buckets)) /\
     forall i, enumerate 1 buckets !! i = (fun b => (S i, b)) <$> buckets !! i) /\
  (forall stem idx, part_name stem idx
                    = stem ++ py "_part" ++ str_of_int (Z.of_nat idx) ++ py ".vtt") /\
  names_written (cmd_split (py "in") doc_gap 10 false true)
  = Ok [py "in_part1.vtt"; py "in_part3.vtt"].
Proof.
  split; [|split].
  - intros header stem rebase base_ms chunk_ms buckets. split.
    + rewrite write_parts_spec. apply part_of_name.
    + intros i. apply enumerate_lookup.
  - reflexivity.
  - vm_compute. reflexivity.
Qed.

(* ================================================================== *)
(** * Text lines, header and body *)
(* ================================================================== *)

Section TextLines.

Lemma join_nil_concat (l : list str) : join [] l = concat l.
Proof.
  induction l as [|p [|q l] IH]; [reflexivity| |].
  - simpl. now rewrite app_nil_r.
  - change (join [] (p :: q :: l)) with (p ++ [] ++ join [] (q :: l)).
    rewrite IH. reflexivity.
Qed.

Lemma splitlines_aux_concat_n (n : nat) : forall (s cur : str),
  length s <= n -> concat (splitlines_aux cur s) = rev cur ++ s.
Proof.
  induction n as [|n IH]; intros s cur Hn.
  - destruct s; [|simpl in Hn; lia]. simpl.
    destruct cur; simpl; [reflexivity|]. now rewrite !app_nil_r.
  - destruct s as [|c s]; cbn [splitlines_aux].
    + destruct cur; simpl; [reflexivity|]. now rewrite !app_nil_r.
    + simpl in Hn. destruct (is_linebreak c).
      * destruct s as [|d s'].
        -- simpl. now rewrite app_nil_r.
        -- simpl in Hn. destruct ((c =? CR)%N && (d =? LF)%N).
           ++ cbn [concat]. rewrite IH by lia. simpl.
              rewrite <- !app_assoc. reflexivity.
           ++ cbn [concat]. rewrite IH by (simpl; lia). simpl.
              rewrite <- !app_assoc. reflexivity.
      * rewrite IH by lia. simpl. now rewrite <- app_assoc.
Qed.

Lemma splitlines_aux_concat (s cur : str) :
  concat (splitlines_aux cur s) = rev cur ++ s.
Proof. now apply (splitlines_aux_concat_n (length s)). Qed.

Lemma replace_char_no_old (old : N) (new s : str) :
  Forall (fun c => c <> old) new -> Forall (fun c => c <> old) (replace_char old new s).
Proof.
  intros Hn. unfold replace_char. induction s as [|c s IH]; simpl; [constructor|].
  apply Forall_app. split; [|exact IH].
  destruct (c =? old)%N eqn:E; [exact Hn|].
  constructor; [|constructor]. now apply N.eqb_neq.
Qed.

Lemma normalize_newlines_no_CR (txt : str) :
  Forall (fun c => c <> CR) (normalize_newlines txt).
Proof.
  unfold normalize_newlines. apply replace_char_no_old.
  constructor; [discriminate | constructor].
Qed.

Lemma terminated_one_line (l : str) : terminated l -> one_line l.
Proof.
  intros (text & c & -> & Ht & Hc & Hcr). exists text, [c].
  split; [reflexivity|]. split.
  - intros E. symmetry in E. now apply app_cons_not_nil in E.
  - split; [exact Ht|]. right. now exists c.
Qed.

Lemma lines_as_read_cons (l : str) (rest : list str) :
  terminated l -> lines_as_read rest -> lines_as_read (l :: rest).
Proof.
  intros Hl Hr. cbn [lines_as_read].
  destruct rest; [now apply terminated_one_line | now split].
Qed.

Lemma lines_as_read_one_line (lines : list str) :
  lines_as_read lines -> Forall one_line lines.
Proof.
  induction lines as [|l rest IH]; [constructor|].
  cbn [lines_as_read]. destruct rest as [|l' rest].
  - intros H. now repeat constructor.
  - intros [Hl Hr]. constructor; [now apply terminated_one_line | now apply IH].
Qed.

Lemma splitlines_aux_as_read (s : str) : forall cur,
  Forall (fun c => c <> CR) s ->
  Forall (fun c => is_linebreak c = false) cur ->
  lines_as_read (splitlines_aux cur s).
Proof.
  induction s as [|c s IH]; intros cur Hs Hcur; cbn [splitlines_aux].
  - destruct cur as [|x cur]; [exact I|]. cbn [lines_as_read].
    exists (rev (x :: cur)), []. rewrite app_nil_r. split; [reflexivity|]. split.
    + intros E. apply (f_equal (@length N)) in E. rewrite length_rev in E. discriminate.
    + split; [now apply Forall_rev | now left].
  - apply Forall_cons in Hs as [Hc Hs].
    assert (Hline : is_linebreak c = true -> terminated (rev (c :: cur))).
    { intros Hb. exists (rev cur), c. split; [reflexivity|].
      split; [now apply Forall_rev | now split]. }
    destruct (is_linebreak c) eqn:Eb.
    + destruct s as [|d s'].
      * cbn [lines_as_read]. now apply terminated_one_line, Hline.
      * assert (Ec : (c =? CR)%N = false) by now apply N.eqb_neq.
        rewrite Ec. cbn [andb]. apply lines_as_read_cons; [now apply Hline|].
        apply IH; [exact Hs | constructor].
    + apply IH; [exact Hs|]. now constructor.
Qed.

End TextLines.

Section HeaderAndBody.

Lemma take_drop_while_line (p : str -> bool) (l : list str) :
  take_while_line p l ++ drop_while_line p l = l.
Proof. induction l as [|x l IH]; simpl; [easy|]. destruct (p x); simpl; congruence. Qed.

Lemma drop_while_line_all (p : str -> bool) (l : list str) :
  drop_while_line p l = [] <-> Forall (fun x => p x = true) l.
Proof.
  induction l as [|x l IH]; simpl; [split; [constructor | reflexivity]|].
  destruct (p x) eqn:E.
  - rewrite IH. split; [now constructor | now intros [_ H]%Forall_cons].
  - split; [discriminate|]. intros [H _]%Forall_cons. congruence.
Qed.

Lemma split_header_and_body_eq (lines : list str) :
  split_header_and_body lines =
  match drop_while_line blank lines with
  | l :: rest =>
      let rest0 := if is_signature l then rest else l :: rest in
      let first := if is_signature l then [lstrip_char BOM l] else [] in
      (first ++ take_while_line nonblank rest0
         ++ take_while_line blank (drop_while_line nonblank rest0),
       drop_while_line blank (drop_while_line nonblank rest0))
  | [] => ([], [])
  end.
Proof.
  unfold split_header_and_body.
  destruct (drop_while_line blank lines) as [|l rest]; [reflexivity|].
  destruct (is_signature l); cbv zeta; now rewrite <- ?app_assoc.
Qed.

End HeaderAndBody.

(** X1. Writing back the lines [read_text_lines] returns gives the text
    of the file, without its byte order mark and with every line ending
    as a line feed: no character is lost between the lines. *)
Theorem lines_written_back (content : str) :
  write_text_lines (read_text_lines content) = normalize_newlines (read_text content).
Proof.
  unfold write_text_lines, read_text_lines, splitlines_keepends.
  rewrite join_nil_concat. apply splitlines_aux_concat.
Qed.

(** X2. The lines [read_text_lines] returns: every line is not empty,
    holds no carriage return and holds a line boundary as its last
    character only; and every line but the last ends with a line
    boundary. *)
Theorem read_text_lines_as_read (content : str) :
  lines_as_read (read_text_lines content) /\
  Forall one_line (read_text_lines content).
Proof.
  assert (H : lines_as_read (read_text_lines content)).
  { unfold read_text_lines, splitlines_keepends.
    apply splitlines_aux_as_read; [apply normalize_newlines_no_CR | constructor]. }
  split; [exact H | now apply lines_as_read_one_line].
Qed.

(** X3. The splitter loses no line but the leading blank ones: the
    header followed by the body is the input without its leading blank
    lines, the signature line without its byte order marks; and the body
    never starts with a blank line. *)
Theorem split_header_and_body_partition (lines : list str) :
  (split_header_and_body lines).1 ++ (split_header_and_body lines).2 = lines_kept lines /\
  match (split_header_and_body lines).2 with
  | [] => True
  | l :: _ => blank l = false
  end.
Proof.
  rewrite split_header_and_body_eq. unfold lines_kept.
  destruct (drop_while_line blank lines) as [|l rest]; [now split|].
  cbv zeta. cbn [fst snd]. split.
  - rewrite <- !app_assoc, take_drop_while_line.
    destruct (is_signature l); cbn [app]; now rewrite take_drop_while_line.
  - apply drop_while_line_head.
Qed.

(** X4. The header is empty only for a document all of whose lines are
    blank, and then the body is empty too: whenever a document has a line
    that is not blank, its first such line opens the header, signature
    line or not. *)
Theorem split_header_empty_iff (lines : list str) :
  (split_header_and_body lines).1 = [] <-> Forall (fun l => blank l = true) lines.
Proof.
  rewrite split_header_and_body_eq. rewrite <- drop_while_line_all.
  pose proof (drop_while_line_head blank lines) as Hl.
  destruct (drop_while_line blank lines) as [|l rest]; [easy|].
  cbv zeta. cbn [fst]. split; [|discriminate].
  destruct (is_signature l); [discriminate|].
  cbn [take_while_line app]. unfold nonblank at 1. rewrite Hl. discriminate.
Qed.

(* ================================================================== *)
(** * The checker, and the readers after the fixer *)
(* ================================================================== *)

Section Checker.

Lemma check_line_frame (issues : list issue) (cues : list checked_cue) il :
  check_line (issues, cues) il =
  do r <- check_line ([], []) il; Ok (issues ++ r.1, cues ++ r.2).
Proof.
  destruct il as [idx line]. unfold check_line.
  destruct (ts_line_match line) as [[[g1 g2] g3]|]; cbn [bind].
  2:{ now rewrite !app_nil_r. }
  destruct (first_token (strip g2)) as [end_raw|x]; cbn [bind]; [|reflexivity].
  destruct (parse_pair (strip g1) end_raw) as [[s e]|x]; cbn [bind fst snd].
  - destruct (e <? s)%Z; cbn [app]; [reflexivity | now rewrite app_nil_r].
  - now rewrite app_nil_r.
Qed.

(** The checker on one line. *)
Lemma check_line_cases (idx : nat) (line : str) :
  readable line ->
  exists issues,
    check_line ([], []) (idx, line) = Ok (issues, timed_lines idx [line]) /\
    List.map issue_kind_of issues = line_issues line.
Proof.
  unfold readable, check_line, line_issues, line_times. cbn [timed_lines].
  unfold line_times.
  destruct (ts_line_match line) as [[[g1 g2] g3]|]; [|intros _; now exists []].
  destruct (first_token (strip g2)) as [end_raw|x]; [intros _ | discriminate].
  cbn [bind]. destruct (parse_pair (strip g1) end_raw) as [[s e]|x].
  - destruct (e <? s)%Z; eexists; split; reflexivity.
  - eexists; split; reflexivity.
Qed.

Lemma check_line_readable (idx : nat) (line : str) st r :
  check_line st (idx, line) = Ok r -> readable line.
Proof.
  destruct st as [issues cues]. unfold check_line, readable.
  destruct (ts_line_match line) as [[[g1 g2] g3]|]; [|easy].
  now destruct (first_token (strip g2)).
Qed.

Lemma timed_lines_cons (n : nat) (line : str) (lines : list str) :
  timed_lines n (line :: lines) = timed_lines n [line] ++ timed_lines (S n) lines.
Proof. cbn [timed_lines]. now destruct (line_times line) as [[s e]|]. Qed.

(** The first loop of the checker. *)
Lemma check_loop (lines : list str) : forall n issues0 cues0,
  Forall readable lines ->
  exists issues,
    for_each check_line (enumerate n lines) (issues0, cues0)
    = Ok (issues0 ++ issues, cues0 ++ timed_lines n lines) /\
    List.map issue_kind_of issues = flat_map line_issues lines.
Proof.
  induction lines as [|line lines IH]; intros n issues0 cues0 Hr.
  - exists []. simpl. rewrite !app_nil_r. now split.
  - apply Forall_cons in Hr as [Hl Hr].
    destruct (check_line_cases n line Hl) as (i1 & E1 & K1).
    destruct (IH (S n) (issues0 ++ i1) (cues0 ++ timed_lines n [line]) Hr)
      as (i2 & E2 & K2).
    exists (i1 ++ i2). split.
    + cbn [enumerate]. rewrite for_each_cons, check_line_frame, E1.
      cbn [bind fst snd]. rewrite E2, (timed_lines_cons n line lines). now rewrite <- !app_assoc.
    + rewrite map_app, K1, K2. reflexivity.
Qed.

Lemma check_loop_readable (lines : list str) : forall n st r,
  for_each check_line (enumerate n lines) st = Ok r -> Forall readable lines.
Proof.
  induction lines as [|line lines IH]; intros n st r H; [constructor|].
  cbn [enumerate] in H. rewrite for_each_cons in H.
  destruct (check_line st (n, line)) as [st'|] eqn:E; [|discriminate].
  constructor; [now apply check_line_readable in E | now apply IH in H].
Qed.

(** The second loop of the checker. *)
Lemma timeline_loop (cues : list checked_cue) : forall issues0 last,
  exists issues,
    (fold_left timeline_step cues (issues0, last)).1 = issues0 ++ issues /\
    Forall (fun i => issue_kind_of i = START_DECREASED \/ issue_kind_of i = OVERLAP)
           issues /\
    (issues = [] <->
     follows (option_map (fun l : Z * Z * nat => (l.1.1, l.1.2)) last) cues).
Proof.
  induction cues as [|[[[ln s] e] raw] cues IH]; intros issues0 last.
  - exists []. simpl. now rewrite app_nil_r.
  - cbn [fold_left]. unfold timeline_step at 2.
    destruct last as [[[ls le] ll]|].
    + destruct (s <? ls)%Z eqn:E1; destruct (s <? le)%Z eqn:E2;
        match goal with
        | |- context [fold_left _ _ (?i, ?l)] => destruct (IH i l) as (i2 & Ei & Hk & Hf)
        end; rewrite Ei;
        [ apply Z.ltb_lt in E1, E2 | apply Z.ltb_lt in E1; apply Z.ltb_ge in E2
        | apply Z.ltb_ge in E1; apply Z.ltb_lt in E2 | apply Z.ltb_ge in E1, E2 ].
      * eexists (_ :: _ :: i2). rewrite <- !app_assoc. split; [reflexivity|].
        split; [constructor; [now left | constructor; [now right | exact Hk]]|].
        split; [discriminate|]. cbn. lia.
      * eexists (_ :: i2). rewrite <- !app_assoc. split; [reflexivity|].
        split; [constructor; [now left | exact Hk]|].
        split; [discriminate|]. cbn. lia.
      * eexists (_ :: i2). rewrite <- !app_assoc. split; [reflexivity|].
        split; [constructor; [now right | exact Hk]|].
        split; [discriminate|]. cbn. lia.
      * exists i2. split; [reflexivity|]. split; [exact Hk|].
        rewrite Hf. cbn. intuition lia.
    + destruct (IH issues0 (Some (s, e, ln))) as (i2 & Ei & Hk & Hf).
      rewrite Ei. exists i2. split; [reflexivity|]. split; [exact Hk|].
      rewrite Hf. cbn. intuition.
Qed.

Lemma flat_map_nil_iff {A B : Type} (f : A -> list B) (l : list A) :
  flat_map f l = [] <-> Forall (fun x => f x = []) l.
Proof.
  induction l as [|x l IH]; simpl; [split; [constructor | reflexivity]|].
  split.
  - intros [H1 H2]%app_eq_nil. constructor; [exact H1 | now apply IH].
  - intros [H1 H2]%Forall_cons. rewrite H1. now apply IH.
Qed.

Lemma line_issues_nil (line : str) :
  line_issues line = [] <->
  decodes line /\ match line_times line with Some (s, e) => (s <= e)%Z | None => True end.
Proof.
  unfold line_issues, decodes.
  destruct (ts_line_match line) as [m|] eqn:Em.
  - destruct (line_times line) as [[s e]|].
    + destruct (e <? s)%Z eqn:E.
      * apply Z.ltb_lt in E. split; [discriminate | intros [_ H]; lia].
      * apply Z.ltb_ge in E. split; [intros _; split; [now right | exact E] | reflexivity].
    + split; [discriminate | intros [[H|H] _]; [discriminate | now contradiction H]].
  - assert (line_times line = None) as -> by (unfold line_times; now rewrite Em).
    split; [intros _; split; [now left | exact I] | reflexivity].
Qed.

Lemma timed_lines_ordered (lines : list str) : forall n,
  Forall (fun l => match line_times l with Some (s, e) => (s <= e)%Z | None => True end)
         lines <->
  Forall (fun c : checked_cue => (c.1.1.2 <= c.1.2)%Z) (timed_lines n lines).
Proof.
  induction lines as [|line lines IH]; intros n; [split; constructor|].
  cbn [timed_lines]. rewrite Forall_cons, (IH (S n)).
  destruct (line_times line) as [[s e]|]; [now rewrite Forall_cons|]. tauto.
Qed.

(** In order along the list, each cue in order itself: the times are
    ascending. *)
Lemma follows_sorted (cues : list checked_cue) : forall ls le,
  (ls <= le)%Z ->
  (Forall (fun c : checked_cue => (c.1.1.2 <= c.1.2)%Z) cues /\ follows (Some (ls, le)) cues)
  <-> Sorted Z.le (le :: times_of cues).
Proof.
  induction cues as [|[[[ln s] e] raw] cues IH]; intros ls le Hl.
  - cbn. split; [intros _; repeat constructor | intros _; split; [constructor | exact I]].
  - cbn [follows times_of flat_map app fst snd]. rewrite Forall_cons. cbn [fst snd].
    split.
    + intros [[Hse Hord] [[H1 H2] Hf]].
      constructor; [|constructor; exact H2].
      constructor; [|constructor; exact Hse].
      apply (IH s e Hse). now split.
    + intros H. apply Sorted_inv in H as [H H2]. apply HdRel_inv in H2.
      apply Sorted_inv in H as [H Hse]. apply HdRel_inv in Hse.
      apply (IH s e Hse) in H as [Hord Hf]. repeat split; try assumption; lia.
Qed.

Lemma follows_none_sorted (cues : list checked_cue) :
  (Forall (fun c : checked_cue => (c.1.1.2 <= c.1.2)%Z) cues /\ follows None cues)
  <-> Sorted Z.le (times_of cues).
Proof.
  destruct cues as [|[[[ln s] e] raw] cues].
  - cbn. split; [intros _; constructor | intros _; split; [constructor | exact I]].
  - cbn [follows times_of flat_map app fst snd]. rewrite Forall_cons. cbn [fst snd].
    split.
    + intros [[Hse Hord] [_ Hf]]. constructor; [|constructor; exact Hse].
      apply (follows_sorted cues s e Hse). now split.
    + intros H. apply Sorted_inv in H as [H Hse]. apply HdRel_inv in Hse.
      apply (follows_sorted cues s e Hse) in H as [Hord Hf]. now repeat split.
Qed.

End Checker.

Section AfterTheFixer.

Lemma fix_line_readable (line : str) st il r :
  il.2 = line -> fix_line st il = Ok r -> readable line.
Proof.
  destruct st as [fl lg], il as [idx l]. cbn [snd]. intros ->.
  unfold fix_line, readable.
  destruct (ts_line_match line) as [[[g1 g2] g3]|]; [|easy].
  now destruct (first_token (strip g2)).
Qed.

Lemma fix_loop_readable (lines : list str) : forall n st r,
  for_each fix_line (enumerate n lines) st = Ok r -> Forall readable lines.
Proof.
  induction lines as [|line lines IH]; intros n st r H; [constructor|].
  cbn [enumerate] in H. rewrite for_each_cons in H.
  destruct (fix_line st (n, line)) as [st'|] eqn:E; [|discriminate].
  constructor; [now apply (fix_line_readable line) in E | now apply IH in H].
Qed.

Lemma fixed_from_times (lines xs : list str) :
  Forall2 fixed_from lines xs -> Forall times_fixed xs.
Proof.
  induction 1 as [|line x lines xs Hx _ IH]; constructor; [|exact IH].
  unfold times_fixed. destruct Hx as [[-> Hn] | (s & e & _ & ->)]; [now rewrite Hn | lia].
Qed.

(** What the fixer returns: lines every reader can read, whose times are
    in order and not negative. *)
Lemma fixed_lines_spec (lines fixed : list str) (log : list log_entry) :
  fix_vtt_timestamps lines = Ok (fixed, log) ->
  Forall readable fixed /\ Forall times_fixed fixed.
Proof.
  unfold fix_vtt_timestamps. intros H.
  apply fix_loop_twice in H as (xs & -> & Hrel & _ & Hagain).
  destruct (Hagain [] []) as (lg' & Hrun & _). cbn [app] in *. split.
  - now apply fix_loop_readable in Hrun.
  - now apply fixed_from_times in Hrel.
Qed.

Lemma timed_lines_Forall (P : str -> Prop) (Q : checked_cue -> Prop) (lines : list str) :
  (forall n line s e, P line -> line_times line = Some (s, e) ->
                      Q (n, s, e, rstrip_char LF line)) ->
  Forall P lines -> forall n, Forall Q (timed_lines n lines).
Proof.
  intros HPQ. induction 1 as [|line lines Hl _ IH]; intros n; [constructor|].
  cbn [timed_lines]. destruct (line_times line) as [[s e]|] eqn:E; [|apply IH].
  constructor; [now apply HPQ | apply IH].
Qed.

Lemma Forall_drop_while_line {P : str -> Prop} (p : str -> bool) (l : list str) :
  Forall P l -> Forall P (drop_while_line p l).
Proof.
  induction 1 as [|x l Hx Hl IH]; simpl; [constructor|].
  destruct (p x); [exact IH | now constructor].
Qed.

Lemma Forall_body {P : str -> Prop} (lines : list str) :
  Forall P lines -> Forall P (split_header_and_body lines).2.
Proof.
  intros H. unfold split_header_and_body.
  apply (Forall_drop_while_line blank) in H.
  destruct (drop_while_line blank lines) as [|l rest].
  - cbn. constructor.
  - destruct (is_signature l); cbn [snd];
      apply Forall_drop_while_line, Forall_drop_while_line;
      [now apply Forall_cons in H as [_ H] | exact H].
Qed.

(** The cue parser on lines every reader can read: it returns, and each
    cue has the times of a line. *)
Lemma iter_cues_loop_times (P : str -> Prop) (fuel : nat) : forall (l : list str),
  Forall readable l -> Forall P l ->
  exists cues,
    iter_cues_loop fuel l = Ok cues /\
    Forall (fun c => exists line, P line /\
                       line_times line = Some (start_ms c, end_ms c)) cues.
Proof.
  induction fuel as [|fuel IH]; intros l Hr HP; [exists []; now split|].
  destruct l as [|line rest]; [exists []; now split|].
  apply Forall_cons in Hr as [Hl Hr]. apply Forall_cons in HP as [Pl HP].
  cbn [iter_cues_loop]. unfold readable in Hl.
  destruct (ts_line_match line) as [[[g1 g2] g3]|] eqn:Em; [|now apply IH].
  destruct (first_token (strip g2)) as [end_raw|] eqn:Et; [|discriminate].
  cbn [bind]. destruct (parse_pair (strip g1) end_raw) as [[s e]|] eqn:Ep; [|now apply IH].
  destruct (IH (drop_while_line blank (drop_while_line nonblank rest)))
    as (cues & -> & Hc); [now do 2 apply Forall_drop_while_line ..|].
  cbn [bind]. eexists. split; [reflexivity|]. constructor; [|exact Hc].
  exists line. split; [exact Pl|]. unfold line_times. now rewrite Em, Et, Ep.
Qed.

Lemma fix_line_log (idx : nat) (line : str) fl lg :
  fix_line ([], []) (idx, line) = Ok (fl, lg) ->
  exists x, fl = [x] /\ Forall (fun entry : log_entry => entry.1.1 = idx) lg /\
            explains line x (List.map (fun entry : log_entry => entry.1.2) lg).
Proof.
  unfold fix_line, explains, line_times. intros H.
  destruct (ts_line_match line) as [[[g1 g2] g3]|].
  2:{ inversion H; subst. exists line. repeat split. constructor. }
  destruct (first_token (strip g2)) as [end_raw|]; [|discriminate].
  cbn [bind] in H. destruct (parse_pair (strip g1) end_raw) as [[s e]|].
  2:{ inversion H; subst. exists line. repeat split. now repeat constructor. }
  destruct (e <? s)%Z eqn:E.
  - inversion H; subst. eexists. split; [reflexivity|].
    split; [now repeat constructor|]. cbn [List.map fst snd]. exists s, e. split; [reflexivity|].
    now apply Z.ltb_lt.
  - apply Z.ltb_ge in E. unfold str_eqb in H.
    destruct (bool_decide _) eqn:Eb in H; cbn [negb] in H; inversion H; subst.
    + apply bool_decide_eq_true_1 in Eb. eexists. split; [reflexivity|].
      split; [constructor|]. cbn [List.map]. now symmetry.
    + apply bool_decide_eq_false_1 in Eb. eexists. split; [reflexivity|].
      split; [now repeat constructor|]. cbn [List.map fst snd]. split; [intros Heq; apply Eb; now symmetry|].
      exists s, e. now split.
Qed.

Lemma log_of_app (i : nat) (l1 l2 : list log_entry) :
  log_of i (l1 ++ l2) = log_of i l1 ++ log_of i l2.
Proof. unfold log_of. now rewrite List.filter_app, map_app. Qed.

Lemma log_of_all (i : nat) (l : list log_entry) :
  Forall (fun entry : log_entry => entry.1.1 = i) l ->
  log_of i l = List.map (fun entry => entry.1.2) l.
Proof.
  unfold log_of. induction 1 as [|x l Hx _ IH]; [reflexivity|].
  cbn [List.filter]. rewrite Hx, Nat.eqb_refl. cbn [List.map]. now rewrite IH.
Qed.

Lemma log_of_none (i : nat) (l : list log_entry) :
  Forall (fun entry : log_entry => entry.1.1 <> i) l -> log_of i l = [].
Proof.
  unfold log_of. induction 1 as [|x l Hx _ IH]; [reflexivity|].
  cbn [List.filter]. apply Nat.eqb_neq in Hx. now rewrite Hx.
Qed.

(** The loop of the fixer and its log. *)
Lemma fix_loop_log (lines : list str) : forall n fl0 lg0 fl lg,
  for_each fix_line (enumerate n lines) (fl0, lg0) = Ok (fl, lg) ->
  exists xs lg1,
    fl = fl0 ++ xs /\ lg = lg0 ++ lg1 /\
    Forall (fun entry : log_entry => n <= entry.1.1 < n + length lines) lg1 /\
    forall i line x, lines !! i = Some line -> xs !! i = Some x ->
                     explains line x (log_of (n + i) lg1).
Proof.
  induction lines as [|line lines IH]; intros n fl0 lg0 fl lg H.
  - simpl in H. inversion H; subst. exists [], []. rewrite !app_nil_r.
    repeat split; [constructor|]. intros i line x Hl. discriminate.
  - cbn [enumerate] in H. rewrite for_each_cons, fix_line_frame in H.
    destruct (fix_line ([], []) (n, line)) as [[f1 l1]|] eqn:E1; [|discriminate].
    cbn [bind fst snd] in H.
    apply fix_line_log in E1 as (x & -> & Hidx & Hex).
    apply IH in H as (xs & lg1 & -> & -> & Hge & Hrest).
    exists (x :: xs), (l1 ++ lg1). rewrite <- !app_assoc. repeat split.
    + apply Forall_app. split.
      * eapply Forall_impl; [exact Hidx|]. intros entry ->. cbn [length]. lia.
      * eapply Forall_impl; [exact Hge|]. intros entry He. cbn beta in He.
        cbn [length]. lia.
    + intros [|i] line' x' Hl Hx; cbn in Hl, Hx.
      * inversion Hl; inversion Hx; subst. rewrite Nat.add_0_r, log_of_app.
        rewrite log_of_all by exact Hidx.
        rewrite (log_of_none n lg1), app_nil_r; [exact Hex|].
        eapply Forall_impl; [exact Hge|]. intros entry He. cbn beta in He. lia.
      * rewrite log_of_app, (log_of_none (n + S i) l1).
        -- cbn [app]. replace (n + S i) with (S n + i) by lia. now apply Hrest.
        -- eapply Forall_impl; [exact Hidx|]. intros entry ->. lia.
Qed.

(** The checker on what the fixer writes. *)
Lemma check_fixed_lines (lines fixed : list str) (log : list log_entry) :
  fix_vtt_timestamps lines = Ok (fixed, log) ->
  exists issues cues,
    check_and_collect_issues fixed = Ok (issues, cues) /\
    Forall (fun i => issue_kind_of i <> END_BEFORE_START) issues /\
    Forall (fun c : checked_cue => (0 <= c.1.1.2 <= c.1.2)%Z) cues.
Proof.
  intros H. apply fixed_lines_spec in H as [Hr Ht].
  destruct (check_loop fixed 1 [] [] Hr) as (i1 & E1 & K1).
  destruct (timeline_loop (timed_lines 1 fixed) i1 None) as (i2 & E2 & K2 & _).
  exists (i1 ++ i2), (timed_lines 1 fixed). split; [|split].
  - unfold check_and_collect_issues. rewrite E1. cbn [bind app]. now rewrite E2.
  - apply Forall_app. split.
    + assert (Hk : Forall (fun k => k <> END_BEFORE_START) (List.map issue_kind_of i1)).
      { rewrite K1. clear -Ht. induction Ht as [|x xs Hx _ IH]; [constructor|].
        cbn [flat_map]. apply Forall_app. split; [|exact IH].
        unfold line_issues, times_fixed in *.
        destruct (ts_line_match x); [|constructor].
        destruct (line_times x) as [[s e]|]; [|now repeat constructor].
        destruct (e <? s)%Z eqn:E; [apply Z.ltb_lt in E; lia | constructor]. }
      apply Forall_forall. intros i Hi. rewrite Forall_forall in Hk.
      apply Hk. now apply list_elem_of_fmap_2.
    + eapply Forall_impl; [exact K2|]. intros i [-> | ->]; discriminate.
  - apply (timed_lines_Forall times_fixed); [|exact Ht].
    intros n line s e Hl El. unfold times_fixed in Hl. rewrite El in Hl. exact Hl.
Qed.

End AfterTheFixer.

(** X5. The verdict of the checker. The cues it collects are the lines
    whose two timestamps decode, with their line numbers; and it reports
    no issue exactly when every timestamp line decodes and the times of
    the cues, start, end, start, end, ... in the order of the document,
    are ascending. *)
Theorem checker_verdict (lines : list str) (issues : list issue)
    (cues : list checked_cue) :
  check_and_collect_issues lines = Ok (issues, cues) ->
  cues = timed_lines 1 lines /\
  (issues = [] <-> Forall decodes lines /\ Sorted Z.le (times_of cues)).
Proof.
  unfold check_and_collect_issues. intros H.
  destruct (for_each check_line (enumerate 1 lines) ([], [])) as [[i1 c1]|] eqn:E;
    [|discriminate].
  cbn [bind] in H. inversion H; subst; clear H.
  pose proof (check_loop_readable _ _ _ _ E) as Hr.
  destruct (check_loop lines 1 [] [] Hr) as (i1' & E' & K).
  rewrite E in E'. inversion E'; subst; clear E'. cbn [app]. split; [reflexivity|].
  destruct (timeline_loop (timed_lines 1 lines) i1' None) as (i2 & -> & _ & Hf).
  cbn [option_map] in Hf.
  rewrite <- follows_none_sorted, <- timed_lines_ordered.
  assert (K' : i1' = [] <-> flat_map line_issues lines = []).
  { rewrite <- K. split; [now intros -> | now destruct i1']. }
  rewrite flat_map_nil_iff in K'.
  split.
  - intros [H1 H2]%app_eq_nil. split; [|split; [|now apply Hf]].
    + apply K' in H1. eapply Forall_impl; [exact H1|].
      intros l Hl. now apply line_issues_nil in Hl.
    + apply K' in H1. eapply Forall_impl; [exact H1|].
      intros l Hl. now apply line_issues_nil in Hl.
  - intros (Hd & Ho & Hfl). apply Hf in Hfl. subst i2. rewrite app_nil_r.
    apply K'. apply Forall_forall. intros l Hl.
    apply line_issues_nil. rewrite Forall_forall in Hd, Ho. split; [now apply Hd | now apply Ho].
Qed.

Lemma checker_verdict_witness :
  [(2, 1000%Z, 2000%Z, py "00:00:01.000 --> 00:00:02.000")]
    = timed_lines 1 [py "WEBVTT"; py "00:00:01.000 --> 00:00:02.000"; py "Hello"] /\
  (@nil issue = [] <->
   Forall decodes [py "WEBVTT"; py "00:00:01.000 --> 00:00:02.000"; py "Hello"] /\
   Sorted Z.le (times_of [(2, 1000%Z, 2000%Z, py "00:00:01.000 --> 00:00:02.000")])).
Proof.
  apply (checker_verdict
           [py "WEBVTT"; py "00:00:01.000 --> 00:00:02.000"; py "Hello"] []
           [(2, 1000%Z, 2000%Z, py "00:00:01.000 --> 00:00:02.000")]).
  vm_compute. reflexivity.
Defined.

(** X6. The checker on what the fixer writes: it returns, it reports no
    END_BEFORE_START, and the cues it collects have times that are in
    order and not negative. *)
Theorem checker_after_fixer (lines fixed : list str) (log : list log_entry) :
  fix_vtt_timestamps lines = Ok (fixed, log) ->
  exists issues cues,
    check_and_collect_issues fixed = Ok (issues, cues) /\
    Forall (fun i => issue_kind_of i <> END_BEFORE_START) issues /\
    Forall (fun c : checked_cue => (0 <= c.1.1.2 <= c.1.2)%Z) cues.
Proof. apply check_fixed_lines. Qed.

Lemma checker_after_fixer_witness :
  exists issues cues,
    check_and_collect_issues lines_fixed = Ok (issues, cues) /\
    Forall (fun i => issue_kind_of i <> END_BEFORE_START) issues /\
    Forall (fun c : checked_cue => (0 <= c.1.1.2 <= c.1.2)%Z) cues.
Proof.
  apply (checker_after_fixer lines_to_fix lines_fixed
           [(3, SWAP_START_END, DText (py "05:00.000 --> 02:00.000"));
            (6, NORMALIZE, DText (py "46.550 --> 50,5"));
            (7, SKIP_UNPARSEABLE, DExn ValueError)]).
  vm_compute. reflexivity.
Defined.

(** X7. The cue parser on what the fixer writes: it returns, and every
    cue it finds in the body has times that are in order and not
    negative. *)
Theorem cues_after_fixer (lines fixed : list str) (log : list log_entry) :
  fix_vtt_timestamps lines = Ok (fixed, log) ->
  exists cues,
    iter_cues (split_header_and_body fixed).2 = Ok cues /\
    Forall (fun c => (0 <= start_ms c <= end_ms c)%Z) cues.
Proof.
  intros H. apply fixed_lines_spec in H as [Hr Ht].
  apply Forall_body in Hr, Ht.
  destruct (iter_cues_loop_times times_fixed
              (length (split_header_and_body fixed).2) _ Hr Ht) as (cues & E & Hc).
  exists cues. split; [exact E|].
  eapply Forall_impl; [exact Hc|]. intros c (line & Hl & El).
  unfold times_fixed in Hl. now rewrite El in Hl.
Qed.

Lemma cues_after_fixer_witness :
  exists cues,
    iter_cues (split_header_and_body lines_fixed).2 = Ok cues /\
    Forall (fun c => (0 <= start_ms c <= end_ms c)%Z) cues.
Proof.
  apply (cues_after_fixer lines_to_fix lines_fixed
           [(3, SWAP_START_END, DText (py "05:00.000 --> 02:00.000"));
            (6, NORMALIZE, DText (py "46.550 --> 50,5"));
            (7, SKIP_UNPARSEABLE, DExn ValueError)]).
  vm_compute. reflexivity.
Defined.

(** X8. The log of the fixer accounts for every line. Its entries have
    the numbers of lines of the input; a line without an entry is written
    as it was up to the white space around it; a line logged
    SKIP_UNPARSEABLE is written as it was and has no times; a line logged
    SWAP_START_END had its end before its start; a line logged NORMALIZE
    had its times in order and is written differently. No line has two
    entries. *)
Theorem fixer_log_explains (lines fixed : list str) (log : list log_entry) :
  fix_vtt_timestamps lines = Ok (fixed, log) ->
  Forall (fun entry : log_entry => 1 <= entry.1.1 <= length lines) log /\
  forall i line x, lines !! i = Some line -> fixed !! i = Some x ->
                   explains line x (log_of (S i) log).
Proof.
  unfold fix_vtt_timestamps. intros H.
  apply fix_loop_log in H as (xs & lg1 & -> & -> & Hidx & Hex). cbn [app]. split.
  - eapply Forall_impl; [exact Hidx|]. intros entry He. cbn beta in He. lia.
  - intros i line x Hl Hx. now apply (Hex i).
Qed.

Lemma fixer_log_explains_witness :
  Forall (fun entry : log_entry => 1 <= entry.1.1 <= length lines_to_fix)
    [(3, SWAP_START_END, DText (py "05:00.000 --> 02:00.000"));
     (6, NORMALIZE, DText (py "46.550 --> 50,5"));
     (7, SKIP_UNPARSEABLE, DExn ValueError)] /\
  forall i line x, lines_to_fix !! i = Some line -> lines_fixed !! i = Some x ->
    explains line x
      (log_of (S i) [(3, SWAP_START_END, DText (py "05:00.000 --> 02:00.000"));
                     (6, NORMALIZE, DText (py "46.550 --> 50,5"));
                     (7, SKIP_UNPARSEABLE, DExn ValueError)]).
Proof.
  apply (fixer_log_explains lines_to_fix lines_fixed). vm_compute. reflexivity.
Defined.

(* ================================================================== *)
(** * The splitter: buckets and outcome *)
(* ================================================================== *)

Section Buckets.

Lemma concat_repeat_nil {A : Type} (k : nat) : concat (repeat (@nil A) k) = [].
Proof. induction k as [|k IH]; [reflexivity | exact IH]. Qed.

Lemma concat_alter_snoc {A : Type} (c : A) (l : list (list A)) : forall idx,
  idx < length l ->
  Permutation (concat (alter (fun b => b ++ [c]) idx l)) (concat l ++ [c]).
Proof.
  induction l as [|b l IH]; intros idx H; [simpl in H; lia|].
  destruct idx as [|idx]; cbn [alter list_alter concat].
  - rewrite <- !app_assoc. apply Permutation_app_head, Permutation_app_comm.
  - rewrite <- app_assoc. apply Permutation_app_head, IH. simpl in H. lia.
Qed.

(** The invariant of the grouping loop: the last bucket is not empty. *)
Lemma place_cue_perm (base_ms chunk_ms : Z) (buckets buckets' : list (list Cue)) (c : Cue) :
  place_cue base_ms chunk_ms buckets c = Ok buckets' ->
  Permutation (concat buckets') (concat buckets ++ [c]) /\
  (last buckets <> Some [] -> last buckets' <> Some []).
Proof.
  unfold place_cue. destruct (chunk_index _ _ _) as [idx|]; [|discriminate].
  cbn [bind]. intros [= <-].
  set (padded := buckets ++ repeat [] (S idx - length buckets)).
  assert (Hlen : idx < length padded)
    by (unfold padded; rewrite length_app, repeat_length; lia).
  split.
  - rewrite concat_alter_snoc by exact Hlen. unfold padded.
    now rewrite concat_app, concat_repeat_nil, app_nil_r.
  - intros Hold Hb. rewrite last_lookup, length_alter in Hb.
    destruct (decide (pred (length padded) = idx)) as [E|E].
    + rewrite E, list_lookup_alter_eq in Hb.
      destruct (padded !! idx); [|discriminate]. inversion Hb as [Hnil].
      symmetry in Hnil. now apply app_cons_not_nil in Hnil.
    + rewrite list_lookup_alter_ne in Hb by congruence.
      assert (Hk : S idx - length buckets = 0).
      { unfold padded in E, Hlen. rewrite length_app, repeat_length in E, Hlen. lia. }
      unfold padded in Hb. rewrite Hk in Hb. cbn [repeat] in Hb.
      rewrite app_nil_r in Hb. rewrite <- last_lookup in Hb. congruence.
Qed.

Lemma group_cues_perm (base_ms chunk_ms : Z) (cues : list Cue) :
  forall buckets buckets',
  for_each (place_cue base_ms chunk_ms) cues buckets = Ok buckets' ->
  Permutation (concat buckets') (concat buckets ++ cues) /\
  (last buckets <> Some [] -> last buckets' <> Some []).
Proof.
  induction cues as [|c cues IH]; intros buckets buckets' H.
  - inversion H; subst. rewrite app_nil_r. now split.
  - rewrite for_each_cons in H.
    destruct (place_cue base_ms chunk_ms buckets c) as [b1|] eqn:E1; [|discriminate].
    cbn [bind] in H. apply place_cue_perm in E1 as [P1 L1].
    apply IH in H as [P2 L2]. split; [|tauto].
    rewrite P2, P1, <- app_assoc. reflexivity.
Qed.

(** With a chunk duration that is not zero every cue has a bucket index. *)
Lemma In_bucket (base_ms chunk_ms : Z) (cues : list Cue) (buckets : list (list Cue)) :
  chunk_ms <> 0%Z -> group_cues base_ms chunk_ms cues = Ok buckets ->
  forall i bucket c, buckets !! i = Some bucket -> In c bucket ->
    In c cues /\ bucket_of base_ms chunk_ms (start_ms c) = i.
Proof.
  intros HD Hg i bucket c Hb Hc.
  destruct (group_cues_spec base_ms chunk_ms cues HD) as (b & E & Hf).
  rewrite Hg in E. inversion E; subst b.
  specialize (Hf i). unfold bucket_at in Hf. rewrite Hb in Hf. cbn in Hf.
  rewrite Hf in Hc. apply filter_In in Hc as [Hin Hi]. now apply Nat.eqb_eq in Hi.
Qed.

Lemma bucket_of_nonneg (base_ms chunk_ms start : Z) :
  (0 < chunk_ms)%Z -> (base_ms <= start)%Z ->
  (0 <= start - chunk_start_of base_ms chunk_ms (bucket_of base_ms chunk_ms start)
     < chunk_ms)%Z.
Proof.
  intros HD Hb. unfold chunk_start_of, bucket_of.
  assert (Hq : (0 <= (start - base_ms) / chunk_ms)%Z) by (apply Z.div_pos; lia).
  rewrite Z.max_r by exact Hq. rewrite Nat2Z.inj_succ, Z2Nat.id by exact Hq.
  pose proof (Z.div_mod (start - base_ms) chunk_ms ltac:(lia)) as Hdm.
  pose proof (Z.mod_pos_bound (start - base_ms) chunk_ms HD) as Hmb.
  nia.
Qed.

(** With a negative chunk duration every start time has the index 0. *)
Lemma bucket_of_negative (base_ms chunk_ms start : Z) :
  (chunk_ms < 0)%Z -> (chunk_ms < start - base_ms)%Z ->
  bucket_of base_ms chunk_ms start = 0.
Proof.
  intros HD Hb. unfold bucket_of.
  assert (Hq : ((start - base_ms) / chunk_ms <= 0)%Z).
  { pose proof (Z.div_mod (start - base_ms) chunk_ms ltac:(lia)) as Hdm.
    pose proof (Z.mod_neg_bound (start - base_ms) chunk_ms HD) as Hmb.
    nia. }
  rewrite Z.max_l by exact Hq. reflexivity.
Qed.

End Buckets.

Section SplitCommand.

Lemma cmd_split_eq (stem content : str) (minutes : Z) (rebase start_at_zero : bool) :
  cmd_split stem content minutes rebase start_at_zero =
  do cues <- cues_of content;
  match cues with
  | [] => Raise ValueError
  | _ =>
      do base_ms <- base_of start_at_zero (minutes * 60000) cues;
      do buckets <- group_cues base_ms (minutes * 60000) cues;
      Ok (fold_left (write_part (split_header_and_body (read_text_lines content)).1
                                stem rebase base_ms (minutes * 60000))
                    (enumerate 1 buckets) [])
  end.
Proof.
  unfold cmd_split, cues_of.
  destruct (split_header_and_body (read_text_lines content)) as [header body].
  reflexivity.
Qed.

Lemma base_of_le (start_at_zero : bool) (chunk_ms : Z) (cues : list Cue) (base_ms : Z) :
  (0 < chunk_ms)%Z ->
  (start_at_zero = true -> Forall (fun c => (0 <= start_ms c)%Z) cues) ->
  base_of start_at_zero chunk_ms cues = Ok base_ms ->
  Forall (fun c => (base_ms <= start_ms c)%Z) cues.
Proof.
  intros HD Hz. unfold base_of, floordiv. destruct start_at_zero.
  - intros [= <-]. now apply Hz.
  - destruct (chunk_ms =? 0)%Z; [discriminate|]. cbn [bind]. intros [= <-].
    eapply Forall_impl; [apply min_start_le|]. intros c Hc. cbn beta in Hc.
    pose proof (Z.div_mod (min_start cues) chunk_ms ltac:(lia)) as Hdm.
    pose proof (Z.mod_pos_bound (min_start cues) chunk_ms HD) as Hmb.
    nia.
Qed.

Lemma base_of_negative (start_at_zero : bool) (chunk_ms : Z) (cues : list Cue) :
  (chunk_ms < 0)%Z ->
  (start_at_zero = true -> Forall (fun c => (0 <= start_ms c)%Z) cues) ->
  exists base_ms, base_of start_at_zero chunk_ms cues = Ok base_ms /\
    Forall (fun c => (chunk_ms < start_ms c - base_ms)%Z) cues.
Proof.
  intros HD Hz. unfold base_of, floordiv. destruct start_at_zero.
  - exists 0%Z. split; [reflexivity|].
    eapply Forall_impl; [now apply Hz|]. intros c Hc. cbn beta in Hc. lia.
  - assert (E : (chunk_ms =? 0)%Z = false) by (apply Z.eqb_neq; lia).
    rewrite E. cbn [bind]. eexists. split; [reflexivity|].
    eapply Forall_impl; [apply min_start_le|]. intros c Hc. cbn beta in Hc.
    pose proof (Z.div_mod (min_start cues) chunk_ms ltac:(lia)) as Hdm.
    pose proof (Z.mod_neg_bound (min_start cues) chunk_ms HD) as Hmb.
    nia.
Qed.

Lemma filter_all {A : Type} (p : A -> bool) (l : list A) :
  Forall (fun x => p x = true) l -> List.filter p l = l.
Proof. induction 1 as [|x l Hx _ IH]; simpl; [easy|]. now rewrite Hx, IH. Qed.

Lemma filter_none {A : Type} (p : A -> bool) (l : list A) :
  Forall (fun x => p x = false) l -> List.filter p l = [].
Proof. induction 1 as [|x l Hx _ IH]; simpl; [easy|]. now rewrite Hx. Qed.

(** When every cue has the index 0 there is one bucket. *)
Lemma one_bucket (base_ms chunk_ms : Z) (c : Cue) (cues : list Cue) :
  chunk_ms <> 0%Z ->
  Forall (fun x => bucket_of base_ms chunk_ms (start_ms x) = 0) (c :: cues) ->
  group_cues base_ms chunk_ms (c :: cues) = Ok [c :: cues].
Proof.
  intros HD H0.
  destruct (group_cues_spec base_ms chunk_ms (c :: cues) HD) as (b & E & Hf).
  apply group_cues_perm in E as HE. destruct HE as [_ Hlast].
  rewrite E. f_equal.
  assert (H0' : bucket_at 0 b = c :: cues).
  { rewrite Hf. apply filter_all. eapply Forall_impl; [exact H0|].
    intros x ->. reflexivity. }
  assert (Hi : forall i, bucket_at (S i) b = []).
  { intros i. rewrite Hf. apply filter_none. eapply Forall_impl; [exact H0|].
    intros x ->. reflexivity. }
  destruct b as [|b0 [|b1 b]].
  - discriminate H0'.
  - unfold bucket_at in H0'. cbn in H0'. now subst.
  - exfalso. apply Hlast; [discriminate|].
    rewrite last_lookup. cbn [length pred].
    specialize (Hi (length b)). unfold bucket_at in Hi.
    destruct ((b0 :: b1 :: b) !! S (length b)) as [x|] eqn:Ex; [cbn in Hi; now subst|].
    apply lookup_ge_None_1 in Ex. simpl in Ex. lia.
Qed.

End SplitCommand.

(** X9. The grouping loses and repeats no cue: the buckets, one after
    the other, hold the cues of the input, each once; and the last bucket
    is never empty. *)
Theorem split_keeps_every_cue (base_ms chunk_ms : Z) (cues : list Cue)
    (buckets : list (list Cue)) :
  group_cues base_ms chunk_ms cues = Ok buckets ->
  Permutation cues (concat buckets) /\ last buckets <> Some [].
Proof.
  intros H. apply group_cues_perm in H as [HP HL]. split.
  - now rewrite HP.
  - now apply HL.
Qed.

Lemma split_keeps_every_cue_witness :
  Permutation four_cues
    (concat [[mkCue 0 1000 [py "a"] (py "00:00:00.000 --> 00:00:01.000");
              mkCue 599999 600000 [py "b"] (py "00:09:59.999 --> 00:10:00.000")];
             [mkCue 600000 601000 [py "c"] (py "00:10:00.000 --> 00:10:01.000");
              mkCue 1199999 1200000 [py "d"] (py "00:19:59.999 --> 00:20:00.000")]]) /\
  last [[mkCue 0 1000 [py "a"] (py "00:00:00.000 --> 00:00:01.000");
         mkCue 599999 600000 [py "b"] (py "00:09:59.999 --> 00:10:00.000")];
        [mkCue 600000 601000 [py "c"] (py "00:10:00.000 --> 00:10:01.000");
         mkCue 1199999 1200000 [py "d"] (py "00:19:59.999 --> 00:20:00.000")]]
  <> Some [].
Proof. apply (split_keeps_every_cue 0 600000 four_cues). vm_compute. reflexivity. Defined.

(** X10. With a chunk duration D > 0, and start times that are not
    negative when the base is zero, every cue of the bucket at index i
    starts within the chunk the bucket is written for: its start minus the
    start base + i * D of the chunk, which is what a rebased part shows,
    is at least 0 and less than D. *)
Theorem rebased_start_in_chunk (start_at_zero : bool) (chunk_ms : Z) (cues : list Cue)
    (base_ms : Z) (buckets : list (list Cue)) :
  (0 < chunk_ms)%Z ->
  (start_at_zero = true -> Forall (fun c => (0 <= start_ms c)%Z) cues) ->
  base_of start_at_zero chunk_ms cues = Ok base_ms ->
  group_cues base_ms chunk_ms cues = Ok buckets ->
  forall i bucket c, buckets !! i = Some bucket -> In c bucket ->
    (0 <= start_ms c - chunk_start_of base_ms chunk_ms i < chunk_ms)%Z /\
    hd [] (cue_lines true (chunk_start_of base_ms chunk_ms i) c)
    = ms_to_vtt (start_ms c - chunk_start_of base_ms chunk_ms i) ++ py " --> "
      ++ ms_to_vtt (end_ms c - chunk_start_of base_ms chunk_ms i) ++ [LF].
Proof.
  intros HD Hz Hb Hg i bucket c Hi Hc. split; [|reflexivity].
  destruct (In_bucket base_ms chunk_ms cues buckets ltac:(lia) Hg i bucket c Hi Hc)
    as [Hin <-].
  apply bucket_of_nonneg; [exact HD|].
  pose proof (base_of_le start_at_zero chunk_ms cues base_ms HD Hz Hb) as Hle.
  rewrite Forall_forall in Hle. now apply Hle, list_elem_of_In.
Qed.

Lemma rebased_start_in_chunk_witness :
  (0 <= 1199999 - chunk_start_of 0 600000 1 < 600000)%Z /\
  hd [] (cue_lines true (chunk_start_of 0 600000 1)
           (mkCue 1199999 1200000 [py "d"] (py "00:19:59.999 --> 00:20:00.000")))
  = ms_to_vtt (1199999 - chunk_start_of 0 600000 1) ++ py " --> "
    ++ ms_to_vtt (1200000 - chunk_start_of 0 600000 1) ++ [LF].
Proof.
  apply (rebased_start_in_chunk true 600000 four_cues 0
           [[mkCue 0 1000 [py "a"] (py "00:00:00.000 --> 00:00:01.000");
             mkCue 599999 600000 [py "b"] (py "00:09:59.999 --> 00:10:00.000")];
            [mkCue 600000 601000 [py "c"] (py "00:10:00.000 --> 00:10:01.000");
             mkCue 1199999 1200000 [py "d"] (py "00:19:59.999 --> 00:20:00.000")]]
           ltac:(lia)
           ltac:(intros _; unfold four_cues; repeat constructor; discriminate)
           ltac:(reflexivity) ltac:(vm_compute; reflexivity)
           1 [mkCue 600000 601000 [py "c"] (py "00:10:00.000 --> 00:10:01.000");
              mkCue 1199999 1200000 [py "d"] (py "00:19:59.999 --> 00:20:00.000")]
           (mkCue 1199999 1200000 [py "d"] (py "00:19:59.999 --> 00:20:00.000"))
           ltac:(reflexivity) ltac:(right; left; reflexivity)).
Defined.

(** X11. When [cmd_split] fails and when it writes. An error of the cue
    parser is the error of the command; a document without a cue gives
    ValueError, whatever the other arguments; a document with a cue and
    a duration of zero minutes gives ZeroDivisionError; in every other case
    the command returns and writes at least one part. *)
Theorem cmd_split_outcome (stem content : str) (minutes : Z)
    (rebase start_at_zero : bool) :
  match cues_of content with
  | Raise e => cmd_split stem content minutes rebase start_at_zero = Raise e
  | Ok [] => cmd_split stem content minutes rebase start_at_zero = Raise ValueError
  | Ok (_ :: _) =>
      if (minutes =? 0)%Z
      then cmd_split stem content minutes rebase start_at_zero = Raise ZeroDivisionError
      else exists part parts,
             cmd_split stem content minutes rebase start_at_zero = Ok (part :: parts)
  end.
Proof.
  rewrite cmd_split_eq. destruct (cues_of content) as [[|c cues]|e]; [reflexivity| |reflexivity].
  cbn [bind]. destruct (minutes =? 0)%Z eqn:E0.
  - apply Z.eqb_eq in E0. subst minutes. change (0 * 60000)%Z with 0%Z.
    unfold base_of. destruct start_at_zero; [|reflexivity]. reflexivity.
  - apply Z.eqb_neq in E0.
    assert (HD : (minutes * 60000)%Z <> 0%Z) by lia.
    set (chunk_ms := (minutes * 60000)%Z) in *.
    assert (Hbase : exists base_ms, base_of start_at_zero chunk_ms (c :: cues) = Ok base_ms).
    { unfold base_of, floordiv. destruct start_at_zero; [now eexists|].
      apply Z.eqb_neq in HD. rewrite HD. now eexists. }
    destruct Hbase as [base_ms ->]. cbn [bind].
    destruct (group_cues_spec base_ms chunk_ms (c :: cues) HD) as (buckets & -> & Hf).
    cbn [bind]. rewrite write_parts_spec. cbn [app].
    set (i := bucket_of base_ms chunk_ms (start_ms c)).
    assert (Hc : In c (bucket_at i buckets)).
    { rewrite Hf. apply filter_In. split; [now left | apply Nat.eqb_refl]. }
    unfold bucket_at in Hc. destruct (buckets !! i) as [bucket|] eqn:Eb; [|contradiction].
    cbn in Hc. destruct bucket as [|x bucket]; [contradiction|].
    assert (Hl : enumerate 1 buckets !! i = Some (S i, x :: bucket))
      by (rewrite enumerate_lookup, Eb; reflexivity).
    apply list_elem_of_split_length in Hl as (l1 & l2 & -> & _).
    rewrite flat_map_app. cbn [flat_map].
    destruct (flat_map _ l1) as [|p ps]; cbn [app]; eexists _, _; reflexivity.
Qed.

(** X12. A negative number of minutes is not refused: when the base is
    aligned to the first cue, or no start time is negative, every cue has
    the index 0 and the command writes one part, whose number is 1. *)
Theorem split_negative_minutes (stem content : str) (minutes : Z)
    (rebase start_at_zero : bool) (c : Cue) (cues : list Cue) :
  (minutes < 0)%Z -> cues_of content = Ok (c :: cues) ->
  (start_at_zero = true -> Forall (fun c => (0 <= start_ms c)%Z) (c :: cues)) ->
  exists text,
    cmd_split stem content minutes rebase start_at_zero = Ok [(part_name stem 1, text)].
Proof.
  intros Hm Hc Hz. rewrite cmd_split_eq, Hc. cbn [bind].
  assert (HD : (minutes * 60000 < 0)%Z) by lia.
  destruct (base_of_negative start_at_zero _ (c :: cues) HD Hz) as (base_ms & -> & Hlt).
  cbn [bind]. rewrite (one_bucket base_ms (minutes * 60000) c cues); [|lia|].
  - cbn [bind enumerate fold_left write_part]. eexists. reflexivity.
  - eapply Forall_impl; [exact Hlt|]. intros x Hx. cbn beta in Hx.
    now apply bucket_of_negative.
Qed.

Lemma split_negative_minutes_witness :
  exists text,
    cmd_split (py "in") doc_four_cues (-10) false false = Ok [(part_name (py "in") 1, text)].
Proof.
  apply (split_negative_minutes (py "in") doc_four_cues (-10) false false
           (mkCue 0 1000 [py "a"] (py "00:00:00.000 --> 00:00:01.000"))
           [mkCue 599999 600000 [py "b"] (py "00:09:59.999 --> 00:10:00.000");
            mkCue 600000 601000 [py "c"] (py "00:10:00.000 --> 00:10:01.000");
            mkCue 1199999 1200000 [py "d"] (py "00:19:59.999 --> 00:20:00.000")]).
  - lia.
  - vm_compute. reflexivity.
  - discriminate.
Defined.

(* ================================================================== *)
(** * The decoder on timestamps with colons *)
(* ================================================================== *)

Section Decoder.

Lemma replace_char_app (old : N) (new x y : str) :
  replace_char old new (x ++ y) = replace_char old new x ++ replace_char old new y.
Proof. unfold replace_char. apply flat_map_app. Qed.

Lemma replace_comma_map (s : str) :
  replace_char 44 (py ".") s = List.map (fun c => if (c =? 44)%N then 46%N else c) s.
Proof.
  unfold replace_char. induction s as [|c s IH]; simpl; [reflexivity|].
  rewrite IH. now destruct (c =? 44)%N.
Qed.

Lemma drop_while_map (p : N -> bool) (f : N -> N) (s : str) :
  (forall c, p (f c) = p c) ->
  drop_while p (List.map f s) = List.map f (drop_while p s).
Proof.
  intros H. induction s as [|c s IH]; simpl; [reflexivity|].
  rewrite H. destruct (p c); [exact IH | reflexivity].
Qed.

Lemma strip_map (f : N -> N) (s : str) :
  (forall c, is_space (f c) = is_space c) ->
  strip (List.map f s) = List.map f (strip s).
Proof.
  intros H. unfold strip, lstrip, rstrip.
  rewrite drop_while_map by exact H.
  rewrite <- map_rev, drop_while_map by exact H. now rewrite map_rev.
Qed.

Lemma comma_dot_space (c : N) :
  is_space (if (c =? 44)%N then 46%N else c) = is_space c.
Proof. destruct (c =? 44)%N eqn:E; [apply N.eqb_eq in E; now subst | reflexivity]. Qed.

Lemma strip_pad (w1 ts w2 : str) :
  Forall (fun c => is_space c = true) w1 -> Forall (fun c => is_space c = true) w2 ->
  strip (w1 ++ ts ++ w2) = strip ts.
Proof.
  intros H1 H2. unfold strip, lstrip.
  rewrite drop_while_app_all by exact H1. rewrite drop_while_app.
  destruct (drop_while is_space ts) as [|z zs] eqn:E.
  - rewrite drop_while_all by exact H2. reflexivity.
  - apply rstrip_app_nil. now apply rstrip_all_space.
Qed.

Lemma normal_text_idem (ts : str) : normal_text (normal_text ts) = normal_text ts.
Proof.
  unfold normal_text. rewrite !replace_comma_map.
  rewrite strip_map by apply comma_dot_space.
  unfold strip at 1. unfold lstrip.
  assert (Hs : forall x, strip (strip x) = strip x).
  { intros x. unfold strip, lstrip.
    pose proof (drop_while_not_head is_space x) as Hh.
    destruct (drop_while is_space x) as [|c t] eqn:E; [reflexivity|].
    destruct (rstrip_spec (c :: t)) as (w & Ew & _ & _).
    destruct (rstrip (c :: t)) as [|c' t'] eqn:Er; [reflexivity|].
    rewrite Ew in E. injection Ew as <- _.
    rewrite drop_while_head by exact Hh. rewrite <- Er. apply rstrip_idem. }
  fold (lstrip (strip ts)). fold (strip (strip ts)). rewrite Hs.
  rewrite map_map. apply map_ext. intros c.
  destruct (c =? 44)%N eqn:E; [reflexivity | now rewrite E].
Qed.

Lemma parse_normal_text (ts : str) :
  parse_ts_to_ms (normal_text ts) = parse_ts_to_ms ts.
Proof.
  unfold parse_ts_to_ms. fold (normal_text (normal_text ts)). fold (normal_text ts).
  now rewrite normal_text_idem.
Qed.

(** The decoder depends on its argument through [normal_text] only. *)
Lemma parse_by_normal_text (a b : str) :
  normal_text a = normal_text b -> parse_ts_to_ms a = parse_ts_to_ms b.
Proof.
  intros H. unfold parse_ts_to_ms. fold (normal_text a). fold (normal_text b).
  now rewrite H.
Qed.

Lemma split_on_length (sep : N) (s : str) :
  length (split_on sep s) = S (length (List.filter (N.eqb sep) s)).
Proof.
  induction s as [|c s IH]; [reflexivity|]. cbn [split_on List.filter].
  rewrite (N.eqb_sym sep c). destruct (c =? sep)%N.
  - cbn [length]. now rewrite IH.
  - destruct (split_on sep s); [discriminate | exact IH].
Qed.

Lemma split_on_concat (sep : N) (s : str) :
  concat (split_on sep s) = List.filter (fun c => negb (c =? sep)%N) s.
Proof.
  induction s as [|c s IH]; [reflexivity|]. cbn [split_on List.filter].
  destruct (c =? sep)%N; cbn [negb concat app]; [exact IH|].
  destruct (split_on sep s) as [|w ws]; cbn [concat app] in *; now rewrite <- IH.
Qed.

Lemma sub_non_digit_filter (s : str) : forall i,
  sub_from NON_DIGIT_RE [] 0 i s = List.filter is_decimal s.
Proof.
  induction s as [|c s IH]; intros i; [reflexivity|].
  cbn [sub_from List.filter]. unfold NON_DIGIT_RE at 1. cbn [rmatch].
  unfold not_decimal, accept. destruct (is_decimal c); cbn [negb].
  - now rewrite IH.
  - assert (E : (i <? S i) = true) by (apply Nat.ltb_lt; lia). rewrite E.
    replace (S i - i - 1) with 0 by lia. cbn [app]. apply IH.
Qed.

Lemma filter_filter_weaker (p q : N -> bool) (s : str) :
  (forall c, p c = true -> q c = true) ->
  List.filter p (List.filter q s) = List.filter p s.
Proof.
  intros H. induction s as [|c s IH]; [reflexivity|]. cbn [List.filter].
  destruct (q c) eqn:Eq; cbn [List.filter].
  - now rewrite IH.
  - destruct (p c) eqn:Ep; [apply H in Ep; congruence | exact IH].
Qed.

Lemma filter_decimal_comma (s : str) :
  List.filter is_decimal (replace_char 44 (py ".") s) = List.filter is_decimal s.
Proof.
  rewrite replace_comma_map. induction s as [|c s IH]; [reflexivity|].
  cbn [List.map List.filter]. rewrite IH.
  destruct (c =? 44)%N eqn:E; [|reflexivity].
  apply N.eqb_eq in E. subst c. reflexivity.
Qed.

Lemma filter_decimal_rstrip (s : str) :
  List.filter is_decimal (rstrip s) = List.filter is_decimal s.
Proof.
  destruct (rstrip_spec s) as (w & E & Hw & _).
  rewrite E at 2. rewrite List.filter_app.
  assert (Hn : List.filter is_decimal w = []).
  { clear E. induction Hw as [|c w Hc _ IH]; [reflexivity|]. cbn [List.filter].
    destruct (is_decimal c) eqn:Ed; [|exact IH].
    apply is_decimal_not_space in Ed. congruence. }
  now rewrite Hn, app_nil_r.
Qed.

Lemma Forall_rstrip (P : N -> Prop) (s : str) : Forall P s -> Forall P (rstrip s).
Proof.
  intros H. destruct (rstrip_spec s) as (w & E & _ & _).
  rewrite E in H. now apply Forall_app in H as [H _].
Qed.

Lemma filter_is_decimal (s : str) :
  Forall (fun c => is_decimal c = true) (List.filter is_decimal s).
Proof.
  apply Forall_forall. intros c Hc. apply list_elem_of_In, filter_In in Hc. tauto.
Qed.

Lemma int_digits_decimal : forall ds acc b,
  Forall (fun c => is_decimal c = true) ds -> ds <> [] \/ b = true ->
  int_digits acc b ds
  = Some (fold_left (fun acc c => (acc * 10 + Z.of_N (default 0%N (decimal_value c)))%Z)
                    ds acc).
Proof.
  induction ds as [|d ds IH]; intros acc b Hds Hb.
  - destruct Hb as [Hb | ->]; [contradiction | reflexivity].
  - apply Forall_cons in Hds as [Hd Hds]. cbn [int_digits fold_left].
    unfold is_decimal in Hd. destruct (decimal_value d) as [v|]; [|discriminate].
    cbn [default]. apply IH; [assumption | now right].
Qed.

Lemma int_of_str_decimal (ds : str) :
  Forall (fun c => is_decimal c = true) ds -> ds <> [] ->
  int_of_str ds = Ok (digits_value ds).
Proof.
  intros Hds Hne. unfold int_of_str.
  rewrite strip_no_space
    by (eapply Forall_impl; [exact Hds | apply is_decimal_not_space]).
  destruct ds as [|d ds]; [contradiction|].
  pose proof Hds as Hds'. apply Forall_cons in Hds' as [Hd _].
  assert (E1 : (d =? 45)%N = false).
  { apply N.eqb_neq. intros ->. discriminate. }
  assert (E2 : (d =? 43)%N = false).
  { apply N.eqb_neq. intros ->. discriminate. }
  rewrite E1, E2. rewrite int_digits_decimal; [reflexivity | assumption | now left].
Qed.

Lemma digits_value_ascii (ds : str) :
  Forall (fun c => ascii_digit c = true) ds -> digits_value ds = fold_left dstep ds 0%Z.
Proof.
  unfold digits_value. generalize 0%Z.
  induction ds as [|d ds IH]; intros acc H; [reflexivity|].
  apply Forall_cons in H as [Hd H]. cbn [fold_left].
  rewrite decimal_value_ascii by exact Hd. now apply IH.
Qed.

(** The milliseconds of the digits after the full stop. *)
Lemma fraction_digits (d : str) :
  Forall (fun c => is_decimal c = true) d ->
  int_of_str (take 3 (ljust 3 48 (if is_empty d then py "0" else d)))
  = Ok (digits_value (take 3 (d ++ py "000"))).
Proof.
  intros Hd.
  assert (E : take 3 (ljust 3 48 (if is_empty d then py "0" else d))
              = take 3 (d ++ py "000")).
  { destruct d as [|a [|b [|c d]]]; reflexivity. }
  rewrite E. apply int_of_str_decimal.
  - apply Forall_take, Forall_app. split; [exact Hd | now repeat constructor].
  - now destruct d as [|a [|b [|c d]]].
Qed.

Lemma ascii_digits_no_space (s : str) :
  Forall (fun c => ascii_digit c = true) s -> Forall (fun c => is_space c = false) s.
Proof. intros H. eapply Forall_impl; [exact H | apply ascii_digit_not_space]. Qed.

Lemma ascii_digits_no_comma (s : str) :
  Forall (fun c => ascii_digit c = true) s -> Forall (fun c => (c =? 44)%N = false) s.
Proof. now apply ascii_digits_neq. Qed.

(** The last field of a colon timestamp: the seconds and what follows
    them. [tail] is empty or starts with a full stop. *)
Lemma parse_colon_rest (hh mm ss : str) (tail : str) (H M : Z) :
  int_of_str hh = Ok H -> int_of_str mm = Ok M ->
  Forall (fun c => ascii_digit c = true) ss ->
  Forall (fun c => (c =? 58)%N = false) tail ->
  (tail = [] \/ exists fr, tail = 46%N :: fr) ->
  (let rest := ss ++ tail in
   let rest_parts := split_on 46 rest in
   let ss := if is_empty (hd [] rest_parts) then py "0" else hd [] rest_parts in
   let ms_digits :=
     if 1 <? length rest_parts then join [] (tl rest_parts) else py "0" in
   let ms_digits := re_sub NON_DIGIT_RE [] ms_digits in
   let ms_digits := if is_empty ms_digits then py "0" else ms_digits in
   do mmm <- int_of_str (take 3 (ljust 3 48 ms_digits));
   do h <- int_of_str hh;
   do m <- int_of_str mm;
   do sec <- int_of_str ss;
   Ok ((h * 3600 + m * 60 + sec) * 1000 + mmm)%Z)
  = Ok ((H * 3600 + M * 60 + fold_left dstep ss 0) * 1000
        + match tail with [] => 0 | _ :: fr => fraction_ms fr end)%Z.
Proof.
  intros Hh Hm Hss Htail Hshape. cbv zeta.
  assert (Hsec : int_of_str (if is_empty ss then py "0" else ss)
                 = Ok (fold_left dstep ss 0%Z)).
  { destruct ss as [|s0 ss']; [reflexivity|]. cbn [is_empty].
    now apply int_of_str_ascii. }
  destruct Hshape as [-> | (fr & ->)].
  - rewrite app_nil_r. rewrite split_on_none by (now apply ascii_digits_neq).
    cbn [hd tl length Nat.ltb Nat.leb]. rewrite Hsec, Hh, Hm. reflexivity.
  - rewrite split_on_app by (now apply ascii_digits_neq).
    cbn [hd tl]. rewrite Hsec, Hh, Hm.
    assert (Hl : (1 <? length (ss :: split_on 46 fr)) = true).
    { apply Nat.ltb_lt. cbn [length]. rewrite split_on_length. lia. }
    rewrite Hl. rewrite join_nil_concat, split_on_concat.
    unfold re_sub. rewrite sub_non_digit_filter.
    rewrite filter_filter_weaker.
    2:{ intros c Hc. apply negb_true_iff, N.eqb_neq. intros ->. discriminate. }
    rewrite fraction_digits by apply filter_is_decimal.
    cbn [bind]. reflexivity.
Qed.

Lemma strip_head (A B : str) :
  A <> [] -> Forall (fun c => is_space c = false) A -> strip (A ++ B) = A ++ rstrip B.
Proof.
  intros Hne HA. unfold strip, lstrip.
  destruct A as [|a A]; [contradiction|]. pose proof HA as HA'.
  apply Forall_cons in HA' as [Ha _]. cbn [app]. rewrite drop_while_head by exact Ha.
  change (a :: A ++ B) with ((a :: A) ++ B). rewrite rstrip_app.
  destruct (rstrip B); [|reflexivity].
  rewrite app_nil_r. now apply rstrip_no_space.
Qed.

Lemma fraction_ms_normal (fr : str) :
  fraction_ms (replace_char 44 (py ".") (rstrip fr)) = fraction_ms fr.
Proof. unfold fraction_ms. now rewrite filter_decimal_comma, filter_decimal_rstrip. Qed.

(** A colon timestamp with two or three fields of ASCII digits. [head]
    is empty or the hours and their colon. *)
Lemma parse_colon (hours : option str) (mm ss tail : str) :
  match hours with Some hh => hh <> [] /\ Forall (fun c => ascii_digit c = true) hh
                 | None => True end ->
  mm <> [] -> Forall (fun c => ascii_digit c = true) mm ->
  Forall (fun c => ascii_digit c = true) ss ->
  Forall (fun c => (c =? 58)%N = false) tail ->
  (tail = [] \/ exists fr, tail = 46%N :: fr) ->
  parse_ts_to_ms
    (match hours with Some hh => hh ++ [58%N] | None => [] end ++ mm ++ [58%N] ++ ss ++ tail)
  = Ok ((match hours with Some hh => digits_value hh | None => 0 end * 3600
         + digits_value mm * 60 + digits_value ss) * 1000
        + match tail with [] => 0 | _ :: fr => fraction_ms fr end)%Z.
Proof.
  intros Hh Hmne Hm Hs Htail Hshape.
  set (head := match hours with Some hh => hh ++ [58%N] | None => [] end).
  assert (Hhead : Forall (fun c => canon_char c = true) head).
  { unfold head. destruct hours as [hh|]; [|constructor]. destruct Hh as [_ Hh].
    apply Forall_app. split; [|now repeat constructor].
    eapply Forall_impl; [exact Hh | apply ascii_digit_canon]. }
  set (P := head ++ mm ++ [58%N] ++ ss).
  assert (HP : Forall (fun c => canon_char c = true) P).
  { unfold P. repeat (apply Forall_app; split);
      try (eapply Forall_impl; [eassumption | apply ascii_digit_canon]);
      [exact Hhead | now repeat constructor]. }
  assert (HPne : P <> []).
  { unfold P. destruct head; [|discriminate]. now destruct mm. }
  set (tail' := replace_char 44 (py ".") (rstrip tail)).
  assert (Hnorm : normal_text (head ++ mm ++ [58%N] ++ ss ++ tail) = P ++ tail').
  { unfold normal_text.
    replace (head ++ mm ++ [58%N] ++ ss ++ tail) with (P ++ tail)
      by (unfold P; now rewrite <- !app_assoc).
    rewrite strip_head; [| exact HPne
                         | eapply Forall_impl; [exact HP | apply canon_not_space]].
    rewrite replace_char_app. f_equal. apply replace_char_none.
    eapply Forall_impl; [exact HP | apply canon_not_comma]. }
  assert (Htail' : Forall (fun c => (c =? 58)%N = false) tail').
  { unfold tail'. rewrite replace_comma_map. apply Forall_map.
    apply Forall_rstrip. eapply Forall_impl; [exact Htail|].
    intros c Hc. cbn. destruct (c =? 44)%N; [reflexivity | exact Hc]. }
  assert (Hshape' : (tail' = [] /\ tail = []) \/
                    exists fr, tail' = 46%N :: replace_char 44 (py ".") (rstrip fr)
                               /\ tail = 46%N :: fr).
  { unfold tail'. destruct Hshape as [-> | (fr & ->)]; [now left|]. right. exists fr.
    split; [|reflexivity].
    change (46%N :: fr) with ([46%N] ++ fr). rewrite rstrip_app.
    destruct (rstrip fr) eqn:E; reflexivity. }
  unfold parse_ts_to_ms. fold (normal_text (head ++ mm ++ [58%N] ++ ss ++ tail)).
  rewrite Hnorm.
  assert (He : is_empty (P ++ tail') = false) by (destruct P; [contradiction | reflexivity]).
  rewrite He.
  assert (Hfm : re_fullmatch SECONDS_RE (P ++ tail') = None).
  { unfold P, head. destruct hours as [hh|].
    - destruct Hh as [_ Hh]. rewrite <- !app_assoc. cbn [app].
      now apply seconds_no_colon.
    - cbn [app]. rewrite <- !app_assoc. cbn [app]. now apply seconds_no_colon. }
  rewrite Hfm. rewrite bool_decide_eq_false_2 by (intros [x Hx]; discriminate).
  assert (Hrest : split_on 58 (ss ++ tail') = [ss ++ tail']).
  { apply split_on_none, Forall_app. split; [now apply ascii_digits_neq | exact Htail']. }
  assert (Hint : forall ds, ds <> [] -> Forall (fun c => ascii_digit c = true) ds ->
                         int_of_str ds = Ok (digits_value ds)).
  { intros ds Hne Hds. rewrite digits_value_ascii by exact Hds.
    now apply int_of_str_ascii. }
  assert (Hfr : match tail' with [] => 0%Z | _ :: fr => fraction_ms fr end
                = match tail with [] => 0%Z | _ :: fr => fraction_ms fr end).
  { destruct Hshape' as [[-> ->] | (fr & -> & ->)]; [reflexivity|].
    apply fraction_ms_normal. }
  assert (Hshape'' : tail' = [] \/ exists fr, tail' = 46%N :: fr).
  { destruct Hshape' as [[-> _] | (fr & -> & _)]; [now left | right; now eexists]. }
  rewrite <- Hfr.
  unfold P, head. destruct hours as [hh|].
  - destruct Hh as [Hhne Hh]. rewrite <- !app_assoc. cbn [app].
    rewrite split_on_app by (now apply ascii_digits_neq).
    rewrite split_on_app by (now apply ascii_digits_neq).
    rewrite Hrest. cbn [bind].
    rewrite (digits_value_ascii ss) by exact Hs.
    apply parse_colon_rest; auto.
  - cbn [app]. rewrite <- !app_assoc. cbn [app].
    rewrite split_on_app by (now apply ascii_digits_neq).
    rewrite Hrest. cbn [bind].
    rewrite (digits_value_ascii ss) by exact Hs.
    apply (parse_colon_rest (py "0") mm ss tail' 0%Z); auto.
Qed.

End Decoder.

(** X13. The value of a colon timestamp whose fields are ASCII digits,
    with two or three fields, with or without a fraction. The hours,
    minutes and seconds are added up with no check of their ranges; of
    what follows the first full stop only the decimal digits count, the
    first three of them, with zeros for the missing ones: the fraction
    is cut, never rounded, and further full stops are dropped. *)
Theorem colon_timestamp_value (hh mm ss fr : str) :
  hh <> [] -> mm <> [] ->
  Forall (fun c => ascii_digit c = true) hh ->
  Forall (fun c => ascii_digit c = true) mm ->
  Forall (fun c => ascii_digit c = true) ss ->
  Forall (fun c => (c =? 58)%N = false) fr ->
  parse_ts_to_ms (hh ++ py ":" ++ mm ++ py ":" ++ ss ++ py "." ++ fr)
  = Ok ((digits_value hh * 3600 + digits_value mm * 60 + digits_value ss) * 1000
        + fraction_ms fr)%Z /\
  parse_ts_to_ms (mm ++ py ":" ++ ss ++ py "." ++ fr)
  = Ok ((digits_value mm * 60 + digits_value ss) * 1000 + fraction_ms fr)%Z /\
  parse_ts_to_ms (hh ++ py ":" ++ mm ++ py ":" ++ ss)
  = Ok ((digits_value hh * 3600 + digits_value mm * 60 + digits_value ss) * 1000)%Z /\
  parse_ts_to_ms (mm ++ py ":" ++ ss)
  = Ok ((digits_value mm * 60 + digits_value ss) * 1000)%Z.
Proof.
  intros Hhne Hmne Hh Hm Hs Hfr.
  assert (Hdot : Forall (fun c => (c =? 58)%N = false) (46%N :: fr)) by now constructor.
  repeat split.
  - pose proof (parse_colon (Some hh) mm ss (46%N :: fr) (conj Hhne Hh) Hmne Hm Hs
                  Hdot ltac:(right; now exists fr)) as E.
    cbv beta iota in E. rewrite <- !app_assoc in E. exact E.
  - pose proof (parse_colon None mm ss (46%N :: fr) I Hmne Hm Hs
                  Hdot ltac:(right; now exists fr)) as E.
    cbv beta iota in E. rewrite Z.mul_0_l, Z.add_0_l in E. exact E.
  - pose proof (parse_colon (Some hh) mm ss [] (conj Hhne Hh) Hmne Hm Hs
                  ltac:(constructor) ltac:(now left)) as E.
    cbv beta iota in E. rewrite app_nil_r, Z.add_0_r, <- !app_assoc in E. exact E.
  - pose proof (parse_colon None mm ss [] I Hmne Hm Hs
                  ltac:(constructor) ltac:(now left)) as E.
    cbv beta iota in E. rewrite app_nil_r, Z.add_0_r, Z.mul_0_l, Z.add_0_l in E. exact E.
Qed.

Lemma colon_timestamp_value_witness :
  parse_ts_to_ms (py "1" ++ py ":" ++ py "55" ++ py ":" ++ py "56" ++ py "." ++ py "03.800")
  = Ok ((digits_value (py "1") * 3600 + digits_value (py "55") * 60
         + digits_value (py "56")) * 1000 + fraction_ms (py "03.800"))%Z /\
  parse_ts_to_ms (py "55" ++ py ":" ++ py "56" ++ py "." ++ py "03.800")
  = Ok ((digits_value (py "55") * 60 + digits_value (py "56")) * 1000
        + fraction_ms (py "03.800"))%Z /\
  parse_ts_to_ms (py "1" ++ py ":" ++ py "55" ++ py ":" ++ py "56")
  = Ok ((digits_value (py "1") * 3600 + digits_value (py "55") * 60
         + digits_value (py "56")) * 1000)%Z /\
  parse_ts_to_ms (py "55" ++ py ":" ++ py "56")
  = Ok ((digits_value (py "55") * 60 + digits_value (py "56")) * 1000)%Z.
Proof.
  apply (colon_timestamp_value (py "1") (py "55") (py "56") (py "03.800"));
    first [discriminate | (repeat constructor)].
Defined.

(** X14. The decoder does not see the white space around a timestamp,
    and takes a comma for a full stop. *)
Theorem decoder_normalizes (w1 ts w2 : str) :
  Forall (fun c => is_space c = true) w1 -> Forall (fun c => is_space c = true) w2 ->
  parse_ts_to_ms (w1 ++ ts ++ w2) = parse_ts_to_ms ts /\
  parse_ts_to_ms (replace_char 44 (py ".") ts) = parse_ts_to_ms ts.
Proof.
  intros H1 H2. split; apply parse_by_normal_text; unfold normal_text.
  - now rewrite strip_pad.
  - rewrite !replace_comma_map. rewrite strip_map by apply comma_dot_space.
    rewrite map_map. apply map_ext. intros c.
    destruct (c =? 44)%N eqn:E; [reflexivity | now rewrite E].
Qed.

Lemma decoder_normalizes_witness :
  parse_ts_to_ms (py "  " ++ py "1:02,5" ++ [9%N; LF]) = parse_ts_to_ms (py "1:02,5") /\
  parse_ts_to_ms (replace_char 44 (py ".") (py "1:02,5")) = parse_ts_to_ms (py "1:02,5").
Proof.
  apply (decoder_normalizes (py "  ") (py "1:02,5") [9%N; LF]);
    repeat constructor.
Defined.

(** X15. The structure the decoder asks for. A text that is empty, or
    that is no run of digits with at most one fraction and holds no colon,
    or more than two colons, is refused with ValueError. *)
Theorem decoder_refuses_structure (ts : str) :
  re_fullmatch SECONDS_RE (normal_text ts) = None ->
  colons (normal_text ts) <> 1 -> colons (normal_text ts) <> 2 ->
  parse_ts_to_ms ts = Raise ValueError.
Proof.
  intros Hs H1 H2. unfold parse_ts_to_ms. fold (normal_text ts).
  destruct (is_empty (normal_text ts)); [reflexivity|].
  rewrite Hs. rewrite bool_decide_eq_false_2 by (intros [x Hx]; discriminate).
  pose proof (split_on_length 58 (normal_text ts)) as Hl. fold (colons (normal_text ts)) in Hl.
  destruct (split_on 58 (normal_text ts)) as [|a [|b [|c [|d l]]]]; try reflexivity;
    simpl in Hl; lia.
Qed.

Lemma decoder_refuses_structure_witness :
  parse_ts_to_ms (py "1:02:03:04") = Raise ValueError.
Proof.
  apply (decoder_refuses_structure (py "1:02:03:04")).
  - vm_compute. reflexivity.
  - vm_compute. lia.
  - vm_compute. lia.
Defined.

(* ================================================================== *)
(** * The part number of the name of a part *)
(* ================================================================== *)

(** A character that is given and is not lowered to the letter asked
    for. *)
Ltac lower_char_clash :=
  match goal with
  | H : lower_char (N.pos ?p) = _ |- _ =>
      tryif is_var p then fail
      else (exfalso; vm_compute in H; discriminate H)
  end.

Section PartNumber.

Lemma rmatch_bol i s c (k : mcont) :
  rmatch RBol i s c k = if i =? 0 then k i s c else None.
Proof. reflexivity. Qed.

Lemma rmatch_eps i s c (k : mcont) : rmatch REps i s c k = k i s c.
Proof. reflexivity. Qed.

Lemma rmatch_lit_i (l : str) : forall (w rest : str) (k : mcont) i c,
  List.map lower_char w = List.map lower_char l ->
  rmatch (RLitI l) i (w ++ rest) c k = k (i + length l) rest c.
Proof.
  induction l as [|x l IH]; intros w rest k i c Hw.
  - destruct w; [|discriminate]. simpl. now rewrite Nat.add_0_r.
  - destruct w as [|y w]; [discriminate|]. cbn [List.map] in Hw.
    injection Hw as Hy Hw. cbn [RLitI app]. rewrite rmatch_seq, rmatch_char_cons.
    rewrite Hy, N.eqb_refl. rewrite (IH w rest k (S i) c Hw). f_equal. simpl. lia.
Qed.

Lemma rsem_lit_i (l : str) : forall i s c i' s' c',
  rsem (RLitI l) (i, s, c) (i', s', c') ->
  exists w, s = w ++ s' /\ List.map lower_char w = List.map lower_char l /\ c' = c.
Proof.
  induction l as [|x l IH]; intros i s c i' s' c' H; simpl in H.
  - inversion H; subst. now exists [].
  - apply rsem_seq_inv in H as ([[i1 s1] c1] & H1 & H2).
    inversion H1; subst.
    match goal with E : (_ =? _)%N = true |- _ => apply N.eqb_eq in E; rename E into Ex end.
    apply IH in H2 as (w & -> & Hw & ->).
    match goal with |- context [?y :: w ++ s'] => exists (y :: w) end.
    repeat split. cbn [List.map]. f_equal; [exact Ex | exact Hw].
Qed.

Lemma mentions_part_window (a : str) w1 w2 w3 w4 (b : str) :
  List.map lower_char [w1; w2; w3; w4] = py "part" ->
  mentions_part (a ++ w1 :: w2 :: w3 :: w4 :: b) = true.
Proof.
  intros Hw. induction a as [|x a IH].
  - cbn [app mentions_part]. apply orb_true_iff. left.
    change (py "part") with [112; 97; 114; 116]%N in *.
    cbn [List.map] in *. injection Hw as -> -> -> ->. simpl.
    now destruct (List.map lower_char b).
  - cbn [app mentions_part]. rewrite IH. apply orb_true_r.
Qed.

Lemma mentions_part_tail (x : N) (s : str) :
  mentions_part (x :: s) = false -> mentions_part s = false.
Proof. cbn [mentions_part]. now intros [_ H]%orb_false_iff. Qed.

(** The only place the word can be matched at in a stem that does not
    hold it, followed by the suffix of a part: the suffix. *)
Lemma part_window (S D pre : str) w1 w2 w3 w4 (s3 : str) :
  mentions_part S = false ->
  List.map lower_char [w1; w2; w3; w4] = py "part" ->
  length pre <= 2 ->
  S ++ py "_part" ++ D = pre ++ w1 :: w2 :: w3 :: w4 :: s3 ->
  s3 = D.
Proof.
  intros Hm Hw Hp E.
  pose proof Hw as Hw'.
  change (py "part") with [112; 97; 114; 116]%N in Hw'.
  change (py "_part") with [95; 112; 97; 114; 116]%N in E.
  cbn [List.map] in Hw'. injection Hw' as H1 H2 H3 H4.
  destruct pre as [|p0 [|p1 [|p2 pre]]]; [| | |simpl in Hp; lia];
    destruct S as [|s0 [|s1 [|s2 [|s3' [|s4 [|s5 S]]]]]];
    cbn [app] in E; inversion E; subst; clear E;
    try reflexivity;
    try lower_char_clash;
    exfalso;
    first
      [ epose proof (mentions_part_window [] _ _ _ _ _ Hw) as Hc;
        cbn [app] in Hc; rewrite Hc in Hm; discriminate Hm
      | epose proof (mentions_part_window [_] _ _ _ _ _ Hw) as Hc;
        cbn [app] in Hc; rewrite Hc in Hm; discriminate Hm
      | epose proof (mentions_part_window [_; _] _ _ _ _ _ Hw) as Hc;
        cbn [app] in Hc; rewrite Hc in Hm; discriminate Hm ].
Qed.

(** The group of the number on a run of decimal digits that ends the
    subject. *)
Lemma group_digits_match (d : N) (D : str) i c :
  Forall (fun x => is_decimal x = true) (d :: D) ->
  rmatch (RGroup 1 (RPlus true (RChar is_decimal))) i (d :: D) c accept
  = Some (i + S (length D), (1, d :: D) :: c).
Proof.
  intros [Hd HD]%Forall_cons. rewrite rmatch_group.
  match goal with |- rmatch _ _ _ _ ?k = _ => set (kk := k) end.
  rewrite <- (app_nil_r D) at 1.
  apply rmatch_plus_greedy; [exact Hd | exact HD | exact I|].
  subst kk. cbv beta. unfold accept.
  replace (i + S (length D) - i) with (S (length D)) by lia.
  cbn [take]. now rewrite firstn_all.
Qed.

(** The pattern from the word on, on the suffix of a part. *)
Lemma part_suffix_match (d : N) (D : str) i c :
  Forall (fun x => ascii_digit x = true) (d :: D) -> d <> 48%N ->
  rmatch (RSeq (RLitI (py "part"))
         (RSeq (RStar true (RChar is_space))
         (RSeq (RStar true (RChar (N.eqb 48)))
               (RGroup 1 (RPlus true (RChar is_decimal))))))
    i (py "part" ++ d :: D) c accept
  = Some (i + 4 + S (length D), (1, d :: D) :: c).
Proof.
  intros HD Hd.
  assert (Hdec : Forall (fun x => is_decimal x = true) (d :: D))
    by (eapply Forall_impl; [exact HD | apply ascii_digit_decimal]).
  pose proof HD as HD'. apply Forall_cons in HD' as [Hd0 _].
  rewrite rmatch_seq, (rmatch_lit_i (py "part") (py "part")) by reflexivity.
  change (length (py "part")) with 4.
  rewrite rmatch_seq, rmatch_star, star_class_stop
    by (unfold stops; now apply ascii_digit_not_space).
  rewrite rmatch_seq, rmatch_star, star_class_stop
    by (unfold stops; apply N.eqb_neq; congruence).
  now apply group_digits_match.
Qed.

(** The pattern matches at the suffix of a part, wherever it is. *)
Lemma partnum_at_suffix (d : N) (D : str) i :
  Forall (fun x => ascii_digit x = true) (d :: D) -> d <> 48%N ->
  exists j, rmatch PARTNUM_RE i (py "_part" ++ d :: D) [] accept
            = Some (j, [(1, d :: D)]).
Proof.
  intros HD Hd. unfold PARTNUM_RE.
  change (py "_part" ++ d :: D) with (95%N :: py "part" ++ d :: D).
  rewrite rmatch_seq, rmatch_alt, rmatch_bol. unfold ROpt.
  destruct i as [|i]; cbn [Nat.eqb or_else].
  - rewrite rmatch_seq, rmatch_alt, rmatch_char_cons, N.eqb_refl.
    rewrite part_suffix_match by assumption. cbn [or_else]. eauto.
  - rewrite rmatch_char_cons. change (not_letter_i 95) with true. cbv iota.
    rewrite rmatch_seq, rmatch_alt.
    change (py "part" ++ d :: D) with (112%N :: py "art" ++ d :: D) at 1.
    rewrite rmatch_char_cons. change (95 =? 112)%N with false. cbv iota.
    cbn [or_else]. rewrite rmatch_eps.
    change (112%N :: py "art" ++ d :: D) with (py "part" ++ d :: D).
    rewrite part_suffix_match by assumption. eauto.
Qed.

(** Wherever the pattern matches in a stem that does not hold the word,
    followed by the suffix of a part, its group is the number of the
    part. *)
Lemma partnum_match_group (S : str) (d : N) (D : str) i res :
  mentions_part S = false ->
  Forall (fun x => ascii_digit x = true) (d :: D) -> d <> 48%N ->
  rmatch PARTNUM_RE i (S ++ py "_part" ++ d :: D) [] accept = Some res ->
  res.2 = [(1, d :: D)].
Proof.
  intros Hm HD Hd H. unfold PARTNUM_RE in H.
  remember (S ++ py "_part" ++ d :: D) as s0 eqn:Es0.
  rewrite rmatch_seq in H. apply rmatch_sound in H as (i1 & s1 & c1 & HA & H).
  rewrite rmatch_seq in H. apply rmatch_sound in H as (i2 & s2 & c2 & HB & H).
  rewrite rmatch_seq in H. apply rmatch_sound in H as (i3 & s3 & c3 & HL & H).
  rewrite rmatch_seq in H. apply rmatch_sound in H as (i4 & s4 & c4 & HW & H).
  rewrite rmatch_seq in H. apply rmatch_sound in H as (i5 & s5 & c5 & HZ & H).
  assert (EA : exists preA, s0 = preA ++ s1 /\ length preA <= 1 /\ c1 = []).
  { clear Es0.
    inversion HA as [| | |r1 r2 st1 st2 HA'|r1 r2 st1 st2 HA'| | | | | |]; subst;
      inversion HA'; subst.
    - exists []. repeat split. simpl. lia.
    - match goal with |- context [?x :: s1] => exists [x] end.
      repeat split. simpl. lia. }
  destruct EA as (preA & EA & HlA & ->). rewrite Es0 in EA. clear Es0 HA.
  assert (EB : exists preB, s1 = preB ++ s2 /\ length preB <= 1 /\ c2 = []).
  { unfold ROpt in HB.
    inversion HB as [| | |r1 r2 st1 st2 HB'|r1 r2 st1 st2 HB'| | | | | |]; subst;
      inversion HB'; subst.
    - match goal with |- context [?x :: s2] => exists [x] end.
      repeat split. simpl. lia.
    - exists []. repeat split. simpl. lia. }
  destruct EB as (preB & -> & HlB & ->).
  apply rsem_lit_i in HL as (w & -> & Hw & ->).
  apply rsem_star_class in HW as (W & EW & HW & _ & Hc4).
  apply rsem_star_class in HZ as (Z & EZ & HZ & _ & Hc5).
  cbn [fst snd] in EW, EZ, Hc4, Hc5. subst s3 s4 c4 c5.
  assert (Hlen : length w = 4).
  { apply (f_equal (@length N)) in Hw.
    now rewrite !length_map in Hw. }
  destruct w as [|w1 [|w2 [|w3 [|w4 [|w5 w]]]]]; try discriminate Hlen.
  cbn [app] in EA. rewrite (app_assoc preA preB) in EA.
  apply part_window in EA; [|exact Hm|exact Hw|rewrite length_app; lia].
  pose proof HD as HD'. apply Forall_cons in HD' as [Hd0 _].
  destruct W as [|x W].
  - destruct Z as [|x Z].
    + cbn [app] in EA. subst s5.
      rewrite group_digits_match in H
        by (eapply Forall_impl; [exact HD | apply ascii_digit_decimal]).
      unfold accept in H. now inversion H.
    + cbn [app] in EA. injection EA as -> _.
      apply Forall_cons in HZ as [Hx _]. apply N.eqb_eq in Hx. congruence.
  - cbn [app] in EA. injection EA as -> _.
    apply Forall_cons in HW as [Hx _].
    apply ascii_digit_not_space in Hd0. congruence.
Qed.

(** The first match of the pattern in the stem of a part. *)
Lemma partnum_search (d : N) (D : str) :
  Forall (fun x => ascii_digit x = true) (d :: D) -> d <> 48%N ->
  forall (S : str) i, mentions_part S = false ->
  exists j, search_from PARTNUM_RE i (S ++ py "_part" ++ d :: D)
            = Some (j, [(1, d :: D)]).
Proof.
  intros HD Hd. induction S as [|x S IH]; intros i Hm.
  - destruct (partnum_at_suffix d D i HD Hd) as [j E]. exists j.
    cbn [app]. change (py "_part" ++ d :: D) with (95%N :: py "part" ++ d :: D) in *.
    cbn [search_from]. now rewrite E.
  - cbn [app search_from].
    destruct (rmatch PARTNUM_RE i (x :: S ++ py "_part" ++ d :: D) [] accept)
      as [[j c]|] eqn:E.
    + apply (partnum_match_group (x :: S)) in E; [|assumption..].
      cbn [snd] in E. subst c. now exists j.
    + apply IH. now apply mentions_part_tail in Hm.
Qed.

Lemma rfind_dot_none (s : str) : forall i,
  Forall (fun c => (c =? 46)%N = false) s -> rfind_dot i s = None.
Proof.
  induction s as [|c s IH]; intros i H; [reflexivity|].
  apply Forall_cons in H as [Hc Hs]. cbn [rfind_dot]. now rewrite IH, Hc.
Qed.

Lemma rfind_dot_last (a b : str) :
  Forall (fun c => (c =? 46)%N = false) b ->
  forall i, rfind_dot i (a ++ 46%N :: b) = Some (i + length a).
Proof.
  intros Hb. induction a as [|c a IH]; intros i.
  - cbn [app rfind_dot]. rewrite rfind_dot_none by assumption.
    simpl. now rewrite Nat.add_0_r.
  - cbn [app rfind_dot]. rewrite IH. f_equal. simpl. lia.
Qed.

(** The stem of a name whose last suffix is not empty. *)
Lemma path_stem_suffix (a b : str) :
  a <> [] -> b <> [] -> Forall (fun c => (c =? 46)%N = false) b ->
  path_stem (a ++ 46%N :: b) = a.
Proof.
  intros Ha Hb Hdot. unfold path_stem. rewrite rfind_dot_last by assumption.
  cbn [Nat.add].
  assert (E1 : (0 <? length a) = true)
    by (apply Nat.ltb_lt; destruct a; [contradiction | simpl; lia]).
  assert (E2 : (length a <? length (a ++ 46%N :: b) - 1) = true).
  { apply Nat.ltb_lt. rewrite length_app. destruct b; [contradiction | simpl; lia]. }
  rewrite E1, E2. cbn [andb]. apply take_app_length.
Qed.

(** The first digit of a positive number is not zero. *)
Lemma digits_fuel_head fuel : forall n acc,
  (0 < n < 2 ^ N.of_nat fuel)%N ->
  exists d D, digits_fuel fuel n acc = d :: D /\ d <> 48%N.
Proof.
  induction fuel as [|fuel IH]; intros n acc Hn.
  - simpl in Hn. lia.
  - cbn [digits_fuel]. destruct (n <? 10)%N eqn:E.
    + apply N.ltb_lt in E. exists (48 + n mod 10)%N, acc. split; [reflexivity|].
      rewrite N.mod_small by assumption. lia.
    + apply N.ltb_ge in E. apply IH. split.
      * apply N.div_str_pos. lia.
      * rewrite Nat2N.inj_succ, N.pow_succ_r' in Hn.
        apply N.Div0.div_lt_upper_bound. lia.
Qed.

Lemma digits_of_N_head n :
  (0 < n)%N -> exists d D, digits_of_N n = d :: D /\ d <> 48%N.
Proof.
  intros Hn. unfold digits_of_N. apply digits_fuel_head. split; [exact Hn|].
  rewrite Nat2N.inj_succ, N2Nat.id.
  destruct n as [|p]; [lia|]. apply N.log2_spec. lia.
Qed.

End PartNumber.

(** X16. The number the merger reads off the name of a part is the
    number the splitter gave it: for a stem that does not hold the word
    part, in any case, the part number of the name of part [idx] is
    [idx]. *)
Theorem part_number_of_part_name (stem : str) (idx : nat) :
  mentions_part stem = false -> 1 <= idx ->
  part_number_from_name (part_name stem idx) = Z.of_nat idx.
Proof.
  intros Hm Hidx. unfold part_name, str_of_int.
  assert (E0 : (Z.of_nat idx <? 0)%Z = false) by (apply Z.ltb_ge; lia).
  rewrite E0.
  pose proof (digits_of_N_ascii (Z.to_N (Z.of_nat idx))) as HD.
  pose proof (digits_of_N_value (Z.to_N (Z.of_nat idx))) as HV.
  destruct (digits_of_N_head (Z.to_N (Z.of_nat idx))) as (d & D & E & Hd); [lia|].
  rewrite E in *.
  unfold part_number_from_name.
  change (py ".vtt") with (46%N :: py "vtt").
  replace (stem ++ py "_part" ++ (d :: D) ++ 46%N :: py "vtt")
    with ((stem ++ py "_part" ++ d :: D) ++ 46%N :: py "vtt")
    by (now rewrite <- !app_assoc).
  rewrite path_stem_suffix;
    [ | intros E1; apply (f_equal (@length N)) in E1;
        rewrite !length_app in E1; simpl in E1; lia
      | discriminate
      | now repeat constructor ].
  unfold re_search.
  destruct (partnum_search d D HD Hd stem 0 Hm) as [j Ej]. rewrite Ej.
  cbn [group Nat.eqb]. rewrite int_of_str_ascii by (assumption || discriminate).
  rewrite HV. lia.
Qed.

Lemma part_number_of_part_name_witness :
  part_number_from_name (part_name (py "talk.en") 12) = 12%Z.
Proof.
  apply (part_number_of_part_name (py "talk.en") 12); [reflexivity | lia].
Defined.

(* ================================================================== *)
(** * The compressor: runs, budget and spacing *)
(* ================================================================== *)

Section Runs.

Lemma merge_step_cases (gap_ms max_chars : Z) merged (cur next : ccue) :
  merge_step gap_ms max_chars (merged, cur) next = (merged, spec_fused cur next) \/
  merge_step gap_ms max_chars (merged, cur) next = (merged ++ [flush cur], next).
Proof.
  destruct cur as [[[[cs ce] cst] cet] buf].
  destruct next as [[[[ns ne] nst] net] txt].
  unfold merge_step, spec_fused, flush.
  destruct (_ && _ && _); [now left | now right].
Qed.

Lemma merge_fold_runs (gap_ms max_chars : Z) (rest : list ccue) :
  forall merged runs first more,
  Forall2 written_for runs merged ->
  exists runs' first' more',
    let st := fold_left (merge_step gap_ms max_chars) rest
                (merged, fold_left spec_fused more first) in
    concat runs' ++ first' :: more' = concat runs ++ (first :: more) ++ rest /\
    Forall2 written_for runs' st.1 /\ st.2 = fold_left spec_fused more' first'.
Proof.
  induction rest as [|next rest IH]; intros merged runs first more Hr.
  - exists runs, first, more. cbn [fold_left fst snd]. now rewrite app_nil_r.
  - cbn [fold_left].
    destruct (merge_step_cases gap_ms max_chars merged
                (fold_left spec_fused more first) next) as [E | E]; rewrite E.
    + replace (spec_fused (fold_left spec_fused more first) next)
        with (fold_left spec_fused (more ++ [next]) first)
        by (now rewrite fold_left_app).
      destruct (IH merged runs first (more ++ [next]) Hr)
        as (runs' & first' & more' & Hc & H1 & H2).
      exists runs', first', more'. split; [|now split].
      rewrite Hc. cbn [app]. now rewrite <- app_assoc.
    + destruct (IH (merged ++ [flush (fold_left spec_fused more first)])
                  (runs ++ [first :: more]) next [])
        as (runs' & first' & more' & Hc & H1 & H2).
      { apply Forall2_app; [exact Hr|]. constructor; [|constructor].
        now exists first, more. }
      exists runs', first', more'. split; [|now split].
      rewrite Hc, concat_app. cbn [concat fold_left app].
      now rewrite app_nil_r, <- !app_assoc.
Qed.

End Runs.

Section Budget.

Lemma drop_while_length (p : N -> bool) (s : str) :
  length (drop_while p s) <= length s.
Proof. induction s as [|c s IH]; simpl; [lia|]. destruct (p c); simpl; lia. Qed.

Lemma strip_length (s : str) : length (strip s) <= length s.
Proof.
  unfold strip, rstrip, lstrip. rewrite length_rev.
  etransitivity; [apply drop_while_length|]. rewrite length_rev.
  apply drop_while_length.
Qed.

(** A substitution by at most one character does not make a text
    longer. *)
Lemma sub_from_length (r : regex) (repl : str) :
  length repl <= 1 ->
  forall s skip i, length (sub_from r repl skip i s) <= length s.
Proof.
  intros Hr. induction s as [|x s IH]; intros skip i; [simpl; lia|].
  cbn [sub_from]. destruct skip as [|skip].
  - destruct (rmatch r i (x :: s) [] accept) as [[j c]|].
    + destruct (i <? j).
      * rewrite length_app. specialize (IH (j - i - 1) (S i)). simpl. lia.
      * specialize (IH 0 (S i)). simpl. lia.
    + specialize (IH 0 (S i)). simpl. lia.
  - specialize (IH skip (S i)). simpl. lia.
Qed.

Lemma clean_text_length (s : str) : length (clean_text s) <= length s.
Proof.
  unfold clean_text, re_sub.
  etransitivity; [apply sub_from_length; simpl; lia|].
  etransitivity; [apply sub_from_length; simpl; lia|].
  apply strip_length.
Qed.

Lemma merge_step_budget (gap_ms max_chars : Z) (P : str -> Prop) merged
    (cur next : ccue) :
  (forall t, (len t <= max_chars)%Z -> P t) ->
  Forall (fun m : str * str * str => P m.2) merged -> P (text_of cur) ->
  P (text_of next) ->
  let st := merge_step gap_ms max_chars (merged, cur) next in
  Forall (fun m : str * str * str => P m.2) st.1 /\ P (text_of st.2).
Proof.
  intros HP Hm Hc Hn.
  destruct cur as [[[[cs ce] cst] cet] buf].
  destruct next as [[[[ns ne] nst] net] txt].
  unfold text_of in *. cbn [snd] in *. cbn [merge_step].
  destruct (_ && _ && _) eqn:E; cbn [fst snd].
  - split; [exact Hm|]. apply HP.
    apply andb_true_iff in E as [_ E]. apply Z.leb_le in E.
    pose proof (clean_text_length (buf ++ py " " ++ txt)) as Hl.
    rewrite !length_app in Hl. change (length (py " ")) with 1 in Hl.
    unfold len in *. lia.
  - split; [|exact Hn]. apply Forall_app. split; [exact Hm|].
    constructor; [exact Hc | constructor].
Qed.

Lemma merge_fold_budget (gap_ms max_chars : Z) (P : str -> Prop)
    (rest : list ccue) :
  (forall t, (len t <= max_chars)%Z -> P t) ->
  forall merged cur,
  Forall (fun m : str * str * str => P m.2) merged -> P (text_of cur) ->
  Forall (fun c => P (text_of c)) rest ->
  let st := fold_left (merge_step gap_ms max_chars) rest (merged, cur) in
  Forall (fun m : str * str * str => P m.2) st.1 /\ P (text_of st.2).
Proof.
  intros HP. induction rest as [|next rest IH]; intros merged cur Hm Hc Hr.
  - now split.
  - apply Forall_cons in Hr as [Hn Hr]. cbn [fold_left].
    destruct (merge_step_budget gap_ms max_chars P merged cur next HP Hm Hc Hn)
      as [H1 H2].
    destruct (merge_step gap_ms max_chars (merged, cur) next) as [merged' cur'].
    now apply IH.
Qed.

End Budget.

Section Spacing.

Lemma linebreak_space (c : N) : is_linebreak c = true -> is_space c = true.
Proof.
  intros H. destruct (is_space c) eqn:Es; [reflexivity | exfalso].
  unfold is_linebreak, is_space, in_range in *.
  repeat (apply orb_false_iff in Es as [Es ?]).
  repeat match goal with
  | H : _ || _ = true |- _ => apply orb_true_iff in H as [H | H]
  | H : _ && _ = true |- _ => apply andb_true_iff in H as [? ?]
  | H : _ && _ = false |- _ => apply andb_false_iff in H as [H | H]
  | H : (_ <=? _)%N = true |- _ => apply N.leb_le in H
  | H : (_ <=? _)%N = false |- _ => apply N.leb_gt in H
  | H : (_ =? _)%N = true |- _ => apply N.eqb_eq in H
  | H : (_ =? _)%N = false |- _ => apply N.eqb_neq in H
  end; lia.
Qed.

Lemma sub_from_skip (r : regex) (repl : str) (a b : str) : forall i,
  sub_from r repl (length a) i (a ++ b) = sub_from r repl 0 (i + length a) b.
Proof.
  induction a as [|x a IH]; intros i.
  - simpl. now rewrite Nat.add_0_r.
  - cbn [length app sub_from]. rewrite IH. f_equal. lia.
Qed.

Lemma multi_space_at_space (x : N) (s : str) i :
  is_space x = true ->
  rmatch MULTI_SPACE_RE i (x :: s) [] accept
  = Some (i + S (length (take_while is_space s)), []).
Proof.
  intros Hx. unfold MULTI_SPACE_RE.
  rewrite <- (take_drop_while is_space s) at 1.
  apply rmatch_plus_greedy; [exact Hx | apply take_while_all | | reflexivity].
  apply drop_while_not_head.
Qed.

Lemma multi_space_at_other (x : N) (s : str) i :
  is_space x = false -> rmatch MULTI_SPACE_RE i (x :: s) [] accept = None.
Proof.
  intros Hx. unfold MULTI_SPACE_RE, RPlus.
  now rewrite rmatch_seq, rmatch_char_cons, Hx.
Qed.

(** The substitution of one space for every run of white space. *)
Lemma sub_multi_space_spaced (n : nat) : forall (s : str) i,
  length s <= n ->
  single_spaced (sub_from MULTI_SPACE_RE (py " ") 0 i s) /\
  (stops is_space s -> stops is_space (sub_from MULTI_SPACE_RE (py " ") 0 i s)).
Proof.
  induction n as [|n IH]; intros s i Hn.
  - destruct s; [|simpl in Hn; lia]. now split.
  - destruct s as [|x s]; [now split|]. simpl in Hn. cbn [sub_from].
    destruct (is_space x) eqn:Hx.
    + rewrite multi_space_at_space by assumption.
      assert (E : (i <? i + S (length (take_while is_space s))) = true)
        by (apply Nat.ltb_lt; lia).
      rewrite E.
      replace (i + S (length (take_while is_space s)) - i - 1)
        with (length (take_while is_space s)) by lia.
      rewrite <- (take_drop_while is_space s) at 2.
      rewrite sub_from_skip.
      pose proof (drop_while_length is_space s) as Hl.
      destruct (IH (drop_while is_space s)
                  (S i + length (take_while is_space s))) as [H1 H2]; [lia|].
      split.
      * change (py " " ++ ?t) with (SPACE :: t). cbn [single_spaced].
        split; [|exact H1]. intros _. split; [reflexivity|].
        apply H2, drop_while_not_head.
      * unfold stops. congruence.
    + rewrite multi_space_at_other by assumption.
      destruct (IH s (S i)) as [H1 H2]; [lia|].
      split.
      * cbn [single_spaced]. split; [|exact H1]. congruence.
      * intros _. exact Hx.
Qed.

Lemma single_spaced_no_linebreak (t : str) :
  single_spaced t -> Forall (fun c => is_linebreak c = false) t.
Proof.
  induction t as [|c t IH]; intros H; [constructor|].
  destruct H as [Hc Ht]. constructor; [|now apply IH].
  destruct (is_linebreak c) eqn:E; [|reflexivity].
  destruct (Hc (linebreak_space c E)) as [-> _]. discriminate E.
Qed.

End Spacing.

(** X17. The compressor loses no cue and keeps the order of the sort:
    the cues it writes are written for consecutive runs of the cues
    sorted by (start, end), one cue for each run, in the order of the
    runs; a cue written for a run is the first cue of the run with the
    other cues of the run fused into it one after the other. *)
Theorem compressor_runs (gap_ms max_chars : Z) (cues : list ccue) :
  exists runs,
    concat runs = sort_by cue_key_le cues /\
    Forall2 written_for runs (merge_cues gap_ms max_chars cues).
Proof.
  unfold merge_cues.
  destruct (sort_by cue_key_le cues) as [|first rest]; [now exists []|].
  destruct (merge_fold_runs gap_ms max_chars rest [] [] first [])
    as (runs & first' & more' & Hc & H1 & H2); [constructor|].
  cbn [fold_left] in Hc, H1, H2. cbv zeta in Hc, H1, H2.
  destruct (fold_left _ rest _) as [merged [[[[cs ce] cst] cet] buf]].
  cbn [fst snd] in H1, H2.
  exists (runs ++ [first' :: more']). split.
  - rewrite concat_app. cbn [concat]. rewrite app_nil_r. exact Hc.
  - apply Forall2_app; [exact H1|]. constructor; [|constructor].
    exists first', more'. split; [reflexivity|]. now rewrite <- H2.
Qed.

(** X18. The budget of characters bounds every text a fusion makes: the
    text of a cue the compressor writes is the text of a cue it read, or
    it is not longer than [max_chars]. *)
Theorem fused_text_within_budget (gap_ms max_chars : Z) (cues : list ccue) :
  Forall (fun m : str * str * str =>
            In m.2 (List.map text_of cues) \/ (len m.2 <= max_chars)%Z)
         (merge_cues gap_ms max_chars cues).
Proof.
  unfold merge_cues.
  pose proof (sort_by_perm cue_key_le cues) as HP.
  assert (Hin : Forall (fun c => In (text_of c) (List.map text_of cues))
                  (sort_by cue_key_le cues)).
  { apply Forall_forall. intros c Hc. apply in_map.
    apply list_elem_of_In in Hc.
    eapply Permutation_in; [symmetry; exact HP | exact Hc]. }
  destruct (sort_by cue_key_le cues) as [|first rest]; [constructor|].
  apply Forall_cons in Hin as [Hf Hr].
  destruct (merge_fold_budget gap_ms max_chars
              (fun t => In t (List.map text_of cues) \/ (len t <= max_chars)%Z)
              rest (fun t H => or_intror H) [] first) as [H1 H2].
  - constructor.
  - now left.
  - eapply Forall_impl; [exact Hr|]. intros c Hc. now left.
  - cbv zeta in H1, H2.
    destruct (fold_left _ rest _) as [merged [[[[cs ce] cst] cet] buf]].
    apply Forall_app. split; [exact H1|]. constructor; [exact H2 | constructor].
Qed.

(** X19. In a cleaned text white space is the character U+0020 alone,
    and never two in a row; so a cleaned text holds no line boundary: it
    is one line. *)
Theorem clean_text_single_spaced (s : str) :
  single_spaced (clean_text s) /\
  Forall (fun c => is_linebreak c = false) (clean_text s).
Proof.
  assert (H : single_spaced (clean_text s)).
  { unfold clean_text, re_sub.
    now apply (sub_multi_space_spaced (length (sub_from TAG_RE [] 0 0 (strip s)))). }
  split; [exact H | now apply single_spaced_no_linebreak].
Qed.

(* ================================================================== *)
(** * The texts of the cues and the rebased parts *)
(* ================================================================== *)

Section CueTexts.

Lemma blank_iff (s : str) :
  blank s = true <-> Forall (fun c => is_space c = true) s.
Proof.
  unfold blank, strip, lstrip. split.
  - intros H. destruct (rstrip (drop_while is_space s)) eqn:E; [|discriminate].
    destruct (rstrip_spec (drop_while is_space s)) as (w & Ew & Hw & _).
    rewrite E in Ew. cbn [app] in Ew.
    rewrite <- (take_drop_while is_space s). apply Forall_app. split.
    + apply take_while_all.
    + now rewrite Ew.
  - intros H. now rewrite drop_while_all.
Qed.

Lemma blank_app_space (a w : str) :
  Forall (fun c => is_space c = true) w -> blank (a ++ w) = blank a.
Proof.
  intros Hw. destruct (blank a) eqn:Ea.
  - apply blank_iff. apply blank_iff in Ea. apply Forall_app. now split.
  - destruct (blank (a ++ w)) eqn:E; [|reflexivity].
    apply blank_iff, Forall_app in E as [E _]. apply blank_iff in E. congruence.
Qed.

Lemma rstrip_char_spec (x : N) (s : str) :
  exists w, s = rstrip_char x s ++ w /\ Forall (fun c => c = x) w.
Proof.
  unfold rstrip_char. exists (rev (take_while (N.eqb x) (rev s))). split.
  - rewrite <- rev_app_distr, take_drop_while. now rewrite rev_involutive.
  - apply Forall_rev. eapply Forall_impl; [apply take_while_all|].
    intros c Hc. cbn beta in Hc. apply N.eqb_eq in Hc. now symmetry.
Qed.

Lemma blank_rstrip_LF (s : str) : blank (rstrip_char LF s) = blank s.
Proof.
  destruct (rstrip_char_spec LF s) as (w & E & Hw).
  rewrite E at 2. symmetry. apply blank_app_space.
  eapply Forall_impl; [exact Hw|]. now intros c ->.
Qed.

Lemma rstrip_char_idem (x : N) (s : str) :
  rstrip_char x (rstrip_char x s) = rstrip_char x s.
Proof.
  unfold rstrip_char. rewrite rev_involutive.
  pose proof (drop_while_not_head (N.eqb x) (rev s)) as H.
  destruct (drop_while (N.eqb x) (rev s)) as [|c t]; [reflexivity|].
  now rewrite drop_while_head.
Qed.

Lemma rstrip_char_snoc (x : N) (s : str) :
  rstrip_char x (s ++ [x]) = rstrip_char x s.
Proof.
  unfold rstrip_char. rewrite rev_app_distr. cbn [rev app drop_while].
  now rewrite N.eqb_refl.
Qed.

Lemma rstrip_char_keeps (x : N) (a b : str) :
  b <> [] -> Forall (fun c => (x =? c)%N = false) b ->
  rstrip_char x (a ++ b) = a ++ b.
Proof.
  intros Hb Hx. unfold rstrip_char. rewrite rev_app_distr.
  destruct (rev b) as [|c t] eqn:E.
  - apply (f_equal (@length N)) in E. rewrite length_rev in E.
    destruct b; [contradiction | discriminate].
  - assert (Hc : (x =? c)%N = false).
    { apply Forall_rev in Hx. rewrite E in Hx. now apply Forall_cons in Hx as [Hc _]. }
    cbn [app]. rewrite drop_while_head by assumption.
    change (c :: t ++ rev a) with ((c :: t) ++ rev a).
    now rewrite <- E, <- rev_app_distr, rev_involutive.
Qed.

Lemma In_drop_while_line (p : str -> bool) (x : str) (l : list str) :
  In x (drop_while_line p l) -> In x l.
Proof.
  induction l as [|y l IH]; simpl; [easy|].
  destruct (p y); [intros H; right; now apply IH | easy].
Qed.

Lemma In_take_while_line (p : str -> bool) (x : str) (l : list str) :
  In x (take_while_line p l) -> In x l /\ p x = true.
Proof.
  induction l as [|y l IH]; simpl; [easy|].
  destruct (p y) eqn:E; [|easy].
  intros [<- | H]; [now split; [left|] | ].
  destruct (IH H). split; [now right | assumption].
Qed.

(** The text lines of the cues the parser returns. *)
Lemma iter_cues_loop_texts (fuel : nat) : forall (l : list str) cues,
  iter_cues_loop fuel l = Ok cues ->
  Forall (fun c => Forall (fun t => kept_text t /\
                                    exists line, In line l /\ t = rstrip_char LF line)
                          (text_lines c)) cues.
Proof.
  induction fuel as [|fuel IH]; intros l cues H.
  - simpl in H. inversion H. constructor.
  - destruct l as [|line rest]; [inversion H; constructor|].
    cbn [iter_cues_loop] in H.
    assert (Hrest : forall l' cs, (forall x, In x l' -> In x rest) ->
              iter_cues_loop fuel l' = Ok cs ->
              Forall (fun c => Forall (fun t => kept_text t /\
                        exists line0, In line0 (line :: rest) /\ t = rstrip_char LF line0)
                      (text_lines c)) cs).
    { intros l' cs Hsub Hcs. apply IH in Hcs.
      eapply Forall_impl; [exact Hcs|]. intros c Hc. cbn beta in Hc.
      eapply Forall_impl; [exact Hc|]. intros t [Hk (line0 & Hin & Et)].
      split; [exact Hk|]. exists line0. split; [right; now apply Hsub | exact Et]. }
    destruct (ts_line_match line) as [[[g1 g2] g3]|]; [|now apply (Hrest rest)].
    destruct (first_token (strip g2)) as [end_raw|]; [|discriminate].
    cbn [bind] in H.
    destruct (parse_pair (strip g1) end_raw) as [[s e]|]; [|now apply (Hrest rest)].
    destruct (iter_cues_loop fuel _) as [cs|] eqn:E; [|discriminate].
    cbn [bind] in H. inversion H; subst. constructor.
    + cbn [text_lines]. apply Forall_forall. intros t Ht.
      apply list_elem_of_In, in_map_iff in Ht as (line0 & <- & Hin).
      apply In_take_while_line in Hin as [Hin Hnb]. split.
      * split; [|apply rstrip_char_idem].
        rewrite blank_rstrip_LF. unfold nonblank in Hnb.
        now apply negb_true_iff in Hnb.
      * exists line0. split; [now right | reflexivity].
    + apply (Hrest (drop_while_line blank (drop_while_line nonblank rest)) cs);
        [|exact E].
      intros x Hx. now do 2 apply In_drop_while_line in Hx.
Qed.

End CueTexts.

Section RebasedPart.

Lemma iter_cues_loop_timed (fuel : nat) (line : str) (rest : list str) (s e : Z) :
  line_times line = Some (s, e) ->
  iter_cues_loop (S fuel) (line :: rest) =
  do cues <- iter_cues_loop fuel
               (drop_while_line blank (drop_while_line nonblank rest));
  Ok (mkCue s e (List.map (rstrip_char LF) (take_while_line nonblank rest))
            (rstrip_char LF line) :: cues).
Proof.
  unfold line_times. intros H. cbn [iter_cues_loop].
  destruct (ts_line_match line) as [[[g1 g2] g3]|]; [|discriminate].
  destruct (first_token (strip g2)) as [end_raw|]; [|discriminate].
  cbn [bind]. destruct (parse_pair (strip g1) end_raw) as [[s' e']|]; [|discriminate].
  now inversion H.
Qed.

Lemma blank_LF : blank [LF] = true.
Proof. reflexivity. Qed.

Lemma kept_text_line (t : str) :
  kept_text t -> nonblank (t ++ [LF]) = true /\ rstrip_char LF (t ++ [LF]) = t.
Proof.
  intros [Hb Hr]. split.
  - unfold nonblank. rewrite blank_app_space by (now repeat constructor).
    now rewrite Hb.
  - now rewrite rstrip_char_snoc.
Qed.

Lemma take_text_lines (texts : list str) (more : list str) :
  Forall kept_text texts ->
  take_while_line nonblank (List.map (fun t => t ++ [LF]) texts ++ [LF] :: more)
  = List.map (fun t => t ++ [LF]) texts /\
  drop_while_line nonblank (List.map (fun t => t ++ [LF]) texts ++ [LF] :: more)
  = [LF] :: more.
Proof.
  induction 1 as [|t texts Ht _ [IH1 IH2]].
  - cbn. now split.
  - apply kept_text_line in Ht as [Hn _].
    cbn [List.map app take_while_line drop_while_line]. rewrite Hn, IH1, IH2.
    now split.
Qed.

Lemma map_text_lines (texts : list str) :
  Forall kept_text texts ->
  List.map (rstrip_char LF) (List.map (fun t => t ++ [LF]) texts) = texts.
Proof.
  induction 1 as [|t texts Ht _ IH]; [reflexivity|].
  apply kept_text_line in Ht as [_ Hr]. cbn [List.map]. now rewrite Hr, IH.
Qed.

Lemma canonical_not_blank (s e : Z) (T : str) : blank (canonical_line s e T) = false.
Proof.
  destruct (blank (canonical_line s e T)) eqn:E; [|reflexivity].
  apply blank_iff in E. unfold canonical_line in E.
  apply Forall_app in E as [E _].
  pose proof (ms_to_vtt_nonempty s) as Hne.
  pose proof (canon_no_space _ (ms_to_vtt_canon s)) as Hc.
  destruct (ms_to_vtt s) as [|c t]; [contradiction|].
  apply Forall_cons in E as [E _]. apply Forall_cons in Hc as [Hc _]. congruence.
Qed.

Lemma cue_lines_rebased (chunk_start : Z) (c : Cue) :
  cue_lines true chunk_start c
  = canonical_line (start_ms c - chunk_start) (end_ms c - chunk_start) []
    :: List.map (fun t => t ++ [LF]) (text_lines c) ++ [[LF]].
Proof. reflexivity. Qed.

Lemma drop_blank_cue_lines (chunk_start : Z) (cues : list Cue) :
  drop_while_line blank (flat_map (cue_lines true chunk_start) cues)
  = flat_map (cue_lines true chunk_start) cues.
Proof.
  destruct cues as [|c cues]; [reflexivity|].
  cbn [flat_map]. rewrite cue_lines_rebased. cbn [app drop_while_line].
  now rewrite canonical_not_blank.
Qed.

Lemma canonical_line_text (s e : Z) :
  rstrip_char LF (canonical_line s e [])
  = ms_to_vtt s ++ py " --> " ++ ms_to_vtt e.
Proof.
  unfold canonical_line. cbn [app].
  rewrite !app_assoc, rstrip_char_snoc, <- !app_assoc.
  rewrite (app_assoc (ms_to_vtt s)). apply rstrip_char_keeps.
  - apply ms_to_vtt_nonempty.
  - eapply Forall_impl; [apply ms_to_vtt_canon|]. intros c Hc. cbn beta in Hc.
    apply N.eqb_neq. intros <-. discriminate Hc.
Qed.

(** The cue parser on the lines of a rebased part. *)
Lemma iter_cues_loop_rebased (chunk_start : Z) (cues : list Cue) :
  Forall (fun c => Forall kept_text (text_lines c)) cues ->
  forall fuel, length (flat_map (cue_lines true chunk_start) cues) <= fuel ->
  iter_cues_loop fuel (flat_map (cue_lines true chunk_start) cues)
  = Ok (List.map (rebased chunk_start) cues).
Proof.
  induction 1 as [|c cues Hc _ IH]; intros fuel Hf.
  - now destruct fuel.
  - cbn [flat_map] in *. rewrite cue_lines_rebased in *.
    rewrite <- app_comm_cons in *. rewrite <- app_assoc in *. cbn [app] in *.
    destruct fuel as [|fuel]; [simpl in Hf; lia|].
    rewrite (iter_cues_loop_timed fuel _ _ _ _ (line_times_canonical _ _ [] tail_none)).
    destruct (take_text_lines (text_lines c)
                (flat_map (cue_lines true chunk_start) cues) Hc) as [E1 E2].
    rewrite E1, E2. cbn [drop_while_line]. rewrite blank_LF, drop_blank_cue_lines.
    rewrite IH.
    + cbn [bind List.map]. unfold rebased at 2.
      now rewrite map_text_lines, canonical_line_text.
    + cbn [length] in Hf. rewrite length_app in Hf. cbn [length] in Hf. lia.
Qed.

End RebasedPart.

(** X20. The text lines of the cues the parser returns are lines of the
    body without the line feeds at their end, and none of them is
    blank. *)
Theorem iter_cues_text_lines (body : list str) (cues : list Cue) :
  iter_cues body = Ok cues ->
  Forall (fun c => Forall (fun t => kept_text t /\
                                    exists line, In line body /\ t = rstrip_char LF line)
                          (text_lines c)) cues.
Proof. apply iter_cues_loop_texts. Qed.

Lemma iter_cues_text_lines_witness :
  Forall (fun c => Forall (fun t => kept_text t /\
            exists line, In line [py "00:01.000 --> 00:02.000" ++ [LF];
                                  py "Hello" ++ [LF]; [LF]]
                         /\ t = rstrip_char LF line)
          (text_lines c))
    [mkCue 1000 2000 [py "Hello"] (py "00:01.000 --> 00:02.000")].
Proof.
  apply (iter_cues_text_lines
           [py "00:01.000 --> 00:02.000" ++ [LF]; py "Hello" ++ [LF]; [LF]]).
  vm_compute. reflexivity.
Defined.

(** X21. The lines the splitter writes for the cues of a rebased part
    parse back to these cues: as many cues, in the same order, each with
    the same text lines, its times counted from the start of the chunk
    and its timestamp line rewritten. *)
Theorem rebased_part_parses_back (chunk_start : Z) (bucket : list Cue) :
  Forall (fun c => Forall kept_text (text_lines c)) bucket ->
  iter_cues (flat_map (cue_lines true chunk_start) bucket)
  = Ok (List.map (rebased chunk_start) bucket).
Proof. intros H. unfold iter_cues. now apply iter_cues_loop_rebased. Qed.

Lemma rebased_part_parses_back_witness :
  iter_cues (flat_map (cue_lines true 600000)
               [mkCue 600500 602000 [py "Hello"; py "world"]
                      (py "00:10:00.500 --> 00:10:02.000")])
  = Ok (List.map (rebased 600000)
               [mkCue 600500 602000 [py "Hello"; py "world"]
                      (py "00:10:00.500 --> 00:10:02.000")]).
Proof.
  apply (rebased_part_parses_back 600000
           [mkCue 600500 602000 [py "Hello"; py "world"]
                  (py "00:10:00.500 --> 00:10:02.000")]).
  repeat constructor.
Defined.

(* ================================================================== *)
(** * Lines written and read again *)
(* ================================================================== *)

(** A line that is a text without a line boundary and a line feed. *)
Ltac ends_with_LF text :=
  exists text, LF; split; [reflexivity|];
  split; [now repeat constructor | split; [reflexivity | discriminate]].

Section ReadBack.

Lemma linebreak_CR : is_linebreak CR = true.
Proof. reflexivity. Qed.

Lemma no_linebreak_no_CR (s : str) :
  Forall (fun c => is_linebreak c = false) s -> Forall (fun c => c <> CR) s.
Proof.
  intros H. eapply Forall_impl; [exact H|]. intros c Hc ->.
  rewrite linebreak_CR in Hc. discriminate.
Qed.

Lemma one_line_no_CR (l : str) : one_line l -> Forall (fun c => c <> CR) l.
Proof.
  intros (text & term & -> & _ & Ht & [-> | (c & -> & _ & Hc)]).
  - rewrite app_nil_r. now apply no_linebreak_no_CR.
  - apply Forall_app. split; [now apply no_linebreak_no_CR | now repeat constructor].
Qed.

Lemma lines_as_read_no_CR (lines : list str) :
  lines_as_read lines -> Forall (fun c => c <> CR) (concat lines).
Proof.
  intros H. apply lines_as_read_one_line in H.
  induction H as [|l lines Hl _ IH]; [constructor|].
  cbn [concat]. apply Forall_app. split; [now apply one_line_no_CR | exact IH].
Qed.

Lemma replace_pair_none (o1 o2 : N) (new : str) (s : str) :
  Forall (fun c => c <> o1) s -> replace_pair o1 o2 new s = s.
Proof.
  induction 1 as [|c s Hc Hs IH]; [reflexivity|].
  cbn [replace_pair]. destruct s as [|d s']; [reflexivity|].
  apply N.eqb_neq in Hc. rewrite Hc. cbn [andb]. now rewrite IH.
Qed.

Lemma normalize_newlines_none (s : str) :
  Forall (fun c => c <> CR) s -> normalize_newlines s = s.
Proof.
  intros H. unfold normalize_newlines. rewrite replace_pair_none by assumption.
  apply replace_char_none. eapply Forall_impl; [exact H|].
  intros c Hc. now apply N.eqb_neq.
Qed.

Lemma read_text_none (s : str) : head s <> Some BOM -> read_text s = s.
Proof.
  destruct s as [|c s]; [reflexivity|]. cbn [head read_text]. intros H.
  destruct (c =? BOM)%N eqn:E; [|reflexivity].
  apply N.eqb_eq in E. subst c. now contradiction H.
Qed.

Lemma splitlines_aux_text (text : str) : forall cur s,
  Forall (fun c => is_linebreak c = false) text ->
  splitlines_aux cur (text ++ s) = splitlines_aux (rev text ++ cur) s.
Proof.
  induction text as [|c text IH]; intros cur s H; [reflexivity|].
  apply Forall_cons in H as [Hc H]. cbn [app splitlines_aux]. rewrite Hc.
  rewrite IH by assumption. cbn [rev]. now rewrite <- app_assoc.
Qed.

Lemma splitlines_aux_terminated (l : str) (s : str) :
  terminated l -> splitlines_aux [] (l ++ s) = l :: splitlines_aux [] s.
Proof.
  intros (text & c & -> & Ht & Hc & Hcr). rewrite <- app_assoc.
  rewrite splitlines_aux_text by assumption. rewrite app_nil_r.
  cbn [app splitlines_aux]. rewrite Hc.
  apply N.eqb_neq in Hcr. rewrite Hcr. cbn [andb rev].
  rewrite rev_involutive. now destruct s.
Qed.

Lemma splitlines_aux_last (l : str) :
  one_line l -> splitlines_aux [] l = [l].
Proof.
  intros (text & term & -> & Hne & Ht & [-> | (c & -> & Hc & Hcr)]).
  - rewrite app_nil_r in *. rewrite <- (app_nil_r text) at 1.
    rewrite splitlines_aux_text by assumption. rewrite app_nil_r.
    cbn [splitlines_aux]. destruct (rev text) eqn:E.
    + apply (f_equal (@length N)) in E. rewrite length_rev in E.
      destruct text; [contradiction | discriminate].
    + now rewrite <- E, rev_involutive.
  - rewrite <- (app_nil_r (text ++ [c])) at 1.
    rewrite splitlines_aux_terminated; [reflexivity|]. now exists text, c.
Qed.

(** The lines of a text that was written from lines as they are read. *)
Lemma splitlines_concat (lines : list str) :
  lines_as_read lines -> splitlines_keepends (concat lines) = lines.
Proof.
  unfold splitlines_keepends.
  induction lines as [|l rest IH]; [reflexivity|].
  cbn [lines_as_read concat]. destruct rest as [|l' rest].
  - intros H. cbn [concat]. rewrite app_nil_r. now apply splitlines_aux_last.
  - intros [Hl Hr]. rewrite splitlines_aux_terminated by assumption.
    now rewrite IH.
Qed.

Lemma lines_read_back_eq (lines : list str) :
  lines_as_read lines -> head (write_text_lines lines) <> Some BOM ->
  read_text_lines (write_text_lines lines) = lines.
Proof.
  intros H Hb. unfold read_text_lines.
  rewrite read_text_none by assumption.
  unfold write_text_lines. rewrite join_nil_concat.
  rewrite normalize_newlines_none by (now apply lines_as_read_no_CR).
  now apply splitlines_concat.
Qed.

End ReadBack.

Section TailWithin.

(** What a match consumes is a prefix of what was left. *)
Lemma rsem_consumes (r : regex) (st st' : mstate) :
  rsem r st st' ->
  exists u, st.1.2 = u ++ st'.1.2 /\ st'.1.1 = st.1.1 + length u.
Proof.
  induction 1; cbn [fst snd] in *.
  - exists []. split; [reflexivity | simpl; lia].
  - exists [x]. split; [reflexivity | simpl; lia].
  - destruct IHrsem1 as (u1 & E1 & L1). destruct IHrsem2 as (u2 & E2 & L2).
    exists (u1 ++ u2). rewrite E1, E2, <- app_assoc, length_app.
    split; [reflexivity | lia].
  - exact IHrsem.
  - exact IHrsem.
  - exists []. split; [reflexivity | simpl; lia].
  - destruct IHrsem1 as (u1 & E1 & L1). destruct IHrsem2 as (u2 & E2 & L2).
    exists (u1 ++ u2). rewrite E1, E2, <- app_assoc, length_app.
    split; [reflexivity | lia].
  - exact IHrsem.
  - exists []. split; [reflexivity | simpl; lia].
  - exists []. split; [reflexivity | simpl; lia].
  - exists []. split; [reflexivity | simpl; lia].
Qed.

(** A group of a match is a part of the subject. *)
Lemma rsem_captures (r : regex) (st st' : mstate) :
  rsem r st st' ->
  forall n g, In (n, g) st'.2 ->
    In (n, g) st.2 \/ exists a b, st.1.2 = a ++ g ++ b.
Proof.
  induction 1; intros m grp Hin; cbn [fst snd] in *; try (now left).
  - destruct (IHrsem2 m grp Hin) as [H1 | (a & b & E)].
    + now apply IHrsem1.
    + right. destruct (rsem_consumes _ _ _ H) as (u & Eu & _).
      exists (u ++ a), b. rewrite Eu, E. now rewrite <- app_assoc.
  - now apply IHrsem.
  - now apply IHrsem.
  - destruct (IHrsem2 m grp Hin) as [H1 | (a & b & E)].
    + now apply IHrsem1.
    + right. destruct (rsem_consumes _ _ _ H) as (u & Eu & _).
      exists (u ++ a), b. rewrite Eu, E. now rewrite <- app_assoc.
  - destruct Hin as [Hin | Hin].
    + inversion Hin; subst. right.
      destruct (rsem_consumes _ _ _ H) as (u & Eu & Lu). cbn [fst snd] in Eu, Lu.
      exists [], s'. subst s i'.
      replace (i + length u - i) with (length u) by lia.
      now rewrite take_app_length.
    + now apply IHrsem.
Qed.

Lemma group_In (n : nat) (c : captures) (g : str) :
  group n c = Some g -> In (n, g) c.
Proof.
  induction c as [|[m s] c IH]; [discriminate|]. cbn [group].
  destruct (Nat.eqb m n) eqn:E.
  - apply Nat.eqb_eq in E. intros H. inversion H; subst. now left.
  - intros H. right. now apply IH.
Qed.

(** The third group of a timestamp line is a part of the line. *)
Lemma ts_line_match_within (line g1 g2 g3 : str) :
  ts_line_match line = Some (g1, g2, Some g3) ->
  exists a b, line = a ++ g3 ++ b.
Proof.
  unfold ts_line_match, re_match. intros H.
  destruct (rmatch TS_LINE_RE 0 line [] accept) as [[j c]|] eqn:E; [|discriminate].
  apply rmatch_sound in E as (i' & s' & c' & Hsem & Hacc).
  unfold accept in Hacc. inversion Hacc; subst j c.
  destruct (group 1 c'); [|discriminate]. destruct (group 2 c'); [|discriminate].
  destruct (group 3 c') as [g|] eqn:E3; [|discriminate]. inversion H; subst.
  apply group_In in E3.
  destruct (rsem_captures _ _ _ Hsem 3 g3 E3) as [[] | Hw]. exact Hw.
Qed.

Lemma not_space_not_linebreak (c : N) : is_space c = false -> is_linebreak c = false.
Proof.
  intros H. destruct (is_linebreak c) eqn:E; [|reflexivity].
  apply linebreak_space in E. congruence.
Qed.

(** What is left of a part of a line without the white space at its
    end holds no line boundary. *)
Lemma rstrip_within_line (line a g b : str) :
  one_line line -> line = a ++ g ++ b ->
  Forall (fun c => is_linebreak c = false) (rstrip g).
Proof.
  intros (text & term & E & _ & Ht & Hterm) Eg.
  destruct (rstrip_spec g) as (w & Ew & _ & [E0 | (p & c & Ep & Hc)]).
  - rewrite E0. constructor.
  - rewrite Ep. rewrite Ew, Ep in Eg.
    assert (Hin : exists q, text = (a ++ p ++ [c]) ++ q).
    { destruct Hterm as [-> | (t & -> & Hlb & _)].
      - rewrite app_nil_r in E. exists (w ++ b). rewrite <- E, Eg.
        now rewrite <- !app_assoc.
      - destruct (w ++ b) as [|z q] eqn:Ewb.
        + exfalso. rewrite <- !app_assoc in Eg. rewrite Ewb, app_nil_r in Eg.
          rewrite E in Eg. rewrite !app_assoc in Eg.
          apply app_inj_tail in Eg as [_ Et]. subst t.
          apply linebreak_space in Hlb. congruence.
        + assert (Hne : z :: q <> []) by discriminate.
          destruct (exists_last Hne) as (q' & y & Eq).
          exists q'. rewrite <- !app_assoc in Eg. rewrite Ewb, Eq in Eg.
          rewrite E in Eg.
          replace (a ++ p ++ [c] ++ q' ++ [y])
            with ((a ++ p ++ [c] ++ q') ++ [y]) in Eg
            by (now rewrite <- !app_assoc).
          apply app_inj_tail in Eg as [Eg _]. rewrite Eg.
          now rewrite <- !app_assoc. }
    destruct Hin as [q Eq]. rewrite Eq in Ht.
    apply Forall_app in Ht as [Ht _]. now apply Forall_app in Ht as [_ Ht].
Qed.

End TailWithin.

Section FixedLines.

Lemma canon_not_linebreak (c : N) : canon_char c = true -> is_linebreak c = false.
Proof. intros H. now apply not_space_not_linebreak, canon_not_space. Qed.

Lemma arrow_no_linebreak : Forall (fun c => is_linebreak c = false) (py " --> ").
Proof. now repeat constructor. Qed.

(** A timestamp line the fixer writes for a line as it is read. *)
Lemma canonical_line_terminated (s e : Z) (T : str) :
  Forall (fun c => is_linebreak c = false) T ->
  terminated (canonical_line s e T) /\
  exists c t, canonical_line s e T = c :: t /\ canon_char c = true.
Proof.
  intros HT. split.
  - exists (ms_to_vtt s ++ py " --> " ++ ms_to_vtt e ++ T), LF.
    unfold canonical_line. split; [now rewrite <- !app_assoc|]. split.
    + assert (Hc : forall m, Forall (fun c => is_linebreak c = false) (ms_to_vtt m))
        by (intros m; eapply Forall_impl;
            [apply ms_to_vtt_canon | apply canon_not_linebreak]).
      apply Forall_app; split; [apply Hc|].
      apply Forall_app; split; [apply arrow_no_linebreak|].
      apply Forall_app; split; [apply Hc | exact HT].
    + split; [reflexivity | discriminate].
  - unfold canonical_line. pose proof (ms_to_vtt_nonempty s) as Hne.
    pose proof (ms_to_vtt_canon s) as Hc.
    destruct (ms_to_vtt s) as [|c t]; [contradiction|].
    apply Forall_cons in Hc as [Hc _]. now exists c, (t ++ py " --> " ++ ms_to_vtt e ++ T ++ [LF]).
Qed.

Lemma fix_line_written (idx : nat) (line : str) fl lg :
  one_line line ->
  fix_line ([], []) (idx, line) = Ok (fl, lg) ->
  exists x, fl = [x] /\ written_line line x.
Proof.
  unfold fix_line. intros Hl H.
  destruct (ts_line_match line) as [[[g1 g2] g3]|] eqn:Em.
  2:{ inversion H; subst. exists line. split; [reflexivity | now left]. }
  pose proof Em as Hshape. apply ts_line_match_shape in Hshape as (_ & _ & Hg3).
  destruct (first_token (strip g2)) as [end_raw|x] eqn:Et; [|discriminate].
  cbn [bind] in H.
  destruct (parse_pair (strip g1) end_raw) as [[s e]|x] eqn:Ep.
  2:{ inversion H; subst. exists line. split; [reflexivity | now left]. }
  assert (Hnew : forall a b, rstrip (ms_to_vtt a ++ py " --> " ++ ms_to_vtt b
                                       ++ default [] g3) ++ [LF]
                             = canonical_line a b (rstrip (default [] g3))).
  { intros a b. unfold canonical_line. rewrite (app_assoc (ms_to_vtt a)).
    rewrite rstrip_tail
      by (first [apply ms_to_vtt_nonempty | apply canon_no_space, ms_to_vtt_canon]).
    now rewrite <- !app_assoc. }
  assert (HT : Forall (fun c => is_linebreak c = false) (rstrip (default [] g3))).
  { destruct g3 as [g3|]; [|constructor]. cbn [default].
    apply ts_line_match_within in Em as (a & b & Eab).
    now apply (rstrip_within_line line a g3 b). }
  assert (Hw : forall a b, written_line line (canonical_line a b (rstrip (default [] g3)))).
  { intros a b. right. now apply canonical_line_terminated. }
  destruct (e <? s)%Z.
  - rewrite Hnew in H. inversion H; subst. eexists. split; [reflexivity | apply Hw].
  - rewrite Hnew in H. destruct (negb _) in H; inversion H; subst;
      (eexists; split; [reflexivity | apply Hw]).
Qed.

Lemma fix_loop_written (lines : list str) : forall n fl0 lg0 fl lg,
  Forall one_line lines ->
  for_each fix_line (enumerate n lines) (fl0, lg0) = Ok (fl, lg) ->
  exists xs, fl = fl0 ++ xs /\ Forall2 written_line lines xs.
Proof.
  induction lines as [|line lines IH]; intros n fl0 lg0 fl lg Hl H.
  - simpl in H. inversion H; subst. exists []. rewrite app_nil_r. now split.
  - apply Forall_cons in Hl as [Hl Hls].
    cbn [enumerate] in H. rewrite for_each_cons, fix_line_frame in H.
    destruct (fix_line ([], []) (n, line)) as [[f1 l1]|] eqn:E1; [|discriminate].
    cbn [bind fst snd] in H.
    apply fix_line_written in E1 as (x & -> & Hx); [|exact Hl].
    apply IH in H as (xs & -> & Hxs); [|exact Hls].
    exists (x :: xs). rewrite <- app_assoc. split; [reflexivity | now constructor].
Qed.

Lemma written_lines_as_read (lines xs : list str) :
  Forall2 written_line lines xs -> lines_as_read lines -> lines_as_read xs.
Proof.
  induction 1 as [|line x lines xs Hx Hxs IH]; [easy|].
  cbn [lines_as_read]. destruct Hxs as [|line' x' lines' xs' Hx' Hxs'].
  - intros Hl. destruct Hx as [-> | [Ht _]]; [exact Hl | now apply terminated_one_line].
  - intros [Hl Hr]. split; [|now apply IH].
    destruct Hx as [-> | [Ht _]]; assumption.
Qed.

Lemma written_lines_head (lines xs : list str) :
  Forall2 written_line lines xs -> Forall one_line lines ->
  head (concat lines) <> Some BOM -> head (concat xs) <> Some BOM.
Proof.
  intros [|line x lines' xs' Hx Hxs] Hl Hb; [exact Hb|].
  apply Forall_cons in Hl as [Hl _].
  destruct Hx as [-> | (_ & c & t & -> & Hc)].
  - destruct Hl as (text & term & _ & Hne & _).
    destruct line as [|c t]; [contradiction | exact Hb].
  - cbn [concat app head]. intros E. inversion E; subst c. discriminate Hc.
Qed.

(** The lines the fixer writes for lines as they are read. *)
Lemma fixed_lines_as_read (lines fixed : list str) (log : list log_entry) :
  lines_as_read lines ->
  fix_vtt_timestamps lines = Ok (fixed, log) ->
  Forall2 written_line lines fixed /\ lines_as_read fixed.
Proof.
  unfold fix_vtt_timestamps. intros Hl H.
  apply fix_loop_written in H as (xs & -> & Hxs);
    [|now apply lines_as_read_one_line].
  cbn [app]. split; [exact Hxs | now apply (written_lines_as_read lines)].
Qed.

End FixedLines.

Section CleanSplit.

Lemma normalize_newlines_head (s : str) :
  head s <> Some BOM -> head (normalize_newlines s) <> Some BOM.
Proof.
  destruct s as [|c s]; [easy|]. cbn [head]. intros Hc.
  unfold normalize_newlines. cbn [replace_pair].
  assert (Hh : forall t, head (replace_char CR [LF] (c :: t)) <> Some BOM).
  { intros t. unfold replace_char. cbn [flat_map].
    destruct (c =? CR)%N; cbn [app head]; [discriminate | exact Hc]. }
  destruct s as [|d s']; [apply (Hh [])|].
  destruct ((c =? CR)%N && (d =? LF)%N); [|apply Hh].
  cbn [app]. unfold replace_char. cbn [flat_map app head]. discriminate.
Qed.

(** The file of the fixed lines reads back as the fixed lines. *)
Lemma fixed_file_read_back (content : str) (fixed : list str) (log : list log_entry) :
  head (read_text content) <> Some BOM ->
  fix_vtt_timestamps (read_text_lines content) = Ok (fixed, log) ->
  read_text_lines (write_text_lines fixed) = fixed.
Proof.
  intros Hb H.
  assert (Hr : lines_as_read (read_text_lines content)).
  { unfold read_text_lines, splitlines_keepends.
    apply splitlines_aux_as_read; [apply normalize_newlines_no_CR | constructor]. }
  destruct (fixed_lines_as_read _ _ _ Hr H) as [Hw Hf].
  apply lines_read_back_eq; [exact Hf|].
  unfold write_text_lines. rewrite join_nil_concat.
  apply (written_lines_head (read_text_lines content)); [exact Hw | |].
  - now apply lines_as_read_one_line.
  - unfold read_text_lines, splitlines_keepends.
    rewrite splitlines_aux_concat. cbn [rev app].
    now apply normalize_newlines_head.
Qed.

End CleanSplit.

(** X22. Lines that are written and read again are the same lines: for
    lines as [read_text_lines] returns them, the first of which does not
    start with a byte order mark, reading the file [write_text_lines]
    writes gives the lines back. *)
Theorem lines_read_back (lines : list str) :
  lines_as_read lines -> head (write_text_lines lines) <> Some BOM ->
  read_text_lines (write_text_lines lines) = lines.
Proof. apply lines_read_back_eq. Qed.

Lemma lines_read_back_witness :
  read_text_lines (write_text_lines [py "WEBVTT" ++ [LF]; [LF]; py "Hello"])
  = [py "WEBVTT" ++ [LF]; [LF]; py "Hello"].
Proof.
  apply (lines_read_back [py "WEBVTT" ++ [LF]; [LF]; py "Hello"]).
  - cbn [lines_as_read]. split; [|split].
    + ends_with_LF (py "WEBVTT").
    + ends_with_LF (@nil N).
    + exists (py "Hello"), []. rewrite app_nil_r.
      split; [reflexivity|]. split; [discriminate|].
      split; [now repeat constructor | now left].
  - discriminate.
Defined.

(** X23. The fixer keeps the lines of a file lines of a file: for lines
    as [read_text_lines] returns them, every line it writes is the line
    it read, or a line that starts with a digit and ends with a line
    feed, and the lines it writes are again lines as [read_text_lines]
    returns them. *)
Theorem fixer_keeps_lines_as_read (lines fixed : list str) (log : list log_entry) :
  lines_as_read lines ->
  fix_vtt_timestamps lines = Ok (fixed, log) ->
  Forall2 written_line lines fixed /\ lines_as_read fixed.
Proof. apply fixed_lines_as_read. Qed.

Lemma fixer_keeps_lines_as_read_witness :
  Forall2 written_line lines_to_fix lines_fixed /\ lines_as_read lines_fixed.
Proof.
  apply (fixer_keeps_lines_as_read lines_to_fix lines_fixed
           [(3, SWAP_START_END, DText (py "05:00.000 --> 02:00.000"));
            (6, NORMALIZE, DText (py "46.550 --> 50,5"));
            (7, SKIP_UNPARSEABLE, DExn ValueError)]).
  - unfold lines_to_fix, line_swapped. cbn [lines_as_read].
    split; [ends_with_LF (py "WEBVTT")|].
    split; [ends_with_LF (@nil N)|].
    split; [ends_with_LF (py "05:00.000 --> 02:00.000 align:start")|].
    split; [ends_with_LF (py "Hello")|].
    split; [ends_with_LF (@nil N)|].
    split; [ends_with_LF (py "46.550 --> 50,5")|].
    apply terminated_one_line. ends_with_LF (py "x --> y").
  - vm_compute. reflexivity.
Defined.

(** X24. [cmd_cleansplit] splits what the fixer wrote: when the content
    of the input, after the byte order mark the codec drops, does not
    start with another one, the cue parser of [cmd_split] returns on the
    file of the fixed lines, the cues it finds are those of the fixed
    lines and every one of them has 0 <= start <= end; the parts are
    named after the name of the file of the fixed lines. *)
Theorem cleansplit_cues (name content : str) (minutes : Z)
    (rebase start_at_zero : bool) (fixed_file : file)
    (r : result (list (str * str))) :
  head (read_text content) <> Some BOM ->
  cmd_cleansplit name content minutes rebase start_at_zero = Ok (fixed_file, r) ->
  exists fixed log cues,
    fix_vtt_timestamps (read_text_lines content) = Ok (fixed, log) /\
    fixed_file = (fixed_name name, write_text_lines fixed) /\
    cues_of fixed_file.2 = Ok cues /\
    iter_cues (split_header_and_body fixed).2 = Ok cues /\
    Forall (fun c => (0 <= start_ms c <= end_ms c)%Z) cues /\
    r = cmd_split (path_stem fixed_file.1) fixed_file.2 minutes rebase start_at_zero.
Proof.
  unfold cmd_cleansplit. intros Hb H.
  destruct (fix_vtt_timestamps (read_text_lines content)) as [[fixed log]|] eqn:E;
    [|discriminate].
  cbn [bind fst snd] in H. inversion H; subst; clear H.
  pose proof (fixed_file_read_back content fixed log Hb E) as Hback.
  apply fixed_lines_spec in E as [Hr Ht].
  apply Forall_body in Hr, Ht.
  destruct (iter_cues_loop_times times_fixed
              (length (split_header_and_body fixed).2) _ Hr Ht) as (cues & Ec & Hc).
  exists fixed, log, cues. cbn [fst snd]. unfold cues_of. rewrite Hback.
  repeat split; try exact Ec.
  eapply Forall_impl; [exact Hc|]. intros c (line & Hl & El).
  unfold times_fixed in Hl. now rewrite El in Hl.
Qed.

Lemma cleansplit_cues_witness :
  exists fixed log cues,
    fix_vtt_timestamps (read_text_lines doc_reversed) = Ok (fixed, log) /\
    (py "talk_fixed.vtt",
     write_text_lines [py "WEBVTT" ++ [LF]; [LF];
                       py "00:00:02.000 --> 00:00:05.000" ++ [LF];
                       py "Hello" ++ [LF]])
    = (fixed_name (py "talk.vtt"), write_text_lines fixed) /\
    cues_of (write_text_lines [py "WEBVTT" ++ [LF]; [LF];
                               py "00:00:02.000 --> 00:00:05.000" ++ [LF];
                               py "Hello" ++ [LF]]) = Ok cues /\
    iter_cues (split_header_and_body fixed).2 = Ok cues /\
    Forall (fun c => (0 <= start_ms c <= end_ms c)%Z) cues /\
    cmd_split (py "talk_fixed")
      (write_text_lines [py "WEBVTT" ++ [LF]; [LF];
                         py "00:00:02.000 --> 00:00:05.000" ++ [LF];
                         py "Hello" ++ [LF]]) 10 false true
    = cmd_split (path_stem (py "talk_fixed.vtt"))
        (write_text_lines [py "WEBVTT" ++ [LF]; [LF];
                           py "00:00:02.000 --> 00:00:05.000" ++ [LF];
                           py "Hello" ++ [LF]]) 10 false true.
Proof.
  apply (cleansplit_cues (py "talk.vtt") doc_reversed 10 false true
           (py "talk_fixed.vtt",
            write_text_lines [py "WEBVTT" ++ [LF]; [LF];
                              py "00:00:02.000 --> 00:00:05.000" ++ [LF];
                              py "Hello" ++ [LF]])
           (cmd_split (py "talk_fixed")
              (write_text_lines [py "WEBVTT" ++ [LF]; [LF];
                                 py "00:00:02.000 --> 00:00:05.000" ++ [LF];
                                 py "Hello" ++ [LF]]) 10 false true)).
  - vm_compute. discriminate.
  - vm_compute. reflexivity.
Defined.

(* ================================================================== *)
(** * The command clean *)
(* ================================================================== *)

Section Clean.

Lemma fix_line_ok (idx : nat) (line : str) st :
  readable line -> exists r, fix_line st (idx, line) = Ok r.
Proof.
  destruct st as [fl lg]. unfold readable, fix_line.
  destruct (ts_line_match line) as [[[g1 g2] g3]|]; [|now eexists].
  destruct (first_token (strip g2)) as [end_raw|]; [|discriminate].
  intros _. cbn [bind]. destruct (parse_pair (strip g1) end_raw) as [[s e]|];
    [|now eexists].
  destruct (e <? s)%Z; [now eexists|]. destruct (negb _); now eexists.
Qed.

Lemma fix_loop_ok (lines : list str) : forall n st,
  Forall readable lines -> exists r, for_each fix_line (enumerate n lines) st = Ok r.
Proof.
  induction lines as [|line lines IH]; intros n st Hr; [now eexists|].
  apply Forall_cons in Hr as [Hl Hr]. cbn [enumerate]. rewrite for_each_cons.
  destruct (fix_line_ok n line st Hl) as [r ->]. cbn [bind]. now apply IH.
Qed.

(** The checker returns on the lines every reader can read. *)
Lemma check_ok (lines : list str) :
  Forall readable lines -> exists r, check_and_collect_issues lines = Ok r.
Proof.
  intros Hr. unfold check_and_collect_issues.
  destruct (check_loop lines 1 [] [] Hr) as (i1 & E1 & _). rewrite E1.
  cbn [bind app].
  destruct (timeline_loop (timed_lines 1 lines) i1 None) as (i2 & E2 & _).
  rewrite E2. now eexists.
Qed.

Lemma check_readable (lines : list str) r :
  check_and_collect_issues lines = Ok r -> Forall readable lines.
Proof.
  unfold check_and_collect_issues. intros H.
  destruct (for_each check_line (enumerate 1 lines) ([], [])) as [st|] eqn:E;
    [|discriminate].
  now apply check_loop_readable in E.
Qed.

(** The fixer leaves its own lines as they are. *)
Lemma fix_fixed_lines (lines fixed : list str) (log : list log_entry) :
  fix_vtt_timestamps lines = Ok (fixed, log) ->
  exists log',
    fix_vtt_timestamps fixed = Ok (fixed, log') /\ Forall is_skip log'.
Proof.
  unfold fix_vtt_timestamps. intros H.
  apply fix_loop_twice in H as (xs & -> & _ & _ & Hagain).
  destruct (Hagain [] []) as (log' & Hrun & Hskip). now exists log'.
Qed.

End Clean.

(** X25. The checker and the fixer fail together. Each of them returns
    exactly when every timestamp line has something that is no white
    space after its arrow; on the other documents both fail with
    IndexError. So [cmd_clean] in fix mode never fails after it has
    printed its report. *)
Theorem checker_and_fixer_fail_together (lines : list str) :
  match check_and_collect_issues lines, fix_vtt_timestamps lines with
  | Ok _, Ok _ => Forall readable lines
  | Raise e1, Raise e2 =>
      e1 = IndexError /\ e2 = IndexError /\ ~ Forall readable lines
  | _, _ => False
  end.
Proof.
  destruct (check_and_collect_issues lines) as [r1|e1] eqn:E1;
    destruct (fix_vtt_timestamps lines) as [r2|e2] eqn:E2.
  - now apply check_readable in E1.
  - apply check_readable in E1.
    destruct (fix_loop_ok lines 1 ([], []) E1) as [r Hr].
    unfold fix_vtt_timestamps in E2. congruence.
  - unfold fix_vtt_timestamps in E2. apply fix_loop_readable in E2.
    destruct (check_ok lines E2) as [r Hr]. congruence.
  - split; [now apply check_and_collect_issues_raise in E1|].
    split; [now apply fix_vtt_timestamps_raise in E2|].
    intros Hr. destruct (check_ok lines Hr) as [r Hr']. congruence.
Qed.

(** X26. Cleaning a cleaned file changes nothing. When the content of
    the input, after the byte order mark the codec drops, does not start
    with another one, and [cmd_clean] in fix mode has written a file, a
    second run on that file returns, reports no END_BEFORE_START, writes
    the same content again, and its log has no SWAP_START_END and no
    NORMALIZE entry. *)
Theorem clean_twice (name content : str) (out_file : option str)
    (issues : list issue) (written : file) (log : list log_entry) :
  head (read_text content) <> Some BOM ->
  cmd_clean name content out_file true = Ok (issues, Some (written, log)) ->
  forall name' out_file', exists issues' log',
    cmd_clean name' written.2 out_file' true
    = Ok (issues', Some ((clean_out_name name' out_file', written.2), log')) /\
    Forall (fun i => issue_kind_of i <> END_BEFORE_START) issues' /\
    Forall (fun entry : log_entry =>
              entry.1.2 <> SWAP_START_END /\ entry.1.2 <> NORMALIZE) log'.
Proof.
  unfold cmd_clean. intros Hb H name' out_file'.
  destruct (check_and_collect_issues (read_text_lines content)) as [r|];
    [|discriminate].
  cbn [bind] in H.
  destruct (fix_vtt_timestamps (read_text_lines content)) as [[fixed lg]|] eqn:E;
    [|discriminate].
  cbn [bind fst snd] in H. inversion H; subst; clear H. cbn [snd].
  rewrite (fixed_file_read_back content fixed log Hb E).
  destruct (check_fixed_lines _ _ _ E) as (issues' & cues' & Ec & Hi & _).
  destruct (fix_fixed_lines _ _ _ E) as (log' & Ef & Hskip).
  exists issues', log'. rewrite Ec. cbn [bind fst]. rewrite Ef. cbn [bind fst snd].
  split; [reflexivity|]. split; [exact Hi|].
  eapply Forall_impl; [exact Hskip|]. intros entry He. unfold is_skip in He.
  rewrite He. split; discriminate.
Qed.

Lemma clean_twice_witness :
  exists issues' log',
    cmd_clean (py "talk_fixed.vtt")
      (write_text_lines [py "WEBVTT" ++ [LF]; [LF];
                         py "00:00:02.000 --> 00:00:05.000" ++ [LF];
                         py "Hello" ++ [LF]]) None true
    = Ok (issues',
          Some ((clean_out_name (py "talk_fixed.vtt") None,
                 write_text_lines [py "WEBVTT" ++ [LF]; [LF];
                                   py "00:00:02.000 --> 00:00:05.000" ++ [LF];
                                   py "Hello" ++ [LF]]), log')) /\
    Forall (fun i => issue_kind_of i <> END_BEFORE_START) issues' /\
    Forall (fun entry : log_entry =>
              entry.1.2 <> SWAP_START_END /\ entry.1.2 <> NORMALIZE) log'.
Proof.
  refine (clean_twice (py "talk.vtt") doc_reversed None
            [Issue 3 END_BEFORE_START (DText (py "start=5000 end=2000"))
                   (py "00:00:05.000 --> 00:00:02.000")]
            (py "talk_fixed.vtt",
             write_text_lines [py "WEBVTT" ++ [LF]; [LF];
                               py "00:00:02.000 --> 00:00:05.000" ++ [LF];
                               py "Hello" ++ [LF]])
            [(3, SWAP_START_END, DText (py "00:00:05.000 --> 00:00:02.000"))]
            _ _ (py "talk_fixed.vtt") None).
  - vm_compute. discriminate.
  - vm_compute. reflexivity.
Defined.

(* ================================================================== *)
(** * The merge and the order of the listing *)
(* ================================================================== *)

Section MergeOrder.

(** Two sorted arrangements of the same elements are one, when no two
    distinct elements are each before the other. *)
Lemma sorted_perm_unique {A : Type} (R : A -> A -> Prop) (l1 : list A) :
  forall l2,
  (forall x y, In x l1 -> In y l1 -> R x y -> R y x -> x = y) ->
  StronglySorted R l1 -> StronglySorted R l2 -> Permutation l1 l2 -> l1 = l2.
Proof.
  induction l1 as [|x l1 IH]; intros l2 Hanti H1 H2 HP.
  - now apply Permutation_nil in HP.
  - destruct l2 as [|y l2]; [now apply Permutation_sym, Permutation_nil in HP|].
    apply StronglySorted_inv in H1 as [H1 Hx], H2 as [H2 Hy].
    rewrite Forall_forall in Hx, Hy.
    assert (E : x = y).
    { assert (Hxin : In x (y :: l2))
        by (eapply Permutation_in; [exact HP | now left]).
      assert (Hyin : In y (x :: l1))
        by (eapply Permutation_in; [symmetry; exact HP | now left]).
      destruct Hxin as [->|Hxin]; [reflexivity|].
      destruct Hyin as [->|Hyin]; [reflexivity|].
      apply Hanti; [now left | now right | |].
      - apply Hx. now apply list_elem_of_In.
      - apply Hy. now apply list_elem_of_In. }
    subst y. f_equal. apply Permutation_cons_inv in HP.
    apply IH; try assumption.
    intros a b Ha Hb. apply Hanti; now right.
Qed.

Lemma NoDup_map_inj {A B : Type} (h : A -> B) (l : list A) (a b : A) :
  NoDup (List.map h l) -> In a l -> In b l -> h a = h b -> a = b.
Proof.
  induction l as [|c l IH]; simpl; intros Hnd Ha Hb E; [contradiction|].
  apply NoDup_cons in Hnd as [Hc Hnd].
  assert (Hmem : forall d, In d l -> h c <> h d).
  { intros d Hd Ecd. apply Hc. rewrite Ecd. apply list_elem_of_In.
    now apply in_map. }
  destruct Ha as [->|Ha], Hb as [->|Hb].
  - reflexivity.
  - now destruct (Hmem b Hb).
  - now destruct (Hmem a Ha).
  - now apply IH.
Qed.

(** The order of the merge on two listings of the same files. *)
Lemma files_sorted_perm (files files' : list file) :
  Permutation files files' ->
  NoDup (List.map (fun f : file => lower f.1) files) ->
  files_sorted files = files_sorted files'.
Proof.
  intros HP Hnd. unfold files_sorted. f_equal.
  pose proof (sort_by_perm key_le (List.map enrich files)) as P1.
  pose proof (sort_by_perm key_le (List.map enrich files')) as P2.
  apply (sorted_perm_unique (fun a b => key_le a b = true)).
  - intros x y Hx Hy Hxy Hyx.
    apply (Permutation_in _ (Permutation_sym P1)), in_map_iff in Hx as (f & <- & Hf).
    apply (Permutation_in _ (Permutation_sym P1)), in_map_iff in Hy as (g & <- & Hg).
    f_equal. apply (NoDup_map_inj (fun f : file => lower f.1) files); try assumption.
    unfold key_le in Hxy, Hyx. rewrite key_compare_key3 in Hxy, Hyx.
    rewrite (key3_antisym (enrich f).1 (enrich g).1) in Hyx.
    destruct (key3_compare (enrich f).1 (enrich g).1) eqn:E; try discriminate.
    apply key3_eq in E. unfold enrich in E. simpl in E. now inversion E.
  - apply sort_by_strongly_sorted; [apply key_le_total | apply key_le_trans].
  - apply sort_by_strongly_sorted; [apply key_le_total | apply key_le_trans].
  - rewrite <- P1, <- P2. now apply Permutation_map.
Qed.

End MergeOrder.

(** X27. The merge does not depend on the order in which the directory
    lists the files: when no two files have the same lower-cased name,
    [cmd_merge] gives the same outcome, the same text or the same error,
    on every listing of the same files. *)
Theorem merge_listing_order (files files' : list file) :
  Permutation files files' ->
  NoDup (List.map (fun f : file => lower f.1) files) ->
  cmd_merge files = cmd_merge files'.
Proof.
  intros HP Hnd. unfold cmd_merge.
  destruct files as [|f fs].
  - apply Permutation_nil in HP. now subst.
  - destruct files' as [|f' fs'];
      [now apply Permutation_sym, Permutation_nil in HP|].
    now rewrite (files_sorted_perm _ _ HP Hnd).
Qed.

Lemma merge_listing_order_witness :
  let a := (py "talk_part1.vtt", py "WEBVTT

00:00:01.000 --> 00:00:02.000
Hello
") in
  let b := (py "talk_part2.vtt", py "WEBVTT

00:00:03.000 --> 00:00:04.000
there
") in
  Permutation [b; a] [a; b] /\
  NoDup (List.map (fun f : file => lower f.1) [b; a]) /\
  cmd_merge [b; a] = cmd_merge [a; b].
Proof.
  intros a b.
  assert (HP : Permutation [b; a] [a; b]) by apply perm_swap.
  assert (Hnd : NoDup (List.map (fun f : file => lower f.1) [b; a])).
  { apply (bool_decide_unpack _). vm_compute. reflexivity. }
  split; [exact HP|]. split; [exact Hnd|].
  exact (merge_listing_order [b; a] [a; b] HP Hnd).
Defined.
